(* ===== verification/_CoqProject ===== *)
-Q . S2P
Prelude.v
Bits.v
FatPtr.v
SizeEncode.v
Shared.v
Program.v
Contexts.v
Readers.v
Versions.v
Mm.v
Txn.v
Ssn.v
Ssi.v
Engine.v
Scenario.v
ReadersSpec.v
Snapshot.v
GcSafety.v
XidAlloc.v
Aborting.v
SiCommit.v
CommitTotal.v
SsnSafety.v
Divergences.v
Varint.v
Adler.v
Epoch.v
EpochInv.v
EpochSafety.v
ScHash.v
ScHashSpec.v
Dynarray.v
SparseBitset.v
OidAlloc.v
OidAllocSpec.v
OidAllocFree.v
OidAllocSafe.v
OidManager.v
OidManagerSafe.v
OidLife.v
OidDivergences.v
WindowBuffer.v
Mcs.v
McsSafe.v
Bytes.v
LogBlock.v
TxLog.v
TxLogSpec.v
TxLogSafe.v
TxLogCommit.v
TxLogChain.v
LogNames.v
Threads.v
LogFile.v
LogOffset.v
LogOffsetSafe.v
LogAssign.v
LogLinks.v
LogStart.v
LogDisk.v
LogOps.v
LogRestart.v
LogLife.v
LogRecover.v
LogRecoverSpec.v
LogRecoverEnd.v
LogRecovered.v
LogDivergences.v
LogFileDivergences.v
