(* ===== verification/Prelude.v ===== *)
(** * ERMIA: transactions over multi-version records

    A model of the ERMIA storage engine -- transactions, versions, OIDs,
    epochs, the log and its recovery -- and proofs that it keeps its isolation
    promises and that what is logged can be found again.

    ** The program

    A record is a chain of version objects that hangs off an entry of an OID
    array, newest version first ([object.h], [tuple.h], [dbcore/sm-oid.cpp]).
    A running transaction owns one of 32768 contexts ([dbcore/xid.h]) with its
    begin and end stamp and its state; a version carries the XID of its writer
    until the writer's post-commit replaces it by the commit LSN.  Reads walk
    the chain for the newest version the snapshot may see, updates push a new
    head if nobody was faster.  On top of this, three commit protocols
    ([txn.cc]): plain snapshot isolation, the serial safety net (SSN) and
    serializable snapshot isolation (SSI), the last two with readers bitmaps in
    every tuple ([dbcore/serial.cpp]).  The index maps keys to OIDs, the memory
    manager ([dbcore/sm-alloc.cpp]) hands out objects and cuts old versions off
    the chains; it asks the epoch manager ([dbcore/epoch.cpp]) when nobody can
    hold a pointer any more.

    OIDs are given out by the OID manager ([dbcore/sm-oid.cpp]): a file has an
    array that grows in place ([dbcore/dynarray.cpp]) and an allocator with
    three levels of free lists ([dbcore/sm-oid-alloc-impl.cpp]), and every
    thread caches OIDs in a hash table ([dbcore/sc-hash.h]).

    A transaction stages log records and writes them at commit as one block,
    larger ones as a chain of overflow blocks ([dbcore/sm-tx-log.cpp],
    [dbcore/sm-log-defs.h]).  The position of a block is a range of offsets
    from a counter; [dbcore/sm-log-offset.cpp] finds the segment file that
    range is in or installs a new one.  All other state of the log on disk is
    in file names ([dbcore/sm-log-file.cpp]): segments, the durable mark, the
    checkpoint mark and the file for the next segment.  At start-up the
    directory is read, and recovery ([dbcore/sm-log-recover.cpp]) follows the
    blocks from the durable mark to the end of the log and cuts it there.

    ** How it is modelled

    Machine integers are [Z] with explicit wrap-around ([Prelude]).  The shared
    memory is one record [mem] ([Shared]).  The code is written in a monad [M]
    ([Program]): every access of shared memory is one [atomic] step, and before
    each of them an arbitrary function [interfere] of the [Platform] changes
    the memory -- the other threads.  Failing assertions that stay in release
    builds ([ALWAYS_ASSERT], [THROW_IF], [DIE_IF]) and wild addresses are
    results [Throw e]; [ASSERT] is compiled out and not modelled.  Compile-time
    and run-time switches are the class [Config].  What the engine calls and
    this library does not define -- log, index, OID allocation -- is the class
    [Backend]; [Scenario] has an executable instance of every class, on which
    the examples run.

    The other components have states of their own.  [Threads] is the monad of
    [Program] for any state type; the log offsets run in it, with the other
    threads as the class [Others] and the history of segments as ghost state.
    The epoch manager and the queueing lock are step machines: one shared access
    of one call of one thread per step, so that all interleavings are runs of
    them.  The OID manager
    and the file manager are state passing with errors, their histories
    sequences of whole calls; the locks of the source make them so.  Log blocks
    are bytes in a memory [mem8] ([Bytes]), since checksums and recovery read
    them as bytes; a directory is a finite map from names to contents.  What the
    system decides -- descriptors, whether memory is granted, the order in which
    a directory is read -- is a class or an argument.

    [Program] has four ways to reason about a program, each used where it fits:
    [hoare] is partial correctness for all interference that keeps the
    assertions ([stable]); [guar] says that every step of a program keeps a
    relation; [total] is total correctness under interference; [runs] gives the
    result and final memory of an undisturbed ([Quiet]) thread.

    Loops of the source are [loop fuel body]: [fuel] bounds the number of turns
    and running out is the error [Spinning].  Theorems that promise a result
    carry a bound on the fuel that is enough: the length of the version chain,
    of the write set, or of the bitmap, plus a constant; retry loops have no
    bound of their own in the source, and the theorems about them either prove
    that the undisturbed thread does not retry or are partial.

    ** Files

    - [Prelude], [Bits]: fixed-width integers, sets of bits in a word.
    - [FatPtr]: [fat_ptr], [LSN] and [XID] of [dbcore/sm-common.h].
    - [SizeEncode]: size codes of [dbcore/size-encode.cpp].
    - [Shared], [Program]: memory, accesses, and the program logics.
    - [Contexts]: [dbcore/xid.cpp] and [dbcore/xid.h] -- contexts, stamps,
      [xid_alloc], [xid_free].
    - [Readers]: [dbcore/serial.cpp] -- readers bitmaps and their iterator.
    - [Versions]: [tuple.h], [object.cc] and the record operations of
      [dbcore/sm-oid.cpp] -- [oid_get_version], [oid_put_update],
      [oid_unlink].
    - [Mm]: [dbcore/sm-alloc.cpp] -- pools, allocation, epochs, collector.
    - [Txn]: what the protocols share, and [abort_impl]; [Ssn], [Ssi]: the two
      serializable protocols; [Engine]: begin, end, [si_commit], [commit] and
      the record operations of [base_txn_btree.cc].
    - [Scenario]: concrete instances and memories for witnesses.
    - [Varint], [Adler], [Dynarray], [SparseBitset], [ScHash]: [varint.h],
      [dbcore/adler.cpp], [dbcore/dynarray.cpp], the bitsets of
      [dbcore/sm-oid-alloc-impl.h], [dbcore/sc-hash.h].
    - [WindowBuffer]: [dbcore/window-buffer.cpp], the ring buffer of the log.
    - [Epoch], [Mcs]: [dbcore/epoch.cpp] and [dbcore/mcs_lock.h], every call
      as a thread of a step machine.
    - [OidAlloc], [OidManager]: [dbcore/sm-oid-alloc-impl.cpp] and the files,
      allocators and thread caches of [dbcore/sm-oid.cpp].
    - [Bytes], [LogBlock], [TxLog]: memory as bytes, the layout of records and
      blocks of [dbcore/sm-log-defs.h], and [dbcore/sm-tx-log.cpp]; the space
      for blocks comes from the class [LogSpace].
    - [LogNames], [LogFile], [LogStart]: names of log files with the formats of
      [printf] and [scanf], the file manager and its constructor
      ([dbcore/sm-log-file.cpp]); [Threads], [LogOffset]:
      [dbcore/sm-log-offset.cpp].
    - [LogRecover]: the block scanner of [dbcore/sm-log-recover.cpp] and what
      the constructor of [sm_log_recover_mgr] does up to the truncation.

    ** Theorems

    - Snapshot isolation ([Snapshot], [SiCommit], [CommitTotal]): a read
      returns the newest version its snapshot may see; an update is refused,
      done in place or linked as the first-updater-wins rule says, except that
      a writer that has just committed and not yet stamped its version is
      excluded; a commit publishes every written version at its commit LSN,
      leaves the chains and the reads of older snapshots as they were, and
      always returns.  These are about an undisturbed thread and chains in
      memory whose stamps can be interpreted.
    - Abort ([Aborting]): the heads of all written records are restored and the
      stamps of the overwritten versions taken back, nothing else changes,
      other transactions read what they read before.
    - SSN ([SsnSafety]): whatever the other threads do within [SsnRely], a
      transaction that commits has its exclusion window intact.
    - Garbage collection ([GcSafety]): handling an entry ends, leaves what
      every snapshot not older than the trim LSN reads, and leaves at most one
      old version behind the first committed one.
    - Contexts ([XidAlloc]): over any interleaving of whole calls, no XID is
      handed out twice and no two running transactions share a context; an
      allocation returns.
    - Readers ([ReadersSpec]): registration changes one's own bit only, under
      interference; the iterator visits exactly the registered positions.
    - Words ([FatPtr], [SizeEncode]): packing and unpacking are inverse, LSNs
      compare by offset, the size code is the least one that is large enough,
      and the table encoder agrees with the arithmetic one.
    - Epochs ([EpochInv], [EpochSafety]): in all interleavings, an epoch is
      reclaimed only after every thread has left it, and a thread is always in
      the current epoch or one of the two before it.
    - OIDs ([OidAllocSpec], [OidAllocFree], [OidAllocSafe], [OidManagerSafe],
      [OidLife]): allocator and caches conserve OIDs; over any sequence of
      calls no OID of a file is in use twice, each is free, cached by one
      thread or in use, and calls return.  A thread that exits keeps what it
      has cached, as in the code.  The theorems are for the first two levels of
      free lists, which is what files of up to 2^20 OIDs reach.
    - Containers ([ScHashSpec], [SparseBitset], [Dynarray]): the hash table is
      a finite map and its iterator visits every element once, a sparse bitset
      is a set, and sizes of growable arrays are what was asked for.  The window
      buffer ([WindowBuffer]) is a window of a stream: what is read is what was
      written at the same place.
    - The queueing lock ([McsSafe]): threads are served in the order they came,
      one at a time, and somebody can always go on.
    - Encodings ([Varint], [Adler]): round trips and error cases; the vector
      checksum is Adler-32, and checksums of pieces can be merged.
    - Transaction logs ([TxLogSpec], [TxLogSafe], [TxLogCommit], [TxLogChain]):
      every sequence of inserts, index inserts, updates and deletes with
      embedded payloads followed by a commit leaves a chain of blocks that
      holds exactly the records that were logged.  The committed block and the
      nested blocks of the chain have the right checksum; the blocks around the
      nested ones do not ([LogDivergences]).
    - Positions in the log ([LogOffsetSafe], [LogAssign], [LogLinks]):
      [assign_segment] returns the place of the block under any interference
      that keeps the segment invariant, and each block names its successor.
      The invariant excludes that meanwhile a segment is installed that ends
      exactly [MIN_LOG_BLOCK_SIZE] bytes behind the start of the block, where
      segments can overlap ([LogFileDivergences]).
      Start-overs are bounded by the number of segments that fit before the
      offset, which is the fuel the theorem asks for.
    - Log files ([LogDisk], [LogOps], [LogRestart], [LogLife]): after any history
      of operations and restarts, and between the file-system calls of a mark,
      an opening, a new segment or a reclaim, the directory is accepted by the
      constructor, in any order of reading, and gives the state back.  Between
      the renaming of a segment and the creation of the next file the log is
      accepted but can not go on; stops inside the creation of a log or inside
      a truncation are left out, and the constructor rejects what they leave.
    - Recovery ([LogRecoverSpec], [LogRecoverEnd], [LogRecovered]): the search
      finds the end of the good blocks, with fuel for one turn per block and
      one more; if that end is in an installed segment the log is marked and
      cut there, and no good block is lost; if not, recovery fails.
    - [Divergences], [OidDivergences], [LogDivergences], [LogFileDivergences]:
      executions in which the code departs from its intent.

    ** What is not modelled

    Masstree is third-party code and an interface ([Backend]), and so are, for
    the transaction code, the log and OID allocation: the engine was verified
    against what it needs of them, and their own files show what they do.
    [mm_allocate] of the [Platform] stands for [MM::allocate] in the
    transaction code, and the theorems that need it say that it returns fresh
    addresses; [Mm.allocate] is the definition from the source, whose reuse of
    unlinked objects the epoch manager makes safe.  Range scans are modelled by
    their callbacks.  Memory is sequentially consistent: the orderings of the
    source's atomics are not distinguished.

    Of the log, the hand-out of buffer space and the thread that writes it
    ([dbcore/sm-log-alloc.cpp]) are left out except for the formatting of
    blocks: their correctness is about condition variables and RCU-protected
    lists.  Redo and checkpoints replay records into tables, OID arrays and the
    index at once and are I/O for the most part.  [dbcore/sm-log-segments.cpp]
    is not part of the build.  RCU is an allocator of the C library behind the
    epoch manager.  The record encodings, the front end templates, random
    numbers, configuration and the benchmarks are not used by the engine's
    logic and are left out. *)
From stdpp Require Import base numbers list gmap.
From Stdlib Require Import ZArith Lia.

Local Open Scope Z_scope.

(** * Fixed-width unsigned integers

    An unsigned machine integer of [w] bits is a [Z] in [[0, 2^w)]; every
    operation of the source that can leave the range is followed by [wrap w]. *)

Definition wrap (w x : Z) : Z := x mod 2 ^ w.
Abbreviation u8 := (wrap 8).
Abbreviation u16 := (wrap 16).
Abbreviation u32 := (wrap 32).
Abbreviation u64 := (wrap 64).

(** Signed reinterpretation of a [w]-bit pattern (two's complement). *)
Definition sext (w x : Z) : Z :=
  let y := wrap w x in if y <? 2 ^ (w - 1) then y else y - 2 ^ w.

(** Being a [w]-bit value. *)
Definition fits (w x : Z) : Prop := 0 <= x < 2 ^ w.
#[global] Instance fits_dec w x : Decision (fits w x).
Proof. unfold fits. apply _. Defined.

Lemma wrap_fits w x : 0 <= w -> fits w (wrap w x).
Proof. intros. apply Z.mod_pos_bound, Z.pow_pos_nonneg; lia. Qed.

Lemma wrap_small w x : fits w x -> wrap w x = x.
Proof. intros H. by apply Z.mod_small. Qed.

Lemma wrap_add_l w x y : wrap w (wrap w x + y) = wrap w (x + y).
Proof. apply Zplus_mod_idemp_l. Qed.

Lemma wrap_add_r w x y : wrap w (x + wrap w y) = wrap w (x + y).
Proof. apply Zplus_mod_idemp_r. Qed.

(** Linear arithmetic with quotients and remainders by constants. *)
Ltac zlia := unfold fits, wrap in *; Z.to_euclidean_division_equations; lia.

(** * Bit fields *)

Lemma testbit_above p n i : fits p n -> 0 <= p <= i -> Z.testbit n i = false.
Proof.
  intros Hn Hi. rewrite <- (wrap_small p n Hn).
  by apply Z.mod_pow2_bits_high.
Qed.

Lemma wrap_spec w x i :
  0 <= w -> 0 <= i -> Z.testbit (wrap w x) i = (i <? w) && Z.testbit x i.
Proof.
  intros Hw Hi. unfold wrap. destruct (Z.ltb_spec i w); simpl.
  - apply Z.mod_pow2_bits_low; lia.
  - apply Z.mod_pow2_bits_high; lia.
Qed.

Lemma land_fits w x y : 0 <= w -> fits w x -> fits w (Z.land x y).
Proof.
  intros Hw Hx. replace (Z.land x y) with (wrap w (Z.land x y)); [by apply wrap_fits|].
  apply Z.bits_inj'. intros i Hi. rewrite wrap_spec, Z.land_spec by lia.
  destruct (Z.ltb_spec i w); [done|]. by rewrite (testbit_above w x) by (done || lia).
Qed.

Lemma lor_fits w x y : 0 <= w -> fits w x -> fits w y -> fits w (Z.lor x y).
Proof.
  intros Hw Hx Hy. replace (Z.lor x y) with (wrap w (Z.lor x y)); [by apply wrap_fits|].
  apply Z.bits_inj'. intros i Hi. rewrite wrap_spec, Z.lor_spec by lia.
  destruct (Z.ltb_spec i w); [done|].
  by rewrite (testbit_above w x), (testbit_above w y) by (done || lia).
Qed.

Lemma shiftl_fits a w k :
  0 <= k -> 0 <= w -> fits w a -> fits (w + k) (Z.shiftl a k).
Proof.
  intros Hk Hw [Ha Hb]. unfold fits. rewrite Z.shiftl_mul_pow2 by lia.
  rewrite Z.pow_add_r by lia. pose proof (Z.pow_pos_nonneg 2 k). nia.
Qed.

(** Fields that occupy disjoint bits add up. *)
Lemma lor_disjoint a b : Z.land a b = 0 -> Z.lor a b = a + b.
Proof. intros H. rewrite <- Z.lxor_lor by done. symmetry. by apply Z.add_nocarry_lxor. Qed.

Lemma land_shifted_low n a k : 0 <= k -> fits k a -> Z.land (n * 2 ^ k) a = 0.
Proof.
  intros Hk Ha. rewrite <- Z.shiftl_mul_pow2 by lia.
  apply Z.bits_inj'. intros i Hi. rewrite Z.land_spec, Z.shiftl_spec, Z.bits_0 by lia.
  destruct (Z.ltb_spec i k).
  - by rewrite Z.testbit_neg_r by lia.
  - rewrite (testbit_above k a) by (done || lia). apply andb_false_r.
Qed.

(** A low field [a < 2^k] below a multiple of [2^k]. *)
Lemma lor_low n a k : 0 <= k -> fits k a -> Z.lor (n * 2 ^ k) a = n * 2 ^ k + a.
Proof. intros. by apply lor_disjoint, land_shifted_low. Qed.

Lemma land_mask x k : 0 <= k -> Z.land x (2 ^ k - 1) = x mod 2 ^ k.
Proof. intros. rewrite <- Z.land_ones by lia. by rewrite Z.ones_equiv. Qed.

(** Clearing the low [k] bits. *)
Lemma land_lnot_mask x k : 0 <= k -> Z.land x (Z.lnot (2 ^ k - 1)) = x - x mod 2 ^ k.
Proof.
  intros. rewrite <- land_mask by lia.
  assert (Z.land (Z.land x (Z.lnot (2 ^ k - 1))) (Z.land x (2 ^ k - 1)) = 0) as Hd.
  { apply Z.bits_inj'. intros i Hi. rewrite !Z.land_spec, Z.lnot_spec, Z.bits_0 by lia.
    by destruct (Z.testbit x i), (Z.testbit (2 ^ k - 1) i). }
  apply lor_disjoint in Hd. rewrite <- Z.land_lor_distr_r in Hd.
  replace (Z.lor (Z.lnot (2 ^ k - 1)) (2 ^ k - 1)) with (-1) in Hd.
  - rewrite Z.land_m1_r in Hd. lia.
  - rewrite Z.lor_comm. symmetry. apply Z.lor_lnot_diag.
Qed.

(** * Error results

    [THROW_IF] raises an exception, [ALWAYS_ASSERT]/[DIE_IF] abort the
    process, following a null or dangling pointer is a [bad_address], and a
    loop that is still running when its fuel ends is
    [Spinning]; [ASSERT] is compiled out under [NDEBUG] and is not modelled. *)

Inductive error :=
| illegal_argument
| os_error
| log_file_error
| log_is_full
| assertion_failure
| bad_address
| Spinning.

#[global] Instance error_eq_dec : EqDecision error.
Proof. solve_decision. Defined.

Inductive res (A : Type) :=
| Ok (a : A)
| Throw (e : error).
Arguments Ok {_} _.
Arguments Throw {_} _.

#[global] Instance res_ret : MRet res := fun _ a => Ok a.
#[global] Instance res_bind : MBind res := fun _ _ f m =>
  match m with Ok a => f a | Throw e => Throw e end.

Definition throw_if (c : bool) (e : error) : res unit := if c then Throw e else Ok ().

(** * Finite checks over integer ranges *)

Definition all_range (lo n : Z) (p : Z -> bool) : bool := forallb p (seqZ lo n).

Lemma all_range_spec lo n p x :
  all_range lo n p = true -> lo <= x < lo + n -> p x = true.
Proof.
  unfold all_range. rewrite forallb_forall. intros H Hx. apply H.
  apply list_elem_of_In, elem_of_seqZ. lia.
Qed.

(** Sign extension of a value in range. *)
Lemma sext_small w x : 0 < w -> - 2 ^ (w - 1) <= x < 2 ^ (w - 1) -> sext w x = x.
Proof.
  intros Hw Hx. assert (2 ^ w = 2 * 2 ^ (w - 1)) as E by (rewrite <- Z.pow_succ_r by lia; f_equal; lia).
  unfold sext, wrap. destruct (Z.ltb_spec (x mod 2 ^ w) (2 ^ (w - 1))) as [H|H].
  - destruct (Z.le_gt_cases 0 x); [apply Z.mod_small; lia|].
    rewrite <- (Z.mod_add x 1), Z.mod_small in H by lia. lia.
  - destruct (Z.le_gt_cases 0 x); [rewrite Z.mod_small in H by lia; lia|].
    rewrite <- (Z.mod_add x 1), Z.mod_small by lia. lia.
Qed.

(** * Alignment ([dbcore/sm-defs.h], instantiated at [size_t]) *)

(* src: dbcore/sm-defs.h:139-142 align_down *)
Definition align_down (val amount : Z) : Z := Z.land val (u64 (- amount)).
(* src: dbcore/sm-defs.h:147-150 align_up *)
Definition align_up (val amount : Z) : Z := align_down (u64 (u64 (val + amount) - 1)) amount.
(* src: dbcore/sm-defs.h:152-156 is_aligned *)
Definition is_aligned (val amount : Z) : bool := Z.land val (amount - 1) =? 0.

Lemma align_down_pow2 val k :
  fits 64 val -> 0 <= k < 64 -> align_down val (2 ^ k) = val - val mod 2 ^ k.
Proof.
  intros Hv Hk. rewrite <- land_lnot_mask by lia. unfold align_down.
  apply Z.bits_inj'. intros i Hi. rewrite !Z.land_spec, wrap_spec, Z.lnot_spec by lia.
  assert (Z.lnot (2 ^ k - 1) = - 2 ^ k) as E by (pose proof (Z.add_lnot_diag (2 ^ k - 1)); lia).
  destruct (Z.ltb_spec i 64) as [H|H]; simpl.
  - rewrite <- E, Z.lnot_spec by lia. done.
  - by rewrite (testbit_above 64 val) by (done || lia).
Qed.

Lemma align_up_pow2 val k :
  0 <= val -> 0 <= k < 64 -> val + 2 ^ k <= 2 ^ 64 ->
  align_up val (2 ^ k) = (val + 2 ^ k - 1) / 2 ^ k * 2 ^ k.
Proof.
  intros Hv Hk Hb. pose proof (Z.pow_pos_nonneg 2 k ltac:(lia) ltac:(lia)) as Hp.
  assert (u64 (u64 (val + 2 ^ k) - 1) = val + 2 ^ k - 1) as E.
  { destruct (Z.eq_dec (val + 2 ^ k) (2 ^ 64)) as [->|].
    - reflexivity.
    - rewrite (wrap_small 64 (val + 2 ^ k)) by (unfold fits; lia).
      apply wrap_small. unfold fits. lia. }
  unfold align_up. rewrite E, align_down_pow2 by (unfold fits; lia).
  pose proof (Z.div_mod (val + 2 ^ k - 1) (2 ^ k) ltac:(lia)). lia.
Qed.
