(* ===== verification/Bits.v ===== *)
(** * Sets of bits

    The two idioms with which the source walks over the bits of a word:
    [__builtin_ctzll(x)] and [x & (x - 1)]. *)
From stdpp Require Import base numbers list.
From Stdlib Require Import ZArith Lia.
From S2P Require Import Prelude.

Local Open Scope Z_scope.

(** [__builtin_ctzll] of a non-zero word. *)
Definition ctz (x : Z) : Z := Z.log2 (Z.land x (- x)).

(** The positions of the bits of a word, lowest first. *)
Definition bits_of (x : Z) : list Z := filter (fun i => Z.testbit x i = true) (seqZ 0 64).

Lemma elem_of_bits x i : i ∈ bits_of x <-> Z.testbit x i = true /\ 0 <= i < 64.
Proof. unfold bits_of. rewrite list_elem_of_filter, elem_of_seqZ. intuition lia. Qed.

Lemma bits_of_0 : bits_of 0 = [].
Proof. reflexivity. Qed.

(** Splitting off the lowest set bit. *)
Lemma lowest_bit x : 0 < x -> exists k q, 0 <= k /\ 0 <= q /\ x = q * 2 ^ (k + 1) + 2 ^ k.
Proof.
  destruct x as [|p|p]; [lia| |lia]. intros _. induction p as [p _|p IH|].
  - exists 0, (Z.pos p). split_and!; [lia..|]. change (2 ^ (0 + 1)) with 2. change (2 ^ 0) with 1. lia.
  - destruct IH as (k & q & Hk & Hq & E). exists (k + 1), q. split_and!; [lia..|].
    rewrite (Z.pow_add_r 2 (k + 1) 1), (Z.pow_add_r 2 k 1) in * by lia. lia.
  - exists 0, 0. split_and!; [lia..|reflexivity].
Qed.

Section lowest.
Context (x k q : Z) (Hk : 0 <= k) (Hq : 0 <= q) (Hx : x = q * 2 ^ (k + 1) + 2 ^ k).

Lemma low_testbit i : 0 <= i -> Z.testbit x i = (i =? k) || (k <? i) && Z.testbit q (i - (k + 1)).
Proof.
  intros Hi. assert (fits (k + 1) (2 ^ k)) as Hf by (split; [lia|apply Z.pow_lt_mono_r; lia]).
  rewrite Hx, <- lor_low by (done || lia).
  rewrite Z.lor_spec, Z.mul_pow2_bits, Z.pow2_bits_eqb by lia. rewrite orb_comm, (Z.eqb_sym k).
  f_equal. destruct (Z.ltb_spec k i); [done|]. by rewrite Z.testbit_neg_r by lia.
Qed.

Lemma pred_testbit i :
  0 <= i -> Z.testbit (x - 1) i = (i <? k) || (k <? i) && Z.testbit q (i - (k + 1)).
Proof.
  intros Hi. pose proof (Z.pow_pos_nonneg 2 k ltac:(lia) Hk).
  replace (x - 1) with (q * 2 ^ (k + 1) + Z.ones k) by (rewrite Z.ones_equiv; lia).
  rewrite <- lor_low.
  2:lia. 2:{ rewrite Z.ones_equiv. unfold fits. rewrite Z.pow_add_r by lia. lia. }
  rewrite Z.lor_spec, Z.mul_pow2_bits, Z.testbit_ones_nonneg by lia. rewrite orb_comm. f_equal.
  destruct (Z.ltb_spec k i); [done|]. by rewrite Z.testbit_neg_r by lia.
Qed.

Lemma ctz_low : ctz x = k.
Proof.
  unfold ctz. replace (Z.land x (- x)) with (2 ^ k); [by apply Z.log2_pow2|].
  replace (- x) with (Z.lnot (x - 1)) by (unfold Z.lnot; lia).
  apply Z.bits_inj'. intros i Hi.
  rewrite Z.land_spec, Z.lnot_spec, low_testbit, pred_testbit, Z.pow2_bits_eqb, (Z.eqb_sym k) by lia.
  destruct (Z.eqb_spec i k), (Z.ltb_spec i k), (Z.ltb_spec k i), (Z.testbit q (i - (k + 1)));
    simpl; (done || lia).
Qed.

Lemma clear_low_testbit i :
  0 <= i -> Z.testbit (Z.land x (x - 1)) i = negb (i =? k) && Z.testbit x i.
Proof.
  intros Hi. rewrite Z.land_spec, low_testbit, pred_testbit by lia.
  destruct (Z.eqb_spec i k), (Z.ltb_spec i k), (Z.ltb_spec k i), (Z.testbit q (i - (k + 1)));
    simpl; (done || lia).
Qed.

End lowest.

Lemma seqZ_split lo n k : lo <= k < lo + n -> seqZ lo n = seqZ lo (k - lo) ++ k :: seqZ (k + 1) (lo + n - k - 1).
Proof.
  intros H. replace n with ((k - lo) + (lo + n - k)) at 1 by lia. rewrite seqZ_app by lia. f_equal.
  replace (lo + (k - lo)) with k by lia. rewrite seqZ_cons by lia. by rewrite Z.add_1_r, <- Z.sub_1_r.
Qed.

Lemma filter_none {A} (P : A -> Prop) {DP : forall x, Decision (P x)} (l : list A) :
  (forall x, x ∈ l -> ~ P x) -> filter P l = [].
Proof.
  intros H. induction l as [|x l IH]; [done|]. rewrite filter_cons, decide_False by (apply H; left).
  apply IH. intros y Hy. apply H. by right.
Qed.

Lemma filter_same {A} (P Q : A -> Prop) {DP : forall x, Decision (P x)} {DQ : forall x, Decision (Q x)} (l : list A) :
  (forall x, x ∈ l -> P x <-> Q x) -> filter P l = filter Q l.
Proof.
  intros H. induction l as [|x l IH]; [done|]. rewrite !filter_cons.
  rewrite IH by (intros y Hy; apply H; by right).
  pose proof (H x ltac:(left)). by destruct (decide (P x)), (decide (Q x)); try tauto.
Qed.

(** Every non-zero word is its lowest bit followed by the rest. *)
Lemma bits_of_cons x :
  0 < x < 2 ^ 64 ->
  bits_of x = ctz x :: bits_of (Z.land x (x - 1)) /\ 0 <= Z.land x (x - 1) < 2 ^ 64 /\
  0 <= ctz x < 64.
Proof.
  intros [Hx Hb]. destruct (lowest_bit x Hx) as (k & q & Hk & Hq & E).
  pose proof (Z.pow_pos_nonneg 2 (k + 1) ltac:(lia) ltac:(lia)) as Hp.
  assert (k < 64) as Hk64.
  { apply (Z.pow_lt_mono_r_iff 2); [lia..|]. nia. }
  rewrite (ctz_low x k q) by done. pose proof (land_fits 64 x (x - 1) ltac:(lia) ltac:(unfold fits; lia)).
  unfold fits in *. split_and!; [|lia..].
  unfold bits_of. rewrite !(seqZ_split 0 64 k) by lia. rewrite !filter_app, !filter_cons.
    rewrite (low_testbit x k q), (clear_low_testbit x k q) by done. rewrite Z.eqb_refl. cbn [orb negb andb].
    rewrite decide_True, decide_False by done.
    rewrite !(filter_none _ (seqZ 0 (k - 0))).
    + cbn [app]. f_equal. apply filter_same. intros i Hi%elem_of_seqZ.
      rewrite (clear_low_testbit x k q) by (done || lia).
      destruct (Z.eqb_spec i k); [lia|]. done.
    + intros i Hi%elem_of_seqZ. rewrite (clear_low_testbit x k q), (low_testbit x k q) by (done || lia).
      destruct (Z.eqb_spec i k), (Z.ltb_spec k i); simpl; (done || lia).
    + intros i Hi%elem_of_seqZ. rewrite (low_testbit x k q) by (done || lia).
      destruct (Z.eqb_spec i k), (Z.ltb_spec k i); simpl; (done || lia).
Qed.

Lemma ctz_pow2 k : 0 <= k -> ctz (2 ^ k) = k.
Proof. intros Hk. apply (ctz_low (2 ^ k) k 0); lia. Qed.

Lemma testbit_ctz x : 0 < x -> Z.testbit x (ctz x) = true /\ 0 <= ctz x.
Proof.
  intros Hx. destruct (lowest_bit x Hx) as (k & q & Hk & Hq & E). rewrite (ctz_low x k q) by done.
  rewrite (low_testbit x k q) by done. by rewrite Z.eqb_refl.
Qed.

(** Clearing the lowest bit removes exactly that bit. *)
Lemma testbit_clear_lowest x i :
  0 < x -> 0 <= i -> Z.testbit (Z.land x (x - 1)) i = negb (i =? ctz x) && Z.testbit x i.
Proof.
  intros Hx Hi. destruct (lowest_bit x Hx) as (k & q & Hk & Hq & E). rewrite (ctz_low x k q) by done.
  by apply (clear_low_testbit x k q).
Qed.

Lemma ctz_least x i : 0 < x -> 0 <= i < ctz x -> Z.testbit x i = false.
Proof.
  intros Hx. destruct (lowest_bit x Hx) as (k & q & Hk & Hq & E). rewrite (ctz_low x k q) by done. intros Hi.
  rewrite (low_testbit x k q) by (done || lia). destruct (Z.eqb_spec i k), (Z.ltb_spec k i); (done || lia).
Qed.
