(* ===== verification/FatPtr.v ===== *)
(** * Fat pointers, log sequence numbers and transaction ids

    [dbcore/sm-common.h]: the three 64-bit words ERMIA packs an address and
    its meta-data into.  A word is [value:48 | dirty:1 | asi:7 | size:8];
    the address space identifier (ASI) tells a memory address from a log
    offset and from a transaction id. *)
From stdpp Require Import base numbers list.
From Stdlib Require Import ZArith Lia.
From S2P Require Import Prelude.

Local Open Scope Z_scope.

(* src: dbcore/size-encode.h:62-62 INVALID_SIZE_CODE *)
Definition INVALID_SIZE_CODE : Z := 255.
(* src: dbcore/sm-common.h:27-27 NUM_LOG_SEGMENT_BITS *)
Definition NUM_LOG_SEGMENT_BITS : Z := 4.
(* src: dbcore/sm-common.h:28-28 NUM_LOG_SEGMENTS *)
Definition NUM_LOG_SEGMENTS : Z := Z.shiftl 1 NUM_LOG_SEGMENT_BITS.

Module fat_ptr.

(* src: dbcore/sm-common.h:90-90 fat_ptr::VALUE_START_BIT *)
Definition VALUE_START_BIT : Z := 16.
(* src: dbcore/sm-common.h:92-92 fat_ptr::SIZE_BITS *)
Definition SIZE_BITS : Z := 8.
(* src: dbcore/sm-common.h:93-93 fat_ptr::SIZE_MASK *)
Definition SIZE_MASK : Z := Z.shiftl 1 SIZE_BITS - 1.
(* src: dbcore/sm-common.h:95-95 fat_ptr::FLAG_START_BIT *)
Definition FLAG_START_BIT : Z := SIZE_BITS.
(* src: dbcore/sm-common.h:96-96 fat_ptr::FLAG_BITS *)
Definition FLAG_BITS : Z := VALUE_START_BIT - SIZE_BITS.
(* src: dbcore/sm-common.h:97-97 fat_ptr::FLAG_MASK *)
Definition FLAG_MASK : Z := Z.shiftl (Z.shiftl 1 FLAG_BITS - 1) FLAG_START_BIT.
(* src: dbcore/sm-common.h:99-99 fat_ptr::ASI_START_BIT *)
Definition ASI_START_BIT : Z := FLAG_START_BIT.
(* src: dbcore/sm-common.h:100-100 fat_ptr::ASI_BITS *)
Definition ASI_BITS : Z := FLAG_BITS - 1.
(* src: dbcore/sm-common.h:101-101 fat_ptr::ASI_MASK *)
Definition ASI_MASK : Z := Z.shiftl 1 ASI_BITS - 1.
(* src: dbcore/sm-common.h:102-102 fat_ptr::ASI_FLAG_MASK *)
Definition ASI_FLAG_MASK : Z := Z.shiftl ASI_MASK ASI_START_BIT.
(* src: dbcore/sm-common.h:104-104 fat_ptr::DIRTY_BIT *)
Definition DIRTY_BIT : Z := VALUE_START_BIT - 1.
(* src: dbcore/sm-common.h:105-105 fat_ptr::DIRTY_MASK *)
Definition DIRTY_MASK : Z := Z.shiftl 1 DIRTY_BIT.
(* src: dbcore/sm-common.h:107-107 fat_ptr::ASI_LOG *)
Definition ASI_LOG : Z := 16.
(* src: dbcore/sm-common.h:108-108 fat_ptr::ASI_HEAP *)
Definition ASI_HEAP : Z := 32.
(* src: dbcore/sm-common.h:109-109 fat_ptr::ASI_EXT *)
Definition ASI_EXT : Z := 48.
(* src: dbcore/sm-common.h:110-110 fat_ptr::ASI_XID *)
Definition ASI_XID : Z := 64.
(* src: dbcore/sm-common.h:112-112 fat_ptr::ASI_LOG_FLAG *)
Definition ASI_LOG_FLAG : Z := Z.shiftl ASI_LOG ASI_START_BIT.
(* src: dbcore/sm-common.h:113-113 fat_ptr::ASI_HEAP_FLAG *)
Definition ASI_HEAP_FLAG : Z := Z.shiftl ASI_HEAP ASI_START_BIT.
(* src: dbcore/sm-common.h:114-114 fat_ptr::ASI_EXT_FLAG *)
Definition ASI_EXT_FLAG : Z := Z.shiftl ASI_EXT ASI_START_BIT.
(* src: dbcore/sm-common.h:115-115 fat_ptr::ASI_XID_FLAG *)
Definition ASI_XID_FLAG : Z := Z.shiftl ASI_XID ASI_START_BIT.
(* src: dbcore/sm-common.h:117-117 fat_ptr::ASI_SEGMENT_MASK *)
Definition ASI_SEGMENT_MASK : Z := 15.

(* src: dbcore/sm-common.h:144-144 fat_ptr::t *)
Record t := mk { _ptr : Z }.

#[global] Instance eq_dec : EqDecision t.
Proof. solve_decision. Defined.

(** [make(uintptr_t n, uint8_t sz_code, uint16_t flags)]; the [void*]
    overload reinterprets the address and calls it. *)
(* src: dbcore/sm-common.h:126-142 fat_ptr::make *)
Definition make (n sz_code flags : Z) : t :=
  mk (Z.lor (Z.lor (u64 (Z.shiftl n VALUE_START_BIT)) sz_code) flags).

(* src: dbcore/sm-common.h:152-152 fat_ptr::offset *)
Definition offset (p : t) : Z := Z.shiftr (_ptr p) VALUE_START_BIT.
(* src: dbcore/sm-common.h:154-154 fat_ptr::size_code *)
Definition size_code (p : t) : Z := u8 (Z.land (_ptr p) SIZE_MASK).
(* src: dbcore/sm-common.h:156-157 fat_ptr::asi *)
Definition asi (p : t) : Z := u16 (Z.land (Z.shiftr (_ptr p) ASI_START_BIT) ASI_MASK).
(* src: dbcore/sm-common.h:159-159 fat_ptr::asi_type *)
Definition asi_type (p : t) : Z := u16 (Z.land (asi p) (Z.lnot ASI_SEGMENT_MASK)).
(* src: dbcore/sm-common.h:161-161 fat_ptr::asi_segment *)
Definition asi_segment (p : t) : Z := u16 (Z.land (asi p) ASI_SEGMENT_MASK).
(* src: dbcore/sm-common.h:163-163 fat_ptr::is_dirty *)
Definition is_dirty (p : t) : Z := u16 (Z.land (_ptr p) DIRTY_MASK).
(* src: dbcore/sm-common.h:165-166 fat_ptr::flags *)
Definition flags (p : t) : Z := u16 (Z.land (_ptr p) FLAG_MASK).

(* src: dbcore/sm-common.h:168-173 fat_ptr::log_segment *)
Definition log_segment (p : t) : Z := if asi_type p =? ASI_LOG then asi_segment p else -1.
(* src: dbcore/sm-common.h:175-177 fat_ptr::heap_segment *)
Definition heap_segment (p : t) : Z := if asi_type p =? ASI_HEAP then asi_segment p else -1.
(* src: dbcore/sm-common.h:179-181 fat_ptr::ext_segment *)
Definition ext_segment (p : t) : Z := if asi_type p =? ASI_EXT then asi_segment p else -1.

(* src: dbcore/sm-common.h:183-189 fat_ptr::eqb *)
Definition eqb (p q : t) : bool := _ptr p =? _ptr q.

(** Every stored word is a 64-bit value. *)
Definition wf (p : t) : Prop := fits 64 (_ptr p).

End fat_ptr.

(* src: dbcore/sm-common.h:203-203 NULL_PTR *)
Definition NULL_PTR : fat_ptr.t := fat_ptr.mk 0.

Module LSN.

(* src: dbcore/sm-common.h:248-248 LSN::t *)
Record t := mk { _val : Z }.

#[global] Instance eq_dec : EqDecision t.
Proof. solve_decision. Defined.

(* src: dbcore/sm-common.h:230-234 LSN::make *)
Definition make (val segnum size_code : Z) : t :=
  let flags := u64 (Z.shiftl segnum fat_ptr.ASI_START_BIT) in
  mk (Z.lor (Z.lor (u64 (Z.shiftl val fat_ptr.VALUE_START_BIT)) flags) size_code).

(* src: dbcore/sm-common.h:236-244 LSN::from_ptr *)
Definition from_ptr (p : fat_ptr.t) : res t :=
  if negb (fat_ptr.asi_type p =? fat_ptr.ASI_LOG) && negb (fat_ptr.asi_type p =? fat_ptr.ASI_EXT)
  then Throw illegal_argument
  else Ok (make (fat_ptr.offset p) (fat_ptr.asi_segment p) INVALID_SIZE_CODE).

(* src: dbcore/sm-common.h:246-246 LSN::to_ptr *)
Definition to_ptr (l : t) : fat_ptr.t := fat_ptr.mk (_val l).
(* src: dbcore/sm-common.h:250-250 LSN::to_log_ptr *)
Definition to_log_ptr (l : t) : fat_ptr.t := fat_ptr.mk (Z.lor (_val l) fat_ptr.ASI_LOG_FLAG).
(* src: dbcore/sm-common.h:251-251 LSN::to_ext_ptr *)
Definition to_ext_ptr (l : t) : fat_ptr.t := fat_ptr.mk (Z.lor (_val l) fat_ptr.ASI_EXT_FLAG).
(* src: dbcore/sm-common.h:253-253 LSN::offset *)
Definition offset (l : t) : Z := Z.shiftr (_val l) fat_ptr.VALUE_START_BIT.
(* src: dbcore/sm-common.h:254-254 LSN::flags *)
Definition flags (l : t) : Z := u16 (Z.land (_val l) fat_ptr.ASI_FLAG_MASK).
(* src: dbcore/sm-common.h:255-255 LSN::segment *)
Definition segment (l : t) : Z :=
  u32 (Z.land (Z.shiftr (_val l) fat_ptr.ASI_START_BIT) fat_ptr.ASI_SEGMENT_MASK).
(* src: dbcore/sm-common.h:256-256 LSN::size_code *)
Definition size_code (l : t) : Z := u8 (Z.land (_val l) fat_ptr.SIZE_MASK).

(* src: dbcore/sm-common.h:258-265 LSN::advance_within_segment *)
Definition advance_within_segment (l : t) (delta : Z) : t :=
  mk (u64 (_val l + u64 (Z.shiftl delta fat_ptr.VALUE_START_BIT))).

(* src: dbcore/sm-common.h:268-268 LSN::ltb *)
Definition ltb (a b : t) : bool := _val a <? _val b.
(* src: dbcore/sm-common.h:269-269 LSN::eqb *)
Definition eqb (a b : t) : bool := _val a =? _val b.
(* src: dbcore/sm-common.h:272-272 LSN::gtb *)
Definition gtb (a b : t) : bool := ltb b a.
(* src: dbcore/sm-common.h:273-273 LSN::leb *)
Definition leb (a b : t) : bool := negb (gtb a b).
(* src: dbcore/sm-common.h:274-274 LSN::geb *)
Definition geb (a b : t) : bool := leb b a.
(* src: dbcore/sm-common.h:275-275 LSN::neqb *)
Definition neqb (a b : t) : bool := negb (eqb a b).

End LSN.

(* src: dbcore/sm-common.h:281-281 INVALID_LSN *)
Definition INVALID_LSN : LSN.t := LSN.mk 0.

Module XID.

(* src: dbcore/sm-common.h:313-313 XID::t *)
Record t := mk { _val : Z }.

#[global] Instance eq_dec : EqDecision t.
Proof. solve_decision. Defined.

(* src: dbcore/sm-common.h:295-304 XID::make *)
Definition make (e i : Z) : t :=
  let x := u64 (Z.shiftl e 16) in
  let x := Z.lor x i in
  let x := u64 (Z.shiftl x 16) in
  let x := Z.lor x fat_ptr.ASI_XID_FLAG in
  mk (Z.lor x INVALID_SIZE_CODE).

(* src: dbcore/sm-common.h:306-311 XID::from_ptr *)
Definition from_ptr (p : fat_ptr.t) : res t :=
  if negb (fat_ptr.asi_type p =? fat_ptr.ASI_XID)
  then Throw illegal_argument
  else Ok (mk (fat_ptr._ptr p)).

(* src: dbcore/sm-common.h:315-315 XID::to_ptr *)
Definition to_ptr (x : t) : fat_ptr.t := fat_ptr.mk (Z.lor (_val x) INVALID_SIZE_CODE).
(* src: dbcore/sm-common.h:316-316 XID::epoch *)
Definition epoch (x : t) : Z := u32 (Z.shiftr (_val x) 32).
(* src: dbcore/sm-common.h:317-317 XID::local *)
Definition local (x : t) : Z := u16 (Z.shiftr (_val x) 16).
(* src: dbcore/sm-common.h:318-318 XID::flags *)
Definition flags (x : t) : Z := u16 (Z.land (_val x) fat_ptr.FLAG_MASK).
(* src: dbcore/sm-common.h:320-324 XID::eqb *)
Definition eqb (a b : t) : bool := _val a =? _val b.

End XID.

(* src: dbcore/sm-common.h:330-330 INVALID_XID *)
Definition INVALID_XID : XID.t := XID.mk fat_ptr.ASI_XID_FLAG.

#[global] Arguments fat_ptr.make : simpl never.
#[global] Arguments LSN.make : simpl never.
#[global] Arguments XID.make : simpl never.

(** ** Arithmetic views of the bit fields

    Each accessor is a quotient or remainder of the word, which [lia] decides. *)

Ltac word_const :=
  unfold fat_ptr.FLAG_MASK, fat_ptr.ASI_FLAG_MASK, fat_ptr.ASI_LOG_FLAG, fat_ptr.ASI_HEAP_FLAG,
    fat_ptr.ASI_EXT_FLAG, fat_ptr.ASI_XID_FLAG, fat_ptr.ASI_MASK, fat_ptr.SIZE_MASK,
    fat_ptr.DIRTY_MASK, fat_ptr.DIRTY_BIT, fat_ptr.ASI_BITS, fat_ptr.ASI_START_BIT,
    fat_ptr.FLAG_START_BIT, fat_ptr.FLAG_BITS, fat_ptr.SIZE_BITS, fat_ptr.VALUE_START_BIT,
    fat_ptr.ASI_SEGMENT_MASK, INVALID_SIZE_CODE in *.

Ltac field_view :=
  word_const; unfold wrap;
  repeat match goal with
  | |- context [Z.land ?x 15] => rewrite (land_mask x 4 ltac:(lia) : Z.land x 15 = _)
  | |- context [Z.land ?x (Z.lnot 15)] =>
      rewrite (land_lnot_mask x 4 ltac:(lia) : Z.land x (Z.lnot 15) = _)
  | |- context [Z.land ?x ?m] =>
      let m' := eval vm_compute in m in
      match m' with
      | 127 => rewrite (land_mask x 7 ltac:(lia) : Z.land x m = _)
      | 255 => rewrite (land_mask x 8 ltac:(lia) : Z.land x m = _)
      end
  | |- context [Z.shiftr ?x ?k] => rewrite (Z.shiftr_div_pow2 x k) by lia
  end.

Lemma offset_view p : fat_ptr.offset p = fat_ptr._ptr p / 65536.
Proof. unfold fat_ptr.offset. by field_view. Qed.

Lemma size_code_view p : fat_ptr.size_code p = fat_ptr._ptr p mod 256.
Proof. unfold fat_ptr.size_code. field_view. zlia. Qed.

Lemma asi_view p : fat_ptr.asi p = fat_ptr._ptr p / 256 mod 128.
Proof. unfold fat_ptr.asi. field_view. zlia. Qed.

Lemma asi_segment_view p : fat_ptr.asi_segment p = fat_ptr._ptr p / 256 mod 16.
Proof. unfold fat_ptr.asi_segment. rewrite asi_view. field_view. zlia. Qed.

Lemma asi_type_view p : fat_ptr.asi_type p = fat_ptr._ptr p / 4096 mod 8 * 16.
Proof. unfold fat_ptr.asi_type. rewrite asi_view. field_view. zlia. Qed.

Lemma flags_view p : fat_ptr.flags p = fat_ptr._ptr p / 256 mod 256 * 256.
Proof.
  unfold fat_ptr.flags. word_const. change (Z.shiftl (Z.shiftl 1 (16 - 8) - 1) 8) with (Z.shiftl (2 ^ 8 - 1) 8).
  assert (Z.land (fat_ptr._ptr p) (Z.shiftl (2 ^ 8 - 1) 8)
          = Z.shiftl (Z.land (Z.shiftr (fat_ptr._ptr p) 8) (2 ^ 8 - 1)) 8) as ->.
  { apply Z.bits_inj'. intros i Hi. rewrite Z.land_spec, !Z.shiftl_spec by lia.
    destruct (Z.ltb_spec i 8).
    - rewrite !(Z.testbit_neg_r _ (i - 8)) by lia. apply andb_false_r.
    - rewrite Z.land_spec, Z.shiftr_spec by lia. do 2 f_equal. lia. }
  rewrite land_mask, Z.shiftr_div_pow2, Z.shiftl_mul_pow2 by lia. zlia.
Qed.

Lemma dirty_view p : fat_ptr.is_dirty p = fat_ptr._ptr p / 32768 mod 2 * 32768.
Proof.
  unfold fat_ptr.is_dirty. word_const. change (Z.shiftl 1 (16 - 1)) with (Z.shiftl (2 ^ 1 - 1) 15).
  assert (Z.land (fat_ptr._ptr p) (Z.shiftl (2 ^ 1 - 1) 15)
          = Z.shiftl (Z.land (Z.shiftr (fat_ptr._ptr p) 15) (2 ^ 1 - 1)) 15) as ->.
  { apply Z.bits_inj'. intros i Hi. rewrite Z.land_spec, !Z.shiftl_spec by lia.
    destruct (Z.ltb_spec i 15).
    - rewrite !(Z.testbit_neg_r _ (i - 15)) by lia. apply andb_false_r.
    - rewrite Z.land_spec, Z.shiftr_spec by lia. do 2 f_equal. lia. }
  rewrite land_mask, Z.shiftr_div_pow2, Z.shiftl_mul_pow2 by lia. zlia.
Qed.

Create Rewrite HintDb fatptr.
#[export] Hint Rewrite offset_view size_code_view asi_view asi_segment_view asi_type_view
  flags_view dirty_view : fatptr.

(** Layout of a word with a 48-bit value, flag bits and a size code. *)
Lemma pack_layout n fl sz :
  fits 48 n -> fits 8 fl -> fits 8 sz ->
  Z.lor (Z.lor (u64 (Z.shiftl n 16)) (fl * 256)) sz = n * 65536 + fl * 256 + sz.
Proof.
  intros Hn Hf Hs. rewrite Z.shiftl_mul_pow2 by lia.
  rewrite (wrap_small 64) by (unfold fits in *; lia).
  rewrite (lor_low n (fl * 256) 16) by (unfold fits in *; lia).
  replace (n * 2 ^ 16 + fl * 256) with ((n * 256 + fl) * 2 ^ 8) by lia.
  rewrite (lor_low _ sz 8) by (unfold fits in *; lia). lia.
Qed.

Lemma make_layout n fl sz :
  fits 48 n -> fits 8 fl -> fits 8 sz ->
  fat_ptr._ptr (fat_ptr.make n sz (fl * 256)) = n * 65536 + fl * 256 + sz.
Proof.
  intros. unfold fat_ptr.make. simpl. word_const.
  rewrite <- Z.lor_assoc, (Z.lor_comm sz), Z.lor_assoc. by apply pack_layout.
Qed.

Lemma lsn_layout v seg sz :
  fits 48 v -> fits 4 seg -> fits 8 sz ->
  LSN._val (LSN.make v seg sz) = v * 65536 + seg * 256 + sz.
Proof.
  intros Hv Hg Hs. unfold LSN.make. simpl. word_const.
  rewrite (Z.shiftl_mul_pow2 seg) by lia. rewrite (wrap_small 64 (seg * _)) by (unfold fits in *; lia).
  apply (pack_layout v seg sz); unfold fits in *; lia.
Qed.

(** The four ASI bits above the segment number are clear in an LSN, so or-ing
    an ASI flag in adds it. *)
Lemma lor_asi_flag v seg sz k :
  fits 4 seg -> fits 8 sz -> 0 <= v -> 0 <= k < 8 ->
  Z.lor (v * 65536 + seg * 256 + sz) (k * 4096) = v * 65536 + (k * 16 + seg) * 256 + sz.
Proof.
  intros Hg Hs Hv Hk.
  replace (v * 65536 + seg * 256 + sz) with (v * 2 ^ 16 + (seg * 256 + sz)) by lia.
  rewrite <- (lor_low v (seg * 256 + sz) 16) by (unfold fits in *; lia).
  rewrite <- Z.lor_assoc, (Z.lor_comm (seg * 256 + sz)).
  change 4096 with (2 ^ 12). rewrite (lor_low k (seg * 256 + sz) 12) by (unfold fits in *; lia).
  rewrite lor_low by (unfold fits in *; lia). lia.
Qed.

Lemma to_log_ptr_layout v seg sz :
  fits 48 v -> fits 4 seg -> fits 8 sz ->
  fat_ptr._ptr (LSN.to_log_ptr (LSN.make v seg sz)) = v * 65536 + (16 + seg) * 256 + sz.
Proof.
  intros. unfold LSN.to_log_ptr. cbn [fat_ptr._ptr]. rewrite lsn_layout by done.
  apply (lor_asi_flag v seg sz 1); zlia.
Qed.

Lemma to_ext_ptr_layout v seg sz :
  fits 48 v -> fits 4 seg -> fits 8 sz ->
  fat_ptr._ptr (LSN.to_ext_ptr (LSN.make v seg sz)) = v * 65536 + (48 + seg) * 256 + sz.
Proof.
  intros. unfold LSN.to_ext_ptr. cbn [fat_ptr._ptr]. rewrite lsn_layout by done.
  apply (lor_asi_flag v seg sz 3); zlia.
Qed.

Lemma xid_layout e i :
  fits 32 e -> fits 16 i -> XID._val (XID.make e i) = e * 2 ^ 32 + i * 65536 + 64 * 256 + 255.
Proof.
  intros He Hi. unfold XID.make. simpl. rewrite (Z.shiftl_mul_pow2 e) by lia.
  rewrite (wrap_small 64 (e * _)) by zlia. rewrite (lor_low e i 16) by zlia.
  change fat_ptr.ASI_XID_FLAG with (64 * 256). unfold INVALID_SIZE_CODE. rewrite pack_layout; zlia.
Qed.

Lemma xid_to_ptr e i :
  fits 32 e -> fits 16 i -> XID.to_ptr (XID.make e i) = fat_ptr.mk (XID._val (XID.make e i)).
Proof.
  intros. unfold XID.to_ptr. f_equal. rewrite xid_layout by done. word_const.
  replace (e * 2 ^ 32 + i * 65536 + 64 * 256 + 255)
    with ((e * 2 ^ 24 + i * 256 + 64) * 2 ^ 8 + 255) by lia.
  rewrite <- (lor_low _ 255 8) by zlia. by rewrite <- Z.lor_assoc, Z.lor_diag.
Qed.

(** What the rest of the system relies on: a stamp made from a commit LSN is
    a log pointer to that offset, and one made from an XID is an XID pointer. *)
Lemma log_ptr_type v : fits 48 v -> fat_ptr.asi_type (LSN.to_log_ptr (LSN.make v 0 255)) = fat_ptr.ASI_LOG.
Proof.
  intros. rewrite asi_type_view, to_log_ptr_layout by zlia. unfold fat_ptr.ASI_LOG. zlia.
Qed.

Lemma log_ptr_offset v : fits 48 v -> fat_ptr.offset (LSN.to_log_ptr (LSN.make v 0 255)) = v.
Proof. intros. rewrite offset_view, to_log_ptr_layout by zlia. zlia. Qed.

Lemma xid_ptr_type e i :
  fits 32 e -> fits 16 i -> fat_ptr.asi_type (XID.to_ptr (XID.make e i)) = fat_ptr.ASI_XID.
Proof.
  intros. rewrite xid_to_ptr, asi_type_view by done. cbn [fat_ptr._ptr]. rewrite xid_layout by done.
  unfold fat_ptr.ASI_XID. zlia.
Qed.

Lemma xid_epoch e i : fits 32 e -> fits 16 i -> XID.epoch (XID.make e i) = e.
Proof.
  intros. unfold XID.epoch. rewrite xid_layout, Z.shiftr_div_pow2 by (done || lia). zlia.
Qed.

Lemma xid_local e i : fits 32 e -> fits 16 i -> XID.local (XID.make e i) = i.
Proof.
  intros. unfold XID.local. rewrite xid_layout, Z.shiftr_div_pow2 by (done || lia). zlia.
Qed.

(** ** Properties *)

(** C36: packing an address, flag bits and a size code into a fat
    pointer loses nothing: every accessor returns the field it was built
    from, and rebuilding the pointer from its fields gives it back. *)
Theorem fat_ptr_roundtrip n fl sz (Hn : fits 48 n) (Hf : fits 8 fl) (Hs : fits 8 sz) :
  let p := fat_ptr.make n sz (fl * 256) in
  fat_ptr.wf p /\ fat_ptr.offset p = n /\ fat_ptr.size_code p = sz /\
  fat_ptr.flags p = fl * 256 /\ fat_ptr.asi p = fl mod 128 /\
  fat_ptr.is_dirty p = fl / 128 * 32768 /\
  fat_ptr.make (fat_ptr.offset p) (fat_ptr.size_code p) (fat_ptr.flags p) = p.
Proof.
  intros p. pose proof (make_layout n fl sz Hn Hf Hs) as L. fold p in L.
  unfold fat_ptr.wf. autorewrite with fatptr. rewrite L.
  assert ((n * 65536 + fl * 256 + sz) / 65536 = n) as -> by zlia.
  assert ((n * 65536 + fl * 256 + sz) mod 256 = sz) as -> by zlia.
  assert ((n * 65536 + fl * 256 + sz) / 256 mod 256 = fl) as -> by zlia.
  split_and!; [..|done]; clearbody p; zlia.
Qed.

Lemma fat_ptr_roundtrip_witness :
  fat_ptr.size_code (fat_ptr.make 74565 33 (144 * 256)) = 33.
Proof. by destruct (fat_ptr_roundtrip 74565 144 33) as (_ & _ & H & _); [zlia..|]. Defined.

(** C37: an LSN turned into a log or external fat pointer converts back to
    the LSN of the same offset and segment; the size code is not carried
    over but becomes [INVALID_SIZE_CODE].  Every pointer of another kind --
    memory, heap, XID or an unused type -- is rejected with
    [illegal_argument]. *)
Theorem lsn_roundtrip v seg sz (Hv : fits 48 v) (Hg : fits 4 seg) (Hs : fits 8 sz) :
  let l := LSN.make v seg sz in
  LSN.offset l = v /\ LSN.segment l = seg /\ LSN.size_code l = sz /\
  LSN.from_ptr (LSN.to_log_ptr l) = Ok (LSN.make v seg INVALID_SIZE_CODE) /\
  LSN.from_ptr (LSN.to_ext_ptr l) = Ok (LSN.make v seg INVALID_SIZE_CODE) /\
  LSN.from_ptr (LSN.to_ptr l) = Throw illegal_argument /\
  (forall e i, fits 32 e -> fits 16 i ->
    LSN.from_ptr (XID.to_ptr (XID.make e i)) = Throw illegal_argument) /\
  (forall n s, fits 48 n -> fits 8 s ->
    LSN.from_ptr (fat_ptr.make n s fat_ptr.ASI_HEAP_FLAG) = Throw illegal_argument) /\
  (forall p, LSN.from_ptr p = Throw illegal_argument <->
    fat_ptr.asi_type p <> fat_ptr.ASI_LOG /\ fat_ptr.asi_type p <> fat_ptr.ASI_EXT).
Proof.
  intros l. pose proof (lsn_layout v seg sz Hv Hg Hs) as L. fold l in L.
  split_and!.
  - unfold LSN.offset. rewrite L, Z.shiftr_div_pow2 by (word_const; lia). word_const. zlia.
  - unfold LSN.segment. rewrite L. field_view. zlia.
  - unfold LSN.size_code. rewrite L. field_view. zlia.
  - unfold LSN.from_ptr. autorewrite with fatptr. unfold l. rewrite to_log_ptr_layout by done.
    replace (_ / 4096 mod 8 * 16) with 16 by zlia. simpl. do 2 f_equal; zlia.
  - unfold LSN.from_ptr. autorewrite with fatptr. unfold l. rewrite to_ext_ptr_layout by done.
    replace (_ / 4096 mod 8 * 16) with 48 by zlia. simpl. do 2 f_equal; zlia.
  - unfold LSN.from_ptr, LSN.to_ptr. autorewrite with fatptr. cbn [fat_ptr._ptr]. rewrite L.
    by replace (_ / 4096 mod 8 * 16) with 0 by zlia.
  - intros e i He Hi. unfold LSN.from_ptr. by rewrite xid_ptr_type by done.
  - intros n s Hn Hz. unfold LSN.from_ptr. change fat_ptr.ASI_HEAP_FLAG with (32 * 256). autorewrite with fatptr.
    rewrite make_layout by zlia. by replace (_ / 4096 mod 8 * 16) with 32 by zlia.
  - intros p. unfold LSN.from_ptr. destruct (Z.eqb_spec (fat_ptr.asi_type p) fat_ptr.ASI_LOG), (Z.eqb_spec (fat_ptr.asi_type p) fat_ptr.ASI_EXT);
      cbn; naive_solver.
Qed.

Lemma lsn_roundtrip_witness :
  LSN.from_ptr (LSN.to_log_ptr (LSN.make 4096 5 17)) = Ok (LSN.make 4096 5 255).
Proof. by destruct (lsn_roundtrip 4096 5 17) as (_ & _ & _ & H & _); [zlia..|]. Defined.

(** Comparing whole LSN words orders them by offset: the segment and
    size-code bits below never change the outcome when the offsets differ,
    and advancing an LSN inside its segment by a positive number of bytes
    yields a strictly larger LSN of the same segment. *)
Theorem lsn_order v1 v2 s1 s2 z1 z2 (Hv1 : fits 48 v1) (Hv2 : fits 48 v2)
    (Hs1 : fits 4 s1) (Hs2 : fits 4 s2) (Hz1 : fits 8 z1) (Hz2 : fits 8 z2) :
  (v1 < v2 ->
     LSN.ltb (LSN.make v1 s1 z1) (LSN.make v2 s2 z2) = true /\
     LSN.ltb (LSN.make v2 s2 z2) (LSN.make v1 s1 z1) = false) /\
  (forall d, 0 <= d -> v1 + d < 2 ^ 48 ->
     LSN.advance_within_segment (LSN.make v1 s1 z1) d = LSN.make (v1 + d) s1 z1).
Proof.
  split.
  - intros Hlt. unfold LSN.ltb. rewrite !lsn_layout by done.
    rewrite Z.ltb_lt, Z.ltb_ge. zlia.
  - intros d Hd Hb. unfold LSN.advance_within_segment.
    enough (LSN._val (LSN.make (v1 + d) s1 z1) = LSN._val (LSN.make v1 s1 z1) + d * 65536) as E.
    { destruct (LSN.make (v1 + d) s1 z1) as [x]. cbn [LSN._val] in E. f_equal. rewrite E. word_const.
      rewrite Z.shiftl_mul_pow2 by lia. rewrite lsn_layout by done. zlia. }
    rewrite !lsn_layout by zlia. lia.
Qed.

(** An XID carries its 32-bit epoch and 16-bit context index exactly, is
    recognised as an XID (and never as a log pointer or the null pointer)
    once stored in a fat pointer, and converts back unchanged. *)
Theorem xid_roundtrip e i (He : fits 32 e) (Hi : fits 16 i) :
  let x := XID.make e i in
  XID.epoch x = e /\ XID.local x = i /\
  XID.from_ptr (XID.to_ptr x) = Ok x /\
  fat_ptr.asi_type (XID.to_ptr x) = fat_ptr.ASI_XID /\
  XID.to_ptr x <> NULL_PTR /\
  (forall v, fits 48 v -> XID.to_ptr x <> LSN.to_log_ptr (LSN.make v 0 255)).
Proof.
  intros x. split_and!.
  - by apply xid_epoch.
  - by apply xid_local.
  - unfold XID.from_ptr, x. rewrite xid_ptr_type, xid_to_ptr by done. cbn.
    by destruct (XID.make e i).
  - by apply xid_ptr_type.
  - intros E. pose proof (xid_ptr_type e i He Hi) as T. fold x in T. by rewrite E in T.
  - intros v Hv E. pose proof (xid_ptr_type e i He Hi) as T. fold x in T.
    rewrite E, log_ptr_type in T by done. done.
Qed.
