(* ===== verification/SizeEncode.v ===== *)
(** * Size codes

    [dbcore/size-encode.cpp] and [dbcore/size-encode.h]: allocation sizes as
    8-bit floating-point-like codes, embedded in every fat pointer and log
    record.  [encode_size] computes the code arithmetically,
    [encode_size_aligned] by binary search in the table of decoded values. *)
From stdpp Require Import base numbers list.
From Stdlib Require Import ZArith Lia.
From S2P Require Import Prelude.

Local Open Scope Z_scope.

(* src: dbcore/sm-defs.h:21-21 DEFAULT_ALIGNMENT_BITS *)
Definition DEFAULT_ALIGNMENT_BITS : Z := 4.
(* src: dbcore/sm-defs.h:22-22 DEFAULT_ALIGNMENT *)
Definition DEFAULT_ALIGNMENT : Z := Z.shiftl 1 DEFAULT_ALIGNMENT_BITS.
(* src: dbcore/size-encode.h:63-63 MAX_ENCODABLE_SIZE *)
Definition MAX_ENCODABLE_SIZE : Z := 950272.
(* src: dbcore/size-encode.h:64-64 INVALID_SIZE *)
Definition INVALID_SIZE : Z := u64 (-1).

(** [decode_table[e]], the macro [B(e)]. *)
(* src: dbcore/size-encode.cpp:3-13 B *)
Definition B (e : Z) : Z := 16 - Z.shiftr 15 e.

(* src: dbcore/size-encode.cpp:15-22 decode_size_helper *)
Definition decode_size_helper (code : Z) : Z :=
  let E := Z.shiftr code 4 in
  let M := Z.land code 15 in
  u64 (Z.shiftl (M + B E) E).

(* src: dbcore/size-encode.cpp:24-34 decode_size *)
Definition decode_size (code : Z) : Z :=
  if negb (Z.land (code + 1) 240 =? 0)
  then decode_size_helper (u8 (code + 255))
  else u64 (sext 8 code).

(* src: dbcore/size-encode.h:54-59 decode_size_aligned *)
Definition decode_size_aligned (code align_bits : Z) : Z :=
  u64 (Z.shiftl (decode_size code) align_bits).

(* src: dbcore/size-encode.cpp:59-59 EFIRST *)
Definition EFIRST (x : Z) : Z := decode_size_helper (u8 (Z.shiftl x 4)).
(* src: dbcore/size-encode.cpp:60-60 ELAST *)
Definition ELAST (x : Z) : Z :=
  if x =? 15 then decode_size 254 else decode_size_helper (u8 (Z.shiftl x 4 + 15)).

(** [__builtin_clz] on a 32-bit value; undefined at 0, where the source does
    not call it. *)
Definition clz (x : Z) : Z := 31 - Z.log2 (u32 x).

(** The lambda [doit]. *)
(* src: dbcore/size-encode.cpp:62-68 doit *)
Definition doit (sz e : Z) : Z :=
  let sz := u64 (sz + (Z.shiftl 1 e - 1)) in
  let b := u8 (16 - Z.shiftr 15 e) in
  let m := u8 (Z.shiftr sz e) in
  Z.shiftl e 4 + m - b + 1.

(* src: dbcore/size-encode.cpp:58-112 encode_size *)
Definition encode_size (sz : Z) : Z :=
  u8 (if sz <=? ELAST 2 then
        if sz <=? ELAST 1 then
          if sz <? EFIRST 1 then sz else doit sz 1
        else if sz <=? EFIRST 2 then Z.shiftl 2 4 + 1 else doit sz 2
      else if sz <=? ELAST 3 then
        if sz <=? EFIRST 3 then Z.shiftl 3 4 + 1 else doit sz 3
      else if sz <=? EFIRST 4 then Z.shiftl 4 4 + 1
      else if sz <=? ELAST 15 then
        let lz := clz sz in
        let e := u8 (27 - lz) in
        let sz := u64 (sz + (Z.shiftl 1 e - 1)) in
        let lz := clz sz in
        let e := u8 (27 - lz) in
        let m := u8 (Z.shiftr sz e - 16) in
        Z.shiftl e 4 + m + 1
      else -1).

(** [_encode_size_tab[c] = _decode_size(c)]. *)
(* src: dbcore/size-encode.cpp:114-148 _encode_size_tab *)
Definition _encode_size_tab : list Z := decode_size <$> seqZ 0 256.

(** The [while (lo < hi)] loop; the interval halves from 255, so eight
    rounds reach [lo = hi]. *)
(* src: dbcore/size-encode.cpp:157-170 encode_size_aligned *)
Fixpoint bsearch (fuel : nat) (x lo hi : Z) : option Z :=
  if lo <? hi then
    match fuel with
    | O => None
    | S fuel =>
        let mid := (lo + hi) / 2 in
        if x <=? nth (Z.to_nat mid) _encode_size_tab 0
        then bsearch fuel x lo mid
        else bsearch fuel x (mid + 1) hi
    end
  else Some lo.

(** [encode_size_aligned(size_t &size, size_t align_bits)]: the code and the
    new value of [size].  The literal [1] is an [int]: from 31 bits on the shift
    overflows. *)
(* src: dbcore/size-encode.cpp:150-173 encode_size_aligned *)
Definition encode_size_aligned (size align_bits : Z) : option (Z * Z) :=
  let x := Z.shiftr (align_up size (sext 32 (Z.shiftl 1 align_bits))) align_bits in
  lo ← bsearch 8 x 0 255;
  Some (lo, u64 (Z.shiftl (nth (Z.to_nat lo) _encode_size_tab 0) align_bits)).

(** ** Decoded values *)

Definition decode_view (c : Z) : Z := ((c - 1) mod 16 + B ((c - 1) / 16)) * 2 ^ ((c - 1) / 16).

Lemma decode_size_view c : 15 <= c <= 254 -> decode_size c = decode_view c.
Proof.
  intros Hc. apply Z.eqb_eq.
  apply (all_range_spec 15 240 (fun c => decode_size c =? decode_view c)); [vm_compute; done | lia].
Qed.

Lemma decode_size_small c : 0 <= c <= 16 -> decode_size c = c.
Proof.
  intros Hc. apply Z.eqb_eq.
  apply (all_range_spec 0 17 (fun c => decode_size c =? c)); [vm_compute; done | lia].
Qed.

Lemma decode_size_step c : 0 <= c < 255 -> decode_size c < decode_size (c + 1).
Proof.
  intros Hc. apply Z.ltb_lt.
  apply (all_range_spec 0 255 (fun c => decode_size c <? decode_size (c + 1)));
    [vm_compute; done | lia].
Qed.

Lemma decode_size_mono c d : 0 <= c -> c < d <= 255 -> decode_size c < decode_size d.
Proof.
  intros Hc Hd. replace d with (c + Z.of_nat (Z.to_nat (d - c))) in * by lia.
  assert (0 < Z.to_nat (d - c))%nat as Hn by lia.
  induction (Z.to_nat (d - c)) as [|n IH]; [lia|].
  destruct n as [|n].
  - apply decode_size_step. lia.
  - etransitivity; [apply IH; lia|].
    replace (c + Z.of_nat (S (S n))) with (c + Z.of_nat (S n) + 1) by lia.
    apply decode_size_step. lia.
Qed.

(** [c] is the least code whose decoded value holds [x]. *)
Definition best_code (x c : Z) : Prop :=
  0 <= c <= 255 /\ x <= decode_size c /\ (forall d, 0 <= d < c -> decode_size d < x).

Lemma best_code_unique x c d : best_code x c -> best_code x d -> c = d.
Proof.
  intros (Hc & Hx & Hl) (Hd & Hy & Hm). destruct (Z.lt_trichotomy c d) as [H|[H|H]]; [|done|].
  - specialize (Hm c ltac:(lia)). lia.
  - specialize (Hl d ltac:(lia)). lia.
Qed.

(** It is enough to look at the predecessor. *)
Lemma best_code_pred x c :
  0 <= c <= 255 -> x <= decode_size c -> (0 < c -> decode_size (c - 1) < x) -> best_code x c.
Proof.
  intros Hc Hx Hp. split_and!; [lia..|]. intros d Hd.
  destruct (Z.eq_dec d (c - 1)) as [->|]; [apply Hp; lia|].
  pose proof (decode_size_mono d (c - 1) ltac:(lia) ltac:(lia)). specialize (Hp ltac:(lia)). lia.
Qed.

(** ** The binary search *)

Lemma tab_lookup c : 0 <= c <= 255 -> nth (Z.to_nat c) _encode_size_tab 0 = decode_size c.
Proof.
  intros Hc. apply nth_lookup_Some. unfold _encode_size_tab.
  rewrite list_lookup_fmap, lookup_seqZ_lt by lia. simpl. do 2 f_equal. lia.
Qed.

Lemma bsearch_best fuel x lo hi :
  0 <= lo <= hi -> hi <= 255 -> hi - lo < 2 ^ Z.of_nat fuel ->
  x <= decode_size hi -> (forall d, 0 <= d < lo -> decode_size d < x) ->
  exists c, bsearch fuel x lo hi = Some c /\ best_code x c.
Proof.
  revert lo hi. induction fuel as [|fuel IH]; intros lo hi Hlo Hhi Hf Hx Hl; cbn [bsearch]; cbv zeta;
    (destruct (Z.ltb_spec lo hi) as [Hlt|Hge];
     [|assert (lo = hi) as -> by lia; exists hi; split; [done|]; by split_and!; try lia]).
  - simpl in Hf. lia.
  - rewrite Nat2Z.inj_succ, Z.pow_succ_r in Hf by lia.
    rewrite tab_lookup by zlia. destruct (Z.leb_spec x (decode_size ((lo + hi) / 2))).
    + apply IH; [zlia..|done|done].
    + apply IH; [zlia..|done|]. intros d Hd.
      destruct (Z.eq_dec d ((lo + hi) / 2)) as [->|]; [done|].
      pose proof (decode_size_mono d ((lo + hi) / 2) ltac:(lia) ltac:(zlia)). lia.
Qed.

(** ** The arithmetic encoder *)

Lemma encode_size_small x : 0 <= x <= 256 -> best_code x (encode_size x).
Proof.
  intros Hx.
  assert (0 <= encode_size x <= 255 /\ x <= decode_size (encode_size x) /\
          (0 < encode_size x -> decode_size (encode_size x - 1) < x)) as (? & ? & ?).
  { set (p x := let c := encode_size x in
       (0 <=? c) && (c <=? 255) && (x <=? decode_size c)
       && ((c <=? 0) || (decode_size (c - 1) <? x))).
    assert (p x = true) as Hp by (apply (all_range_spec 0 257 p); [vm_compute; done | lia]).
    unfold p in Hp. rewrite !andb_true_iff, orb_true_iff, !Z.leb_le, Z.ltb_lt in Hp. lia. }
  by apply best_code_pred.
Qed.

Lemma log2_bounds x k : 0 <= k -> 2 ^ k <= x < 2 ^ (k + 1) -> Z.log2 x = k.
Proof. intros. by apply Z.log2_unique. Qed.

(** The branch for sizes above [EFIRST(4)], one binary order of magnitude at
    a time: [e] is the exponent before rounding up. *)
Lemma encode_size_large_exp x e :
  4 <= e <= 15 -> 256 < x <= 950272 -> 16 * 2 ^ e <= x < 32 * 2 ^ e ->
  exists e' m, encode_size x = e' * 16 + m + 1 /\ 4 <= e' <= 15 /\ 0 <= m <= 15 /\
    e' * 16 + m + 1 <= 254 /\ x <= (m + 16) * 2 ^ e' /\
    (if m =? 0 then (if e' =? 4 then False else 31 * 2 ^ (e' - 1) < x) else (m + 15) * 2 ^ e' < x).
Proof.
  intros He Hx Hb. unfold encode_size.
  change (ELAST 2) with 112. change (ELAST 3) with 240. change (ELAST 15) with 950272.
  change (EFIRST 4) with 256.
  repeat match goal with
  | |- context [x <=? ?k] =>
      first [rewrite (proj2 (Z.leb_gt x k)) by lia | rewrite (proj2 (Z.leb_le x k)) by lia]
  end.
  assert (clz x = 27 - e) as ->.
  { unfold clz. rewrite (wrap_small 32) by zlia.
    rewrite (log2_bounds x (e + 4)); [lia..|]. rewrite !Z.pow_add_r by lia. lia. }
  replace (27 - (27 - e)) with e by lia. rewrite (wrap_small 8 e) by zlia.
  rewrite Z.shiftl_1_l. cbv zeta.
  assert (e = 4 \/ e = 5 \/ e = 6 \/ e = 7 \/ e = 8 \/ e = 9 \/ e = 10 \/ e = 11 \/ e = 12
          \/ e = 13 \/ e = 14 \/ e = 15) as Hcases by lia.
  set (y := u64 (x + (2 ^ e - 1))).
  assert (y = x + (2 ^ e - 1)) as Hy.
  { unfold y. apply (wrap_small 64). clear y. destruct_or! Hcases; subst e; zlia. }
  clearbody y.
  destruct (Z.lt_ge_cases y (32 * 2 ^ e)) as [Hlt|Hge].
  - exists e, (y / 2 ^ e - 16).
    assert (clz y = 27 - e) as ->.
    { unfold clz. rewrite (wrap_small 32) by (destruct_or! Hcases; subst e; zlia).
      rewrite (log2_bounds y (e + 4)); [lia..|]. rewrite !Z.pow_add_r by lia.
      destruct_or! Hcases; subst e; lia. }
    replace (27 - (27 - e)) with e by lia. rewrite (wrap_small 8 e) by zlia.
    rewrite Z.shiftr_div_pow2, Z.shiftl_mul_pow2 by lia.
    destruct (Z.eqb_spec (y / 2 ^ e - 16) 0); destruct (Z.eqb_spec e 4);
      destruct_or! Hcases; subst e; simpl (_ ^ _) in *; zlia.
  - exists (e + 1), 0.
    assert (clz y = 26 - e) as ->.
    { unfold clz. rewrite (wrap_small 32) by (destruct_or! Hcases; subst e; zlia).
      rewrite (log2_bounds y (e + 5)); [lia..|]. rewrite !Z.pow_add_r by lia.
      destruct_or! Hcases; subst e; lia. }
    replace (27 - (26 - e)) with (e + 1) by lia. rewrite (wrap_small 8 (e + 1)) by zlia.
    rewrite Z.shiftr_div_pow2, Z.shiftl_mul_pow2 by lia.
    destruct (Z.eqb_spec (e + 1) 4); simpl (0 =? 0);
      destruct_or! Hcases; subst e; simpl (_ ^ _) in *; zlia.
Qed.

Lemma large_exponent x :
  256 < x <= 950272 -> exists e, 4 <= e <= 15 /\ 16 * 2 ^ e <= x < 32 * 2 ^ e.
Proof.
  intros Hx. pose proof (Z.log2_spec x ltac:(lia)) as [Hl Hu].
  exists (Z.log2 x - 4).
  assert (8 <= Z.log2 x) by (apply (Z.log2_le_mono 256); lia).
  assert (Z.log2 x <= 19) by (apply (Z.log2_le_mono x 950272); lia).
  rewrite <- Z.add_1_r in Hu. change 16 with (2 ^ 4). change 32 with (2 ^ 5).
  rewrite <- !Z.pow_add_r by lia.
  replace (4 + (Z.log2 x - 4)) with (Z.log2 x) by lia.
  replace (5 + (Z.log2 x - 4)) with (Z.log2 x + 1) by lia. lia.
Qed.

Lemma B_large e : 4 <= e <= 15 -> B e = 16.
Proof.
  intros He. apply Z.eqb_eq.
  apply (all_range_spec 4 12 (fun e => B e =? 16)); [vm_compute; done | lia].
Qed.

Lemma decode_large e m : 4 <= e <= 15 -> 0 <= m <= 15 -> e * 16 + m + 1 <= 254 ->
  decode_size (e * 16 + m + 1) = (m + 16) * 2 ^ e.
Proof.
  intros He Hm Hc. rewrite decode_size_view by lia. unfold decode_view.
  replace (e * 16 + m + 1 - 1) with (e * 16 + m) by lia.
  replace ((e * 16 + m) / 16) with e by zlia. replace ((e * 16 + m) mod 16) with m by zlia.
  by rewrite B_large.
Qed.

Lemma encode_size_large x :
  256 < x <= 950272 ->
  best_code x (encode_size x) /\ 16 * (decode_size (encode_size x) - x) <= x.
Proof.
  intros Hx. destruct (large_exponent x Hx) as (e & He & Hb).
  destruct (encode_size_large_exp x e He Hx Hb) as (e' & m & -> & He' & Hm & Hc & Hle & Hp).
  assert (0 < 2 ^ e') by (apply Z.pow_pos_nonneg; lia).
  assert (2 ^ e' = 2 * 2 ^ (e' - 1)) by (rewrite <- Z.pow_succ_r by lia; f_equal; lia).
  rewrite decode_large by lia.
  destruct (Z.eqb_spec m 0) as [->|].
  - destruct (Z.eqb_spec e' 4); [done|]. split; [|nia].
    apply best_code_pred; [lia|by rewrite decode_large by lia|intros _].
    replace (e' * 16 + 0 + 1 - 1) with ((e' - 1) * 16 + 15 + 1) by lia.
    rewrite decode_large by lia. lia.
  - split; [|nia]. apply best_code_pred; [lia|by rewrite decode_large by lia|intros _].
    replace (e' * 16 + m + 1 - 1) with (e' * 16 + (m - 1) + 1) by lia.
    rewrite decode_large by lia. nia.
Qed.

Lemma encode_size_best x :
  0 <= x <= MAX_ENCODABLE_SIZE ->
  best_code x (encode_size x) /\ 16 * (decode_size (encode_size x) - x) <= x.
Proof.
  unfold MAX_ENCODABLE_SIZE. intros Hx. destruct (Z.le_gt_cases x 256).
  - split; [by apply encode_size_small; lia|]. apply Z.leb_le.
    apply (all_range_spec 0 257 (fun x => 16 * (decode_size (encode_size x) - x) <=? x));
      [vm_compute; done | lia].
  - apply encode_size_large. lia.
Qed.

Lemma bsearch_bounds fuel x lo hi c :
  lo <= hi -> bsearch fuel x lo hi = Some c -> lo <= c <= hi.
Proof.
  revert lo hi. induction fuel as [|fuel IH]; intros lo hi Hle; cbn [bsearch]; cbv zeta.
  - destruct (Z.ltb_spec lo hi); [done|]. intros [= <-]. lia.
  - destruct (Z.ltb_spec lo hi); [|intros [= <-]; lia].
    assert (lo <= (lo + hi) / 2 < hi) by (split; [apply Z.div_le_lower_bound|apply Z.div_lt_upper_bound]; lia).
    destruct (x <=? _); intros E; apply IH in E; lia.
Qed.

(** ** Properties *)

(** C38: every encodable size is rounded up to the next representable value:
    the chosen code decodes to at least the size, every smaller code decodes
    to less, and the rounding error is at most 6.25%.  Sizes beyond the
    maximum get [INVALID_SIZE_CODE]. *)
Theorem encode_size_correct x (Hx : fits 64 x) :
  (x <= MAX_ENCODABLE_SIZE ->
     0 <= encode_size x <= 254 /\ x <= decode_size (encode_size x) /\
     (forall d, 0 <= d < encode_size x -> decode_size d < x) /\
     16 * (decode_size (encode_size x) - x) <= x) /\
  (MAX_ENCODABLE_SIZE < x -> encode_size x = 255).
Proof.
  unfold MAX_ENCODABLE_SIZE. split.
  - intros Hm. destruct (encode_size_best x) as [(Hc & Hl & Hd) Hr];
      [unfold MAX_ENCODABLE_SIZE; zlia|].
    split_and!; try done; try lia.
    assert (encode_size x <> 255) as Hne by (intros E; rewrite E in Hr; change (decode_size 255) with (2 ^ 64 - 1) in Hr; lia). lia.
  - intros Hm. unfold encode_size.
    change (ELAST 2) with 112. change (ELAST 3) with 240. change (ELAST 15) with 950272.
    change (EFIRST 4) with 256. by rewrite !(proj2 (Z.leb_gt x _)) by lia.
Qed.

Lemma encode_size_correct_witness : decode_size (encode_size 1000) = 1024 /\ 1000 <= 1024.
Proof.
  split; [vm_compute; done|].
  destruct (encode_size_correct 1000) as [H _]; [zlia|].
  destruct H as (_ & H & _); [vm_compute; done|]. exact H.
Defined.

(** C39: codes and sizes are in order-preserving correspondence: encoding the
    value of any valid code gives the code back, decoding is strictly
    increasing and encoding is monotone. *)
Theorem size_code_roundtrip c d (Hc : 0 <= c <= 254) (Hd : 0 <= d <= 254) :
  encode_size (decode_size c) = c /\
  (c < d -> decode_size c < decode_size d) /\
  (forall x y, 0 <= x <= y -> y <= MAX_ENCODABLE_SIZE -> encode_size x <= encode_size y).
Proof.
  split_and!.
  - assert (0 <= decode_size c <= MAX_ENCODABLE_SIZE) as Hb.
    { assert (decode_size 0 = 0) as E0 by done. assert (decode_size 254 = 950272) as E1 by done.
      unfold MAX_ENCODABLE_SIZE. destruct (Z.eq_dec c 0) as [->|]; [lia|].
      destruct (Z.eq_dec c 254) as [->|]; [lia|].
      pose proof (decode_size_mono 0 c). pose proof (decode_size_mono c 254). lia. }
    destruct (encode_size_best _ Hb) as [Hbest _].
    eapply best_code_unique; [exact Hbest|]. apply best_code_pred; [lia..|intros].
    apply decode_size_mono; lia.
  - intros. apply decode_size_mono; lia.
  - intros x y Hx Hy. destruct (encode_size_best x) as [(Hbx & Hlx & Hpx) _]; [lia|].
    destruct (encode_size_best y) as [(Hby & Hly & Hpy) _]; [lia|].
    destruct (Z.le_gt_cases (encode_size x) (encode_size y)); [done|].
    specialize (Hpx (encode_size y) ltac:(lia)). lia.
Qed.

Lemma size_code_roundtrip_witness : encode_size (decode_size 200) = 200.
Proof. destruct (size_code_roundtrip 200 201) as [H _]; [lia..|]. exact H. Defined.

(** C40: the table search agrees with the arithmetic encoder.  For alignments
    of up to 30 bits, where the [int] shift in the code is defined, and a size
    whose aligned unit count is encodable, [encode_size_aligned] terminates with
    the code [encode_size] computes for the unit count, and updates the
    size to the decoded value, which is aligned and no smaller than the
    input. *)
Theorem encode_size_aligned_equiv size ab (Hs : 0 <= size) (Hab : 0 <= ab <= 30)
    (Hx : (size + 2 ^ ab - 1) / 2 ^ ab <= MAX_ENCODABLE_SIZE) :
  let x := (size + 2 ^ ab - 1) / 2 ^ ab in
  encode_size_aligned size ab
    = Some (encode_size x, decode_size_aligned (encode_size x) ab) /\
  size <= decode_size_aligned (encode_size x) ab /\
  decode_size_aligned (encode_size x) ab mod 2 ^ ab = 0.
Proof.
  intros x. assert (0 < 2 ^ ab) as Hp by (apply Z.pow_pos_nonneg; lia).
  assert (2 ^ ab <= 2 ^ 30) as Hp2 by (apply Z.pow_le_mono_r; lia).
  pose proof (Z.div_mod (size + 2 ^ ab - 1) (2 ^ ab) ltac:(lia)) as Hdm.
  pose proof (Z.mod_pos_bound (size + 2 ^ ab - 1) (2 ^ ab) Hp) as Hmb.
  fold x in Hdm, Hx. assert (0 <= x) as Hx0 by (apply Z.div_pos; lia). clearbody x.
  destruct (encode_size_best x (conj Hx0 Hx)) as [(Hc & Hl & Hd) Hr].
  unfold MAX_ENCODABLE_SIZE in *.
  assert (decode_size_aligned (encode_size x) ab = decode_size (encode_size x) * 2 ^ ab) as E.
  { unfold decode_size_aligned. rewrite Z.shiftl_mul_pow2 by lia. apply wrap_small. unfold fits. nia. }
  assert (Z.shiftr (align_up size (sext 32 (Z.shiftl 1 ab))) ab = x) as Ex.
  { rewrite Z.shiftl_1_l, (sext_small 32) by (cbn; lia). rewrite align_up_pow2 by nia. rewrite Z.shiftr_div_pow2, Z.div_mul by lia.
    rewrite Hdm. rewrite Z.mul_comm, Z.div_add_l by lia. rewrite Z.div_small by lia. lia. }
  split_and!.
  - unfold encode_size_aligned. rewrite Ex.
    destruct (bsearch_best 8 x 0 255) as (c & -> & Hbest);
      [lia..|change (decode_size 255) with (2 ^ 64 - 1); lia|lia|].
    assert (c = encode_size x) as -> by (eapply best_code_unique; [exact Hbest|exact (conj Hc (conj Hl Hd))]).
    cbn [mbind option_bind]. by rewrite tab_lookup by lia.
  - rewrite E. nia.
  - rewrite E. apply Z.mod_mul. lia.
Qed.

Lemma encode_size_aligned_equiv_witness : encode_size_aligned 1000 4 = Some (36, 1024).
Proof.
  destruct (encode_size_aligned_equiv 1000 4) as [H _]; [lia..|vm_compute; done|].
  etransitivity; [exact H|vm_compute; done].
Defined.

(** The list of exceptions in the header comment is not complete: the odd
    sizes from 17 to 31 are not represented exactly either. *)
Lemma odd_sizes_inexact :
  (decode_size ∘ encode_size) <$> [17; 19; 21; 23; 25; 27; 29; 31]
  = [18; 20; 22; 24; 26; 28; 30; 32].
Proof. vm_compute. reflexivity. Qed.
