(* ===== verification/Shared.v ===== *)
(** * Shared state of the transaction engine and the programs that run on it

    The data the transaction code reads and writes -- transaction contexts
    ([dbcore/xid.h]), version objects and tuples ([object.h], [tuple.h]), OID
    arrays, the global readers list ([dbcore/serial.h]) and the transaction
    objects themselves ([txn.h]) -- as one memory record, and the monad its
    operations are written in.

    Every access of shared memory is preceded by an arbitrary step of the
    other threads ([interfere]), so a theorem that quantifies over the
    [Platform] holds for every interleaving of the operation with the rest of
    the system; retry loops carry [fuel] and end in [Spinning] when it is
    used up.  What the engine calls but this file does not model -- the log,
    the index and the OID allocator -- is the interface [Backend]. *)
From stdpp Require Import base numbers list gmap.
From Stdlib Require Import ZArith Lia.
From S2P Require Import Prelude FatPtr SizeEncode.

Local Open Scope Z_scope.

(* src: dbcore/xid.h:15-15 txn_state *)
Inductive txn_state := TXN_ACTIVE | TXN_COMMITTING | TXN_CMMTD | TXN_ABRTD | TXN_INVALID.

#[global] Instance txn_state_eq_dec : EqDecision txn_state.
Proof. solve_decision. Defined.

(** A [varstr *] as tuples hold it: null for a delete, the reserved address
    [DEFUNCT_TUPLE_MARK], or a string of bytes. *)
(* src: tuple.h:16-17 DEFUNCT_TUPLE_MARK *)
Inductive varstr_ptr :=
| NULL_VARSTR
| DEFUNCT_TUPLE_MARK
| VARSTR (bytes : list Z).

#[global] Instance varstr_ptr_eq_dec : EqDecision varstr_ptr.
Proof. solve_decision. Defined.

(** What [pvalue->size()] and [tuple_value->size()] return. *)
Definition varstr_size (v : varstr_ptr) : Z :=
  match v with VARSTR b => Z.of_nat (length b) | _ => 0 end.

(** ** Contexts, tuples, objects *)

Module xid_context.

(* src: dbcore/xid.h:17-33 xid_context *)
Record t := mk {
  begin_epoch : Z;
  owner : XID.t;
  begin_ : Z;
  end_ : Z;
  pstamp : Z;
  sstamp : Z;
  xct : Z;
  ct3 : Z;
  last_safesnap : Z;
  state : txn_state }.

Definition set_begin_epoch (v : Z) (x : t) : t :=
  mk v (owner x) (begin_ x) (end_ x) (pstamp x) (sstamp x) (xct x) (ct3 x) (last_safesnap x)
     (state x).
Definition set_owner (v : XID.t) (x : t) : t :=
  mk (begin_epoch x) v (begin_ x) (end_ x) (pstamp x) (sstamp x) (xct x) (ct3 x)
     (last_safesnap x) (state x).
Definition set_begin_ (v : Z) (x : t) : t :=
  mk (begin_epoch x) (owner x) v (end_ x) (pstamp x) (sstamp x) (xct x) (ct3 x)
     (last_safesnap x) (state x).
Definition set_end_ (v : Z) (x : t) : t :=
  mk (begin_epoch x) (owner x) (begin_ x) v (pstamp x) (sstamp x) (xct x) (ct3 x)
     (last_safesnap x) (state x).
Definition set_pstamp (v : Z) (x : t) : t :=
  mk (begin_epoch x) (owner x) (begin_ x) (end_ x) v (sstamp x) (xct x) (ct3 x)
     (last_safesnap x) (state x).
Definition set_sstamp (v : Z) (x : t) : t :=
  mk (begin_epoch x) (owner x) (begin_ x) (end_ x) (pstamp x) v (xct x) (ct3 x)
     (last_safesnap x) (state x).
Definition set_xct (v : Z) (x : t) : t :=
  mk (begin_epoch x) (owner x) (begin_ x) (end_ x) (pstamp x) (sstamp x) v (ct3 x)
     (last_safesnap x) (state x).
Definition set_ct3 (v : Z) (x : t) : t :=
  mk (begin_epoch x) (owner x) (begin_ x) (end_ x) (pstamp x) (sstamp x) (xct x) v
     (last_safesnap x) (state x).
Definition set_last_safesnap (v : Z) (x : t) : t :=
  mk (begin_epoch x) (owner x) (begin_ x) (end_ x) (pstamp x) (sstamp x) (xct x) (ct3 x) v
     (state x).
Definition set_state (v : txn_state) (x : t) : t :=
  mk (begin_epoch x) (owner x) (begin_ x) (end_ x) (pstamp x) (sstamp x) (xct x) (ct3 x)
     (last_safesnap x) v.

End xid_context.

Module thread_data.

(* src: dbcore/xid.h:106-111 thread_data *)
Record t := mk {
  epoch : Z;
  bitmap : Z;
  base_id : Z;
  initialized : bool }.

Definition set_epoch (v : Z) (x : t) : t :=
  mk v (bitmap x) (base_id x) (initialized x).
Definition set_bitmap (v : Z) (x : t) : t :=
  mk (epoch x) v (base_id x) (initialized x).
Definition set_base_id (v : Z) (x : t) : t :=
  mk (epoch x) (bitmap x) v (initialized x).
Definition set_initialized (v : bool) (x : t) : t :=
  mk (epoch x) (bitmap x) (base_id x) v.

End thread_data.

Module dbtuple.

(* src: tuple.h:29-56 dbtuple *)
Record t := mk {
  readers_bitmap : list Z;
  sstamp : fat_ptr.t;
  xstamp : Z;
  preader : Z;
  s2 : Z;
  size : Z;
  pvalue : varstr_ptr;
  value_start : list Z }.

Definition set_readers_bitmap (v : list Z) (x : t) : t :=
  mk v (sstamp x) (xstamp x) (preader x) (s2 x) (size x) (pvalue x) (value_start x).
Definition set_sstamp (v : fat_ptr.t) (x : t) : t :=
  mk (readers_bitmap x) v (xstamp x) (preader x) (s2 x) (size x) (pvalue x) (value_start x).
Definition set_xstamp (v : Z) (x : t) : t :=
  mk (readers_bitmap x) (sstamp x) v (preader x) (s2 x) (size x) (pvalue x) (value_start x).
Definition set_preader (v : Z) (x : t) : t :=
  mk (readers_bitmap x) (sstamp x) (xstamp x) v (s2 x) (size x) (pvalue x) (value_start x).
Definition set_s2 (v : Z) (x : t) : t :=
  mk (readers_bitmap x) (sstamp x) (xstamp x) (preader x) v (size x) (pvalue x) (value_start x).
Definition set_size (v : Z) (x : t) : t :=
  mk (readers_bitmap x) (sstamp x) (xstamp x) (preader x) (s2 x) v (pvalue x) (value_start x).
Definition set_pvalue (v : varstr_ptr) (x : t) : t :=
  mk (readers_bitmap x) (sstamp x) (xstamp x) (preader x) (s2 x) (size x) v (value_start x).
Definition set_value_start (v : list Z) (x : t) : t :=
  mk (readers_bitmap x) (sstamp x) (xstamp x) (preader x) (s2 x) (size x) (pvalue x) v.

End dbtuple.

Module object.

(* src: object.h:15-29 object *)
Record t := mk {
  _pdest : fat_ptr.t;
  _next : fat_ptr.t;
  _clsn : fat_ptr.t;
  _alloc_epoch : Z;
  tuple : dbtuple.t;
  recycle_oid : Z * Z }.

Definition set__pdest (v : fat_ptr.t) (x : t) : t :=
  mk v (_next x) (_clsn x) (_alloc_epoch x) (tuple x) (recycle_oid x).
Definition set__next (v : fat_ptr.t) (x : t) : t :=
  mk (_pdest x) v (_clsn x) (_alloc_epoch x) (tuple x) (recycle_oid x).
Definition set__clsn (v : fat_ptr.t) (x : t) : t :=
  mk (_pdest x) (_next x) v (_alloc_epoch x) (tuple x) (recycle_oid x).
Definition set__alloc_epoch (v : Z) (x : t) : t :=
  mk (_pdest x) (_next x) (_clsn x) v (tuple x) (recycle_oid x).
Definition set_tuple (v : dbtuple.t) (x : t) : t :=
  mk (_pdest x) (_next x) (_clsn x) (_alloc_epoch x) v (recycle_oid x).
Definition set_recycle_oid (v : Z * Z) (x : t) : t :=
  mk (_pdest x) (_next x) (_clsn x) (_alloc_epoch x) (tuple x) v.

End object.

(** An entry of a write set: the new version and the OID slot it went to. *)
(* src: txn.h:56-66 write_record_t *)
Record write_record_t := write_record { new_object : fat_ptr.t; oa : Z; oid : Z }.

(** The [transaction] object; [read_set] holds tuple addresses and
    [absent_set] maps index nodes to the version seen. *)
Module transaction.

(* src: txn.h:254-266 transaction *)
Record t := mk {
  flags : Z;
  xid : XID.t;
  xc : Z;
  log : bool;
  write_set : list write_record_t;
  read_set : list Z;
  absent_set : gmap Z Z;
  updated_oids_head : fat_ptr.t;
  updated_oids_tail : fat_ptr.t }.

Definition set_flags (v : Z) (x : t) : t :=
  mk v (xid x) (xc x) (log x) (write_set x) (read_set x) (absent_set x) (updated_oids_head x)
     (updated_oids_tail x).
Definition set_xid (v : XID.t) (x : t) : t :=
  mk (flags x) v (xc x) (log x) (write_set x) (read_set x) (absent_set x) (updated_oids_head x)
     (updated_oids_tail x).
Definition set_xc (v : Z) (x : t) : t :=
  mk (flags x) (xid x) v (log x) (write_set x) (read_set x) (absent_set x)
     (updated_oids_head x) (updated_oids_tail x).
Definition set_log (v : bool) (x : t) : t :=
  mk (flags x) (xid x) (xc x) v (write_set x) (read_set x) (absent_set x) (updated_oids_head x)
     (updated_oids_tail x).
Definition set_write_set (v : list write_record_t) (x : t) : t :=
  mk (flags x) (xid x) (xc x) (log x) v (read_set x) (absent_set x) (updated_oids_head x)
     (updated_oids_tail x).
Definition set_read_set (v : list Z) (x : t) : t :=
  mk (flags x) (xid x) (xc x) (log x) (write_set x) v (absent_set x) (updated_oids_head x)
     (updated_oids_tail x).
Definition set_absent_set (v : gmap Z Z) (x : t) : t :=
  mk (flags x) (xid x) (xc x) (log x) (write_set x) (read_set x) v (updated_oids_head x)
     (updated_oids_tail x).
Definition set_updated_oids_head (v : fat_ptr.t) (x : t) : t :=
  mk (flags x) (xid x) (xc x) (log x) (write_set x) (read_set x) (absent_set x) v
     (updated_oids_tail x).
Definition set_updated_oids_tail (v : fat_ptr.t) (x : t) : t :=
  mk (flags x) (xid x) (xc x) (log x) (write_set x) (read_set x) (absent_set x)
     (updated_oids_head x) v.

End transaction.

(** ** Lists of reclaimed objects

    The lists a pool holds for one size are a Rocq list, so [next] is left
    out. *)

Module object_list.

(* src: dbcore/sm-alloc.h:41-55 MM::object_list *)
Record t := mk {
  head : fat_ptr.t;
  tail : fat_ptr.t;
  nobjects : Z }.

(* src: dbcore/sm-alloc.h:42-42 MM::object_list::CAPACITY *)
Definition CAPACITY : Z := 200000.
(* src: dbcore/sm-alloc.h:51-51 MM::object_list::object_list *)
Definition empty : t := mk NULL_PTR NULL_PTR 0.

End object_list.

(** ** The log, the index and the OID allocator, as the engine uses them

    [log_pre_commit] returns the commit LSN (0 on failure); [log_request] and
    [log_commit] also return the [_pdest] fields they fill in.  [index_find]
    is [find_unlocked]: the OID stored under a key, and the leaf it looked at
    with that leaf's version; [index_put] stores an OID and reports the leaf
    with its version before and after. *)

Inductive log_record_type := LOG_INSERT | LOG_INSERT_INDEX | LOG_UPDATE | LOG_DELETE.

Record log_op := mk_log_op {
  lo_type : log_record_type;
  lo_fid : Z;
  lo_oid : Z;
  lo_payload : list Z;
  lo_size_code : Z;
  lo_align_bits : Z;
  lo_pdest : option Z }.

Class Backend := {
  log_t : Type;
  log_cur_lsn : log_t -> Z;
  log_new_tx : Z -> log_t -> log_t;
  log_request : Z -> log_op -> log_t -> log_t * list (Z * fat_ptr.t);
  log_pre_commit : Z -> log_t -> Z * log_t;
  log_commit : Z -> log_t -> log_t * list (Z * fat_ptr.t);
  log_discard : Z -> log_t -> log_t;
  log_load : log_t -> fat_ptr.t -> list Z;
  index_t : Type;
  index_find : index_t -> Z -> list Z -> option Z * (Z * Z);
  index_put : index_t -> Z -> list Z -> Z -> index_t * (Z * (Z * Z));
  index_node_version : index_t -> Z -> Z;
  oalloc_t : Type;
  oid_alloc : Z -> oalloc_t -> res (Z * oalloc_t) }.

(** ** Memory *)

Section memory.
Context {BE : Backend}.

Record mem := mk_mem {
  contexts : gmap Z xid_context.t;
  objects : gmap Z object.t;
  oids : gmap (Z * Z) fat_ptr.t;
  rlist_bitmap : list Z;
  rlist_xids : gmap Z XID.t;
  last_read_mostly_clsns : gmap Z Z;
  txns : gmap Z transaction.t;
  tls_unlinked_objects : fat_ptr.t;
  recycle_oid_list : fat_ptr.t;
  safesnap_lsn : Z;
  mm_epoch : Z;
  trim_lsn : Z;
  epoch_excl_begin_lsn : gmap Z Z;
  epoch_reclaim_lsn : gmap Z Z;
  central_object_pool : gmap (Z * Z) (list object_list.t);
  tls_object_pool : gmap Z object_list.t;
  epoch_tls : Z * Z;
  node_memory : gmap Z Z;
  tls_node_memory : option (Z * Z);
  xid_bitmaps : gmap (Z * Z) Z;
  xid_widx : gmap Z Z;
  xid_cur_epoch : Z;
  xid_tls : thread_data.t;
  mlog : log_t;
  mindex : index_t;
  oalloc : oalloc_t }.

Definition set_contexts (v : gmap Z xid_context.t) (x : mem) : mem :=
  mk_mem v (objects x) (oids x) (rlist_bitmap x) (rlist_xids x) (last_read_mostly_clsns x)
     (txns x) (tls_unlinked_objects x) (recycle_oid_list x) (safesnap_lsn x) (mm_epoch x)
     (trim_lsn x) (epoch_excl_begin_lsn x) (epoch_reclaim_lsn x) (central_object_pool x)
     (tls_object_pool x) (epoch_tls x) (node_memory x) (tls_node_memory x) (xid_bitmaps x)
     (xid_widx x) (xid_cur_epoch x) (xid_tls x) (mlog x) (mindex x) (oalloc x).
Definition set_objects (v : gmap Z object.t) (x : mem) : mem :=
  mk_mem (contexts x) v (oids x) (rlist_bitmap x) (rlist_xids x) (last_read_mostly_clsns x)
     (txns x) (tls_unlinked_objects x) (recycle_oid_list x) (safesnap_lsn x) (mm_epoch x)
     (trim_lsn x) (epoch_excl_begin_lsn x) (epoch_reclaim_lsn x) (central_object_pool x)
     (tls_object_pool x) (epoch_tls x) (node_memory x) (tls_node_memory x) (xid_bitmaps x)
     (xid_widx x) (xid_cur_epoch x) (xid_tls x) (mlog x) (mindex x) (oalloc x).
Definition set_oids (v : gmap (Z * Z) fat_ptr.t) (x : mem) : mem :=
  mk_mem (contexts x) (objects x) v (rlist_bitmap x) (rlist_xids x) (last_read_mostly_clsns x)
     (txns x) (tls_unlinked_objects x) (recycle_oid_list x) (safesnap_lsn x) (mm_epoch x)
     (trim_lsn x) (epoch_excl_begin_lsn x) (epoch_reclaim_lsn x) (central_object_pool x)
     (tls_object_pool x) (epoch_tls x) (node_memory x) (tls_node_memory x) (xid_bitmaps x)
     (xid_widx x) (xid_cur_epoch x) (xid_tls x) (mlog x) (mindex x) (oalloc x).
Definition set_rlist_bitmap (v : list Z) (x : mem) : mem :=
  mk_mem (contexts x) (objects x) (oids x) v (rlist_xids x) (last_read_mostly_clsns x) (txns x)
     (tls_unlinked_objects x) (recycle_oid_list x) (safesnap_lsn x) (mm_epoch x) (trim_lsn x)
     (epoch_excl_begin_lsn x) (epoch_reclaim_lsn x) (central_object_pool x) (tls_object_pool x)
     (epoch_tls x) (node_memory x) (tls_node_memory x) (xid_bitmaps x) (xid_widx x)
     (xid_cur_epoch x) (xid_tls x) (mlog x) (mindex x) (oalloc x).
Definition set_rlist_xids (v : gmap Z XID.t) (x : mem) : mem :=
  mk_mem (contexts x) (objects x) (oids x) (rlist_bitmap x) v (last_read_mostly_clsns x)
     (txns x) (tls_unlinked_objects x) (recycle_oid_list x) (safesnap_lsn x) (mm_epoch x)
     (trim_lsn x) (epoch_excl_begin_lsn x) (epoch_reclaim_lsn x) (central_object_pool x)
     (tls_object_pool x) (epoch_tls x) (node_memory x) (tls_node_memory x) (xid_bitmaps x)
     (xid_widx x) (xid_cur_epoch x) (xid_tls x) (mlog x) (mindex x) (oalloc x).
Definition set_last_read_mostly_clsns (v : gmap Z Z) (x : mem) : mem :=
  mk_mem (contexts x) (objects x) (oids x) (rlist_bitmap x) (rlist_xids x) v (txns x)
     (tls_unlinked_objects x) (recycle_oid_list x) (safesnap_lsn x) (mm_epoch x) (trim_lsn x)
     (epoch_excl_begin_lsn x) (epoch_reclaim_lsn x) (central_object_pool x) (tls_object_pool x)
     (epoch_tls x) (node_memory x) (tls_node_memory x) (xid_bitmaps x) (xid_widx x)
     (xid_cur_epoch x) (xid_tls x) (mlog x) (mindex x) (oalloc x).
Definition set_txns (v : gmap Z transaction.t) (x : mem) : mem :=
  mk_mem (contexts x) (objects x) (oids x) (rlist_bitmap x) (rlist_xids x)
     (last_read_mostly_clsns x) v (tls_unlinked_objects x) (recycle_oid_list x)
     (safesnap_lsn x) (mm_epoch x) (trim_lsn x) (epoch_excl_begin_lsn x) (epoch_reclaim_lsn x)
     (central_object_pool x) (tls_object_pool x) (epoch_tls x) (node_memory x)
     (tls_node_memory x) (xid_bitmaps x) (xid_widx x) (xid_cur_epoch x) (xid_tls x) (mlog x)
     (mindex x) (oalloc x).
Definition set_tls_unlinked_objects (v : fat_ptr.t) (x : mem) : mem :=
  mk_mem (contexts x) (objects x) (oids x) (rlist_bitmap x) (rlist_xids x)
     (last_read_mostly_clsns x) (txns x) v (recycle_oid_list x) (safesnap_lsn x) (mm_epoch x)
     (trim_lsn x) (epoch_excl_begin_lsn x) (epoch_reclaim_lsn x) (central_object_pool x)
     (tls_object_pool x) (epoch_tls x) (node_memory x) (tls_node_memory x) (xid_bitmaps x)
     (xid_widx x) (xid_cur_epoch x) (xid_tls x) (mlog x) (mindex x) (oalloc x).
Definition set_recycle_oid_list (v : fat_ptr.t) (x : mem) : mem :=
  mk_mem (contexts x) (objects x) (oids x) (rlist_bitmap x) (rlist_xids x)
     (last_read_mostly_clsns x) (txns x) (tls_unlinked_objects x) v (safesnap_lsn x)
     (mm_epoch x) (trim_lsn x) (epoch_excl_begin_lsn x) (epoch_reclaim_lsn x)
     (central_object_pool x) (tls_object_pool x) (epoch_tls x) (node_memory x)
     (tls_node_memory x) (xid_bitmaps x) (xid_widx x) (xid_cur_epoch x) (xid_tls x) (mlog x)
     (mindex x) (oalloc x).
Definition set_safesnap_lsn (v : Z) (x : mem) : mem :=
  mk_mem (contexts x) (objects x) (oids x) (rlist_bitmap x) (rlist_xids x)
     (last_read_mostly_clsns x) (txns x) (tls_unlinked_objects x) (recycle_oid_list x) v
     (mm_epoch x) (trim_lsn x) (epoch_excl_begin_lsn x) (epoch_reclaim_lsn x)
     (central_object_pool x) (tls_object_pool x) (epoch_tls x) (node_memory x)
     (tls_node_memory x) (xid_bitmaps x) (xid_widx x) (xid_cur_epoch x) (xid_tls x) (mlog x)
     (mindex x) (oalloc x).
Definition set_mm_epoch (v : Z) (x : mem) : mem :=
  mk_mem (contexts x) (objects x) (oids x) (rlist_bitmap x) (rlist_xids x)
     (last_read_mostly_clsns x) (txns x) (tls_unlinked_objects x) (recycle_oid_list x)
     (safesnap_lsn x) v (trim_lsn x) (epoch_excl_begin_lsn x) (epoch_reclaim_lsn x)
     (central_object_pool x) (tls_object_pool x) (epoch_tls x) (node_memory x)
     (tls_node_memory x) (xid_bitmaps x) (xid_widx x) (xid_cur_epoch x) (xid_tls x) (mlog x)
     (mindex x) (oalloc x).
Definition set_trim_lsn (v : Z) (x : mem) : mem :=
  mk_mem (contexts x) (objects x) (oids x) (rlist_bitmap x) (rlist_xids x)
     (last_read_mostly_clsns x) (txns x) (tls_unlinked_objects x) (recycle_oid_list x)
     (safesnap_lsn x) (mm_epoch x) v (epoch_excl_begin_lsn x) (epoch_reclaim_lsn x)
     (central_object_pool x) (tls_object_pool x) (epoch_tls x) (node_memory x)
     (tls_node_memory x) (xid_bitmaps x) (xid_widx x) (xid_cur_epoch x) (xid_tls x) (mlog x)
     (mindex x) (oalloc x).
Definition set_epoch_excl_begin_lsn (v : gmap Z Z) (x : mem) : mem :=
  mk_mem (contexts x) (objects x) (oids x) (rlist_bitmap x) (rlist_xids x)
     (last_read_mostly_clsns x) (txns x) (tls_unlinked_objects x) (recycle_oid_list x)
     (safesnap_lsn x) (mm_epoch x) (trim_lsn x) v (epoch_reclaim_lsn x) (central_object_pool x)
     (tls_object_pool x) (epoch_tls x) (node_memory x) (tls_node_memory x) (xid_bitmaps x)
     (xid_widx x) (xid_cur_epoch x) (xid_tls x) (mlog x) (mindex x) (oalloc x).
Definition set_epoch_reclaim_lsn (v : gmap Z Z) (x : mem) : mem :=
  mk_mem (contexts x) (objects x) (oids x) (rlist_bitmap x) (rlist_xids x)
     (last_read_mostly_clsns x) (txns x) (tls_unlinked_objects x) (recycle_oid_list x)
     (safesnap_lsn x) (mm_epoch x) (trim_lsn x) (epoch_excl_begin_lsn x) v
     (central_object_pool x) (tls_object_pool x) (epoch_tls x) (node_memory x)
     (tls_node_memory x) (xid_bitmaps x) (xid_widx x) (xid_cur_epoch x) (xid_tls x) (mlog x)
     (mindex x) (oalloc x).
Definition set_central_object_pool (v : gmap (Z * Z) (list object_list.t)) (x : mem) : mem :=
  mk_mem (contexts x) (objects x) (oids x) (rlist_bitmap x) (rlist_xids x)
     (last_read_mostly_clsns x) (txns x) (tls_unlinked_objects x) (recycle_oid_list x)
     (safesnap_lsn x) (mm_epoch x) (trim_lsn x) (epoch_excl_begin_lsn x) (epoch_reclaim_lsn x)
     v (tls_object_pool x) (epoch_tls x) (node_memory x) (tls_node_memory x) (xid_bitmaps x)
     (xid_widx x) (xid_cur_epoch x) (xid_tls x) (mlog x) (mindex x) (oalloc x).
Definition set_tls_object_pool (v : gmap Z object_list.t) (x : mem) : mem :=
  mk_mem (contexts x) (objects x) (oids x) (rlist_bitmap x) (rlist_xids x)
     (last_read_mostly_clsns x) (txns x) (tls_unlinked_objects x) (recycle_oid_list x)
     (safesnap_lsn x) (mm_epoch x) (trim_lsn x) (epoch_excl_begin_lsn x) (epoch_reclaim_lsn x)
     (central_object_pool x) v (epoch_tls x) (node_memory x) (tls_node_memory x)
     (xid_bitmaps x) (xid_widx x) (xid_cur_epoch x) (xid_tls x) (mlog x) (mindex x) (oalloc x).
Definition set_epoch_tls (v : Z * Z) (x : mem) : mem :=
  mk_mem (contexts x) (objects x) (oids x) (rlist_bitmap x) (rlist_xids x)
     (last_read_mostly_clsns x) (txns x) (tls_unlinked_objects x) (recycle_oid_list x)
     (safesnap_lsn x) (mm_epoch x) (trim_lsn x) (epoch_excl_begin_lsn x) (epoch_reclaim_lsn x)
     (central_object_pool x) (tls_object_pool x) v (node_memory x) (tls_node_memory x)
     (xid_bitmaps x) (xid_widx x) (xid_cur_epoch x) (xid_tls x) (mlog x) (mindex x) (oalloc x).
Definition set_node_memory (v : gmap Z Z) (x : mem) : mem :=
  mk_mem (contexts x) (objects x) (oids x) (rlist_bitmap x) (rlist_xids x)
     (last_read_mostly_clsns x) (txns x) (tls_unlinked_objects x) (recycle_oid_list x)
     (safesnap_lsn x) (mm_epoch x) (trim_lsn x) (epoch_excl_begin_lsn x) (epoch_reclaim_lsn x)
     (central_object_pool x) (tls_object_pool x) (epoch_tls x) v (tls_node_memory x)
     (xid_bitmaps x) (xid_widx x) (xid_cur_epoch x) (xid_tls x) (mlog x) (mindex x) (oalloc x).
Definition set_tls_node_memory (v : option (Z * Z)) (x : mem) : mem :=
  mk_mem (contexts x) (objects x) (oids x) (rlist_bitmap x) (rlist_xids x)
     (last_read_mostly_clsns x) (txns x) (tls_unlinked_objects x) (recycle_oid_list x)
     (safesnap_lsn x) (mm_epoch x) (trim_lsn x) (epoch_excl_begin_lsn x) (epoch_reclaim_lsn x)
     (central_object_pool x) (tls_object_pool x) (epoch_tls x) (node_memory x) v
     (xid_bitmaps x) (xid_widx x) (xid_cur_epoch x) (xid_tls x) (mlog x) (mindex x) (oalloc x).
Definition set_xid_bitmaps (v : gmap (Z * Z) Z) (x : mem) : mem :=
  mk_mem (contexts x) (objects x) (oids x) (rlist_bitmap x) (rlist_xids x)
     (last_read_mostly_clsns x) (txns x) (tls_unlinked_objects x) (recycle_oid_list x)
     (safesnap_lsn x) (mm_epoch x) (trim_lsn x) (epoch_excl_begin_lsn x) (epoch_reclaim_lsn x)
     (central_object_pool x) (tls_object_pool x) (epoch_tls x) (node_memory x)
     (tls_node_memory x) v (xid_widx x) (xid_cur_epoch x) (xid_tls x) (mlog x) (mindex x)
     (oalloc x).
Definition set_xid_widx (v : gmap Z Z) (x : mem) : mem :=
  mk_mem (contexts x) (objects x) (oids x) (rlist_bitmap x) (rlist_xids x)
     (last_read_mostly_clsns x) (txns x) (tls_unlinked_objects x) (recycle_oid_list x)
     (safesnap_lsn x) (mm_epoch x) (trim_lsn x) (epoch_excl_begin_lsn x) (epoch_reclaim_lsn x)
     (central_object_pool x) (tls_object_pool x) (epoch_tls x) (node_memory x)
     (tls_node_memory x) (xid_bitmaps x) v (xid_cur_epoch x) (xid_tls x) (mlog x) (mindex x)
     (oalloc x).
Definition set_xid_cur_epoch (v : Z) (x : mem) : mem :=
  mk_mem (contexts x) (objects x) (oids x) (rlist_bitmap x) (rlist_xids x)
     (last_read_mostly_clsns x) (txns x) (tls_unlinked_objects x) (recycle_oid_list x)
     (safesnap_lsn x) (mm_epoch x) (trim_lsn x) (epoch_excl_begin_lsn x) (epoch_reclaim_lsn x)
     (central_object_pool x) (tls_object_pool x) (epoch_tls x) (node_memory x)
     (tls_node_memory x) (xid_bitmaps x) (xid_widx x) v (xid_tls x) (mlog x) (mindex x)
     (oalloc x).
Definition set_xid_tls (v : thread_data.t) (x : mem) : mem :=
  mk_mem (contexts x) (objects x) (oids x) (rlist_bitmap x) (rlist_xids x)
     (last_read_mostly_clsns x) (txns x) (tls_unlinked_objects x) (recycle_oid_list x)
     (safesnap_lsn x) (mm_epoch x) (trim_lsn x) (epoch_excl_begin_lsn x) (epoch_reclaim_lsn x)
     (central_object_pool x) (tls_object_pool x) (epoch_tls x) (node_memory x)
     (tls_node_memory x) (xid_bitmaps x) (xid_widx x) (xid_cur_epoch x) v (mlog x) (mindex x)
     (oalloc x).
Definition set_mlog (v : log_t) (x : mem) : mem :=
  mk_mem (contexts x) (objects x) (oids x) (rlist_bitmap x) (rlist_xids x)
     (last_read_mostly_clsns x) (txns x) (tls_unlinked_objects x) (recycle_oid_list x)
     (safesnap_lsn x) (mm_epoch x) (trim_lsn x) (epoch_excl_begin_lsn x) (epoch_reclaim_lsn x)
     (central_object_pool x) (tls_object_pool x) (epoch_tls x) (node_memory x)
     (tls_node_memory x) (xid_bitmaps x) (xid_widx x) (xid_cur_epoch x) (xid_tls x) v
     (mindex x) (oalloc x).
Definition set_mindex (v : index_t) (x : mem) : mem :=
  mk_mem (contexts x) (objects x) (oids x) (rlist_bitmap x) (rlist_xids x)
     (last_read_mostly_clsns x) (txns x) (tls_unlinked_objects x) (recycle_oid_list x)
     (safesnap_lsn x) (mm_epoch x) (trim_lsn x) (epoch_excl_begin_lsn x) (epoch_reclaim_lsn x)
     (central_object_pool x) (tls_object_pool x) (epoch_tls x) (node_memory x)
     (tls_node_memory x) (xid_bitmaps x) (xid_widx x) (xid_cur_epoch x) (xid_tls x) (mlog x) v
     (oalloc x).
Definition set_oalloc (v : oalloc_t) (x : mem) : mem :=
  mk_mem (contexts x) (objects x) (oids x) (rlist_bitmap x) (rlist_xids x)
     (last_read_mostly_clsns x) (txns x) (tls_unlinked_objects x) (recycle_oid_list x)
     (safesnap_lsn x) (mm_epoch x) (trim_lsn x) (epoch_excl_begin_lsn x) (epoch_reclaim_lsn x)
     (central_object_pool x) (tls_object_pool x) (epoch_tls x) (node_memory x)
     (tls_node_memory x) (xid_bitmaps x) (xid_widx x) (xid_cur_epoch x) (xid_tls x) (mlog x)
     (mindex x) v.

End memory.
