(* ===== verification/Program.v ===== *)
(** * Programs over the shared memory

    The monad of the transaction code, its atomic accesses, and the two ways
    the development reasons about a program: [hoare], a partial-correctness
    triple for arbitrary interference, and [runs], the total result when the
    thread is undisturbed. *)
From stdpp Require Import base numbers list gmap.
From Stdlib Require Import ZArith Lia.
From S2P Require Import Prelude FatPtr Shared.

Local Open Scope Z_scope.

(** Build options ([Makefile], [macros.h]) and run-time options of [sysconf]. *)
(* src: dbcore/sm-config.h:10-57 sysconf *)
Class Config := {
  SSN : bool;
  SSI : bool;
  RC : bool;
  RC_SPIN : bool;
  PHANTOM_PROT : bool;
  EARLY_SSN_CHECK : bool;
  enable_safesnap : bool;
  enable_gc : bool;
  enable_ssi_read_only_opt : bool;
  ssn_read_opt_threshold : Z;
  worker_threads : Z }.

(* src: dbcore/sm-config.h:50-50 SSN_READ_OPT_DISABLED *)
Definition SSN_READ_OPT_DISABLED : Z := 2 ^ 64 - 1.
(* src: dbcore/sm-config.h:69-71 ssn_read_opt_enabled *)
Definition ssn_read_opt_enabled `{Config} : bool := ssn_read_opt_threshold <? SSN_READ_OPT_DISABLED.

(** The surroundings of one thread: what the other threads do before its
    [t]-th shared access, how often its retry loops may turn, the address
    [MM::allocate(size, epoch)] hands out together with the value it leaves in
    [tls_unlinked_objects], the thread's bit in readers bitmaps
    ([tls_bitmap_info]) and whether [xid_epochs.new_epoch()] succeeds. *)
Class Platform `{BE : Backend} := {
  interfere : nat -> mem -> mem;
  fuel : nat;
  mm_allocate : Z -> Z -> mem -> Z * fat_ptr.t;
  tls_entry : Z;
  tls_index : Z;
  xid_new_epoch : nat -> mem -> bool }.

Section program.
Context `{PL : Platform}.

Definition M (A : Type) : Type := mem -> nat -> res (A * (mem * nat)).

Definition ret {A} (a : A) : M A := fun m t => Ok (a, (m, t)).
Definition bind {A B} (c : M A) (k : A -> M B) : M B := fun m t =>
  match c m t with Ok (a, (m', t')) => k a m' t' | Throw e => Throw e end.
Definition throw {A} (e : error) : M A := fun _ _ => Throw e.

(** One access of shared memory, after whatever the other threads did. *)
Definition atomic {A} (f : mem -> res (A * mem)) : M A := fun m t =>
  match f (interfere t m) with Ok (a, m') => Ok (a, (m', S t)) | Throw e => Throw e end.

Definition rd {A} (f : mem -> A) : M A := atomic (fun m => Ok (f m, m)).
Definition wr (g : mem -> mem) : M unit := atomic (fun m => Ok (tt, g m)).

(** [ALWAYS_ASSERT(b)]. *)
Definition always_assert (b : bool) : M unit := if b then ret tt else throw assertion_failure.

Definition lift {A} (r : res A) : M A := match r with Ok a => ret a | Throw e => throw e end.

(** A loop whose body either goes round with a new local state or leaves. *)
Fixpoint loop {S A} (n : nat) (body : S -> M (S + A)) (s : S) : M A :=
  match n with
  | O => throw Spinning
  | Datatypes.S n =>
      bind (body s) (fun r => match r with inl s' => loop n body s' | inr a => ret a end)
  end.

(** [for (auto &x : l)], threading a local state; [inr] leaves early. *)
Fixpoint for_each {X S A} (l : list X) (body : X -> S -> M (S + A)) (s : S) : M (S + A) :=
  match l with
  | [] => ret (inl s)
  | x :: l =>
      bind (body x s) (fun r => match r with inl s' => for_each l body s' | inr a => ret (inr a) end)
  end.

End program.

Declare Scope prog_scope.
Delimit Scope prog_scope with prog.
Notation "'let*' x ':=' c 'in' k" := (bind c (fun x => k))
  (at level 10, x pattern, c at level 100, k at level 200) : prog_scope.
Notation "c ';;;' k" := (bind c (fun _ => k)) (at level 199, k at level 200) : prog_scope.
Open Scope prog_scope.

(** ** Accesses *)

Definition null_context : xid_context.t :=
  xid_context.mk 0 (XID.mk 0) 0 0 0 0 0 0 0 TXN_ACTIVE.

Section accesses.
Context `{PL : Platform}.

(** [contexts[i]]; the array is static, so every index has a context. *)
Definition ctx (m : mem) (i : Z) : xid_context.t := default null_context (contexts m !! i).
Definition upd_ctx (i : Z) (g : xid_context.t -> xid_context.t) (m : mem) : mem :=
  set_contexts (<[i := g (ctx m i)]> (contexts m)) m.

Definition rd_ctx {A} (i : Z) (f : xid_context.t -> A) : M A := rd (fun m => f (ctx m i)).
Definition wr_ctx (i : Z) (g : xid_context.t -> xid_context.t) : M unit := wr (upd_ctx i g).

Definition upd_obj (a : Z) (g : object.t -> object.t) (m : mem) : mem :=
  set_objects (alter g a (objects m)) m.

(** Accesses through an [object *]; address 0 and freed memory fault. *)
Definition at_obj {A} (a : Z) (k : object.t -> mem -> res (A * mem)) : M A :=
  atomic (fun m => match objects m !! a with Some o => k o m | None => Throw bad_address end).
Definition rd_obj {A} (a : Z) (f : object.t -> A) : M A := at_obj a (fun o m => Ok (f o, m)).
Definition wr_obj (a : Z) (g : object.t -> object.t) : M unit :=
  at_obj a (fun _ m => Ok (tt, upd_obj a g m)).
(** [__sync_bool_compare_and_swap] on one field of an object. *)
Definition cas_obj (a : Z) (f : object.t -> Z) (old : Z) (g : object.t -> object.t) : M bool :=
  at_obj a (fun o m => if f o =? old then Ok (true, upd_obj a g m) else Ok (false, m)).

Definition upd_tuple (g : dbtuple.t -> dbtuple.t) (o : object.t) : object.t :=
  object.set_tuple (g (object.tuple o)) o.
Definition rd_tuple {A} (a : Z) (f : dbtuple.t -> A) : M A := rd_obj a (fun o => f (object.tuple o)).
Definition wr_tuple (a : Z) (g : dbtuple.t -> dbtuple.t) : M unit := wr_obj a (upd_tuple g).

(** Accesses through a [transaction *]. *)
Definition upd_txn (i : Z) (g : transaction.t -> transaction.t) (m : mem) : mem :=
  set_txns (alter g i (txns m)) m.
Definition rd_txn {A} (i : Z) (f : transaction.t -> A) : M A :=
  atomic (fun m => match txns m !! i with Some x => Ok (f x, m) | None => Throw bad_address end).
Definition wr_txn (i : Z) (g : transaction.t -> transaction.t) : M unit :=
  atomic (fun m => match txns m !! i with Some _ => Ok (tt, upd_txn i g m) | None => Throw bad_address end).

(** A [fat_ptr *]: an entry of an OID array or the [_next] field of an object. *)
Inductive slot :=
| OidSlot (oa o : Z)
| NextSlot (obj : Z).

Definition oid_entry (m : mem) (a o : Z) : fat_ptr.t := default NULL_PTR (oids m !! (a, o)).

Definition get_slot (s : slot) (m : mem) : res fat_ptr.t :=
  match s with
  | OidSlot a o => Ok (oid_entry m a o)
  | NextSlot obj =>
      match objects m !! obj with Some x => Ok (object._next x) | None => Throw bad_address end
  end.
Definition set_slot (s : slot) (p : fat_ptr.t) (m : mem) : mem :=
  match s with
  | OidSlot a o => set_oids (<[(a, o) := p]> (oids m)) m
  | NextSlot obj => upd_obj obj (object.set__next p) m
  end.

Definition rd_slot (s : slot) : M fat_ptr.t :=
  atomic (fun m => match get_slot s m with Ok p => Ok (p, m) | Throw e => Throw e end).
Definition wr_slot (s : slot) (p : fat_ptr.t) : M unit :=
  atomic (fun m => match get_slot s m with Ok _ => Ok (tt, set_slot s p m) | Throw e => Throw e end).
Definition cas_slot (s : slot) (old new : fat_ptr.t) : M bool :=
  atomic (fun m => match get_slot s m with
    | Ok p => if fat_ptr.eqb p old then Ok (true, set_slot s new m) else Ok (false, m)
    | Throw e => Throw e
    end).

End accesses.

(** ** Contexts under updates *)

Section ctx_lemmas.
Context `{PL : Platform}.

Lemma ctx_upd_eq i g m : ctx (upd_ctx i g m) i = g (ctx m i).
Proof. unfold ctx at 1, upd_ctx. cbn. by rewrite lookup_insert_eq. Qed.

Lemma ctx_upd_ne i j g m : i <> j -> ctx (upd_ctx i g m) j = ctx m j.
Proof. intros. unfold ctx at 1, upd_ctx. cbn. by rewrite lookup_insert_ne. Qed.

Lemma ctx_upd_obj a g m i : ctx (upd_obj a g m) i = ctx m i.
Proof. done. Qed.

(** A context field that an update does not touch. *)
Lemma ctx_upd_field {A} (f : xid_context.t -> A) i g m j :
  (forall c, f (g c) = f c) -> f (ctx (upd_ctx i g m) j) = f (ctx m j).
Proof.
  intros H. destruct (decide (i = j)) as [->|].
  - by rewrite ctx_upd_eq.
  - by rewrite ctx_upd_ne.
Qed.

End ctx_lemmas.

(** ** Triples for arbitrary interference *)

Section triples.
Context `{PL : Platform}.

(** If [P] holds and the program finishes, [Q] holds of result and memory. *)
Definition hoare {A} (P : mem -> Prop) (c : M A) (Q : A -> mem -> Prop) : Prop :=
  forall m t, P m -> match c m t with Ok (a, (m', _)) => Q a m' | Throw _ => True end.

(** The other threads keep [P]. *)
Definition stable (P : mem -> Prop) : Prop := forall t m, P m -> P (interfere t m).

Lemma hoare_pre {A} (P P' : mem -> Prop) (c : M A) Q :
  (forall m, P m -> P' m) -> hoare P' c Q -> hoare P c Q.
Proof. intros H Hc m t Hm. apply Hc, H, Hm. Qed.

Lemma hoare_post {A} (P : mem -> Prop) (c : M A) (Q Q' : A -> mem -> Prop) :
  hoare P c Q' -> (forall a m, Q' a m -> Q a m) -> hoare P c Q.
Proof.
  intros Hc H m t Hm. specialize (Hc m t Hm).
  destruct (c m t) as [[a [m' t']]|]; auto.
Qed.

Lemma hoare_ret {A} (P : mem -> Prop) (a : A) Q : (forall m, P m -> Q a m) -> hoare P (ret a) Q.
Proof. intros H m t Hm. by apply H. Qed.

Lemma hoare_throw {A} (P : mem -> Prop) e (Q : A -> mem -> Prop) : hoare P (throw e) Q.
Proof. by intros m t Hm. Qed.

Lemma hoare_bind {A B} (P : mem -> Prop) (c : M A) (k : A -> M B) R Q :
  hoare P c R -> (forall a, hoare (R a) (k a) Q) -> hoare P (bind c k) Q.
Proof.
  intros Hc Hk m t Hm. unfold bind. specialize (Hc m t Hm).
  destruct (c m t) as [[a [m' t']]|]; [|done]. by apply Hk.
Qed.

(** Programs that agree everywhere. *)
Lemma bind_assoc {A B C} (c : M A) (k : A -> M B) (l : B -> M C) m t :
  bind (bind c k) l m t = bind c (fun a => bind (k a) l) m t.
Proof. unfold bind. by destruct (c m t) as [[a [m' t']]|]. Qed.

Lemma hoare_ext {A} (P : mem -> Prop) (c c' : M A) Q :
  (forall m t, c m t = c' m t) -> hoare P c Q -> hoare P c' Q.
Proof. intros E H m t Hm. rewrite <- E. by apply H. Qed.

Lemma hoare_pure {A} (φ : Prop) (P : mem -> Prop) (c : M A) Q :
  (φ -> hoare P c Q) -> hoare (fun m => P m /\ φ) c Q.
Proof. intros H m t [Hm Hφ]. by apply H. Qed.

Lemma hoare_ex {A X} (P : X -> mem -> Prop) (c : M A) Q :
  (forall y, hoare (P y) c Q) -> hoare (fun m => exists y, P y m) c Q.
Proof. intros H m t [y Hm]. by apply (H y). Qed.

Lemma hoare_seq {A B} (P : mem -> Prop) (c : M A) (k : A -> M B) Q :
  hoare P c (fun _ => P) -> (forall a, hoare P (k a) Q) -> hoare P (bind c k) Q.
Proof. intros. by eapply hoare_bind. Qed.

Lemma hoare_atomic {A} (P : mem -> Prop) (f : mem -> res (A * mem)) Q :
  stable P ->
  (forall m a m', P m -> f m = Ok (a, m') -> Q a m') ->
  hoare P (atomic f) Q.
Proof.
  intros Hs Hf m t Hm. unfold atomic. specialize (Hs t m Hm).
  destruct (f (interfere t m)) as [[a m']|] eqn:E; [|done]. exact (Hf _ _ _ Hs E).
Qed.

Lemma hoare_assert (P : mem -> Prop) b Q :
  (b = true -> forall m, P m -> Q tt m) -> hoare P (always_assert b) Q.
Proof. intros H. destruct b; simpl; [apply hoare_ret; by apply H|apply hoare_throw]. Qed.

Lemma hoare_lift {A} (P : mem -> Prop) (r : res A) Q :
  (forall a m, r = Ok a -> P m -> Q a m) -> hoare P (lift r) Q.
Proof. intros H. destruct r; simpl; [apply hoare_ret; auto|apply hoare_throw]. Qed.

Lemma hoare_loop {S A} n (body : S -> M (S + A)) s (I : S -> mem -> Prop) Q :
  (forall s, hoare (I s) (body s)
     (fun r m => match r with inl s' => I s' m | inr a => Q a m end)) ->
  hoare (I s) (loop n body s) Q.
Proof.
  intros Hb. revert s. induction n as [|n IH]; intros s; simpl.
  - apply hoare_throw.
  - eapply hoare_bind; [apply Hb|]. intros [s'|a]; [apply IH|by apply hoare_ret].
Qed.

(** [I done s] holds when the elements [done] have been processed. *)
Lemma hoare_for_each {X S A} (l : list X) (body : X -> S -> M (S + A)) s
    (I : list X -> S -> mem -> Prop) (Q : S + A -> mem -> Prop) :
  (forall pre x suf s, l = pre ++ x :: suf ->
     hoare (I pre s) (body x s)
       (fun r m => match r with inl s' => I (pre ++ [x]) s' m | inr a => Q (inr a) m end)) ->
  (forall s m, I l s m -> Q (inl s) m) ->
  hoare (I [] s) (for_each l body s) Q.
Proof.
  intros Hb HQ.
  enough (forall suf pre s, l = pre ++ suf -> hoare (I pre s) (for_each suf body s) Q) as H by by apply H.
  induction suf as [|x suf IH]; intros pre s' ->; simpl.
  - apply hoare_ret. rewrite app_nil_r in HQ. auto.
  - eapply hoare_bind; [by eapply Hb|]. intros [s''|a]; [|by apply hoare_ret].
    apply IH. by rewrite <- app_assoc.
Qed.

Lemma hoare_rd {A} (P : mem -> Prop) (f : mem -> A) Q :
  stable P -> (forall m, P m -> Q (f m) m) -> hoare P (rd f) Q.
Proof. intros Hs H. apply hoare_atomic; [done|]. intros m a m' Hm [= <- <-]. by apply H. Qed.

Lemma hoare_wr (P : mem -> Prop) g Q :
  stable P -> (forall m, P m -> Q tt (g m)) -> hoare P (wr g) Q.
Proof. intros Hs H. apply hoare_atomic; [done|]. intros m a m' Hm [= <- <-]. by apply H. Qed.

End triples.

(** ** Guarantees

    [guar G c]: every write [c] performs is a [G] step, whatever it reads.  So
    a property that both the other threads and [G] keep holds throughout,
    which [guar_inv] says; [guar] itself is proved by following the structure
    of the program (tactic [guar]). *)

Section guarantee.
Context `{PL : Platform}.
Implicit Types G : mem -> mem -> Prop.

Definition guar {A} G (c : M A) : Prop :=
  forall P : mem -> Prop,
    stable P -> (forall m m', P m -> G m m' -> P m') -> hoare P c (fun _ => P).

Lemma guar_inv {A} G (c : M A) (P : mem -> Prop) :
  guar G c -> stable P -> (forall m m', P m -> G m m' -> P m') -> hoare P c (fun _ => P).
Proof. intros H. apply H. Qed.

Lemma guar_ret {A} G (a : A) : guar G (ret a).
Proof. intros P _ _. by apply hoare_ret. Qed.

Lemma guar_throw {A} G e : guar G (throw (A := A) e).
Proof. intros P _ _. apply hoare_throw. Qed.

Lemma guar_bind {A B} G (c : M A) (k : A -> M B) :
  guar G c -> (forall a, guar G (k a)) -> guar G (bind c k).
Proof. intros Hc Hk P Hs HG. eapply hoare_bind; [by apply Hc|]. intros a. by apply Hk. Qed.

Lemma guar_atomic {A} G (f : mem -> res (A * mem)) :
  (forall m a m', f m = Ok (a, m') -> m' = m \/ G m m') -> guar G (atomic f).
Proof.
  intros H P Hs HG. apply hoare_atomic; [done|]. intros m a m' Hm E.
  destruct (H _ _ _ E) as [->|HGm]; [done|by eapply HG].
Qed.

Lemma guar_loop {S A} G n (body : S -> M (S + A)) s :
  (forall s, guar G (body s)) -> guar G (loop n body s).
Proof.
  intros H P Hs HG. apply (hoare_loop n body s (fun _ => P)). intros s'.
  eapply hoare_post; [by apply H|]. by intros [].
Qed.

Lemma guar_for_each {X S A} G (l : list X) (body : X -> S -> M (S + A)) s :
  (forall x s, x ∈ l -> guar G (body x s)) -> guar G (for_each l body s).
Proof.
  intros H P Hs HG. apply (hoare_for_each l body s (fun _ _ => P)); [|done].
  intros pre x suf s' ->. eapply hoare_post; [apply H; [set_solver|done..]|]. by intros [].
Qed.

Lemma guar_weaken {A} G G' (c : M A) :
  (forall m m', G m m' -> G' m m') -> guar G c -> guar G' c.
Proof. intros HG H P Hs HP. apply H; eauto. Qed.

Lemma guar_rd {A} G (f : mem -> A) : guar G (rd f).
Proof. apply guar_atomic. intros m a m' [= <- <-]. by left. Qed.

Lemma guar_wr G g : (forall m, G m (g m)) -> guar G (wr g).
Proof. intros H. apply guar_atomic. intros m a m' [= <- <-]. by right. Qed.

Lemma guar_assert G b : guar G (always_assert b).
Proof. destruct b; [apply guar_ret|apply guar_throw]. Qed.

Lemma guar_lift {A} G (r : res A) : guar G (lift r).
Proof. destruct r; [apply guar_ret|apply guar_throw]. Qed.

Lemma guar_rd_ctx {A} G i (f : xid_context.t -> A) : guar G (rd_ctx i f).
Proof. apply guar_rd. Qed.

Lemma guar_rd_obj {A} G a (f : object.t -> A) : guar G (rd_obj a f).
Proof. apply guar_atomic. intros m x m' E. destruct (objects m !! a); simplify_eq. by left. Qed.

Lemma guar_rd_tuple {A} G a (f : dbtuple.t -> A) : guar G (rd_tuple a f).
Proof. apply guar_rd_obj. Qed.

Lemma guar_rd_txn {A} G a (f : transaction.t -> A) : guar G (rd_txn a f).
Proof. apply guar_atomic. intros m x m' E. destruct (txns m !! a); simplify_eq. by left. Qed.

Lemma guar_rd_slot G s : guar G (rd_slot s).
Proof. apply guar_atomic. intros m x m' E. destruct (get_slot s m); simplify_eq. by left. Qed.

Lemma guar_wr_ctx G i g : (forall m, G m (upd_ctx i g m)) -> guar G (wr_ctx i g).
Proof. apply guar_wr. Qed.

Lemma guar_wr_obj G a g : (forall m, G m (upd_obj a g m)) -> guar G (wr_obj a g).
Proof.
  intros H. apply guar_atomic. intros m x m' E.
  destruct (objects m !! a); simplify_eq. by right.
Qed.

Lemma guar_cas_obj G a f old g : (forall m, G m (upd_obj a g m)) -> guar G (cas_obj a f old g).
Proof.
  intros H. apply guar_atomic. intros m x m' E.
  destruct (objects m !! a) as [o|]; [|done].
  destruct (f o =? old); simplify_eq; [by right|by left].
Qed.

Lemma guar_wr_txn G a g : (forall m, G m (upd_txn a g m)) -> guar G (wr_txn a g).
Proof.
  intros H. apply guar_atomic. intros m x m' E.
  destruct (txns m !! a); simplify_eq. by right.
Qed.

Lemma guar_wr_slot G s p : (forall m, G m (set_slot s p m)) -> guar G (wr_slot s p).
Proof.
  intros H. apply guar_atomic. intros m x m' E.
  destruct (get_slot s m); simplify_eq. by right.
Qed.

End guarantee.

(** Writes that touch no context. *)
Definition same_contexts `{BE : Backend} (m m' : mem) : Prop := contexts m' = contexts m.

Create HintDb guar.
#[export] Hint Resolve guar_ret guar_throw guar_rd guar_assert guar_lift guar_rd_ctx guar_rd_obj
  guar_rd_tuple guar_rd_txn guar_rd_slot : guar.

(** Follows a program down to its writes; what is left are their [G] steps. *)
Ltac guar_step :=
  match goal with
  | |- guar _ (bind _ _) => apply guar_bind; [|intros]
  | |- guar _ (loop _ _ _) => apply guar_loop; intros
  | |- guar _ (for_each _ _ _) => apply guar_for_each; intros
  | |- guar _ (match ?x with _ => _ end) => destruct x
  | |- guar _ _ => solve [auto with guar]
  | |- guar _ (wr_ctx _ _) => apply guar_wr_ctx; intros
  | |- guar _ (wr_tuple _ _) => apply guar_wr_obj; intros
  | |- guar _ (wr_obj _ _) => apply guar_wr_obj; intros
  | |- guar _ (cas_obj _ _ _ _) => apply guar_cas_obj; intros
  | |- guar _ (wr_txn _ _) => apply guar_wr_txn; intros
  | |- guar _ (wr_slot _ _) => apply guar_wr_slot; intros
  | |- guar _ (wr _) => apply guar_wr; intros
  end.
Ltac guar := repeat guar_step.

(** ** Possible results

    [yields Φ c]: whatever the memory, a result of [c] satisfies [Φ]. *)

Section yields.
Context `{PL : Platform}.

Definition yields {A} (Φ : A -> Prop) (c : M A) : Prop :=
  forall m t, match c m t with Ok (a, _) => Φ a | Throw _ => True end.

Lemma hoare_yields {A} (P : mem -> Prop) (c : M A) (Q : A -> mem -> Prop) Φ :
  hoare P c Q -> yields Φ c -> hoare P c (fun a m => Q a m /\ Φ a).
Proof.
  intros Hc Hy m t Hm. specialize (Hc m t Hm). specialize (Hy m t).
  destruct (c m t) as [[a [m' t']]|]; auto.
Qed.

Lemma yields_ret {A} (Φ : A -> Prop) a : Φ a -> yields Φ (ret a).
Proof. intros H m t. done. Qed.

Lemma yields_throw {A} (Φ : A -> Prop) e : yields Φ (throw e).
Proof. intros m t. done. Qed.

Lemma yields_bind {A B} (Ψ : A -> Prop) (Φ : B -> Prop) (c : M A) (k : A -> M B) :
  yields Ψ c -> (forall a, Ψ a -> yields Φ (k a)) -> yields Φ (bind c k).
Proof.
  intros Hc Hk m t. unfold bind. specialize (Hc m t).
  destruct (c m t) as [[a [m' t']]|]; [|done]. by apply Hk.
Qed.

Lemma yields_any {A} (c : M A) : yields (fun _ => True) c.
Proof. intros m t. by destruct (c m t) as [[a ?]|]. Qed.

Lemma yields_seq {A B} (Φ : B -> Prop) (c : M A) (k : A -> M B) :
  (forall a, yields Φ (k a)) -> yields Φ (bind c k).
Proof. intros Hk. eapply yields_bind; [apply yields_any|auto]. Qed.

Lemma yields_loop {S A} (Φ : A -> Prop) n (body : S -> M (S + A)) s :
  (forall s, yields (fun r => match r with inl _ => True | inr a => Φ a end) (body s)) ->
  yields Φ (loop n body s).
Proof.
  intros H. revert s. induction n as [|n IH]; intros s; simpl; [apply yields_throw|].
  eapply yields_bind; [apply H|]. intros [s'|a] Ha; [apply IH|by apply yields_ret].
Qed.

Lemma yields_for_each {X S A} (Φ : A -> Prop) (l : list X) (body : X -> S -> M (S + A)) s :
  (forall x s, yields (fun r => match r with inl _ => True | inr a => Φ a end) (body x s)) ->
  yields (fun r => match r with inl _ => True | inr a => Φ a end) (for_each l body s).
Proof.
  intros H. revert s. induction l as [|x l IH]; intros s; simpl; [by apply yields_ret|].
  eapply yields_bind; [apply H|]. intros [s'|a] Ha; [apply IH|by apply yields_ret].
Qed.

End yields.

Create HintDb yields.
#[export] Hint Resolve yields_throw : yields.

(** Follows a program down to the values it returns. *)
Ltac yields_step :=
  match goal with
  | |- yields _ (match ?x with _ => _ end) => destruct x
  | |- yields _ _ => solve [eauto with yields]
  | |- yields _ (ret _) => apply yields_ret
  | |- yields _ (loop _ _ _) => apply yields_loop; intros
  | |- yields _ (for_each _ _ _) => apply yields_for_each; intros
  | |- yields _ (bind _ (fun a => ret _)) =>
      first [ apply yields_seq; intros; solve [apply yields_ret; repeat case_match; done]
            | eapply yields_bind; [solve [eauto with yields]|];
              intros; apply yields_ret; repeat case_match; simplify_eq/=; done ]
  | |- yields _ (bind _ _) => apply yields_seq; intros
  end.
Ltac yields := repeat yields_step.

(** ** Undisturbed runs *)

Class Quiet `{PL : Platform} : Prop := quiet t m : interfere t m = m.

Section runs.
Context `{Q : Quiet}.

Definition runs {A} (c : M A) (m : mem) (a : A) (m' : mem) : Prop :=
  forall t, exists t', c m t = Ok (a, (m', t')).

Definition fails {A} (c : M A) (m : mem) (e : error) : Prop := forall t, c m t = Throw e.

Lemma runs_ret {A} (a : A) m : runs (ret a) m a m.
Proof. intros t. by exists t. Qed.

Lemma runs_bind {A B} (c : M A) (k : A -> M B) m a m' b m'' :
  runs c m a m' -> runs (k a) m' b m'' -> runs (bind c k) m b m''.
Proof.
  intros Hc Hk t. destruct (Hc t) as [t' E]. destruct (Hk t') as [t'' E'].
  exists t''. unfold bind. by rewrite E.
Qed.

Lemma runs_atomic {A} (f : mem -> res (A * mem)) m a m' :
  f m = Ok (a, m') -> runs (atomic f) m a m'.
Proof. intros E t. exists (S t). unfold atomic. by rewrite quiet, E. Qed.

Lemma runs_rd {A} (f : mem -> A) m : runs (rd f) m (f m) m.
Proof. by apply runs_atomic. Qed.

Lemma runs_wr g m : runs (wr g) m tt (g m).
Proof. by apply runs_atomic. Qed.

Lemma runs_loop_step {S A} n (body : S -> M (S + A)) s s' m m' a m'' :
  runs (body s) m (inl s') m' -> runs (loop n body s') m' a m'' ->
  runs (loop (Datatypes.S n) body s) m a m''.
Proof. intros H1 H2. by eapply runs_bind. Qed.

Lemma runs_loop_end {S A} n (body : S -> M (S + A)) s m a m' :
  runs (body s) m (inr a) m' -> runs (loop (Datatypes.S n) body s) m a m'.
Proof. intros H. eapply runs_bind; [done|]. apply runs_ret. Qed.

Lemma fails_bind {A B} (c : M A) (k : A -> M B) m a m' e :
  runs c m a m' -> fails (k a) m' e -> fails (bind c k) m e.
Proof.
  intros Hc Hk t. destruct (Hc t) as [t' E]. unfold bind. rewrite E. apply Hk.
Qed.

Lemma runs_det {A} (c : M A) m a b m1 m2 : runs c m a m1 -> runs c m b m2 -> a = b /\ m1 = m2.
Proof. intros H1 H2. destruct (H1 O) as [t1 E1], (H2 O) as [t2 E2]. rewrite E1 in E2. by simplify_eq. Qed.

End runs.

Lemma stable_quiet `{Q : Quiet} (P : mem -> Prop) : stable P.
Proof. intros t m Hm. by rewrite quiet. Qed.

(** ** Total correctness

    [total P c Q]: from a memory satisfying [P] the program finishes, without
    an error, and [Q] holds of its result. *)

Section total.
Context `{PL : Platform}.

Definition total {A} (P : mem -> Prop) (c : M A) (Q : A -> mem -> Prop) : Prop :=
  forall m t, P m -> exists a m' t', c m t = Ok (a, (m', t')) /\ Q a m'.

Lemma total_hoare {A} (P : mem -> Prop) (c : M A) Q : total P c Q -> hoare P c Q.
Proof. intros H m t Hm. destruct (H m t Hm) as (a & m' & t' & -> & HQ). done. Qed.

Lemma total_and {A} (P : mem -> Prop) (c : M A) Q1 Q2 :
  total P c Q1 -> hoare P c Q2 -> total P c (fun a m => Q1 a m /\ Q2 a m).
Proof.
  intros H1 H2 m t Hm. destruct (H1 m t Hm) as (a & m' & t' & E & HQ).
  specialize (H2 m t Hm). rewrite E in H2. exists a, m', t'. done.
Qed.

Lemma total_ext {A} (P : mem -> Prop) (c c' : M A) Q :
  (forall m t, c m t = c' m t) -> total P c Q -> total P c' Q.
Proof. intros E H m t Hm. rewrite <- E. by apply H. Qed.

Lemma total_pre {A} (P P' : mem -> Prop) (c : M A) Q :
  (forall m, P m -> P' m) -> total P' c Q -> total P c Q.
Proof. intros H Hc m t Hm. apply Hc, H, Hm. Qed.

Lemma total_post {A} (P : mem -> Prop) (c : M A) (Q Q' : A -> mem -> Prop) :
  total P c Q' -> (forall a m, Q' a m -> Q a m) -> total P c Q.
Proof. intros Hc H m t Hm. destruct (Hc m t Hm) as (a & m' & t' & E & HQ). eauto 6. Qed.

Lemma total_pure {A} (φ : Prop) (P : mem -> Prop) (c : M A) Q :
  (φ -> total P c Q) -> total (fun m => P m /\ φ) c Q.
Proof. intros H m t [Hm Hφ]. by apply H. Qed.

Lemma total_ret {A} (P : mem -> Prop) (a : A) Q : (forall m, P m -> Q a m) -> total P (ret a) Q.
Proof. intros H m t Hm. exists a, m, t. auto. Qed.

Lemma total_bind {A B} (P : mem -> Prop) (c : M A) (k : A -> M B) R Q :
  total P c R -> (forall a, total (R a) (k a) Q) -> total P (bind c k) Q.
Proof.
  intros Hc Hk m t Hm. destruct (Hc m t Hm) as (a & m' & t' & E & HR).
  destruct (Hk a m' t' HR) as (b & m'' & t'' & E' & HQ). exists b, m'', t''.
  unfold bind. by rewrite E.
Qed.

Lemma total_seq {A B} (P : mem -> Prop) (c : M A) (k : A -> M B) Q :
  total P c (fun _ => P) -> (forall a, total P (k a) Q) -> total P (bind c k) Q.
Proof. intros. by eapply total_bind. Qed.

Lemma total_atomic {A} (P : mem -> Prop) (f : mem -> res (A * mem)) Q :
  stable P -> (forall m, P m -> exists a m', f m = Ok (a, m') /\ Q a m') -> total P (atomic f) Q.
Proof.
  intros Hs Hf m t Hm. destruct (Hf _ (Hs t m Hm)) as (a & m' & E & HQ).
  exists a, m', (S t). unfold atomic. by rewrite E.
Qed.

Lemma total_rd {A} (P : mem -> Prop) (f : mem -> A) Q :
  stable P -> (forall m, P m -> Q (f m) m) -> total P (rd f) Q.
Proof. intros Hs H. apply total_atomic; [done|]. intros m Hm. eauto. Qed.

Lemma total_wr (P : mem -> Prop) g Q :
  stable P -> (forall m, P m -> Q tt (g m)) -> total P (wr g) Q.
Proof. intros Hs H. apply total_atomic; [done|]. intros m Hm. eauto. Qed.

Lemma total_rd_obj {A} (P : mem -> Prop) a (f : object.t -> A) Q :
  stable P -> (forall m, P m -> exists o, objects m !! a = Some o /\ Q (f o) m) ->
  total P (rd_obj a f) Q.
Proof.
  intros Hs H. apply total_atomic; [done|]. intros m Hm. destruct (H m Hm) as (o & -> & HQ). eauto.
Qed.

Lemma total_wr_obj (P : mem -> Prop) a g Q :
  stable P -> (forall m, P m -> is_Some (objects m !! a) /\ Q tt (upd_obj a g m)) ->
  total P (wr_obj a g) Q.
Proof.
  intros Hs H. apply total_atomic; [done|]. intros m Hm. destruct (H m Hm) as [[o ->] HQ]. eauto.
Qed.

Lemma total_rd_txn {A} (P : mem -> Prop) i (f : transaction.t -> A) Q :
  stable P -> (forall m, P m -> exists x, txns m !! i = Some x /\ Q (f x) m) ->
  total P (rd_txn i f) Q.
Proof.
  intros Hs H. apply total_atomic; [done|]. intros m Hm. destruct (H m Hm) as (x & -> & HQ). eauto.
Qed.

Lemma total_wr_txn (P : mem -> Prop) i g Q :
  stable P -> (forall m, P m -> is_Some (txns m !! i) /\ Q tt (upd_txn i g m)) ->
  total P (wr_txn i g) Q.
Proof.
  intros Hs H. apply total_atomic; [done|]. intros m Hm. destruct (H m Hm) as [[o ->] HQ]. eauto.
Qed.

(** A loop whose local state gets smaller ends. *)
Lemma total_loop {S A} (μ : S -> nat) n (body : S -> M (S + A)) s (I : S -> mem -> Prop) Q :
  (forall s, total (I s) (body s)
     (fun r m => match r with inl s' => I s' m /\ (μ s' < μ s)%nat | inr a => Q a m end)) ->
  (μ s < n)%nat -> total (I s) (loop n body s) Q.
Proof.
  intros Hb. revert s. induction n as [|n IH]; intros s Hn; simpl; [lia|].
  eapply total_bind; [apply Hb|]. intros [s'|a]; [|by apply total_ret].
  apply total_pure. intros Hs. apply IH. lia.
Qed.

(** The same with a measure of the memory. *)
Lemma total_loop_mem {S A} (μ : S -> mem -> nat) n (body : S -> M (S + A)) s (I : S -> mem -> Prop) Q :
  (forall s k, total (fun m => I s m /\ μ s m = k) (body s)
     (fun r m => match r with inl s' => I s' m /\ (μ s' m < k)%nat | inr a => Q a m end)) ->
  total (fun m => I s m /\ (μ s m < n)%nat) (loop n body s) Q.
Proof.
  intros Hb. revert s. induction n as [|n IH]; intros s m t [Hm Hn]; [lia|].
  destruct (Hb s (μ s m) m t) as (r & m1 & t1 & E & Hr); [done|]. simpl. unfold bind. rewrite E.
  destruct r as [s'|a]; [|by exists a, m1, t1]. apply IH. destruct Hr. split; [done|lia].
Qed.

Lemma total_for_each {X S A} (l : list X) (body : X -> S -> M (S + A)) s
    (I : list X -> S -> mem -> Prop) (Q : S + A -> mem -> Prop) :
  (forall pre x suf s, l = pre ++ x :: suf ->
     total (I pre s) (body x s)
       (fun r m => match r with inl s' => I (pre ++ [x]) s' m | inr a => Q (inr a) m end)) ->
  (forall s m, I l s m -> Q (inl s) m) ->
  total (I [] s) (for_each l body s) Q.
Proof.
  intros Hb HQ.
  enough (forall suf pre s, l = pre ++ suf -> total (I pre s) (for_each suf body s) Q) as H by by apply H.
  induction suf as [|x suf IH]; intros pre s' ->; simpl.
  - apply total_ret. rewrite app_nil_r in HQ. auto.
  - eapply total_bind; [by eapply Hb|]. intros [s''|a]; [|by apply total_ret].
    apply IH. by rewrite <- app_assoc.
Qed.

(** The accesses of an undisturbed run are total where they are defined. *)
Lemma total_runs `{Q : !Quiet} {A} (P : mem -> Prop) (c : M A) R :
  (forall m, P m -> exists a m', runs c m a m' /\ R a m') -> total P c R.
Proof.
  intros H m t Hm. destruct (H m Hm) as (a & m' & Hr & HR). destruct (Hr t) as [t' E]. eauto 6.
Qed.

End total.
