(* ===== verification/Contexts.v ===== *)
(** * Transaction contexts ([dbcore/xid.h], [dbcore/xid.cpp])

    Looking up, stamping and waiting on the context of a transaction, and
    handing contexts out and back ([xid_alloc], [xid_free]). *)
From stdpp Require Import base numbers list gmap.
From Stdlib Require Import ZArith Lia.
From S2P Require Import Prelude Bits FatPtr Shared Program.

Local Open Scope Z_scope.

(* src: dbcore/xid.h:49-49 NCONTEXTS *)
Definition NCONTEXTS : Z := 32768.
(* src: dbcore/xid.h:58-58 NBITMAPS *)
Definition NBITMAPS : Z := 4.
(* src: dbcore/xid.h:60-60 BITS_PER_WORD *)
Definition BITS_PER_WORD : Z := 64.
(* src: dbcore/xid.h:61-61 NWORDS *)
Definition NWORDS : Z := NCONTEXTS / 2 / BITS_PER_WORD.
(* src: dbcore/xid.h:36-36 sstamp_final_mark *)
Definition sstamp_final_mark : Z := Z.shiftl 1 63.
(* src: txn.h:72-72 TXN_FLAG_LOW_LEVEL_SCAN *)
Definition TXN_FLAG_LOW_LEVEL_SCAN : Z := 1.
(* src: txn.h:74-77 TXN_FLAG_READ_ONLY *)
Definition TXN_FLAG_READ_ONLY : Z := 2.
(* src: txn.h:79-79 TXN_FLAG_READ_MOSTLY *)
Definition TXN_FLAG_READ_MOSTLY : Z := 3.

(* src: txn.h:84-84 transaction::is_read_mostly *)
Definition is_read_mostly (x : transaction.t) : bool :=
  negb (Z.land (transaction.flags x) TXN_FLAG_READ_MOSTLY =? 0).
(* src: txn.h:85-85 transaction::is_read_only *)
Definition is_read_only (x : transaction.t) : bool :=
  negb (Z.land (transaction.flags x) TXN_FLAG_READ_ONLY =? 0).

Definition txn_state_eqb (a b : txn_state) : bool := bool_decide (a = b).

Section contexts.
Context `{CF : Config} `{PL : Platform}.

(** Returns [None] for a [NULL] context pointer. *)
(* src: dbcore/xid.h:89-104 xid_get_context *)
Definition xid_get_context (x : XID.t) : M (option Z) :=
  let i := XID.local x in
  let* owner := rd_ctx i xid_context.owner in
  if XID._val owner =? 0 then ret None
  else if (XID.epoch owner <? XID.epoch x) || (u32 (XID.epoch x + 3) <=? XID.epoch owner)
  then ret None
  else ret (Some i).

(* src: dbcore/xid.h:44-46 xid_context::verify_owner *)
Definition verify_owner (i : Z) (assumed : XID.t) : M bool :=
  rd_ctx i (fun c => XID.eqb (xid_context.owner c) assumed).

(* src: dbcore/xid.h:37-39 xid_context::finalize_sstamp *)
Definition finalize_sstamp (i : Z) : M unit :=
  wr_ctx i (fun c => xid_context.set_sstamp (Z.lor (xid_context.sstamp c) sstamp_final_mark) c).

(* src: dbcore/xid.h:40-42 xid_context::set_pstamp *)
Definition set_pstamp (i p : Z) : M unit :=
  let* old := rd_ctx i xid_context.pstamp in
  wr_ctx i (xid_context.set_pstamp (Z.max old p)).

(* src: dbcore/xid.h:136-146 spin_for_cstamp *)
Definition spin_for_cstamp (xid : XID.t) (i : Z) : M txn_state :=
  loop fuel (fun _ : unit =>
    let* state := rd_ctx i xid_context.state in
    let* owner := rd_ctx i xid_context.owner in
    if negb (XID.eqb owner xid) then ret (inr TXN_INVALID)
    else if negb (txn_state_eqb state TXN_CMMTD) && negb (txn_state_eqb state TXN_ABRTD)
    then ret (inl tt)
    else ret (inr state)) tt.

(** [atomic_compare_exchange_strong(&sstamp, &ss, s)]: [None] on success,
    otherwise the value found. *)
Definition cas_sstamp (i old new : Z) : M (option Z) :=
  atomic (fun m =>
    let cur := xid_context.sstamp (ctx m i) in
    if cur =? old then Ok (None, upd_ctx i (xid_context.set_sstamp new) m) else Ok (Some cur, m)).

(* src: dbcore/xid.cpp:192-209 xid_context::set_sstamp *)
Definition set_sstamp (i s : Z) : M bool :=
  always_assert (Z.land s sstamp_final_mark =? 0) ;;;
  let* xct := rd_ctx i xid_context.xct in
  let* read_mostly := rd_txn xct is_read_mostly in
  if read_mostly && ssn_read_opt_enabled then
    let* ss := rd_ctx i xid_context.sstamp in
    loop fuel (fun ss : Z =>
      if negb (Z.land ss sstamp_final_mark =? 0) then ret (inr false)
      else if (ss =? 0) || (s <? ss) then
        let* r := cas_sstamp i ss s in
        match r with None => ret (inr true) | Some cur => ret (inl cur) end
      else ret (inr true)) ss
  else
    wr_ctx i (xid_context.set_sstamp s) ;;;
    ret true.

(* src: dbcore/serial.h:13-23 ssn_check_exclusion *)
Definition ssn_check_exclusion (i : Z) : M bool :=
  let* ss := rd_ctx i (fun c => Z.land (xid_context.sstamp c) (Z.lnot sstamp_final_mark)) in
  let* ps := rd_ctx i xid_context.pstamp in
  ret (negb (negb (ss =? 0) && (ss <=? ps))).

(** ** Allocation *)

Definition upd_tls (g : thread_data.t -> thread_data.t) (m : mem) : mem := set_xid_tls (g (xid_tls m)) m.
Definition xid_word (m : mem) (b i : Z) : Z := default 0 (xid_bitmaps m !! (b, i)).
Definition widx (m : mem) (b : Z) : Z := default 0 (xid_widx m !! b).

(* src: dbcore/xid.h:113-134 take_one *)
Definition take_one : M XID.t :=
  let* t := rd xid_tls in
  let id := thread_data.base_id t + ctz (thread_data.bitmap t) in
  let x := XID.make (u32 (thread_data.epoch t)) (u16 id) in
  wr_ctx id (xid_context.set_owner x) ;;;
  (if SSN then
     wr_ctx id (xid_context.set_sstamp 0) ;;;
     wr_ctx id (xid_context.set_pstamp 0) ;;;
     wr_ctx id (xid_context.set_xct 0)
   else ret tt) ;;;
  (if SSI then
     wr_ctx id (xid_context.set_ct3 0) ;;;
     wr_ctx id (xid_context.set_last_safesnap 0) ;;;
     wr_ctx id (xid_context.set_xct 0)
   else ret tt) ;;;
  wr_ctx id (xid_context.set_end_ 0) ;;;
  wr_ctx id (xid_context.set_state TXN_ACTIVE) ;;;
  wr (upd_tls (fun t => thread_data.set_bitmap
        (Z.land (thread_data.bitmap t) (u64 (thread_data.bitmap t - 1))) t)) ;;;
  ret x.

(* src: dbcore/xid.h:73-87 xid_free *)
Definition xid_free (x : XID.t) : M unit :=
  let id := XID.local x in
  let* owner := rd_ctx id xid_context.owner in
  lift (throw_if (negb (XID.eqb owner x)) illegal_argument) ;;;
  wr_ctx id (xid_context.set_owner (XID.mk 0)) ;;;
  let b := XID.epoch x mod NBITMAPS in
  let w := (id / BITS_PER_WORD) mod NWORDS in
  let bit := id mod BITS_PER_WORD in
  wr (fun m => set_xid_bitmaps (<[(b, w) := Z.lor (xid_word m b w) (Z.shiftl 1 bit)]> (xid_bitmaps m)) m).

(** [__sync_val_compare_and_swap(&b.widx, i, i+1)]: the value found. *)
Definition cas_widx (b i : Z) : M Z :=
  atomic (fun m =>
    let j := widx m b in
    if j =? i then Ok (j, set_xid_widx (<[b := i + 1]> (xid_widx m)) m) else Ok (j, m)).

(** [xid_epochs.new_epoch()]: opens the next epoch unless there are stragglers. *)
Definition new_epoch : M bool := fun m t =>
  let m' := interfere t m in
  if xid_new_epoch t m'
  then Ok (true, (set_xid_cur_epoch (xid_cur_epoch m' + 1) m', S t))
  else Ok (false, (m', S t)).

(* src: dbcore/xid.cpp:83-91 thread_registered *)
Definition thread_registered : M unit := wr (set_xid_tls (thread_data.mk 0 0 0 true)).

(** Gives a leaving thread's unused contexts back. *)
(* src: dbcore/xid.cpp:93-103 thread_deregistered *)
Definition thread_deregistered : M unit :=
  loop fuel (fun _ : unit =>
    let* bm := rd (fun m => thread_data.bitmap (xid_tls m)) in
    if negb (bm =? 0) then
      let* x := take_one in
      xid_free x ;;;
      ret (inl tt)
    else ret (inr tt)) tt ;;;
  wr (upd_tls (thread_data.set_initialized false)).

(** The first row is all ones, so there is something to allocate. *)
(* src: dbcore/xid.cpp:66-74 global_init *)
Definition global_init : M unit :=
  wr (fun m => set_xid_bitmaps
    (foldr (fun bw ws => <[bw := 2 ^ 64 - 1]> ws) (xid_bitmaps m)
       (b ← seqZ 0 2; w ← seqZ 0 NWORDS; [(b, w)])) m).

(** The [while (not tls.bitmap)] loop: grab one word of the bitmap of the
    current epoch, opening a new epoch when its words are used up.
    [thread_enter], which returns the epoch, is the read of it; that the thread
    is counted in the epoch until [thread_exit] belongs to the epoch manager's
    own state ([Epoch]) and enters here as the answer [xid_new_epoch]. *)
(* src: dbcore/xid.cpp:140-187 xid_alloc *)
Definition xid_refill : M unit :=
  loop fuel (fun _ : unit =>
    let* bm := rd (fun m => thread_data.bitmap (xid_tls m)) in
    if negb (bm =? 0) then ret (inr tt)
    else
      let* e := rd xid_cur_epoch in
      let b := e mod NBITMAPS in
      let* i := rd (fun m => widx m b) in
      let* i := loop fuel (fun i : Z =>
        if i <? NWORDS then
          let* j := cas_widx b i in
          if j =? i then ret (inr i) else ret (inl j)
        else ret (inr i)) i in
      if i =? NWORDS then
        let* cur := rd xid_cur_epoch in
        (if e =? cur then
           wr (fun m => set_xid_widx (<[(e + 1) mod NBITMAPS := 0]> (xid_widx m)) m) ;;;
           loop fuel (fun _ : unit => let* ok := new_epoch in ret (if ok then inr tt else inl tt)) tt
         else ret tt) ;;;
        ret (inl tt)
      else
        wr (upd_tls (thread_data.set_epoch e)) ;;;
        wr (upd_tls (thread_data.set_base_id
          (u16 ((e mod 2) * NCONTEXTS / 2 + i * BITS_PER_WORD)))) ;;;
        let* old := rd (fun m => thread_data.bitmap (xid_tls m)) in
        let* w := rd (fun m => xid_word m b i) in
        wr (upd_tls (thread_data.set_bitmap w)) ;;;
        wr (fun m => set_xid_bitmaps (<[(b, i) := old]> (xid_bitmaps m)) m) ;;;
        ret (inl tt)) tt.

(* src: dbcore/xid.cpp:134-190 xid_alloc *)
Definition xid_alloc : M XID.t :=
  let* init := rd (fun m => thread_data.initialized (xid_tls m)) in
  (if init then ret tt else thread_registered) ;;;
  xid_refill ;;;
  take_one.

End contexts.

(** ** Operations that only read *)

Section read_only.
Context `{CF : Config} `{PL : Platform}.

Lemma guar_xid_get_context G x : guar G (xid_get_context x).
Proof. unfold xid_get_context. guar. Qed.

Lemma guar_verify_owner G i x : guar G (verify_owner i x).
Proof. unfold verify_owner. guar. Qed.

Lemma guar_spin_for_cstamp G x i : guar G (spin_for_cstamp x i).
Proof. unfold spin_for_cstamp. guar. Qed.

Lemma guar_ssn_check_exclusion G i : guar G (ssn_check_exclusion i).
Proof. unfold ssn_check_exclusion. guar. Qed.

End read_only.

#[export] Hint Resolve guar_xid_get_context guar_verify_owner guar_spin_for_cstamp
  guar_ssn_check_exclusion : guar.
