(* ===== verification/Readers.v ===== *)
(** * Readers lists ([dbcore/serial.h], [dbcore/serial.cpp])

    Every worker thread owns one bit position; a tuple's bitmap has the bit
    set while a transaction of that thread may still have to account for
    having read the tuple, and [rlist] maps the position to the thread's
    current transaction. *)
From stdpp Require Import base numbers list gmap.
From Stdlib Require Import ZArith Lia.
From S2P Require Import Prelude Bits FatPtr Shared Program Contexts.

Local Open Scope Z_scope.

(* src: dbcore/serial.h:33-33 bitmap_t::CAPACITY *)
Definition CAPACITY : Z := 256.
(* src: dbcore/serial.h:34-34 bitmap_t::ARRAY_SIZE *)
Definition ARRAY_SIZE : Z := CAPACITY / 64.
(* src: dbcore/serial.h:37-39 bitmap_t::bitmap_t *)
Definition empty_bitmap : list Z := replicate (Z.to_nat ARRAY_SIZE) 0.

(** [array[i]] and [array[i] = v] on a readers bitmap. *)
Definition word (l : list Z) (i : Z) : Z := nth (Z.to_nat i) l 0.
Definition set_word (i v : Z) (l : list Z) : list Z := <[Z.to_nat i := v]> l.

Section readers.
Context `{CF : Config} `{PL : Platform}.

Definition rd_reader_word (tuple i : Z) : M Z :=
  rd_tuple tuple (fun x => word (dbtuple.readers_bitmap x) i).

(** A read-modify-write builtin on word [i] of a tuple's bitmap. *)
Definition rmw_reader_word (tuple i : Z) (f : Z -> Z) : M unit :=
  wr_tuple tuple (fun x => dbtuple.set_readers_bitmap
    (set_word i (f (word (dbtuple.readers_bitmap x) i)) (dbtuple.readers_bitmap x)) x).

(* src: dbcore/serial.h:47-50 tls_bitmap_info::xid_index *)
Definition xid_index : Z := tls_index * 64 + ctz tls_entry.

(** Claims a bit of [rlist.bitmap] for a thread whose current
    [tls_bitmap_info] is [tls]; returns the new one. *)
(* src: dbcore/serial.cpp:167-189 assign_reader_bitmap_entry *)
Definition assign_reader_bitmap_entry (tls : Z * Z) : M (Z * Z) :=
  if negb (fst tls =? 0) then ret tls
  else
    let* r := for_each (seqZ 0 ARRAY_SIZE) (fun i (_ : unit) =>
      loop fuel (fun _ : unit =>
        let* bits := rd (fun m => word (rlist_bitmap m) i) in
        if negb (bits =? 2 ^ 64 - 1) then
          let my_entry := u64 (bits + 1) in
          let new_bits := Z.lor bits my_entry in
          let* cur_bits := atomic (fun m =>
            let cur := word (rlist_bitmap m) i in
            if cur =? bits
            then Ok (cur, set_rlist_bitmap (set_word i new_bits (rlist_bitmap m)) m)
            else Ok (cur, m)) in
          if cur_bits =? bits then ret (inr (inr (my_entry, i))) else ret (inl tt)
        else ret (inr (inl tt))) tt) tt in
    match r with
    | inr tls' => ret tls'
    | inl _ => throw assertion_failure
    end.

(* src: dbcore/serial.cpp:191-196 deassign_reader_bitmap_entry *)
Definition deassign_reader_bitmap_entry (tls : Z * Z) : M (Z * Z) :=
  wr (fun m => set_rlist_bitmap
    (set_word (snd tls) (Z.lxor (word (rlist_bitmap m) (snd tls)) (fst tls)) (rlist_bitmap m)) m) ;;;
  ret (0, 0).

(* src: dbcore/serial.cpp:198-204 serial_register_tx *)
Definition serial_register_tx (xid : XID.t) : M unit :=
  wr (fun m => set_rlist_xids (<[xid_index := xid]> (rlist_xids m)) m).

(* src: dbcore/serial.cpp:206-213 serial_deregister_tx *)
Definition serial_deregister_tx (xid : XID.t) : M unit :=
  wr (fun m => set_rlist_xids (<[xid_index := XID.mk 0]> (rlist_xids m)) m).

(* src: dbcore/serial.cpp:216-226 serial_register_reader_tx *)
Definition serial_register_reader_tx (xid : XID.t) (tuple : Z) : M unit :=
  let* set := if ssn_read_opt_enabled
              then let* w := rd_reader_word tuple tls_index in
                   ret (negb (Z.land w tls_entry =? 0))
              else ret false in
  if set then ret tt else rmw_reader_word tuple tls_index (fun w => Z.lor w tls_entry).

(* src: dbcore/serial.cpp:228-238 serial_deregister_reader_tx *)
Definition serial_deregister_reader_tx (tuple : Z) : M unit :=
  let* b := rd_reader_word tuple tls_index in
  if negb (Z.land b tls_entry =? 0)
  then rmw_reader_word tuple tls_index (fun w => Z.lxor w tls_entry)
  else ret tt.

(* src: dbcore/serial.cpp:240-244 serial_stamp_last_committed_lsn *)
Definition serial_stamp_last_committed_lsn (lsn : Z) : M unit :=
  wr (fun m => set_last_read_mostly_clsns (<[xid_index := lsn]> (last_read_mostly_clsns m)) m).

(* src: dbcore/serial.cpp:246-250 serial_get_last_read_mostly_cstamp *)
Definition serial_get_last_read_mostly_cstamp (xid_idx : Z) : M Z :=
  rd (fun m => default 0 (last_read_mostly_clsns m !! xid_idx)).

(** [volatile_read(rlist.xids[xid_idx])]. *)
Definition rd_rlist_xid (xid_idx : Z) : M XID.t :=
  rd (fun m => default (XID.mk 0) (rlist_xids m !! xid_idx)).

(* src: dbcore/serial.cpp:252-263 bitmap_t::is_empty *)
Definition is_empty (tuple : Z) (exclude_self : bool) : M bool :=
  let* r := for_each (seqZ 0 ARRAY_SIZE) (fun i (_ : unit) =>
    let* bits := rd_reader_word tuple i in
    if negb (bits =? 0) then
      if exclude_self && (i =? tls_index) && (bits =? tls_entry) then ret (inl tt)
      else ret (inr tt)
    else ret (inl tt)) tt in
  ret (match r with inl _ => true | inr _ => false end).

(** The iterator's [cur_entry_index] and [cur_entry]; its array is that of
    the tuple it was made for. *)
(* src: dbcore/serial.h:77-79 readers_bitmap_iterator *)
Record readers_iter := mk_iter { cur_entry_index : Z; cur_entry : Z }.

(* src: dbcore/serial.h:73-74 readers_bitmap_iterator::readers_bitmap_iterator *)
Definition readers_bitmap_iterator (tuple : Z) : M readers_iter :=
  let* w := rd_reader_word tuple 0 in ret (mk_iter 0 w).

(* src: dbcore/serial.cpp:265-282 readers_bitmap_iterator::next *)
Definition next (tuple : Z) (skip_self : bool) (it : readers_iter) : M (Z * readers_iter) :=
  loop fuel (fun it =>
    if negb (cur_entry it =? 0) then
      let pos := ctz (cur_entry it) in
      let it' := mk_iter (cur_entry_index it) (Z.land (cur_entry it) (cur_entry it - 1)) in
      if skip_self && (cur_entry_index it =? tls_index) && (pos =? ctz tls_entry)
      then ret (inl it')
      else ret (inr (cur_entry_index it * 64 + pos, it'))
    else if worker_threads <=? (cur_entry_index it + 1) * 64 then ret (inr (-1, it))
    else
      let i := cur_entry_index it + 1 in
      let* w := rd_reader_word tuple i in
      ret (inl (mk_iter i w))) it.

End readers.

(** ** Operations that only read *)

Section read_only.
Context `{CF : Config} `{PL : Platform}.

Lemma guar_rd_reader_word G a i : guar G (rd_reader_word a i).
Proof. unfold rd_reader_word. guar. Qed.

Lemma guar_last_read_mostly G i : guar G (serial_get_last_read_mostly_cstamp i).
Proof. unfold serial_get_last_read_mostly_cstamp. guar. Qed.

Lemma guar_rd_rlist_xid G i : guar G (rd_rlist_xid i).
Proof. unfold rd_rlist_xid. guar. Qed.

Lemma guar_iterator G a : guar G (readers_bitmap_iterator a).
Proof. unfold readers_bitmap_iterator, rd_reader_word. guar. Qed.

Lemma guar_next G a skip it : guar G (next a skip it).
Proof. unfold next, rd_reader_word. guar. Qed.

Lemma guar_is_empty G a e : guar G (is_empty a e).
Proof. unfold is_empty, rd_reader_word. guar. Qed.

End read_only.

#[export] Hint Resolve guar_rd_reader_word guar_last_read_mostly guar_rd_rlist_xid guar_iterator
  guar_next guar_is_empty : guar.
