(* ===== verification/Versions.v ===== *)
(** * Versions and OID arrays ([tuple.h], [object.cc], [dbcore/sm-oid.cpp])

    A record is a chain of version objects hanging off its entry in an OID
    array, newest first.  A version's [_clsn] is the XID of its writer until
    the writer's post-commit turns it into the commit LSN. *)
From stdpp Require Import base numbers list gmap.
From Stdlib Require Import ZArith Lia.
From S2P Require Import Prelude FatPtr SizeEncode Shared Program Contexts Readers.

Local Open Scope Z_scope.

(* src: tuple.h:19-22 PERSISTENT_READER_MARK *)
Definition PERSISTENT_READER_MARK : Z := 1.

(* src: tuple.h:75-79 ReadStatus *)
Inductive ReadStatus := READ_FAILED | READ_EMPTY | READ_RECORD.

(** [sizeof] of the headers in front of a value (LP64). *)
Definition sizeof_object : Z := 32.
Definition sizeof_varstr : Z := 16.
Definition sizeof_dbtuple `{Config} : Z :=
  (if SSN || SSI then 56 else 0) + (if SSI then 8 else 0) + 16.

(** The code [encode_size_aligned(sz)] returns. *)
Definition size_code_of (sz : Z) : Z :=
  match encode_size_aligned sz DEFAULT_ALIGNMENT_BITS with
  | Some (c, _) => c
  | None => INVALID_SIZE_CODE
  end.

(** A freshly constructed tuple. *)
(* src: tuple.h:58-71 dbtuple::dbtuple *)
Definition new_dbtuple (size : Z) : dbtuple.t :=
  dbtuple.mk empty_bitmap NULL_PTR 0 0 0 size NULL_VARSTR [].

(** [memcpy(value_start, data, size)] of [do_write]; the reserved mark is not
    an address that can be read. *)
(* src: tuple.h:225-234 dbtuple::do_write *)
Definition tuple_do_write (x : dbtuple.t) : res dbtuple.t :=
  match dbtuple.pvalue x with
  | NULL_VARSTR => Ok x
  | DEFUNCT_TUPLE_MARK => Throw bad_address
  | VARSTR b => Ok (dbtuple.set_value_start (b ++ drop (length b) (dbtuple.value_start x)) x)
  end.

Section versions.
Context `{CF : Config} `{PL : Platform}.

(** ** Tuples *)

(* src: tuple.h:168-177 dbtuple::next *)
Definition tuple_next (tuple : Z) : M (option Z) :=
  let* p := rd_obj tuple object._next in
  let n := fat_ptr.offset p in
  ret (if n =? 0 then None else Some n).

(* src: tuple.h:179-183 dbtuple::is_defunct *)
Definition is_defunct (tuple : Z) : M bool :=
  rd_tuple tuple (fun x => bool_decide (dbtuple.pvalue x = DEFUNCT_TUPLE_MARK)).

(* src: tuple.h:185-191 dbtuple::mark_defunct *)
Definition mark_defunct (tuple : Z) : M unit :=
  wr_tuple tuple (dbtuple.set_pvalue DEFUNCT_TUPLE_MARK).

(** [do_write] on a tuple in memory. *)
Definition do_write (tuple : Z) : M unit :=
  at_obj tuple (fun o m =>
    match tuple_do_write (object.tuple o) with
    | Ok x => Ok (tt, upd_obj tuple (object.set_tuple x) m)
    | Throw e => Throw e
    end).

(** [reader] is the caller's value reader, which may reject the bytes. *)
(* src: tuple.h:202-223 dbtuple::do_read *)
Definition do_read (tuple : Z) (reader : list Z -> bool) (stable : bool) : M ReadStatus :=
  let* x := rd_tuple tuple (fun x => x) in
  let size := dbtuple.size x in
  let finish data :=
    if negb (size =? 0) && negb (reader (take (Z.to_nat size) data)) then ret READ_FAILED
    else ret (if size =? 0 then READ_EMPTY else READ_RECORD) in
  if stable then finish (dbtuple.value_start x)
  else match dbtuple.pvalue x with
       | NULL_VARSTR => ret READ_EMPTY
       | DEFUNCT_TUPLE_MARK => throw bad_address
       | VARSTR b => finish b
       end.

(* src: tuple.h:88-111 dbtuple::age *)
Definition age (tuple visitor : Z) : M Z :=
  let* owner := rd_ctx visitor xid_context.owner in
  let* e := loop fuel (fun _ : unit =>
    let* cstamp := rd_obj tuple object._clsn in
    if fat_ptr.asi_type cstamp =? fat_ptr.ASI_XID then
      let* xid := lift (XID.from_ptr cstamp) in
      if XID.eqb xid owner then ret (inr None)
      else
        let* xc := xid_get_context xid in
        match xc with
        | None => throw bad_address   (* [xc->end] is read before [xc] is tested *)
        | Some c =>
            let* e := rd_ctx c xid_context.end_ in
            let* o := rd_ctx c xid_context.owner in
            ret (if XID.eqb o xid then inr (Some e) else inl tt)
        end
    else ret (inr (Some (fat_ptr.offset cstamp)))) tt in
  match e with
  | None => ret 0
  | Some e => let* b := rd_ctx visitor xid_context.begin_ in ret (u64 (b - e))
  end.

(* src: tuple.cc:4-6 dbtuple::is_old *)
Definition is_old (tuple visitor : Z) : M bool :=
  let* xct := rd_ctx visitor xid_context.xct in
  let* rm := rd_txn xct is_read_mostly in
  if rm then let* a := age tuple visitor in ret (ssn_read_opt_threshold <=? a)
  else ret false.

Definition rd_preader (tuple : Z) : M Z := rd_tuple tuple dbtuple.preader.
Definition preader_of (o : object.t) : Z := dbtuple.preader (object.tuple o).
Definition xor_preader (tuple : Z) : M unit :=
  wr_tuple tuple (fun x => dbtuple.set_preader (Z.lxor (dbtuple.preader x) (Z.shiftl 1 7)) x).

(* src: tuple.h:113-123 dbtuple::set_persistent_reader *)
Definition set_persistent_reader (tuple : Z) : M bool :=
  loop fuel (fun _ : unit =>
    let* pr := rd_preader tuple in
    if negb (Z.shiftr pr 7 =? 0) then ret (inr false)
    else
      let* cur := rd_preader tuple in
      if cur =? PERSISTENT_READER_MARK then ret (inr true)
      else
        let* ok := cas_obj tuple preader_of pr (upd_tuple (dbtuple.set_preader PERSISTENT_READER_MARK)) in
        ret (if ok then inr true else inl tt)) tt.

(* src: tuple.h:126-128 dbtuple::has_persistent_reader *)
Definition has_persistent_reader (tuple : Z) : M bool :=
  let* pr := rd_preader tuple in ret (negb (Z.land pr PERSISTENT_READER_MARK =? 0)).

(* src: tuple.h:129-136 dbtuple::lockout_read_mostly_tx *)
Definition lockout_read_mostly_tx (tuple : Z) : M unit :=
  if ssn_read_opt_enabled then
    let* pr := rd_preader tuple in
    if Z.shiftr pr 7 =? 0 then xor_preader tuple else ret tt
  else ret tt.

(* src: tuple.h:138-145 dbtuple::welcome_read_mostly_tx *)
Definition welcome_read_mostly_tx (tuple : Z) : M unit :=
  if ssn_read_opt_enabled then
    let* pr := rd_preader tuple in
    if negb (Z.shiftr pr 7 =? 0) then xor_preader tuple else ret tt
  else ret tt.

(** [set_tuple_xstamp(tuple, s)]: raise the access stamp to at least [s]. *)
(* src: txn.cc:241-248 set_tuple_xstamp *)
Definition set_tuple_xstamp (tuple s : Z) : M unit :=
  loop fuel (fun _ : unit =>
    let* x := rd_tuple tuple dbtuple.xstamp in
    if x <? s then
      let* ok := cas_obj tuple (fun o => dbtuple.xstamp (object.tuple o)) x
                   (upd_tuple (dbtuple.set_xstamp s)) in
      ret (if ok then inr tt else inl tt)
    else ret (inr tt)) tt.

(** ** Objects *)

(** Takes memory from the allocator and constructs an object in it. *)
Definition new_object_at (size epoch : Z) (o : object.t) : M Z :=
  atomic (fun m =>
    let '(a, unlinked) := mm_allocate size epoch m in
    Ok (a, set_tls_unlinked_objects unlinked (set_objects (<[a := o]> (objects m)) m))).

(* src: object.cc:5-31 object::create_tuple_object *)
Definition create_tuple_object (value : varstr_ptr) (dowrite : bool) (epoch : Z) : M fat_ptr.t :=
  let dowrite := match value with NULL_VARSTR => dowrite | _ => true end in
  let data_sz := u32 (varstr_size value) in
  let alloc_sz := sizeof_dbtuple + sizeof_object + data_sz in
  let* tuple := lift (let x := dbtuple.set_pvalue value (new_dbtuple data_sz) in
                      if dowrite then tuple_do_write x else Ok x) in
  let* obj := new_object_at alloc_sz epoch (object.mk NULL_PTR NULL_PTR NULL_PTR epoch tuple (0, 0)) in
  ret (fat_ptr.make obj (size_code_of alloc_sz) 0).

(** The version stored at log location [ptr]; [log_load] is the string found
    there, whose own header is stripped. *)
(* src: object.cc:33-64 object::create_tuple_object *)
Definition create_logged_object (ptr nxt : fat_ptr.t) (epoch : Z) : M fat_ptr.t :=
  let sz := decode_size_aligned (fat_ptr.size_code ptr) DEFAULT_ALIGNMENT_BITS
            + sizeof_object + sizeof_dbtuple in
  let* data := rd (fun m => log_load (mlog m) ptr) in
  let tuple := dbtuple.set_value_start data (new_dbtuple (Z.of_nat (length data))) in
  let* obj := new_object_at sz 0 (object.mk ptr nxt ptr epoch tuple (0, 0)) in
  ret (fat_ptr.make obj (fat_ptr.size_code ptr) 0).

(* src: dbcore/sm-alloc.cpp:219-227 MM::deallocate *)
Definition deallocate (p : fat_ptr.t) : M unit :=
  let* head := rd tls_unlinked_objects in
  wr_obj (fat_ptr.offset p) (object.set__next head) ;;;
  wr (set_tls_unlinked_objects p).

(** ** OID arrays *)

(* src: dbcore/sm-oid.cpp:778-785 sm_oid_mgr::oid_put_new *)
Definition oid_put_new (oa o : Z) (p : fat_ptr.t) : M unit := wr_slot (OidSlot oa o) p.

(* src: dbcore/sm-oid.cpp:922-929 sm_oid_mgr::oid_get_latest_version *)
Definition oid_get_latest_version (oa o : Z) : M (option Z) :=
  let* p := rd_slot (OidSlot oa o) in
  ret (if fat_ptr.offset p =? 0 then None else Some (fat_ptr.offset p)).

(* src: dbcore/sm-oid.cpp:949-974 sm_oid_mgr::ensure_tuple *)
Definition ensure_tuple (ptr : slot) (epoch : Z) : M fat_ptr.t :=
  let* p := rd_slot ptr in
  if negb (fat_ptr.asi_type p =? fat_ptr.ASI_LOG) then ret p
  else
    let obj := fat_ptr.offset p in
    let* pdest := rd_obj obj object._pdest in
    let* nxt := rd_obj obj object._next in
    let* new_ptr := create_logged_object pdest nxt epoch in
    let* ok := cas_slot ptr p new_ptr in
    (if ok then ret tt else deallocate new_ptr) ;;;
    rd_slot ptr.

(* src: dbcore/sm-oid.cpp:939-947 sm_oid_mgr::ensure_tuple *)
Definition ensure_tuple_oid (oa o e : Z) : M slot :=
  let ptr := OidSlot oa o in
  let* p := rd_slot ptr in
  (if fat_ptr.asi_type p =? fat_ptr.ASI_LOG
   then let* _ := ensure_tuple ptr e in ret tt
   else ret tt) ;;;
  ret ptr.

(** What [oid_put_update] decides about the current head version. *)
Inductive put_action := StartOver | Refuse | Install (overwrite : bool).

(* src: dbcore/sm-oid.cpp:819-886 sm_oid_mgr::oid_put_update *)
Definition put_decision (clsn : fat_ptr.t) (updater_xc : Z) : M put_action :=
  if fat_ptr.eqb clsn NULL_PTR then ret StartOver
  else if fat_ptr.asi_type clsn =? fat_ptr.ASI_XID then
    let* holder_xid := lift (XID.from_ptr clsn) in
    let* updater_xid := rd_ctx updater_xc xid_context.owner in
    if XID.eqb holder_xid updater_xid then ret (Install true)
    else
      let* holder := xid_get_context holder_xid in
      match holder with
      | None => ret StartOver
      | Some h =>
          let* state := rd_ctx h xid_context.state in
          let* owner := rd_ctx h xid_context.owner in
          if negb (XID.eqb owner holder_xid) then ret StartOver
          else if txn_state_eqb state TXN_CMMTD then ret (Install false)
          else ret Refuse
      end
  else if RC then ret (Install false)
  else
    let* l := lift (LSN.from_ptr clsn) in
    let* b := rd_ctx updater_xc xid_context.begin_ in
    if b <=? LSN.offset l then ret Refuse else ret (Install false).

(** Returns the overwritten head ([NULL_PTR] when the update is refused) and
    the value left in [*new_obj_ptr]. *)
(* src: dbcore/sm-oid.cpp:797-914 sm_oid_mgr::oid_put_update *)
Definition oid_put_update (oa o : Z) (value : varstr_ptr) (updater_xc : Z)
    : M (fat_ptr.t * fat_ptr.t) :=
  let* e := rd_ctx updater_xc xid_context.begin_epoch in
  let* ptr := ensure_tuple_oid oa o e in
  let* r := loop fuel (fun _ : unit =>
    let* head := rd_slot ptr in
    let* clsn := rd_obj (fat_ptr.offset head) object._clsn in
    let* a := put_decision clsn updater_xc in
    ret (match a with
         | StartOver => inl tt
         | Refuse => inr None
         | Install overwrite => inr (Some (head, overwrite))
         end)) tt in
  match r with
  | None => ret (NULL_PTR, NULL_PTR)
  | Some (head, overwrite) =>
      let old_desc := fat_ptr.offset head in
      let* e := rd_ctx updater_xc xid_context.begin_epoch in
      let* new_obj_ptr := create_tuple_object value false e in
      let new_object := fat_ptr.offset new_obj_ptr in
      let* owner := rd_ctx updater_xc xid_context.owner in
      wr_obj new_object (object.set__clsn (XID.to_ptr owner)) ;;;
      if (overwrite : bool) then
        let* n := rd_obj old_desc object._next in
        wr_obj new_object (object.set__next n) ;;;
        wr_slot ptr new_obj_ptr ;;;
        mark_defunct old_desc ;;;
        ret (head, new_obj_ptr)
      else
        wr_obj new_object (object.set__next head) ;;;
        let* ok := cas_slot ptr head new_obj_ptr in
        ret (if ok then (head, new_obj_ptr) else (NULL_PTR, new_obj_ptr))
  end.

(* src: dbcore/sm-oid.cpp:1109-1149 sm_oid_mgr::oid_check_phantom *)
Definition oid_check_phantom (visitor_xc vcstamp : Z) : M unit :=
  if PHANTOM_PROT && (SSI || SSN) then
    if SSI then
      let* vct3 := rd_ctx visitor_xc xid_context.ct3 in
      if (vct3 =? 0) || (vcstamp <? vct3)
      then wr_ctx visitor_xc (xid_context.set_ct3 vcstamp)
      else ret tt
    else
      let* s := rd_ctx visitor_xc xid_context.sstamp in
      let* _ := set_sstamp visitor_xc (Z.min s vcstamp) in
      ret tt
  else ret tt.

(** What [oid_get_version] does with the version it looks at: return it, go
    on to the next one, or start over from the head of the chain. *)
Inductive visit := Visible | Skip | Restart.

(** Is the visitor a read-only transaction on a safe snapshot? *)
Definition on_safesnap (visitor_xc : Z) : M bool :=
  if enable_safesnap then
    let* xct := rd_ctx visitor_xc xid_context.xct in rd_txn xct is_read_only
  else ret false.

(* src: dbcore/sm-oid.cpp:1027-1080 sm_oid_mgr::oid_get_version *)
Definition visit_xid (visitor_xc : Z) (clsn : fat_ptr.t) : M visit :=
  let* holder_xid := lift (XID.from_ptr clsn) in
  let* me := rd_ctx visitor_xc xid_context.owner in
  if XID.eqb holder_xid me then ret Visible
  else
    let* holder := xid_get_context holder_xid in
    match holder with
    | None => ret Restart
    | Some h =>
        let* state := rd_ctx h xid_context.state in
        let* owner := rd_ctx h xid_context.owner in
        if negb (XID.eqb owner holder_xid) then ret Restart
        else if txn_state_eqb state TXN_CMMTD then
          if RC || RC_SPIN then
            if SSN then
              let* safe := on_safesnap visitor_xc in
              if safe then
                let* e := rd_ctx h xid_context.end_ in
                let* b := rd_ctx visitor_xc xid_context.begin_ in
                ret (if e <? b then Visible else Skip)
              else ret Visible
            else ret Visible
          else
            let* e := rd_ctx h xid_context.end_ in
            let* b := rd_ctx visitor_xc xid_context.begin_ in
            if e <? b then ret Visible
            else
              let* e := rd_ctx h xid_context.end_ in
              oid_check_phantom visitor_xc e ;;;
              ret Skip
        else if RC_SPIN then
          let* s := spin_for_cstamp holder_xid h in
          ret (if txn_state_eqb s TXN_CMMTD then Visible else Skip)
        else ret Skip
    end.

(* src: dbcore/sm-oid.cpp:1081-1103 sm_oid_mgr::oid_get_version *)
Definition visit_lsn (visitor_xc : Z) (clsn : fat_ptr.t) : M visit :=
  let compare :=
    let* l := lift (LSN.from_ptr clsn) in
    let* b := rd_ctx visitor_xc xid_context.begin_ in
    if LSN.offset l <=? b then ret Visible
    else oid_check_phantom visitor_xc (fat_ptr.offset clsn) ;;; ret Skip in
  if RC || RC_SPIN then
    if SSN then
      let* safe := on_safesnap visitor_xc in
      if safe then compare else ret Visible
    else ret Visible
  else compare.

(** One turn of the loop over the chain; [None] is the label [start_over],
    [Some (pp, ptr)] the slot and pointer of the next version. *)
(* src: dbcore/sm-oid.cpp:986-1104 sm_oid_mgr::oid_get_version *)
Definition version_step (oa o visitor_xc : Z) (at_ : option (slot * fat_ptr.t))
    : M (option (slot * fat_ptr.t) + option Z) :=
  let* here := match at_ with
               | None => let* p := rd_slot (OidSlot oa o) in ret (OidSlot oa o, p)
               | Some x => ret x
               end in
  let (pp, ptr) := here : slot * fat_ptr.t in
  let* ptr := if negb (fat_ptr.asi_type ptr =? fat_ptr.ASI_LOG) then ret ptr
              else let* e := rd_ctx visitor_xc xid_context.begin_epoch in ensure_tuple pp e in
  if fat_ptr.offset ptr =? 0 then ret (inr None)
  else
    let cur_obj := fat_ptr.offset ptr in
    let pp := NextSlot cur_obj in
    let* ptr := rd_slot pp in
    let* clsn := rd_obj cur_obj object._clsn in
    if fat_ptr.eqb clsn NULL_PTR then ret (inl None)
    else
      always_assert ((fat_ptr.asi_type clsn =? fat_ptr.ASI_XID)
                     || (fat_ptr.asi_type clsn =? fat_ptr.ASI_LOG)) ;;;
      let* v := if fat_ptr.asi_type clsn =? fat_ptr.ASI_XID
                then visit_xid visitor_xc clsn else visit_lsn visitor_xc clsn in
      ret (match v with
           | Visible => inr (Some cur_obj)
           | Skip => inl (Some (pp, ptr))
           | Restart => inl None
           end).

(** The address of the visible version, [None] for [NULL]. *)
(* src: dbcore/sm-oid.cpp:983-1107 sm_oid_mgr::oid_get_version *)
Definition oid_get_version (oa o visitor_xc : Z) : M (option Z) :=
  loop fuel (version_step oa o visitor_xc) None.

(* src: dbcore/sm-oid.cpp:1157-1175 sm_oid_mgr::oid_unlink *)
Definition oid_unlink (oa o : Z) : M unit :=
  let* p := rd_slot (OidSlot oa o) in
  let* n := rd_obj (fat_ptr.offset p) object._next in
  wr_slot (OidSlot oa o) n.

End versions.

(** ** Operations that only read *)

Section read_only.
Context `{CF : Config} `{PL : Platform}.

Lemma guar_tuple_next G a : guar G (tuple_next a).
Proof. unfold tuple_next. guar. Qed.

Lemma guar_is_defunct G a : guar G (is_defunct a).
Proof. unfold is_defunct. guar. Qed.

Lemma guar_has_persistent_reader G a : guar G (has_persistent_reader a).
Proof. unfold has_persistent_reader, rd_preader. guar. Qed.

Lemma guar_rd_preader G a : guar G (rd_preader a).
Proof. unfold rd_preader. guar. Qed.

End read_only.

#[export] Hint Resolve guar_tuple_next guar_is_defunct guar_has_persistent_reader guar_rd_preader : guar.
