(* ===== verification/Mm.v ===== *)
(** * The memory manager ([dbcore/sm-alloc.h], [dbcore/sm-alloc.cpp])

    Object pools, the allocator, the bookkeeping of epochs, and the garbage
    collector, which cuts version chains below the trim LSN. *)
From stdpp Require Import base numbers list gmap.
From Stdlib Require Import ZArith Lia.
From S2P Require Import Prelude FatPtr SizeEncode Shared Program Contexts Readers Versions.

Local Open Scope Z_scope.

(* src: dbcore/sm-alloc.cpp:59-59 MM::EPOCH_SIZE_NBYTES *)
Definition EPOCH_SIZE_NBYTES : Z := Z.shiftl 1 28.
(* src: dbcore/sm-alloc.cpp:60-60 MM::EPOCH_SIZE_COUNT *)
Definition EPOCH_SIZE_COUNT : Z := 200000.
Definition GB : Z := 1024 * 1024 * 1024.

(** What the memory manager sees of the machine and of the other parts: the
    NUMA node of the running CPU, the nodes' memory, the thread numbers of
    [sm-thread], and whether [mm_epochs] can open an epoch. *)
Class Machine `{BE : Backend} := {
  cur_node : Z;
  numa_nodes : Z;
  node_memory_gb : Z;
  node_base : Z -> Z;
  my_id : Z;
  next_thread_id : Z;
  mm_new_epoch : nat -> mem -> bool }.

Section mm.
Context `{CF : Config} `{PL : Platform} `{MA : !Machine}.

(** ** Lists of objects of one size *)

(* src: dbcore/sm-alloc.cpp:487-502 MM::object_list::put *)
Definition object_list_put (ol : object_list.t) (objptr : fat_ptr.t) : M (object_list.t * bool) :=
  if object_list.nobjects ol =? object_list.CAPACITY then ret (ol, false)
  else
    wr_obj (fat_ptr.offset objptr) (object.set__next NULL_PTR) ;;;
    (if fat_ptr.eqb (object_list.tail ol) NULL_PTR then
       ret (object_list.mk objptr objptr (object_list.nobjects ol + 1), true)
     else
       wr_obj (fat_ptr.offset (object_list.tail ol)) (object.set__next objptr) ;;;
       ret (object_list.mk (object_list.head ol) objptr (object_list.nobjects ol + 1), true)).

(** The size of the objects of a list. *)
Definition list_size (ol : object_list.t) : Z :=
  decode_size_aligned (fat_ptr.size_code (object_list.head ol)) DEFAULT_ALIGNMENT_BITS.

(** [None] is the [NULL] list; under the lock, one access. *)
(* src: dbcore/sm-alloc.cpp:504-519 MM::object_pool::get_object_list *)
Definition get_object_list (size : Z) : M (option object_list.t) :=
  let key := (my_id, align_up size DEFAULT_ALIGNMENT) in
  let* found := rd (fun m => bool_decide (is_Some (central_object_pool m !! key))) in
  if negb found then ret None
  else atomic (fun m =>
    match central_object_pool m !! key with
    | Some (ol :: rest) =>
        Ok (Some ol, if negb (fat_ptr.eqb (object_list.head ol) NULL_PTR)
                     then set_central_object_pool (<[key := rest]> (central_object_pool m)) m else m)
    | _ => Ok (None, set_central_object_pool (<[key := []]> (central_object_pool m)) m)
    end).

(* src: dbcore/sm-alloc.cpp:521-530 MM::object_pool::put_object_list *)
Definition put_object_list (ol : object_list.t) (thread_index : Z) : M unit :=
  let key := (thread_index, align_up (list_size ol) DEFAULT_ALIGNMENT) in
  wr (fun m => set_central_object_pool
    (<[key := ol :: default [] (central_object_pool m !! key)]> (central_object_pool m)) m).

Definition upd_tls_pool (size : Z) (ol : object_list.t) (m : mem) : mem :=
  set_tls_object_pool (<[size := ol]> (tls_object_pool m)) m.

(** [None] is [NULL]: the caller has to refill the pool. *)
(* src: dbcore/sm-alloc.cpp:532-552 MM::thread_object_pool::get_object *)
Definition get_object (size : Z) : M (option Z) :=
  let aligned_size := align_up size DEFAULT_ALIGNMENT in
  let* ol := rd (fun m => default object_list.empty (tls_object_pool m !! aligned_size)) in
  if object_list.nobjects ol =? 0 then
    wr (upd_tls_pool aligned_size ol) ;;; ret None
  else
    let ptr := object_list.head ol in
    let* n := rd_obj (fat_ptr.offset ptr) object._next in
    let k := object_list.nobjects ol - 1 in
    wr (upd_tls_pool aligned_size
      (object_list.mk n (if k =? 0 then NULL_PTR else object_list.tail ol) k)) ;;;
    ret (Some (fat_ptr.offset ptr)).

(* src: dbcore/sm-alloc.cpp:554-569 MM::thread_object_pool::put_objects *)
Definition put_objects (ol : object_list.t) : M unit :=
  let size := list_size ol in
  let* l := rd (fun m => default object_list.empty (tls_object_pool m !! size)) in
  let n := object_list.nobjects l + object_list.nobjects ol in
  if fat_ptr.eqb (object_list.head l) NULL_PTR then
    wr (upd_tls_pool size (object_list.mk (object_list.head ol) (object_list.tail ol) n))
  else
    wr_obj (fat_ptr.offset (object_list.tail l)) (object.set__next (object_list.head ol)) ;;;
    wr (upd_tls_pool size (object_list.mk (object_list.head l) (object_list.tail ol) n)).

(** ** Allocation *)

(** The address, or [None] for [NULL]. *)
(* src: dbcore/sm-alloc.cpp:208-217 MM::allocate_onnode *)
Definition allocate_onnode (size : Z) : M (option Z) :=
  let size := align_up size DEFAULT_ALIGNMENT in
  always_assert (cur_node <? numa_nodes) ;;;
  let* offset := atomic (fun m =>
    let o := default 0 (node_memory m !! cur_node) in
    Ok (o, set_node_memory (<[cur_node := u64 (o + size)]> (node_memory m)) m)) in
  ret (if u64 (offset + size) <=? node_memory_gb * GB then Some (node_base cur_node + offset) else None).

(** Looks at the first five unlinked objects of the thread for one that is old
    enough and of the right size. *)
(* src: dbcore/sm-alloc.cpp:141-159 MM::allocate *)
Definition reuse_unlinked (size e : Z) : M (option Z) :=
  let* p := rd tls_unlinked_objects in
  if fat_ptr.eqb p NULL_PTR then ret None
  else
    loop 7 (fun st : fat_ptr.t * Z =>
      let (ptr, n) := st in
      if fat_ptr.eqb ptr NULL_PTR || negb (n <? 5) then ret (inr None)
      else if e <? 4 then ret (inl (ptr, n + 1))
      else
        let obj := fat_ptr.offset ptr in
        let* alloc_epoch := rd_obj obj object._alloc_epoch in
        if (alloc_epoch <=? e - 4) &&
           (decode_size_aligned (fat_ptr.size_code ptr) DEFAULT_ALIGNMENT_BITS =? size) then
          let* n := rd_obj obj object._next in
          wr (set_tls_unlinked_objects n) ;;;
          ret (inr (Some obj))
        else
          let* nxt := rd_obj obj object._next in
          ret (inl (nxt, n + 1))) (p, 0).

(* src: dbcore/sm-alloc.cpp:161-180 MM::allocate *)
Definition from_pools (size : Z) : M (option Z) :=
  let* p := get_object size in
  match p with
  | Some a => ret (Some a)
  | None =>
      let* ol := get_object_list size in
      match ol with
      | None => ret None
      | Some ol =>
          put_objects ol ;;;
          let* p := get_object size in
          match p with Some a => ret (Some a) | None => throw assertion_failure end
      end
  end.

(* src: dbcore/sm-alloc.cpp:182-195 MM::allocate *)
Definition bump_allocate (size : Z) : M (option Z) :=
  let* tls := rd tls_node_memory in
  let refill := match tls with None => true | Some (_, used) => GB <=? used + size end in
  (if refill then
     let* p := allocate_onnode GB in
     wr (set_tls_node_memory (match p with Some b => Some (b, 0) | None => None end))
   else ret tt) ;;;
  let* tls := rd tls_node_memory in
  match tls with
  | None => ret None
  | Some (b, used) =>
      wr (set_tls_node_memory (Some (b, used + size))) ;;;
      ret (Some (b + used))
  end.

(* src: dbcore/sm-alloc.cpp:124-205 MM::allocate *)
Definition allocate (size e : Z) : M Z :=
  let size := align_up size DEFAULT_ALIGNMENT in
  let* p := reuse_unlinked size e in
  let* p := match p with
            | Some a => ret (Some a)
            | None =>
                let* p := from_pools size in
                match p with Some a => ret (Some a) | None => bump_allocate size end
            end in
  match p with
  | None => throw assertion_failure
  | Some a =>
      wr (fun m => set_epoch_tls (u64 (fst (epoch_tls m) + size), u64 (snd (epoch_tls m) + 1)) m) ;;;
      ret a
  end.

(** ** Epochs *)

Definition at3 (l : gmap Z Z) (i : Z) : Z := default 0 (l !! i).

(** All threads of epoch [e] are gone. *)
(* src: dbcore/sm-alloc.cpp:270-300 MM::epoch_reclaimed *)
Definition epoch_reclaimed (e : Z) : M unit :=
  let* my_begin_lsn := rd (fun m => at3 (epoch_excl_begin_lsn m) (e mod 3)) in
  if negb enable_gc || (my_begin_lsn =? 0) then ret tt
  else
    wr (fun m => set_epoch_reclaim_lsn (<[e mod 3 := my_begin_lsn]> (epoch_reclaim_lsn m)) m) ;;;
    (if enable_safesnap then
       let* new_safesnap := rd (fun m => at3 (epoch_excl_begin_lsn m) ((e + 1) mod 3)) in
       wr (fun m => set_safesnap_lsn (Z.max (safesnap_lsn m) new_safesnap) m)
     else ret tt) ;;;
    if 2 <=? e then
      wr (fun m => set_trim_lsn (at3 (epoch_reclaim_lsn m) ((e - 2) mod 3)) m) ;;;
      wr (fun m => set_epoch_reclaim_lsn (<[(e - 2) mod 3 := 0]> (epoch_reclaim_lsn m)) m)
    else ret tt.

(* src: dbcore/sm-alloc.cpp:302-322 MM::epoch_exit *)
Definition epoch_exit (s e : Z) : M unit :=
  let* full := rd (fun m => (EPOCH_SIZE_NBYTES <=? fst (epoch_tls m)) || (EPOCH_SIZE_COUNT <=? snd (epoch_tls m))) in
  if negb (s =? 0) && full then
    wr (fun m => set_epoch_excl_begin_lsn (<[(e + 1) mod 3 := s]> (epoch_excl_begin_lsn m)) m) ;;;
    (fun m t =>
      let m' := interfere t m in
      if mm_new_epoch t m'
      then Ok (tt, (set_mm_epoch (mm_epoch m' + 1) (set_epoch_tls (0, 0) m'), S t))
      else Ok (tt, (m', S t)))
  else ret tt.

(** ** Garbage collection *)

(** The daemon's local variables. *)
Record gc_state := mk_gc {
  reclaimed_count : Z;
  reclaimed_nbytes : Z;
  scavenged_object_lists : gmap Z object_list.t;
  next_thread : Z }.

(** Puts [cur] on the list [sol]; a full list goes to the central pool of the
    next thread and a new one is begun. *)
(* src: dbcore/sm-alloc.cpp:452-458 MM::gc_daemon *)
Definition put_or_flush (sol : object_list.t) (cur : fat_ptr.t) (next_thread : Z) : M (object_list.t * Z) :=
  let* r := object_list_put sol cur in
  if snd r then ret (fst r, next_thread)
  else
    put_object_list sol (u32 (next_thread + 1) mod next_thread_id) ;;;
    let* r := object_list_put object_list.empty cur in
    always_assert (snd r) ;;;
    ret (fst r, u32 (next_thread + 1)).

(** One version goes into the list for its size. *)
(* src: dbcore/sm-alloc.cpp:447-460 MM::gc_daemon *)
Definition scavenge_step (cs : fat_ptr.t * gc_state) : M (fat_ptr.t * gc_state + gc_state) :=
  let (cur, st) := cs in
  if fat_ptr.offset cur =? 0 then ret (inr st)
  else
    let cur_obj := fat_ptr.offset cur in
    let* sz := rd_tuple cur_obj dbtuple.size in
    let size := decode_size_aligned (fat_ptr.size_code cur) DEFAULT_ALIGNMENT_BITS in
    let sol := default object_list.empty (scavenged_object_lists st !! size) in
    let* r := put_or_flush sol cur (next_thread st) in
    let st' := mk_gc (reclaimed_count st + 1) (reclaimed_nbytes st + sz)
                 (<[size := fst r]> (scavenged_object_lists st)) (snd r) in
    let* nxt := rd_obj cur_obj object._next in
    ret (inl (nxt, st')).

(** Puts the versions from [cur] on into the lists of scavenged objects. *)
(* src: dbcore/sm-alloc.cpp:446-461 MM::gc_daemon *)
Definition scavenge (cur : fat_ptr.t) (st : gc_state) : M gc_state := loop fuel scavenge_step (cur, st).

(* src: dbcore/sm-alloc.cpp:423-433 MM::gc_daemon *)
Definition fast_forward_step (tlsn : Z) (cp : fat_ptr.t * slot)
    : M (fat_ptr.t * slot + option (fat_ptr.t * slot)) :=
  let (cur, prev_next) := cp in
  if fat_ptr.offset cur =? 0 then ret (inr (Some (cur, prev_next)))
  else
    let cur_obj := fat_ptr.offset cur in
    let* clsn := rd_obj cur_obj object._clsn in
    if negb (fat_ptr.asi_type clsn =? fat_ptr.ASI_LOG) then ret (inr None)
    else
      let prev_next := NextSlot cur_obj in
      let* cur := rd_slot prev_next in
      let* l := lift (LSN.from_ptr clsn) in
      ret (if LSN.offset l <=? tlsn then inr (Some (cur, prev_next)) else inl (cur, prev_next)).

(** Fast forward to the first version not newer than [tlsn]: the pointer to
    its successor and where that pointer is; [None] starts over. *)
(* src: dbcore/sm-alloc.cpp:422-434 MM::gc_daemon *)
Definition fast_forward (tlsn : Z) (cur : fat_ptr.t) (prev_next : slot) : M (option (fat_ptr.t * slot)) :=
  loop fuel (fast_forward_step tlsn) (cur, prev_next).

(* src: dbcore/sm-alloc.cpp:437-465 MM::gc_daemon *)
Definition cut_step (tlsn : Z) (st : gc_state) (cp : fat_ptr.t * slot)
    : M (fat_ptr.t * slot + bool * gc_state) :=
  let (cur, prev_next) := cp in
  if fat_ptr.offset cur =? 0 then ret (inr (false, st))
  else
    let cur_obj := fat_ptr.offset cur in
    let* clsn := rd_obj cur_obj object._clsn in
    always_assert (fat_ptr.asi_type clsn =? fat_ptr.ASI_LOG) ;;;
    let* l := lift (LSN.from_ptr clsn) in
    if LSN.offset l <=? tlsn then
      wr_slot prev_next NULL_PTR ;;;
      let* st' := scavenge cur st in
      ret (inr (true, st'))
    else
      let prev_next := NextSlot cur_obj in
      let* cur := rd_slot prev_next in
      ret (inl (cur, prev_next)).

(** Cuts the chain at the next version not newer than [tlsn]. *)
(* src: dbcore/sm-alloc.cpp:436-466 MM::gc_daemon *)
Definition cut_chain (tlsn : Z) (cur : fat_ptr.t) (prev_next : slot) (st : gc_state) : M (bool * gc_state) :=
  loop fuel (cut_step tlsn st) (cur, prev_next).

(** Takes the entry [r] out of the list of updated OIDs. *)
(* src: dbcore/sm-alloc.cpp:471-473 MM::gc_daemon *)
Definition detach (r_prev r r_next : fat_ptr.t) : M unit :=
  deallocate r ;;;
  wr_obj (fat_ptr.offset r_prev) (object.set__next r_next).

(** From [start_over] on; [inl] goes back there. *)
(* src: dbcore/sm-alloc.cpp:377-478 MM::gc_daemon *)
Definition gc_entry_step (tlsn : Z) (r_prev r : fat_ptr.t) (st : gc_state) (where_ : Z * Z) (_ : unit)
    : M (unit + fat_ptr.t * fat_ptr.t * gc_state) :=
  let r_obj := fat_ptr.offset r in
  let* head := rd_slot (OidSlot (fst where_) (snd where_)) in
  let* r_next := rd_obj r_obj object._next in
  if fat_ptr.offset head =? 0 then
    detach r_prev r r_next ;;;
    ret (inr (r_prev, r_next, st))
  else
    let* clsn := rd_obj (fat_ptr.offset head) object._clsn in
    let* cur_obj := if fat_ptr.asi_type clsn =? fat_ptr.ASI_XID
                    then rd_obj (fat_ptr.offset head) (fun o => fat_ptr.offset (object._next o))
                    else ret (fat_ptr.offset head) in
    let* cur := rd_slot (NextSlot cur_obj) in
    let* f := fast_forward tlsn cur (NextSlot cur_obj) in
    match f with
    | None => ret (inl tt)
    | Some (cur', prev_next) =>
        let* t := cut_chain tlsn cur' prev_next st in
        let (cut, st') := t : bool * gc_state in
        if (fat_ptr.offset cur =? 0) || cut then
          detach r_prev r r_next ;;;
          ret (inr (r_prev, r_next, st'))
        else ret (inr (r, r_next, st'))
    end.

(** One entry of the list; returns the new [r_prev] and [r] and the state. *)
(* src: dbcore/sm-alloc.cpp:373-478 MM::gc_daemon *)
Definition gc_entry (tlsn : Z) (r_prev r : fat_ptr.t) (st : gc_state)
    : M (fat_ptr.t * fat_ptr.t * gc_state) :=
  let* where_ := rd_obj (fat_ptr.offset r) object.recycle_oid in
  loop fuel (gc_entry_step tlsn r_prev r st where_) tt.

(** One wake-up of the daemon; [st] carries the lists over. *)
(* src: dbcore/sm-alloc.cpp:340-484 MM::gc_daemon *)
Definition gc_round (st : gc_state) : M gc_state :=
  let st := mk_gc 0 0 (scavenged_object_lists st) (next_thread st) in
  let* r := rd recycle_oid_list in
  if fat_ptr.offset r =? 0 then ret st
  else
    let* n := rd_obj (fat_ptr.offset r) object._next in
    if fat_ptr.eqb n NULL_PTR then ret st
    else
      loop fuel (fun s : fat_ptr.t * fat_ptr.t * gc_state =>
        let '(r_prev, r, st) := s in
        let* tlsn := rd trim_lsn in
        if tlsn =? 0 then ret (inr st)
        else if fat_ptr.eqb r NULL_PTR || (EPOCH_SIZE_COUNT <=? reclaimed_count st)
                || (EPOCH_SIZE_NBYTES <=? reclaimed_nbytes st) then ret (inr st)
        else
          let* s' := gc_entry tlsn r_prev r st in
          ret (inl s')) (r, n, st).

End mm.
