(* ===== verification/Txn.v ===== *)
(** * Parts every commit protocol shares ([txn.h], [txn.cc], [dbcore/sm-rc.h])

    Return codes, calls into the log, the list of updated OIDs handed to the
    garbage collector, phantom validation and abort. *)
From stdpp Require Import base numbers list gmap.
From Stdlib Require Import ZArith Lia.
From S2P Require Import Prelude FatPtr SizeEncode Shared Program Contexts Readers Versions.

Local Open Scope Z_scope.

(* src: dbcore/sm-rc.h:22-22 RC_INVALID *)
Definition RC_INVALID : Z := 0.
(* src: dbcore/sm-rc.h:23-23 RC_TRUE *)
Definition RC_TRUE : Z := 1.
(* src: dbcore/sm-rc.h:24-24 RC_FALSE *)
Definition RC_FALSE : Z := 2.
(* src: dbcore/sm-rc.h:25-25 RC_ABORT *)
Definition RC_ABORT : Z := 4.
(* src: dbcore/sm-rc.h:26-26 RC_ABORT_INTERNAL *)
Definition RC_ABORT_INTERNAL : Z := Z.lor RC_ABORT 8.
(* src: dbcore/sm-rc.h:27-27 RC_ABORT_SI_CONFLICT *)
Definition RC_ABORT_SI_CONFLICT : Z := Z.lor RC_ABORT 16.
(* src: dbcore/sm-rc.h:28-28 RC_ABORT_SERIAL *)
Definition RC_ABORT_SERIAL : Z := Z.lor RC_ABORT 32.
(* src: dbcore/sm-rc.h:29-29 RC_ABORT_RW_CONFLICT *)
Definition RC_ABORT_RW_CONFLICT : Z := Z.lor RC_ABORT 64.
(* src: dbcore/sm-rc.h:30-30 RC_ABORT_PHANTOM *)
Definition RC_ABORT_PHANTOM : Z := Z.lor RC_ABORT 128.
(* src: dbcore/sm-rc.h:31-31 RC_ABORT_USER *)
Definition RC_ABORT_USER : Z := Z.lor RC_ABORT 256.

(* src: dbcore/sm-rc.h:33-36 rc_is_user_abort *)
Definition rc_is_user_abort (rc : Z) : bool := rc =? RC_ABORT_USER.
(* src: dbcore/sm-rc.h:38-41 rc_is_abort *)
Definition rc_is_abort (rc : Z) : bool := negb (Z.land rc RC_ABORT =? 0).

(* src: txn.h:62-64 write_record_t::get_object *)
Definition get_object (w : write_record_t) : Z := fat_ptr.offset (new_object w).

(** The [uint64_t] commit stamp as a version's [_clsn]:
    [LSN::make(s, 0).to_log_ptr()]. *)
Definition log_stamp (s : Z) : fat_ptr.t := LSN.to_log_ptr (LSN.make s 0 INVALID_SIZE_CODE).

Section txn.
Context `{CF : Config} `{PL : Platform}.

(** ** The log *)

(** Stores what the log reports as the durable location of each version. *)
Definition fill_pdest (ps : list (Z * fat_ptr.t)) (m : mem) : mem :=
  foldr (fun p m => upd_obj (fst p) (object.set__pdest (snd p)) m) m ps.

Definition tx_log_request (this : Z) (op : log_op) : M unit :=
  wr (fun m => let (l, ps) := log_request this op (mlog m) in fill_pdest ps (set_mlog l m)).
Definition tx_log_pre_commit (this : Z) : M Z :=
  atomic (fun m => let (s, l) := log_pre_commit this (mlog m) in Ok (s, set_mlog l m)).
Definition tx_log_commit (this : Z) : M unit :=
  wr (fun m => let (l, ps) := log_commit this (mlog m) in fill_pdest ps (set_mlog l m)).
Definition tx_log_discard (this : Z) : M unit := wr (fun m => set_mlog (log_discard this (mlog m)) m).

(** ** Garbage-collection list *)

Definition sizeof_recycle_oid : Z := 16.

(* src: txn.h:209-227 transaction::enqueue_recycle_oids *)
Definition enqueue_recycle_oids (this : Z) (w : write_record_t) : M unit :=
  let size := sizeof_recycle_oid + sizeof_object in
  let '(size_code, size) := default (INVALID_SIZE_CODE, size)
                              (encode_size_aligned size DEFAULT_ALIGNMENT_BITS) in
  let* objr := new_object_at size 0
    (object.mk NULL_PTR NULL_PTR NULL_PTR 0 (new_dbtuple 0) (oa w, oid w)) in
  let myptr := fat_ptr.make objr size_code 0 in
  let* head := rd_txn this transaction.updated_oids_head in
  if fat_ptr.eqb head NULL_PTR then
    wr_txn this (fun x => transaction.set_updated_oids_head myptr
                            (transaction.set_updated_oids_tail myptr x))
  else
    let* tail := rd_txn this transaction.updated_oids_tail in
    wr_obj (fat_ptr.offset tail) (object.set__next myptr) ;;;
    wr_txn this (transaction.set_updated_oids_tail myptr).

(* src: dbcore/sm-alloc.cpp:324-331 MM::recycle *)
Definition recycle (list_head list_tail : fat_ptr.t) : M unit :=
  let* succ_head := atomic (fun m => Ok (recycle_oid_list m, set_recycle_oid_list list_head m)) in
  wr_obj (fat_ptr.offset list_tail) (object.set__next succ_head).

(* src: txn.cc:660-664 transaction::parallel_ssn_commit *)
Definition recycle_updated_oids (this : Z) : M unit :=
  let* head := rd_txn this transaction.updated_oids_head in
  if negb (fat_ptr.eqb head NULL_PTR) then
    let* tail := rd_txn this transaction.updated_oids_tail in
    recycle head tail
  else ret tt.

(** ** Phantom protection *)

(** True when every node of the absent set still has the version seen. *)
(* src: txn.cc:1089-1101 transaction::check_phantom *)
Definition check_phantom (this : Z) : M bool :=
  let* absent := rd_txn this transaction.absent_set in
  let* r := for_each (map_to_list absent) (fun r (_ : unit) =>
    let* v := rd (fun m => index_node_version (mindex m) (fst r)) in
    ret (if v =? snd r then inl tt else inr tt)) tt in
  ret (match r with inl _ => true | inr _ => false end).

(** ** Abort *)

(* src: txn.cc:139-159 transaction::abort_impl *)
Definition abort_write (w : write_record_t) : M unit :=
  let tuple := get_object w in
  let* defunct := is_defunct tuple in
  if defunct then ret tt
  else
    (if SSI || SSN then
       let* n := tuple_next tuple in
       match n with
       | Some nx =>
           wr_tuple nx (dbtuple.set_sstamp NULL_PTR) ;;;
           if SSN then welcome_read_mostly_tx nx else ret tt
       | None => ret tt
       end
     else ret tt) ;;;
    oid_unlink (oa w) (oid w) ;;;
    wr_obj tuple (object.set__clsn NULL_PTR) ;;;
    deallocate (new_object w).

(* src: txn.cc:120-164 transaction::abort_impl *)
Definition abort_impl (this : Z) : M unit :=
  let* xc := rd_txn this transaction.xc in
  wr_ctx xc (xid_context.set_state TXN_ABRTD) ;;;
  (if SSN || SSI then
     let* rs := rd_txn this transaction.read_set in
     let* _ := for_each rs (fun r (_ : unit) =>
       serial_deregister_reader_tx r ;;; ret (inl (B := unit) tt)) tt in
     ret tt
   else ret tt) ;;;
  let* ws := rd_txn this transaction.write_set in
  let* _ := for_each ws (fun w (_ : unit) => abort_write w ;;; ret (inl (B := unit) tt)) tt in
  let* has_log := rd_txn this transaction.log in
  if has_log then tx_log_discard this else ret tt.

End txn.

(** ** Operations that write no context *)

Section same_contexts.
Context `{CF : Config} `{PL : Platform}.

Lemma fill_pdest_contexts ps m : contexts (fill_pdest ps m) = contexts m.
Proof. induction ps as [|[a p] ps IH]; simpl; [done|exact IH]. Qed.

Lemma guar_new_object_at size e o : guar same_contexts (new_object_at size e o).
Proof.
  apply guar_atomic. intros m a m' E. right.
  destruct (mm_allocate size e m) as [b u]. by simplify_eq.
Qed.

Lemma guar_tx_log_commit this : guar same_contexts (tx_log_commit this).
Proof.
  apply guar_wr. intros m. destruct (log_commit this (mlog m)) as [l ps].
  unfold same_contexts. by rewrite fill_pdest_contexts.
Qed.

Lemma guar_do_write a : guar same_contexts (do_write a).
Proof.
  apply guar_atomic. intros m u m2 E. right. destruct (objects m !! a) as [o|]; [|done].
  destruct (tuple_do_write (object.tuple o)); by simplify_eq.
Qed.

Lemma guar_welcome a : guar same_contexts (welcome_read_mostly_tx a).
Proof. unfold welcome_read_mostly_tx, xor_preader. guar. done. Qed.

Lemma guar_set_tuple_xstamp a s : guar same_contexts (set_tuple_xstamp a s).
Proof. unfold set_tuple_xstamp. guar. done. Qed.

Lemma guar_deregister_reader v : guar same_contexts (serial_deregister_reader_tx v).
Proof. unfold serial_deregister_reader_tx, rmw_reader_word. guar. done. Qed.

#[local] Hint Resolve guar_new_object_at : guar.

Lemma guar_enqueue this w : guar same_contexts (enqueue_recycle_oids this w).
Proof.
  unfold enqueue_recycle_oids.
  destruct (default _ (encode_size_aligned _ _)) as [code size]. guar; done.
Qed.

Lemma guar_recycle_updated this : guar same_contexts (recycle_updated_oids this).
Proof.
  unfold recycle_updated_oids, recycle. guar; [|done].
  apply guar_atomic. intros m b m' [= <- <-]. by right.
Qed.

Lemma guar_check_phantom G this : guar G (check_phantom this).
Proof. unfold check_phantom. guar. Qed.

End same_contexts.

#[export] Hint Resolve guar_new_object_at guar_tx_log_commit guar_do_write guar_welcome
  guar_set_tuple_xstamp guar_deregister_reader guar_enqueue guar_recycle_updated
  guar_check_phantom : guar.
