(* ===== verification/Ssn.v ===== *)
(** * Serial safety net ([txn.cc], [SSN] builds)

    Reads ([ssn_read]) and the parallel commit protocol
    ([parallel_ssn_commit]).  A transaction keeps the stamp of its youngest
    predecessor ([pstamp]) and of its oldest successor ([sstamp]) and may
    commit only when the former is below the latter. *)
From stdpp Require Import base numbers list gmap.
From Stdlib Require Import ZArith Lia.
From S2P Require Import Prelude FatPtr SizeEncode Shared Program Contexts Readers Versions Txn.

Local Open Scope Z_scope.

(** How the wait for another transaction's commit stamp ends. *)
Inductive end_stamp :=
| ContextChange
| Aborted
| Stamp (e : Z) (state : txn_state).

Section ssn.
Context `{CF : Config} `{PL : Platform}.

(** [if (not ssn_check_exclusion(xc)) return rc_t{RC_ABORT_SERIAL};] *)
Definition ssn_check (xc : Z) : M (option Z) :=
  let* ok := ssn_check_exclusion xc in
  ret (if ok then None else Some RC_ABORT_SERIAL).

(* src: txn.cc:1227-1283 transaction::ssn_read *)
Definition ssn_read (this tuple : Z) : M Z :=
  let* xc := rd_txn this transaction.xc in
  let* v_clsn := rd_obj tuple (fun o => fat_ptr.offset (object._clsn o)) in
  let* ps := rd_ctx xc xid_context.pstamp in
  (if ps <? v_clsn then wr_ctx xc (xid_context.set_pstamp v_clsn) else ret tt) ;;;
  let* tuple_sstamp := rd_tuple tuple dbtuple.sstamp in
  let finish :=
    if EARLY_SSN_CHECK then
      let* c := ssn_check xc in ret (match c with None => RC_TRUE | Some rc => rc end)
    else ret RC_TRUE in
  if fat_ptr.asi_type tuple_sstamp =? fat_ptr.ASI_LOG then
    let* ss := rd_ctx xc xid_context.sstamp in
    (if (fat_ptr.offset tuple_sstamp <? ss) || (ss =? 0)
     then wr_ctx xc (xid_context.set_sstamp (fat_ptr.offset tuple_sstamp)) else ret tt) ;;;
    finish
  else
    let* mine := if negb (fat_ptr.eqb tuple_sstamp NULL_PTR) then
                   let* x := lift (XID.from_ptr tuple_sstamp) in
                   let* me := rd_ctx xc xid_context.owner in
                   ret (XID.eqb x me)
                 else ret false in
    if mine then ret RC_TRUE
    else
      let* old := is_old tuple xc in
      let* conflict :=
        if old then
          loop (Z.to_nat 100000) (fun spins : Z =>
            let* ok := set_persistent_reader tuple in
            ret (if ok then inr false
                 else if 100000 <=? spins + 1 then inr true else inl (spins + 1))) 0
        else
          wr_txn this (fun x => transaction.set_read_set (transaction.read_set x ++ [tuple]) x) ;;;
          ret false in
      if conflict then ret RC_ABORT_RW_CONFLICT
      else
        let* me := rd_ctx xc xid_context.owner in
        serial_register_reader_tx me tuple ;;;
        finish.

(** ** Pre-commit: reads *)

(* src: txn.cc:263-269 transaction::parallel_ssn_commit *)
Definition ssn_init_sstamp (xc cstamp : Z) : M unit :=
  let* ss := rd_ctx xc xid_context.sstamp in
  if ss =? 0 then wr_ctx xc (xid_context.set_sstamp cstamp) else ret tt.

(** Wait until the transaction in context [c], which entered pre-commit, has
    stored its commit stamp. *)
(* src: txn.cc:322-338 transaction::parallel_ssn_commit *)
Definition successor_end (sx : XID.t) (c : Z) : M end_stamp :=
  loop fuel (fun _ : unit =>
    let* s := rd_ctx c xid_context.end_ in
    let* st := rd_ctx c xid_context.state in
    let* v := verify_owner c sx in
    if negb v then ret (inr ContextChange)
    else if txn_state_eqb st TXN_ABRTD then ret (inr Aborted)
    else
      always_assert (txn_state_eqb st TXN_CMMTD || txn_state_eqb st TXN_COMMITTING) ;;;
      ret (if s =? 0 then inl tt else inr (Stamp s st))) tt.

(** One tuple of the read set; [Some rc] aborts. *)
(* src: txn.cc:276-372 transaction::parallel_ssn_commit *)
Definition ssn_commit_read (xc cstamp r : Z) : M (option Z) :=
  loop fuel (fun _ : unit =>
    let* successor_clsn := rd_tuple r dbtuple.sstamp in
    if fat_ptr.eqb successor_clsn NULL_PTR then ret (inr None)
    else if fat_ptr.asi_type successor_clsn =? fat_ptr.ASI_LOG then
      let* _ := set_sstamp xc (fat_ptr.offset successor_clsn) in
      let* c := ssn_check xc in ret (inr c)
    else
      always_assert (fat_ptr.asi_type successor_clsn =? fat_ptr.ASI_XID) ;;;
      let* sx := lift (XID.from_ptr successor_clsn) in
      let* sxc := xid_get_context sx in
      match sxc with
      | None => ret (inl tt)
      | Some s =>
          let* o := rd_ctx s xid_context.owner in
          let* me := rd_ctx xc xid_context.owner in
          if XID.eqb o me then ret (inr None)
          else
            let* st := rd_ctx s xid_context.state in
            let* v := verify_owner s sx in
            if negb v then ret (inl tt)
            else if txn_state_eqb st TXN_ACTIVE then ret (inr None)
            else
              let* e := successor_end sx s in
              match e with
              | ContextChange => ret (inl tt)
              | Aborted => ret (inr None)
              | Stamp e st =>
                  always_assert (negb (e =? cstamp)) ;;;
                  if cstamp <? e then ret (inr None)
                  else
                    let* st := if txn_state_eqb st TXN_COMMITTING
                               then spin_for_cstamp sx s else ret st in
                    if txn_state_eqb st TXN_INVALID then ret (inl tt)
                    else if txn_state_eqb st TXN_CMMTD then
                      let* ss := rd_ctx s xid_context.sstamp in
                      let* v := verify_owner s sx in
                      if negb v then ret (inl tt)
                      else
                        let* _ := set_sstamp xc ss in
                        let* c := ssn_check xc in ret (inr c)
                    else ret (inr None)
              end
      end) tt.

(** ** Pre-commit: writes *)

(** [xc->set_pstamp(p)] followed by the exclusion check. *)
Definition raise_pstamp (xc p : Z) : M (option Z) := set_pstamp xc p ;;; ssn_check xc.

Definition marked_old (overwritten : Z) : M bool :=
  if ssn_read_opt_enabled then has_persistent_reader overwritten else ret false.

(* src: txn.cc:423-447 transaction::parallel_ssn_commit *)
Definition ssn_context_change (xc cstamp overwritten xid_idx : Z) : M (option Z) :=
  let* old := marked_old overwritten in
  if old then
    let* last_cstamp := serial_get_last_read_mostly_cstamp xid_idx in
    if cstamp <? last_cstamp then ret (Some RC_ABORT_RW_CONFLICT)
    else raise_pstamp xc last_cstamp
  else ret None.

(* src: txn.cc:450-463 transaction::parallel_ssn_commit *)
Definition ssn_reader_end (rxid : XID.t) (c : Z) : M end_stamp :=
  loop fuel (fun _ : unit =>
    let* r := rd_ctx c xid_context.end_ in
    let* st := rd_ctx c xid_context.state in
    let* v := verify_owner c rxid in
    if negb v then ret (inr ContextChange)
    else if txn_state_eqb st TXN_ABRTD then ret (inr Aborted)
    else ret (if r =? 0 then inl tt else inr (Stamp r st))) tt.

(** The reader has not pre-committed before us: try to leave our successor
    stamp in its context if some reader thought the version old. *)
(* src: txn.cc:469-507 transaction::parallel_ssn_commit *)
Definition ssn_later_reader (xc cstamp overwritten xid_idx : Z) (rxid : XID.t) (c e : Z)
    : M (option Z) :=
  let* old := marked_old overwritten in
  if old then
    let* last_cstamp := serial_get_last_read_mostly_cstamp xid_idx in
    let* xct := rd_ctx c xid_context.xct in
    let* rm := rd_txn xct is_read_mostly in
    let* failed := if rm then
                     let* ss := rd_ctx xc xid_context.sstamp in
                     let* ok := set_sstamp c (Z.land (Z.lnot sstamp_final_mark) ss) in
                     ret (negb ok)
                   else ret false in
    let* last_cstamp := if failed then
        let* e := if e =? 0 then rd_ctx c xid_context.end_ else ret e in
        let* v := verify_owner c rxid in
        if v then
          always_assert (negb (e =? 0)) ;;;
          loop fuel (fun last_cstamp : Z =>
            if last_cstamp <? e then
              let* last_cstamp := serial_get_last_read_mostly_cstamp xid_idx in
              let* st := rd_ctx c xid_context.state in
              let* gone := if txn_state_eqb st TXN_ABRTD then ret true
                           else let* v := verify_owner c rxid in ret (negb v) in
              if gone then
                let* last_cstamp := serial_get_last_read_mostly_cstamp xid_idx in
                ret (inr last_cstamp)
              else ret (inl last_cstamp)
            else ret (inr last_cstamp)) last_cstamp
        else serial_get_last_read_mostly_cstamp xid_idx
      else ret last_cstamp in
    if failed && (cstamp <? last_cstamp) then ret (Some RC_ABORT_RW_CONFLICT)
    else raise_pstamp xc last_cstamp
  else ret None.

(** The reader pre-committed before us: wait for it. *)
(* src: txn.cc:508-538 transaction::parallel_ssn_commit *)
Definition ssn_earlier_reader (xc cstamp overwritten xid_idx : Z) (rxid : XID.t) (c e : Z)
    : M (option Z) :=
  always_assert (negb (e =? 0) && (e <? cstamp)) ;;;
  let* old := marked_old overwritten in
  if old then
    let* xct := rd_ctx c xid_context.xct in
    let* rm := rd_txn xct is_read_mostly in
    (if rm then let* _ := spin_for_cstamp rxid c in ret tt else ret tt) ;;;
    let* last := serial_get_last_read_mostly_cstamp xid_idx in
    raise_pstamp xc last
  else
    let* st := spin_for_cstamp rxid c in
    if txn_state_eqb st TXN_CMMTD then raise_pstamp xc e else ret None.

(** One reader of the overwritten version, by its position [xid_idx]. *)
(* src: txn.cc:405-539 transaction::parallel_ssn_commit *)
Definition ssn_commit_reader (xc cstamp overwritten xid_idx : Z) : M (option Z) :=
  let* rxid := rd_rlist_xid xid_idx in
  let* reader := if negb (XID.eqb rxid INVALID_XID) then
      let* c := xid_get_context rxid in
      match c with
      | None => ret None
      | Some c =>
          let* st := rd_ctx c xid_context.state in
          let* e := rd_ctx c xid_context.end_ in
          let* v := verify_owner c rxid in
          ret (if v then Some (c, st, e) else None)
      end
    else ret None in
  match reader with
  | None => ssn_context_change xc cstamp overwritten xid_idx
  | Some (c, st, e) =>
      let* s := if negb (txn_state_eqb st TXN_ACTIVE) && (e =? 0)
                then ssn_reader_end rxid c else ret (Stamp e st) in
      match s with
      | ContextChange => ssn_context_change xc cstamp overwritten xid_idx
      | Aborted => ssn_later_reader xc cstamp overwritten xid_idx rxid c 0
      | Stamp e st =>
          if txn_state_eqb st TXN_ACTIVE || (e =? 0) || (cstamp <? e)
          then ssn_later_reader xc cstamp overwritten xid_idx rxid c e
          else ssn_earlier_reader xc cstamp overwritten xid_idx rxid c e
      end
  end.

(** One entry of the write set. *)
(* src: txn.cc:374-546 transaction::parallel_ssn_commit *)
Definition ssn_commit_write (xc cstamp : Z) (w : write_record_t) : M (option Z) :=
  let tuple := get_object w in
  let* defunct := is_defunct tuple in
  if defunct then ret None
  else
    let* nx := tuple_next tuple in
    match nx with
    | None => ret None
    | Some overwritten =>
        lockout_read_mostly_tx overwritten ;;;
        let* it := readers_bitmap_iterator overwritten in
        let* r := loop fuel (fun it : readers_iter =>
          let* n := next overwritten true it in
          if fst n =? -1 then ret (inr None)
          else
            let* c := ssn_commit_reader xc cstamp overwritten (fst n) in
            ret (match c with Some rc => inr (Some rc) | None => inl (snd n) end)) it in
        match r with
        | Some rc => ret (Some rc)
        | None =>
            let* xs := rd_tuple overwritten dbtuple.xstamp in
            raise_pstamp xc xs
        end
    end.

(** ** Post-commit *)

(* src: txn.cc:582-606 transaction::parallel_ssn_commit *)
Definition ssn_post_write (this cstamp my_sstamp : Z) (clsn_ptr : fat_ptr.t) (w : write_record_t)
    : M unit :=
  let tuple := get_object w in
  let* defunct := is_defunct tuple in
  if defunct then ret tt
  else
    do_write tuple ;;;
    let* nx := tuple_next tuple in
    match nx with
    | Some next_tuple =>
        wr_tuple next_tuple (dbtuple.set_sstamp (log_stamp my_sstamp)) ;;;
        welcome_read_mostly_tx next_tuple
    | None => ret tt
    end ;;;
    wr_tuple tuple (dbtuple.set_xstamp cstamp) ;;;
    wr_obj tuple (object.set__clsn clsn_ptr) ;;;
    if enable_gc then
      let* nx := tuple_next tuple in
      match nx with Some _ => enqueue_recycle_oids this w | None => ret tt end
    else ret tt.

(** Wait for the overwriter of [r] if it pre-committed before us. *)
(* src: txn.cc:629-645 transaction::parallel_ssn_commit *)
Definition spin_on_overwriter (xid : XID.t) (cstamp r : Z) : M unit :=
  let* ss := rd_tuple r dbtuple.sstamp in
  if fat_ptr.asi_type ss =? fat_ptr.ASI_XID then
    let* oxid := lift (XID.from_ptr ss) in
    if negb (XID.eqb oxid xid) then
      let* ox := xid_get_context oxid in
      match ox with
      | Some c =>
          let* ox_end := rd_ctx c xid_context.end_ in
          let* ox_owner := rd_ctx c xid_context.owner in
          if XID.eqb ox_owner oxid && negb (ox_end =? 0) && (ox_end <? cstamp)
          then let* _ := spin_for_cstamp oxid c in ret tt
          else ret tt
      | None => ret tt
      end
    else ret tt
  else ret tt.

(* src: txn.cc:625-658 transaction::parallel_ssn_commit *)
Definition ssn_post_read (xid : XID.t) (cstamp r : Z) : M unit :=
  spin_on_overwriter xid cstamp r ;;;
  set_tuple_xstamp r cstamp ;;;
  serial_deregister_reader_tx r.

Definition for_all {X} (l : list X) (body : X -> M unit) : M unit :=
  let* _ := for_each l (fun x (_ : unit) => body x ;;; ret (inl (B := unit) tt)) tt in ret tt.

(** Runs [body] on each element until one says abort. *)
Definition until_abort {X} (l : list X) (body : X -> M (option Z)) : M (option Z) :=
  let* r := for_each l (fun x (_ : unit) =>
    let* c := body x in ret (match c with None => inl tt | Some rc => inr rc end)) tt in
  ret (match r with inl _ => None | inr rc => Some rc end).

(** Everything from [log->commit] on, once the transaction may commit. *)
(* src: txn.cc:560-666 transaction::parallel_ssn_commit *)
Definition ssn_finish (this xc cstamp : Z) (read_mostly : bool) : M Z :=
  tx_log_commit this ;;;
  (if ssn_read_opt_enabled && read_mostly then
     let* e := rd_ctx xc xid_context.end_ in serial_stamp_last_committed_lsn e
   else ret tt) ;;;
  let* my_sstamp := rd_ctx xc (fun c =>
    if ssn_read_opt_enabled && read_mostly
    then Z.land (xid_context.sstamp c) (Z.lnot sstamp_final_mark)
    else xid_context.sstamp c) in
  always_assert (negb (my_sstamp =? 0) && (Z.land my_sstamp sstamp_final_mark =? 0)) ;;;
  let* clsn := rd_ctx xc xid_context.end_ in
  let* ws := rd_txn this transaction.write_set in
  for_all ws (ssn_post_write this cstamp my_sstamp (log_stamp clsn)) ;;;
  wr_ctx xc (xid_context.set_state TXN_CMMTD) ;;;
  let* xid := rd_txn this transaction.xid in
  let* rs := rd_txn this transaction.read_set in
  for_all rs (ssn_post_read xid cstamp) ;;;
  recycle_updated_oids this ;;;
  ret RC_TRUE.

(* src: txn.cc:252-558 transaction::parallel_ssn_commit *)
Definition parallel_ssn_commit (this : Z) : M Z :=
  let* xc := rd_txn this transaction.xc in
  let* cstamp := rd_ctx xc xid_context.end_ in
  let* read_mostly := rd_txn this is_read_mostly in
  ssn_init_sstamp xc cstamp ;;;
  let* rs := rd_txn this transaction.read_set in
  let* a := until_abort rs (ssn_commit_read xc cstamp) in
  match a with
  | Some rc => ret rc
  | None =>
      let* ws := rd_txn this transaction.write_set in
      let* a := until_abort ws (ssn_commit_write xc cstamp) in
      match a with
      | Some rc => ret rc
      | None =>
          (if ssn_read_opt_enabled && read_mostly then finalize_sstamp xc else ret tt) ;;;
          let* ok := ssn_check_exclusion xc in
          if negb ok then ret RC_ABORT_SERIAL
          else
            let* ok := if PHANTOM_PROT then check_phantom this else ret true in
            if negb ok then ret RC_ABORT_PHANTOM
            else ssn_finish this xc cstamp read_mostly
      end
  end.

End ssn.

Lemma guar_for_all `{PL : Platform} {X} G (l : list X) body : (forall y, y ∈ l -> guar G (body y)) -> guar G (for_all l body).
Proof. intros H. unfold for_all. guar. Qed.

#[export] Hint Resolve guar_for_all : guar.
