(* ===== verification/Ssi.v ===== *)
(** * Serializable snapshot isolation ([txn.cc], [SSI] builds)

    Reads ([ssi_read]) and the parallel commit protocol
    ([parallel_ssi_commit]).  [ct3] is the smallest commit stamp of a
    transaction that overwrote something this one read; a transaction with a
    [ct3] is a pivot and must not overwrite a version that was read by a
    transaction committing after [ct3]. *)
From stdpp Require Import base numbers list gmap.
From Stdlib Require Import ZArith Lia.
From S2P Require Import Prelude FatPtr SizeEncode Shared Program Contexts Readers Versions Txn Ssn.

Local Open Scope Z_scope.

Section ssi.
Context `{CF : Config} `{PL : Platform}.

(* src: txn.cc:1285-1329 transaction::ssi_read *)
Definition ssi_read (this tuple : Z) : M Z :=
  let* xc := rd_txn this transaction.xc in
  let* s2 := rd_tuple tuple dbtuple.s2 in
  let* danger := if negb (s2 =? 0) then
      if negb enable_ssi_read_only_opt then ret true
      else
        let* ws := rd_txn this transaction.write_set in
        if negb (bool_decide (ws = [])) then ret true
        else
          let* b := rd_ctx xc xid_context.begin_ in
          let* s2 := rd_tuple tuple dbtuple.s2 in
          ret (s2 <=? b)
    else ret false in
  if danger then ret RC_ABORT_SERIAL
  else
    let* tuple_s1 := rd_tuple tuple dbtuple.sstamp in
    if fat_ptr.asi_type tuple_s1 =? fat_ptr.ASI_LOG then
      let* ct3 := rd_ctx xc xid_context.ct3 in
      (if (ct3 =? 0) || (fat_ptr.offset tuple_s1 <? ct3)
       then wr_ctx xc (xid_context.set_ct3 (fat_ptr.offset tuple_s1)) else ret tt) ;;;
      ret RC_TRUE
    else
      let* me := rd_ctx xc xid_context.owner in
      serial_register_reader_tx me tuple ;;;
      wr_txn this (fun x => transaction.set_read_set (transaction.read_set x ++ [tuple]) x) ;;;
      ret RC_TRUE.

(** The commit stamp of the overwriter of a version we read, 0 when it has
    none that matters; [None] means that the tuple needs no further check. *)
(* src: txn.cc:738-808 transaction::parallel_ssi_commit *)
Definition ssi_overwriter (xc cstamp r : Z) : M (option Z) :=
  loop fuel (fun _ : unit =>
    let* overwriter_clsn := rd_tuple r dbtuple.sstamp in
    if fat_ptr.eqb overwriter_clsn NULL_PTR then ret (inr None)
    else if fat_ptr.asi_type overwriter_clsn =? fat_ptr.ASI_LOG
    then ret (inr (Some (fat_ptr.offset overwriter_clsn)))
    else
      always_assert (fat_ptr.asi_type overwriter_clsn =? fat_ptr.ASI_XID) ;;;
      let* ox := lift (XID.from_ptr overwriter_clsn) in
      let* me := rd_ctx xc xid_context.owner in
      if XID.eqb ox me then ret (inr None)
      else
        let* c := xid_get_context ox in
        match c with
        | None => ret (inl tt)
        | Some c =>
            let* st := rd_ctx c xid_context.state in
            let* v := verify_owner c ox in
            if negb v then ret (inl tt)
            else if txn_state_eqb st TXN_ACTIVE then ret (inr None)
            else
              let* e := ssn_reader_end ox c in
              match e with
              | ContextChange => ret (inl tt)
              | Aborted => ret (inr None)
              | Stamp e st =>
                  always_assert (negb (e =? cstamp)) ;;;
                  if cstamp <? e then ret (inr None)
                  else
                    let* st := if txn_state_eqb st TXN_COMMITTING
                               then spin_for_cstamp ox c else ret st in
                    if txn_state_eqb st TXN_INVALID then ret (inl tt)
                    else ret (inr (Some (if txn_state_eqb st TXN_CMMTD then e else 0)))
              end
        end) tt.

(** One tuple of the read set: the new [ct3], or abort. *)
(* src: txn.cc:736-820 transaction::parallel_ssi_commit *)
Definition ssi_commit_read (xc cstamp r ct3 : Z) : M (Z + Z) :=
  let* o := ssi_overwriter xc cstamp r in
  match o with
  | None => ret (inl ct3)
  | Some tuple_s1 =>
      let ct3 := if negb (tuple_s1 =? 0) && ((ct3 =? 0) || (tuple_s1 <? ct3))
                 then tuple_s1 else ct3 in
      let* s2 := rd_tuple r dbtuple.s2 in
      ret (if negb (s2 =? 0) then inr RC_ABORT_SERIAL else inl ct3)
  end.

(** Aborts when the version was read by someone committing at or after [ct3]. *)
Definition xstamp_check (overwritten ct3 : Z) : M (option Z) :=
  let* xs := rd_tuple overwritten dbtuple.xstamp in
  ret (if ct3 <=? xs then Some RC_ABORT_SERIAL else None).

(** One reader of a version the pivot overwrites. *)
(* src: txn.cc:844-926 transaction::parallel_ssi_commit *)
Definition ssi_commit_reader (cstamp ct3 overwritten xid_idx : Z) : M (option Z) :=
  let* rxid := rd_rlist_xid xid_idx in
  if XID.eqb rxid INVALID_XID then ret None
  else
    let* reader := if negb (XID._val rxid =? 0) then
        let* c := xid_get_context rxid in
        match c with
        | None => ret None
        | Some c =>
            let* st := rd_ctx c xid_context.state in
            let* e := rd_ctx c xid_context.end_ in
            let* v := verify_owner c rxid in
            ret (if v then Some (c, st, e) else None)
        end
      else ret None in
    match reader with
    | None => xstamp_check overwritten ct3
    | Some (c, st, e) =>
        let* s := if negb (txn_state_eqb st TXN_ACTIVE) && (e =? 0)
                  then ssn_reader_end rxid c else ret (Stamp e st) in
        match s with
        | ContextChange => xstamp_check overwritten ct3
        | Aborted => ret None
        | Stamp e st =>
            if txn_state_eqb st TXN_ACTIVE || (e =? 0) then ret (Some RC_ABORT_SERIAL)
            else if e <? cstamp then
              if ct3 <=? e then
                let* cr := spin_for_cstamp rxid c in
                if txn_state_eqb cr TXN_CMMTD then ret (Some RC_ABORT_SERIAL)
                else if txn_state_eqb cr TXN_INVALID then xstamp_check overwritten ct3
                else ret None
              else ret None
            else ret (Some RC_ABORT_SERIAL)
        end
    end.

(* src: txn.cc:824-931 transaction::parallel_ssi_commit *)
Definition ssi_commit_write (cstamp ct3 : Z) (w : write_record_t) : M (option Z) :=
  let tuple := get_object w in
  let* defunct := is_defunct tuple in
  if defunct then ret None
  else
    let* nx := tuple_next tuple in
    match nx with
    | None => ret None
    | Some overwritten =>
        let* it := readers_bitmap_iterator overwritten in
        let* r := loop fuel (fun it : readers_iter =>
          let* n := next overwritten true it in
          if fst n =? -1 then ret (inr None)
          else
            let* c := ssi_commit_reader cstamp ct3 overwritten (fst n) in
            ret (match c with Some rc => inr (Some rc) | None => inl (snd n) end)) it in
        match r with
        | Some rc => ret (Some rc)
        | None => xstamp_check overwritten ct3
        end
    end.

(* src: txn.cc:945-967 transaction::parallel_ssi_commit *)
Definition ssi_post_write (this cstamp ct3 : Z) (w : write_record_t) : M unit :=
  let clsn_ptr := log_stamp cstamp in
  let tuple := get_object w in
  let* defunct := is_defunct tuple in
  if defunct then ret tt
  else
    do_write tuple ;;;
    let* nx := tuple_next tuple in
    match nx with
    | Some overwritten =>
        wr_tuple overwritten (dbtuple.set_s2 ct3) ;;;
        wr_tuple overwritten (dbtuple.set_sstamp clsn_ptr)
    | None => ret tt
    end ;;;
    wr_tuple tuple (dbtuple.set_xstamp cstamp) ;;;
    wr_obj tuple (object.set__clsn clsn_ptr) ;;;
    if enable_gc then
      let* nx := tuple_next tuple in
      match nx with Some _ => enqueue_recycle_oids this w | None => ret tt end
    else ret tt.

(** The order differs from SSN: the access stamp is set before the wait. *)
(* src: txn.cc:981-1020 transaction::parallel_ssi_commit *)
Definition ssi_post_read (xid : XID.t) (cstamp r : Z) : M unit :=
  set_tuple_xstamp r cstamp ;;;
  spin_on_overwriter xid cstamp r ;;;
  serial_deregister_reader_tx r.

(* src: txn.cc:939-1029 transaction::parallel_ssi_commit *)
Definition ssi_finish (this xc cstamp ct3 : Z) : M Z :=
  tx_log_commit this ;;;
  let* ws := rd_txn this transaction.write_set in
  for_all ws (ssi_post_write this cstamp ct3) ;;;
  wr_ctx xc (xid_context.set_state TXN_CMMTD) ;;;
  let* xid := rd_txn this transaction.xid in
  let* rs := rd_txn this transaction.read_set in
  for_all rs (ssi_post_read xid cstamp) ;;;
  recycle_updated_oids this ;;;
  ret RC_TRUE.

(* src: txn.cc:730-937 transaction::parallel_ssi_commit *)
Definition parallel_ssi_commit (this : Z) : M Z :=
  let* xc := rd_txn this transaction.xc in
  let* cstamp := rd_ctx xc xid_context.end_ in
  let* ct3 := rd_ctx xc xid_context.ct3 in
  let* rs := rd_txn this transaction.read_set in
  let* a := for_each rs (fun r ct3 => ssi_commit_read xc cstamp r ct3) ct3 in
  match a with
  | inr rc => ret rc
  | inl ct3 =>
      let* a := if negb (ct3 =? 0) then
                  let* ws := rd_txn this transaction.write_set in
                  until_abort ws (ssi_commit_write cstamp ct3)
                else ret None in
      match a with
      | Some rc => ret rc
      | None =>
          let* ok := if PHANTOM_PROT then check_phantom this else ret true in
          if negb ok then ret RC_ABORT_PHANTOM
          else ssi_finish this xc cstamp ct3
      end
  end.

End ssi.
