(* ===== verification/Engine.v ===== *)
(** * The transaction engine ([txn.cc], [base_txn_btree.cc], [masstree_btree.h])

    Beginning and ending a transaction, snapshot-isolation commit, the commit
    dispatcher, and the record operations of a transactional index: search,
    insert, update and delete. *)
From stdpp Require Import base numbers list gmap.
From Stdlib Require Import ZArith Lia.
From S2P Require Import Prelude FatPtr SizeEncode Shared Program Contexts Readers Versions Txn Ssn Ssi.

Local Open Scope Z_scope.

Section engine.
Context `{CF : Config} `{PL : Platform}.

(** ** Life cycle *)

Definition set_begin (xc : Z) (b : Z) : M unit := wr_ctx xc (xid_context.set_begin_ b).

(** [log = logmgr->new_tx_log(); xc->begin = logmgr->cur_lsn().offset() + 1]. *)
Definition open_log (this xc : Z) : M unit :=
  wr (fun m => set_mlog (log_new_tx this (mlog m)) m) ;;;
  wr_txn this (transaction.set_log true) ;;;
  let* l := rd (fun m => log_cur_lsn (mlog m)) in
  set_begin xc (u64 (l + 1)).

(* src: txn.cc:25-93 transaction::transaction *)
Definition transaction_begin (this flags : Z) : M unit :=
  wr (fun m => set_txns (<[this := transaction.mk flags (XID.mk 0) 0 false [] [] ∅ NULL_PTR NULL_PTR]>
                           (txns m)) m) ;;;
  let* xid := xid_alloc in
  wr_txn this (transaction.set_xid xid) ;;;
  let* c := xid_get_context xid in
  match c with
  | None => throw bad_address
  | Some xc =>
      wr_txn this (transaction.set_xc xc) ;;;
      let* e := rd mm_epoch in
      wr_ctx xc (xid_context.set_begin_epoch e) ;;;
      if SSN || SSI then
        wr_ctx xc (xid_context.set_xct this) ;;;
        if enable_safesnap && negb (Z.land flags TXN_FLAG_READ_ONLY =? 0) then
          let* s := rd safesnap_lsn in
          set_begin xc s
        else
          serial_register_tx xid ;;;
          open_log this xc ;;;
          let* s := rd safesnap_lsn in
          if SSN then wr_ctx xc (xid_context.set_pstamp s)
          else wr_ctx xc (xid_context.set_last_safesnap s)
      else open_log this xc
  end.

(** The destructor; leaving the RCU and memory-manager epochs touches no
    state of this model. *)
(* src: txn.cc:95-118 transaction::~transaction *)
Definition transaction_end (this : Z) : M unit :=
  let* x := rd_txn this (fun x => x) in
  (if (SSN || SSI) && (negb enable_safesnap || negb (is_read_only x))
   then serial_deregister_tx (transaction.xid x) else ret tt) ;;;
  xid_free (transaction.xid x).

(* src: txn.cc:1053-1072 transaction::si_commit *)
Definition si_post_write (this : Z) (clsn_ptr : fat_ptr.t) (w : write_record_t) : M unit :=
  let tuple := get_object w in
  let* defunct := is_defunct tuple in
  if defunct then ret tt
  else
    do_write tuple ;;;
    wr_obj tuple (object.set__clsn clsn_ptr) ;;;
    if enable_gc then
      let* nx := tuple_next tuple in
      match nx with Some _ => enqueue_recycle_oids this w | None => ret tt end
    else ret tt.

(* src: txn.cc:1032-1086 transaction::si_commit *)
Definition si_commit (this : Z) : M Z :=
  let* xc := rd_txn this transaction.xc in
  let* s := tx_log_pre_commit this in
  wr_ctx xc (xid_context.set_end_ s) ;;;
  if s =? 0 then ret RC_ABORT_INTERNAL
  else
    let* ok := if PHANTOM_PROT then check_phantom this else ret true in
    if negb ok then ret RC_ABORT_PHANTOM
    else
      tx_log_commit this ;;;
      let* clsn := rd_ctx xc xid_context.end_ in
      let* ws := rd_txn this transaction.write_set in
      for_all ws (si_post_write this (log_stamp clsn)) ;;;
      wr_ctx xc (xid_context.set_state TXN_CMMTD) ;;;
      recycle_updated_oids this ;;;
      ret RC_TRUE.

(* src: txn.cc:208-238 transaction::commit *)
Definition commit (this : Z) : M Z :=
  let* xc := rd_txn this transaction.xc in
  let* st := rd_ctx xc xid_context.state in
  always_assert (txn_state_eqb st TXN_ACTIVE) ;;;
  wr_ctx xc (xid_context.set_state TXN_COMMITTING) ;;;
  if SSN || SSI then
    let* ro := rd_txn this is_read_only in
    if enable_safesnap && ro then
      let* b := rd_ctx xc xid_context.begin_ in
      wr_ctx xc (xid_context.set_end_ b) ;;;
      wr_ctx xc (xid_context.set_state TXN_CMMTD) ;;;
      ret RC_TRUE
    else
      let* s := tx_log_pre_commit this in
      wr_ctx xc (xid_context.set_end_ s) ;;;
      if s =? 0 then ret RC_ABORT_INTERNAL
      else if SSN then parallel_ssn_commit this else parallel_ssi_commit this
  else si_commit this.

(* src: txn.h:153-159 transaction::ensure_active *)
Definition ensure_active (this : Z) : M unit :=
  let* xc := rd_txn this transaction.xc in
  wr_ctx xc (xid_context.set_state TXN_ACTIVE).

(** ** Reading *)

(* src: txn.cc:1170-1210 transaction::do_tuple_read *)
Definition do_tuple_read (this tuple : Z) (reader : list Z -> bool) : M Z :=
  let* clsn := rd_obj tuple object._clsn in
  let read_my_own := fat_ptr.asi_type clsn =? fat_ptr.ASI_XID in
  let* rc := if (SSI || SSN) && negb read_my_own then
      let* ro := rd_txn this is_read_only in
      if enable_safesnap && ro then ret RC_TRUE
      else if SSN then ssn_read this tuple else ssi_read this tuple
    else ret RC_TRUE in
  if rc_is_abort rc then ret rc
  else
    let* stat := do_read tuple reader (negb read_my_own) in
    ret (match stat with
         | READ_FAILED => RC_ABORT_INTERNAL
         | READ_EMPTY => RC_FALSE
         | READ_RECORD => RC_TRUE
         end).

(* src: txn.cc:1212-1225 transaction::do_node_read *)
Definition do_node_read (this n v : Z) : M Z :=
  let* absent := rd_txn this transaction.absent_set in
  match absent !! n with
  | None =>
      wr_txn this (fun x => transaction.set_absent_set (<[n := v]> (transaction.absent_set x)) x) ;;;
      ret RC_TRUE
  | Some v' => ret (if v' =? v then RC_TRUE else RC_ABORT_PHANTOM)
  end.

(** The OID under a key with its visible version, and the leaf visited. *)
(* src: masstree_btree.h:572-589 mbtree::search *)
Definition btree_search (btr : Z) (k : list Z) (xc : Z) : M (option (Z * Z) * (Z * Z)) :=
  let* r := rd (fun m => index_find (mindex m) btr k) in
  match fst r with
  | None => ret (None, snd r)
  | Some o =>
      let* v := oid_get_version btr o xc in
      ret (match v with Some t => Some (o, t) | None => None end, snd r)
  end.

(* src: base_txn_btree.cc:3-27 base_txn_btree::do_search *)
Definition do_search (this btr : Z) (k : list Z) (reader : list Z -> bool) : M Z :=
  ensure_active this ;;;
  let* xc := rd_txn this transaction.xc in
  let* r := btree_search btr k xc in
  match fst r with
  | Some (_, tuple) => do_tuple_read this tuple reader
  | None =>
      if PHANTOM_PROT then
        let* rc := do_node_read this (fst (snd r)) (snd (snd r)) in
        ret (if rc_is_abort rc then rc else RC_FALSE)
      else ret RC_FALSE
  end.

(** What a range scan does for one record it visits: the code left in the
    caller's callback and whether the scan goes on ([caller] is its
    [invoke]). *)
(* src: base_txn_btree.cc:235-257 txn_search_range_callback::invoke *)
Definition range_invoke (this tuple : Z) (reader : list Z -> bool) (caller : bool) : M (Z * bool) :=
  ensure_active this ;;;
  let* rc := do_tuple_read this tuple reader in
  ret (rc, if rc =? RC_TRUE then caller else negb (rc_is_abort rc)).

(** What a range scan does for one leaf: a code to store in the caller's
    callback, if any. *)
(* src: base_txn_btree.cc:215-233 txn_search_range_callback::on_resp_node *)
Definition range_on_resp_node (this n version : Z) : M (option Z) :=
  if PHANTOM_PROT then
    let* skip := if SSN then rd_txn this is_read_only else ret false in
    if skip then ret None
    else
      let* rc := do_node_read this n version in
      ret (if rc_is_abort rc then Some rc else None)
  else ret None.

(** ** Writing *)

(* src: txn.h:244-252 transaction::add_to_write_set *)
Definition add_to_write_set (this : Z) (objptr : fat_ptr.t) (oa o : Z) : M unit :=
  wr_txn this (fun x => transaction.set_write_set
    (transaction.write_set x ++ [write_record objptr oa o]) x).

(* src: masstree_btree.h:613-648 mbtree::insert_if_absent *)
Definition insert_if_absent (btr : Z) (k : list Z) (o : Z) : M (option (Z * (Z * Z))) :=
  let put := atomic (fun m => let (ix, info) := index_put (mindex m) btr k o in
                              Ok (Some info, set_mindex ix m)) in
  let* r := rd (fun m => index_find (mindex m) btr k) in
  match fst r with
  | None => put
  | Some o' =>
      let* v := oid_get_latest_version btr o' in
      match v with Some _ => ret None | None => put end
  end.

Definition varstr_bytes (v : varstr_ptr) : list Z := match v with VARSTR b => b | _ => [] end.

(** The log record of a value or key of [sz] bytes. *)
Definition payload_op (ty : log_record_type) (fid o : Z) (bytes : list Z) (record_size : Z)
    (pdest : option Z) : log_op :=
  mk_log_op ty fid o bytes (size_code_of record_size) DEFAULT_ALIGNMENT_BITS pdest.

(* src: txn.cc:1103-1168 transaction::try_insert_new_tuple *)
Definition try_insert_new_tuple (this btr fid : Z) (key : list Z) (value : varstr_ptr) : M bool :=
  let* xc := rd_txn this transaction.xc in
  let* e := rd_ctx xc xid_context.begin_epoch in
  let* new_head := create_tuple_object value false e in
  let tuple := fat_ptr.offset new_head in
  let* xid := rd_txn this transaction.xid in
  wr_obj tuple (object.set__clsn (XID.to_ptr xid)) ;;;
  let* o := atomic (fun m => match oid_alloc fid (oalloc m) with
                             | Ok (o, a) => Ok (o, set_oalloc a m)
                             | Throw e => Throw e
                             end) in
  oid_put_new btr o new_head ;;;
  let* ins := insert_if_absent btr key o in
  match ins with
  | None => oid_unlink btr o ;;; ret false
  | Some (node, (old_version, new_version)) =>
      let* stale := if PHANTOM_PROT then
          let* absent := rd_txn this transaction.absent_set in
          match absent !! node with
          | None => ret false
          | Some v =>
              if negb (v =? old_version) then oid_unlink btr o ;;; ret true
              else
                wr_txn this (fun x => transaction.set_absent_set
                  (<[node := new_version]> (transaction.absent_set x)) x) ;;;
                ret false
          end
        else ret false in
      if stale then ret false
      else
        let* size := rd_tuple tuple dbtuple.size in
        tx_log_request this (payload_op LOG_INSERT fid o (varstr_bytes value)
          (align_up size DEFAULT_ALIGNMENT + sizeof_varstr) (Some tuple)) ;;;
        tx_log_request this (payload_op LOG_INSERT_INDEX fid o key
          (align_up (sizeof_varstr + Z.of_nat (length key)) DEFAULT_ALIGNMENT) None) ;;;
        add_to_write_set this new_head btr o ;;;
        ret true
  end.

(** The SSI check of the version about to be overwritten; [Some rc] aborts. *)
(* src: base_txn_btree.cc:96-144 base_txn_btree::do_tree_put *)
Definition ssi_put_check (xc btr o prev : Z) : M (option Z) :=
  let* ct3 := rd_ctx xc xid_context.ct3 in
  if ct3 =? 0 then ret None
  else
    let* c := rd_ctx xc (fun c => xid_context.ct3 c <=? xid_context.last_safesnap c) in
    if c then ret (Some RC_ABORT_SERIAL)
    else
      let* read := let* xs := rd_tuple prev dbtuple.xstamp in
                   let* ct3 := rd_ctx xc xid_context.ct3 in
                   if ct3 <=? xs then ret true
                   else let* e := is_empty prev true in ret (negb e) in
      if negb read then ret None
      else if enable_ssi_read_only_opt then
        let* it := readers_bitmap_iterator prev in
        loop fuel (fun it : readers_iter =>
          let* n := next prev true it in
          if fst n =? -1 then ret (inr None)
          else
            let* rxid := rd_rlist_xid (fst n) in
            if XID.eqb rxid INVALID_XID then ret (inl (snd n))
            else
              let* c := xid_get_context rxid in
              match c with
              | None => ret (inl (snd n))
              | Some c =>
                  let* reader_begin := rd_ctx c xid_context.begin_ in
                  let* reader_owner := rd_ctx c xid_context.owner in
                  if negb (XID.eqb reader_owner rxid) then ret (inl (snd n))
                  else
                    let* xct := rd_ctx c xid_context.xct in
                    let* ws := rd_txn xct transaction.write_set in
                    let* ct3 := rd_ctx xc xid_context.ct3 in
                    if negb (bool_decide (ws = [])) && (reader_begin <=? ct3)
                    then oid_unlink btr o ;;; ret (inr (Some RC_ABORT_SERIAL))
                    else ret (inl (snd n))
              end) it
      else oid_unlink btr o ;;; ret (Some RC_ABORT_SERIAL).

(** The SSN bookkeeping for the version about to be overwritten. *)
(* src: base_txn_btree.cc:145-168 base_txn_btree::do_tree_put *)
Definition ssn_put_check (xc btr o prev tuple : Z) : M (option Z) :=
  let* prev_xstamp := rd_tuple prev dbtuple.xstamp in
  let* ps := rd_ctx xc xid_context.pstamp in
  (if ps <? prev_xstamp then wr_ctx xc (xid_context.set_pstamp prev_xstamp) else ret tt) ;;;
  let* c := if EARLY_SSN_CHECK then ssn_check xc else ret None in
  match c with
  | Some rc => oid_unlink btr o ;;; ret (Some rc)
  | None =>
      let* xs := rd_tuple prev dbtuple.xstamp in
      wr_tuple tuple (dbtuple.set_xstamp xs) ;;;
      ret None
  end.

(* src: base_txn_btree.cc:59-213 base_txn_btree::do_tree_put *)
Definition do_tree_put (this btr fid : Z) (k : list Z) (v : varstr_ptr) (expect_new : bool) : M Z :=
  ensure_active this ;;;
  let* inserted := if expect_new then try_insert_new_tuple this btr fid k v else ret false in
  if inserted then ret RC_TRUE
  else
    let* xc := rd_txn this transaction.xc in
    let* r := btree_search btr k xc in
    match fst r with
    | None => ret RC_ABORT_INTERNAL
    | Some (o, _) =>
        let* pn := oid_put_update btr o v xc in
        let prev_obj_ptr := fst pn in
        let new_obj_ptr := snd pn in
        let tuple := fat_ptr.offset new_obj_ptr in
        if fat_ptr.eqb prev_obj_ptr NULL_PTR then ret RC_ABORT_SI_CONFLICT
        else
          let prev := fat_ptr.offset prev_obj_ptr in
          let* c := if SSI then ssi_put_check xc btr o prev else ret None in
          match c with
          | Some rc => ret rc
          | None =>
              let* c := if SSN then ssn_put_check xc btr o prev tuple else ret None in
              match c with
              | Some rc => ret rc
              | None =>
                  let* prev_clsn := rd_obj prev object._clsn in
                  let* xid := rd_txn this transaction.xid in
                  let* mine := if fat_ptr.asi_type prev_clsn =? fat_ptr.ASI_XID
                               then let* x := lift (XID.from_ptr prev_clsn) in ret (XID.eqb x xid)
                               else ret false in
                  (if mine then deallocate prev_obj_ptr
                   else if SSI || SSN then
                     let* owner := rd_ctx xc xid_context.owner in
                     wr_tuple prev (dbtuple.set_sstamp (XID.to_ptr owner))
                   else ret tt) ;;;
                  add_to_write_set this new_obj_ptr btr o ;;;
                  (match v with
                   | NULL_VARSTR =>
                       tx_log_request this (mk_log_op LOG_DELETE fid o [] 0 0 None)
                   | _ =>
                       tx_log_request this (payload_op LOG_UPDATE fid o (varstr_bytes v)
                         (align_up (varstr_size v) DEFAULT_ALIGNMENT + sizeof_varstr) (Some tuple))
                   end) ;;;
                  ret RC_TRUE
              end
          end
    end.

End engine.
