(* ===== verification/Scenario.v ===== *)
(** * Concrete surroundings and memories

    Instances of the interfaces the engine is parameterised by, small enough
    to run: a log that hands out increasing commit stamps, an index that is an
    association list, an OID counter.  They show that the hypotheses of the
    theorems can hold together and drive the executable examples. *)
From stdpp Require Import base numbers list gmap.
From Stdlib Require Import ZArith Lia.
From S2P Require Import Prelude FatPtr Shared Program Contexts Readers Versions Txn.

Local Open Scope Z_scope.

(** The index keeps (table, key, OID); its one node has the list's length as
    version. *)
Definition assoc_find (ix : list (Z * list Z * Z)) (b : Z) (k : list Z) : option Z :=
  match filter (fun e => e.1 = (b, k)) ix with e :: _ => Some e.2 | [] => None end.

#[global] Instance demo_backend : Backend := {|
  log_t := Z;
  log_cur_lsn l := l;
  log_new_tx _ l := l;
  log_request _ _ l := (l, []);
  log_pre_commit _ l := (l + 16, l + 16);
  log_commit _ l := (l, []);
  log_discard _ l := l;
  log_load _ _ := [];
  index_t := list (Z * list Z * Z);
  index_find ix b k := (assoc_find ix b k, (1, Z.of_nat (length ix)));
  index_put ix b k o := ((b, k, o) :: ix, (1, (Z.of_nat (length ix), Z.of_nat (length ix) + 1)));
  index_node_version ix _ := Z.of_nat (length ix);
  oalloc_t := Z;
  oid_alloc _ n := Ok (n, n + 1) |}.

(** The first address above all live objects. *)
Definition top_address (m : mem) : Z := 65536 + map_fold (fun a _ t => Z.max a t) 0 (objects m).

Lemma top_address_fresh m : objects m !! top_address m = None.
Proof.
  enough (forall a o, objects m !! a = Some o -> a < top_address m) as H.
  { destruct (objects m !! top_address m) as [o|] eqn:E; [|done]. apply H in E. lia. }
  unfold top_address. generalize (objects m). clear m.
  apply (map_fold_weak_ind (fun t (os : gmap Z object.t) => forall a o, os !! a = Some o -> a < 65536 + t)).
  - intros a o H. by rewrite lookup_empty in H.
  - intros i o os t Hi IH a o' [[-> ->]|[Hne Ha]]%lookup_insert_Some; [lia|].
    specialize (IH a o' Ha). lia.
Qed.

(** A thread with readers bit [entry] of word 0, running with the given
    interference; memory comes from a bump allocator. *)
Definition demo_platform (env : nat -> mem -> mem) (entry : Z) : Platform := {|
  interfere := env;
  fuel := 40;
  mm_allocate _ _ m := (top_address m, tls_unlinked_objects m);
  tls_entry := entry;
  tls_index := 0;
  xid_new_epoch _ _ := true |}.

Definition alone : nat -> mem -> mem := fun _ m => m.

Definition config (ssn ssi : bool) (threshold : Z) : Config := {|
  SSN := ssn; SSI := ssi; RC := false; RC_SPIN := false; PHANTOM_PROT := true;
  EARLY_SSN_CHECK := false; enable_safesnap := false; enable_gc := true;
  enable_ssi_read_only_opt := false; ssn_read_opt_threshold := threshold; worker_threads := 8 |}.

(** ** Building blocks of memories *)

Definition empty_mem : mem :=
  mk_mem ∅ ∅ ∅ empty_bitmap ∅ ∅ ∅ NULL_PTR NULL_PTR 0 4 0 ∅ ∅ ∅ ∅ (0, 0) ∅ None ∅ ∅ 1 (thread_data.mk 1 0 0 true) 100 [] 1.

Definition ptr (a : Z) : fat_ptr.t := fat_ptr.make a 8 0.

(** A committed version with commit stamp [cs], access stamp [xs], value [v]. *)
Definition committed_version (nxt : fat_ptr.t) (cs xs : Z) (v : list Z) : object.t :=
  object.mk NULL_PTR nxt (log_stamp cs) 1
    (dbtuple.mk empty_bitmap NULL_PTR xs 0 0 (Z.of_nat (length v)) (VARSTR v) v) (0, 0).

(** A version written by the still running transaction [x]. *)
Definition dirty_version (nxt : fat_ptr.t) (x : XID.t) (v : list Z) : object.t :=
  object.set__clsn (XID.to_ptr x) (committed_version nxt 0 0 v).

Definition tuple_with (g : dbtuple.t -> dbtuple.t) (o : object.t) : object.t := upd_tuple g o.

Definition with_object (a : Z) (o : object.t) (m : mem) : mem := set_objects (<[a := o]> (objects m)) m.
Definition with_oid (b o : Z) (p : fat_ptr.t) (m : mem) : mem := set_oids (<[(b, o) := p]> (oids m)) m.
Definition with_context (i : Z) (c : xid_context.t) (m : mem) : mem :=
  set_contexts (<[i := c]> (contexts m)) m.
Definition with_txn (i : Z) (x : transaction.t) (m : mem) : mem := set_txns (<[i := x]> (txns m)) m.

(** The context of transaction [i] of epoch 1, whose object is at [i] too. *)
Definition context (i b e : Z) (st : txn_state) : xid_context.t :=
  xid_context.mk 4 (XID.make 1 i) b e 0 0 i 0 0 st.

Definition txn_of (i flags : Z) (ws : list write_record_t) (rs : list Z) : transaction.t :=
  transaction.mk flags (XID.make 1 i) i true ws rs ∅ NULL_PTR NULL_PTR.
