(* ===== verification/ReadersSpec.v ===== *)
(** * What the readers lists guarantee ([dbcore/serial.cpp])

    Registering and deregistering change one thread's bit only, under any
    interference by the other threads on theirs; iterating over a bitmap
    visits exactly the registered positions. *)
From stdpp Require Import base numbers list gmap.
From Stdlib Require Import ZArith Lia.
From S2P Require Import Prelude Bits FatPtr Shared Program Contexts Readers Scenario.

Local Open Scope Z_scope.

(** Is bit [p] of the readers bitmap set? *)
Definition reader_bit (x : dbtuple.t) (p : Z) : bool :=
  Z.testbit (word (dbtuple.readers_bitmap x) (p / 64)) (p mod 64).

Definition wf_bitmap (x : dbtuple.t) : Prop :=
  length (dbtuple.readers_bitmap x) = Z.to_nat ARRAY_SIZE /\
  Forall (fits 64) (dbtuple.readers_bitmap x).

(** The thread's [tls_bitmap_info] is one bit of the array, which is what
    [assign_reader_bitmap_entry] is meant to hand out. *)
Definition own_bit `{PL : Platform} (k : Z) : Prop :=
  tls_entry = 2 ^ k /\ 0 <= k < 64 /\ 0 <= tls_index < ARRAY_SIZE.

Section bit.
Context `{CF : Config} `{PL : Platform}.
Context (k : Z) (Hown : own_bit k).
Let me := xid_index.

Lemma me_split : me / 64 = tls_index /\ me mod 64 = k.
Proof.
  destruct Hown as (E & Hk & Hi). unfold me, xid_index. rewrite E, ctz_pow2 by lia. zlia.
Qed.

Lemma me_nonneg : 0 <= me.
Proof. destruct me_split as [E _], Hown as (_ & _ & Hi). zlia. Qed.

Lemma land_entry w : negb (Z.land w tls_entry =? 0) = Z.testbit w k.
Proof.
  destruct Hown as (E & Hk & _). rewrite E.
  assert (Z.land w (2 ^ k) = if Z.testbit w k then 2 ^ k else 0) as ->.
  { apply Z.bits_inj'. intros i Hi. rewrite Z.land_spec, Z.pow2_bits_eqb by lia.
    destruct (Z.eqb_spec k i) as [<-|].
    - destruct (Z.testbit w k); rewrite ?Z.pow2_bits_true, ?Z.bits_0 by lia; done.
    - rewrite andb_false_r. destruct (Z.testbit w k); rewrite ?Z.pow2_bits_false, ?Z.bits_0 by lia; done. }
  destruct (Z.testbit w k); [|done]. pose proof (Z.pow_pos_nonneg 2 k). by rewrite (proj2 (Z.eqb_neq _ _)) by lia.
Qed.

(** Writing word [i] changes the bits of that word only. *)
Lemma word_set_word l i j v :
  0 <= i -> 0 <= j -> i < Z.of_nat (length l) ->
  word (set_word i v l) j = if i =? j then v else word l j.
Proof.
  intros Hi Hj Hl. unfold word, set_word. destruct (Z.eqb_spec i j) as [<-|Hne].
  - rewrite nth_lookup, list_lookup_insert_eq by lia. done.
  - rewrite !nth_lookup, list_lookup_insert_ne by lia. done.
Qed.

Definition with_word (f : Z -> Z) (x : dbtuple.t) : dbtuple.t :=
  dbtuple.set_readers_bitmap
    (set_word tls_index (f (word (dbtuple.readers_bitmap x) tls_index)) (dbtuple.readers_bitmap x)) x.

Lemma with_word_bit f x p :
  wf_bitmap x -> 0 <= p ->
  reader_bit (with_word f x) p =
    if p / 64 =? tls_index then Z.testbit (f (word (dbtuple.readers_bitmap x) tls_index)) (p mod 64)
    else reader_bit x p.
Proof.
  intros [Hl _] Hp. destruct Hown as (_ & _ & Hi). unfold reader_bit, with_word.
  cbn [dbtuple.readers_bitmap dbtuple.set_readers_bitmap].
  rewrite word_set_word by (rewrite ?Hl; unfold ARRAY_SIZE, CAPACITY in *; zlia).
  rewrite (Z.eqb_sym tls_index). by destruct (p / 64 =? tls_index).
Qed.

Lemma word_fits l i : Forall (fits 64) l -> fits 64 (word l i).
Proof.
  intros H. unfold word. rewrite nth_lookup. destruct (l !! Z.to_nat i) eqn:E; simpl; [|zlia].
  by eapply Forall_lookup_1.
Qed.

Lemma entry_fits : fits 64 tls_entry.
Proof.
  destruct Hown as (-> & Hk & _). split; [apply Z.pow_nonneg; lia|apply Z.pow_lt_mono_r; lia].
Qed.

Lemma bitwise_fits (op : Z -> Z -> Z) (b : bool -> bool -> bool) x y :
  (forall u v i, 0 <= i -> Z.testbit (op u v) i = b (Z.testbit u i) (Z.testbit v i)) ->
  b false false = false -> fits 64 x -> fits 64 y -> fits 64 (op x y).
Proof.
  intros Hop Hb Hx Hy. replace (op x y) with (wrap 64 (op x y)); [apply wrap_fits; lia|].
  apply Z.bits_inj'. intros i Hi. rewrite wrap_spec, Hop by lia.
  destruct (Z.ltb_spec i 64); [done|].
  by rewrite (testbit_above 64 x), (testbit_above 64 y) by (done || lia).
Qed.

Lemma with_word_wf f x : (forall w, fits 64 w -> fits 64 (f w)) -> wf_bitmap x -> wf_bitmap (with_word f x).
Proof.
  intros Hf [Hl Hw]. unfold with_word. split; cbn; [unfold set_word; by rewrite length_insert|].
  apply Forall_insert; [done|]. by apply Hf, word_fits.
Qed.

(** ** Registering and deregistering under interference *)

(** The tuple at [a] is there and my bit has value [b]. *)
Definition has_bit (a : Z) (b : bool) (m : mem) : Prop :=
  exists o, objects m !! a = Some o /\ wf_bitmap (object.tuple o) /\ reader_bit (object.tuple o) me = b.

Definition has_tuple (a : Z) (m : mem) : Prop :=
  exists o, objects m !! a = Some o /\ wf_bitmap (object.tuple o).

(** The other threads never touch my bit of the tuple, nor free it. *)
Definition bit_rely (a : Z) : Prop := forall b, stable (has_bit a b).

(** A step that changes at most my bit of one tuple. *)
Definition my_bit_only (m m' : mem) : Prop :=
  exists a f, m' = upd_obj a (upd_tuple (with_word f)) m /\
    forall w i, 0 <= i -> i <> k -> Z.testbit (f w) i = Z.testbit w i.

Lemma my_bit_others m m' a o p :
  my_bit_only m m' -> objects m !! a = Some o -> wf_bitmap (object.tuple o) -> 0 <= p -> p <> me ->
  exists o', objects m' !! a = Some o' /\ reader_bit (object.tuple o') p = reader_bit (object.tuple o) p /\
    object._next o' = object._next o /\ object._clsn o' = object._clsn o.
Proof.
  intros (c & f & -> & Hf) Ho Hw Hp Hne. destruct me_split as [Ei Ek].
  unfold upd_obj. cbn. destruct (decide (c = a)) as [->|].
  - rewrite lookup_alter_eq, Ho. eexists. split_and!; [done| |done..]. cbn.
    rewrite with_word_bit by done. destruct (Z.eqb_spec (p / 64) tls_index) as [E|]; [|done].
    rewrite Hf by zlia. unfold reader_bit. by rewrite E.
  - rewrite lookup_alter_ne by done. eauto.
Qed.

Lemma lor_entry_bit w i : 0 <= i -> Z.testbit (Z.lor w tls_entry) i = (i =? k) || Z.testbit w i.
Proof.
  intros Hi. destruct Hown as (-> & Hk & _). rewrite Z.lor_spec, Z.pow2_bits_eqb by lia.
  by rewrite orb_comm, (Z.eqb_sym k).
Qed.

Lemma lxor_entry_bit w i : 0 <= i -> Z.testbit (Z.lxor w tls_entry) i = xorb (i =? k) (Z.testbit w i).
Proof.
  intros Hi. destruct Hown as (-> & Hk & _). rewrite Z.lxor_spec, Z.pow2_bits_eqb by lia.
  by rewrite xorb_comm, (Z.eqb_sym k).
Qed.

Lemma tuple_stable a : bit_rely a -> stable (has_tuple a).
Proof.
  intros R t m (o & Ho & Hw). destruct (R (reader_bit (object.tuple o) me) t m) as (o' & Ho' & Hw' & _).
  - exists o. done.
  - exists o'. done.
Qed.

(** Reading my bit. *)
Lemma total_rd_word a :
  bit_rely a ->
  total (has_tuple a) (rd_reader_word a tls_index)
    (fun w m => has_bit a (negb (Z.land w tls_entry =? 0)) m).
Proof.
  intros R. apply total_rd_obj; [by apply tuple_stable|]. intros m (o & Ho & Hw). exists o. split; [done|].
  exists o. split_and!; [done..|]. rewrite land_entry. unfold reader_bit.
  by destruct me_split as [-> ->].
Qed.

(** Changing my bit. *)
Lemma total_rmw_word a b (f : Z -> Z) :
  bit_rely a -> (forall w, fits 64 w -> fits 64 (f w)) ->
  total (has_bit a b) (rmw_reader_word a tls_index f)
    (fun _ m => forall b', (forall w, Z.testbit w k = b -> Z.testbit (f w) k = b') -> has_bit a b' m).
Proof.
  intros R Hf. apply total_wr_obj; [apply R|]. intros m (o & Ho & Hw & Hb). split; [by eexists|].
  intros b' Hb'. fold (with_word f). eexists. unfold upd_obj. cbn. rewrite lookup_alter_eq, Ho.
  split_and!; [done|by apply with_word_wf|]. destruct me_split as [Ei Ek]. cbn.
  rewrite with_word_bit, Ei, Ek, Z.eqb_refl by (done || apply me_nonneg). apply Hb'.
  unfold reader_bit in Hb. by rewrite Ei, Ek in Hb.
Qed.

Lemma register_sets xid a :
  bit_rely a -> total (has_tuple a) (serial_register_reader_tx xid a) (fun _ => has_bit a true).
Proof.
  intros R. unfold serial_register_reader_tx.
  apply total_bind with (fun s m => has_tuple a m /\ (s = true -> has_bit a true m)).
  { destruct ssn_read_opt_enabled; [|apply total_ret; done].
    eapply total_bind; [by apply total_rd_word|]. intros w. apply total_ret. intros m Hm.
    split; [|by intros <-]. destruct Hm as (o & ? & ? & _). by exists o. }
  intros [|]; [apply total_ret; intros m [_ H]; by apply H|].
  intros m t [(o & Ho & Hw) _].
  destruct (total_rmw_word a (reader_bit (object.tuple o) me) (fun w => Z.lor w tls_entry) R) with m t
    as (u & m' & t' & E & HQ).
  - intros w Hw'. apply (bitwise_fits Z.lor orb); [|done|done|apply entry_fits]. intros. apply Z.lor_spec.
  - exists o. done.
  - exists u, m', t'. split; [done|]. apply HQ. intros w _. destruct Hown as (_ & Hk & _).
    by rewrite lor_entry_bit, Z.eqb_refl by lia.
Qed.

Lemma deregister_clears a :
  bit_rely a -> total (has_tuple a) (serial_deregister_reader_tx a) (fun _ => has_bit a false).
Proof.
  intros R. unfold serial_deregister_reader_tx. eapply total_bind; [by apply total_rd_word|]. intros w. cbv beta.
  destruct (negb (Z.land w tls_entry =? 0)); [|by apply total_ret].
  eapply total_post; [apply total_rmw_word; [done|]|].
  - intros v Hv. apply (bitwise_fits Z.lxor xorb); [|done|done|apply entry_fits]. intros. apply Z.lxor_spec.
  - intros u m H. apply H. intros v Hv. destruct Hown as (_ & Hk & _).
    by rewrite lxor_entry_bit, Z.eqb_refl, Hv by lia.
Qed.

Lemma guar_register xid a : guar my_bit_only (serial_register_reader_tx xid a).
Proof.
  unfold serial_register_reader_tx, rmw_reader_word. guar. exists a, (fun w => Z.lor w tls_entry). split; [done|].
  intros w i Hi Hne. rewrite lor_entry_bit by done. by apply Z.eqb_neq in Hne as ->.
Qed.

Lemma guar_deregister a : guar my_bit_only (serial_deregister_reader_tx a).
Proof.
  unfold serial_deregister_reader_tx, rmw_reader_word. guar. exists a, (fun w => Z.lxor w tls_entry). split; [done|].
  intros w i Hi Hne. rewrite lxor_entry_bit by done. apply Z.eqb_neq in Hne as ->. by destruct (Z.testbit w i).
Qed.

End bit.

(** C30: a thread that owns one bit of the readers bitmaps registers and
    deregisters as a reader in spite of the other threads, as long as those
    leave its bit alone: both operations finish, afterwards the bit is set,
    respectively clear, and no write either performs changes any other bit of
    any bitmap. *)
Theorem reader_bit_protocol `{CF : Config} `{PL : Platform} k a xid
    (Hown : own_bit k) (R : bit_rely a) :
  total (has_tuple a) (serial_register_reader_tx xid a) (fun _ => has_bit a true) /\
  total (has_tuple a) (serial_deregister_reader_tx a) (fun _ => has_bit a false) /\
  guar (my_bit_only k) (serial_register_reader_tx xid a) /\
  guar (my_bit_only k) (serial_deregister_reader_tx a) /\
  (forall m m' b o p, my_bit_only k m m' -> objects m !! b = Some o -> wf_bitmap (object.tuple o) ->
     0 <= p -> p <> xid_index ->
     exists o', objects m' !! b = Some o' /\
       reader_bit (object.tuple o') p = reader_bit (object.tuple o) p).
Proof.
  split_and!.
  - by apply (register_sets k).
  - by apply (deregister_clears k).
  - by apply guar_register.
  - by apply guar_deregister.
  - intros m m' b o p H1 H2 H3 H4 H5.
    destruct (my_bit_others k Hown m m' b o p H1 H2 H3 H4 H5) as (o' & ? & ? & _). eauto.
Qed.

(** ** Iteration *)

Section iteration.
Context `{CF : Config} `{Q : Quiet}.
Context (k : Z) (Hown : own_bit k) (Hthreads : 0 < worker_threads <= CAPACITY).

(** The words the iterator looks at. *)
Definition nwords : Z := (worker_threads + 63) / 64.

(** The caller's loop around [next]: the positions it gets, in order. *)
Definition visited (tuple : Z) (skip_self : bool) : M (list Z) :=
  let* it := readers_bitmap_iterator tuple in
  loop fuel (fun st : readers_iter * list Z =>
    let* n := next tuple skip_self (fst st) in
    if fst n =? -1 then ret (inr (snd st)) else ret (inl (snd n, snd st ++ [fst n]))) (it, []).

Context (a : Z) (o : object.t) (m : mem) (Ho : objects m !! a = Some o) (Hw : wf_bitmap (object.tuple o)).
Let x := object.tuple o.

(** Positions from [p] on, [n] of them. *)
Definition positions (p n : Z) : list Z := filter (fun p => reader_bit x p = true) (seqZ p n).

(** What the iterator has still to deliver. *)
Definition pending (it : readers_iter) : list Z :=
  map (fun i => cur_entry_index it * 64 + i) (bits_of (cur_entry it)) ++
  positions (64 * (cur_entry_index it + 1)) (64 * (nwords - cur_entry_index it - 1)).

Definition wf_iter (it : readers_iter) : Prop :=
  fits 64 (cur_entry it) /\ 0 <= cur_entry_index it < nwords.

Definition mine (skip : bool) (p : Z) : bool := skip && (p =? xid_index).

Lemma nwords_bound : 1 <= nwords <= ARRAY_SIZE.
Proof. unfold nwords, ARRAY_SIZE, CAPACITY in *. zlia. Qed.

Lemma runs_rd_word i : runs (rd_reader_word a i) m (word (dbtuple.readers_bitmap x) i) m.
Proof. apply runs_atomic. by rewrite Ho. Qed.

Lemma positions_word i :
  0 <= i -> positions (64 * i) 64 = map (fun j => i * 64 + j) (bits_of (word (dbtuple.readers_bitmap x) i)).
Proof.
  intros Hi. unfold positions, bits_of.
  replace (seqZ (64 * i) 64) with (Z.add (i * 64) <$> seqZ 0 64) by (rewrite fmap_add_seqZ; f_equal; lia).
  assert (Forall (fun j => 0 <= j < 64) (seqZ 0 64)) as H.
  { apply Forall_forall. intros j Hj%elem_of_seqZ. lia. }
  induction H as [|j l Hj Hl IH]; [done|]. cbn [fmap list_fmap]. rewrite !filter_cons.
  assert (reader_bit x (i * 64 + j) = Z.testbit (word (dbtuple.readers_bitmap x) i) j) as ->.
  { unfold reader_bit. f_equal; [f_equal|]; zlia. }
  destruct (decide _); simpl; by rewrite IH.
Qed.

(** The three cases of a turn of [next]. *)
Lemma pending_bit it :
  wf_iter it -> cur_entry it <> 0 ->
  let it' := mk_iter (cur_entry_index it) (Z.land (cur_entry it) (cur_entry it - 1)) in
  pending it = (cur_entry_index it * 64 + ctz (cur_entry it)) :: pending it' /\ wf_iter it' /\
  0 <= ctz (cur_entry it) < 64.
Proof.
  intros [Hf Hi] Hne it'. destruct (bits_of_cons (cur_entry it)) as (E & Hl & Hc); [unfold fits in Hf; lia|].
  unfold pending. rewrite E. done.
Qed.

Lemma pending_word it :
  wf_iter it -> cur_entry it = 0 -> (cur_entry_index it + 1) * 64 < worker_threads ->
  let it' := mk_iter (cur_entry_index it + 1) (word (dbtuple.readers_bitmap x) (cur_entry_index it + 1)) in
  pending it = pending it' /\ wf_iter it'.
Proof.
  intros [Hf Hi] E Hlt it'. assert (cur_entry_index it + 1 < nwords) by (unfold nwords; zlia).
  split; [|split; [apply word_fits, Hw|cbn; lia]].
  unfold pending. rewrite E, bits_of_0. cbn [map app it' cur_entry_index cur_entry].
  rewrite <- positions_word by lia. unfold positions. rewrite <- filter_app.
  replace (64 * (cur_entry_index it + 1 + 1)) with (64 * (cur_entry_index it + 1) + 64) by lia.
  rewrite <- seqZ_app by lia. do 2 f_equal. lia.
Qed.

Lemma pending_last it :
  wf_iter it -> cur_entry it = 0 -> worker_threads <= (cur_entry_index it + 1) * 64 -> pending it = [].
Proof.
  intros [Hf Hi] E Hle. assert (nwords - cur_entry_index it - 1 = 0) as En by (unfold nwords in *; zlia).
  unfold pending. by rewrite E, bits_of_0, En.
Qed.

Lemma mine_spec skip it pos :
  0 <= pos < 64 ->
  skip && (cur_entry_index it =? tls_index) && (pos =? ctz tls_entry)
  = mine skip (cur_entry_index it * 64 + pos).
Proof.
  intros Hpos. destruct Hown as (E & Hk & Hi). unfold mine, xid_index. rewrite E, ctz_pow2 by lia.
  destruct skip; [|done]. cbn [andb].
  destruct (Z.eqb_spec (cur_entry_index it) tls_index), (Z.eqb_spec pos k),
    (Z.eqb_spec (cur_entry_index it * 64 + pos) (tls_index * 64 + k)); (done || lia).
Qed.

(** How much there is left to do. *)
Definition work (it : readers_iter) : nat :=
  (length (pending it) + Z.to_nat (nwords - cur_entry_index it))%nat.

Definition wanted (skip : bool) (it : readers_iter) : list Z :=
  filter (fun p => mine skip p = false) (pending it).

(** One call of [next] delivers the next position that is not to be skipped. *)
Definition delivers (skip : bool) (it : readers_iter) (r : Z) (it' : readers_iter) : Prop :=
  match wanted skip it with
  | [] => r = -1
  | p :: l => r = p /\ 0 <= p /\ wf_iter it' /\ wanted skip it' = l /\ (work it' <= work it)%nat
  end.

Lemma runs_next_loop skip n : forall it,
  wf_iter it -> (work it <= n)%nat ->
  exists r it', delivers skip it r it' /\ runs (loop n (fun it =>
    if negb (cur_entry it =? 0) then
      let pos := ctz (cur_entry it) in
      let it' := mk_iter (cur_entry_index it) (Z.land (cur_entry it) (cur_entry it - 1)) in
      if skip && (cur_entry_index it =? tls_index) && (pos =? ctz tls_entry)
      then ret (inl it')
      else ret (inr (cur_entry_index it * 64 + pos, it'))
    else if worker_threads <=? (cur_entry_index it + 1) * 64 then ret (inr (-1, it))
    else
      let i := cur_entry_index it + 1 in
      let* w := rd_reader_word a i in
      ret (inl (mk_iter i w))) it) m (r, it') m.
Proof.
  induction n as [|n IH]; intros it Hit Hn.
  { destruct Hit as [_ ?]. unfold work in Hn. lia. }
  destruct (Z.eqb_spec (cur_entry it) 0) as [E|E].
  - destruct (Z.leb_spec worker_threads ((cur_entry_index it + 1) * 64)) as [Hl|Hl].
    + exists (-1), it. split.
      * unfold delivers, wanted. by rewrite pending_last.
      * apply runs_loop_end. rewrite E. apply Z.leb_le in Hl as ->. apply runs_ret.
    + destruct (pending_word it Hit E Hl) as [Ep Hit'].
      destruct (IH _ Hit') as (r & it' & Hd & Hr).
      { unfold work in *. rewrite <- Ep. cbn [cur_entry_index]. destruct Hit' as [_ Hi']. cbn in Hi'. lia. }
      exists r, it'. split.
      * unfold delivers, wanted, work in *. rewrite Ep. destruct (filter _ _); [done|].
        destruct Hd as (? & ? & ? & ? & Hle). split_and!; try done. cbn in Hle. lia.
      * eapply runs_loop_step; [|exact Hr]. rewrite E. apply Z.leb_gt in Hl as ->.
        eapply runs_bind; [apply runs_rd_word|]. apply runs_ret.
  - destruct (pending_bit it Hit E) as (Ep & Hit' & Hc).
    assert (negb (cur_entry it =? 0) = true) as Eb by (by apply negb_true_iff, Z.eqb_neq).
    pose proof (mine_spec skip it _ Hc) as Em. destruct (mine skip _) eqn:Es in Em.
    + destruct (IH _ Hit') as (r & it' & Hd & Hr).
      { unfold work in *. rewrite Ep in Hn. cbn in Hn |- *. lia. }
      exists r, it'. split.
      * unfold delivers, wanted, work in *. rewrite Ep, filter_cons, decide_False by congruence.
        destruct (filter _ _); [done|]. destruct Hd as (? & ? & ? & ? & Hle). split_and!; try done.
        cbn in Hle |- *. lia.
      * eapply runs_loop_step; [|exact Hr]. rewrite Eb. cbv zeta. rewrite Em. apply runs_ret.
    + eexists _, _. split; [|apply runs_loop_end; rewrite Eb; cbv zeta; rewrite Em; apply runs_ret].
      unfold delivers, wanted. rewrite Ep, filter_cons, decide_True by done.
      split_and!; [done|destruct Hit as [_ ?]; lia|done|done|]. unfold work. rewrite Ep. cbn. lia.
Qed.

Lemma runs_next skip it :
  wf_iter it -> (work it <= fuel)%nat ->
  exists r it', delivers skip it r it' /\ runs (next a skip it) m (r, it') m.
Proof. apply runs_next_loop. Qed.

Lemma runs_drive skip n : forall it acc,
  wf_iter it -> (work it <= fuel)%nat -> (length (wanted skip it) < n)%nat ->
  runs (loop n (fun st : readers_iter * list Z =>
    let* n := next a skip (fst st) in
    if fst n =? -1 then ret (inr (snd st)) else ret (inl (snd n, snd st ++ [fst n]))) (it, acc))
    m (acc ++ wanted skip it) m.
Proof.
  induction n as [|n IH]; intros it acc Hit Hf Hn; [lia|].
  destruct (runs_next skip it Hit Hf) as (r & it' & Hd & Hr). unfold delivers in Hd.
  destruct (wanted skip it) as [|p l] eqn:Ew.
  - rewrite app_nil_r, Hd in *. apply runs_loop_end. eapply runs_bind; [exact Hr|]. apply runs_ret.
  - destruct Hd as (-> & Hp & Hit' & <- & Hw'). cbn in Hn. eapply runs_loop_step.
    + eapply runs_bind; [exact Hr|]. cbn. rewrite (proj2 (Z.eqb_neq _ _)) by lia. apply runs_ret.
    + replace (acc ++ p :: wanted skip it') with ((acc ++ [p]) ++ wanted skip it') by (by rewrite <- app_assoc).
      apply IH; [done|lia..].
Qed.

Lemma pending_all :
  let it := mk_iter 0 (word (dbtuple.readers_bitmap x) 0) in
  pending it = positions 0 (64 * nwords) /\ wf_iter it.
Proof.
  pose proof nwords_bound. split; [|split; [apply word_fits, Hw|cbn; lia]].
  unfold pending. cbn [cur_entry cur_entry_index]. rewrite <- positions_word by lia.
  unfold positions. rewrite <- filter_app. f_equal.
  replace (64 * (0 + 1)) with (64 * 0 + 64) by lia. rewrite <- seqZ_app by lia. f_equal. lia.
Qed.

End iteration.

(** C31: with the bitmap at rest, the loop a committing writer runs around
    [readers_bitmap_iterator::next] ends and visits, in increasing order and
    without repetition, exactly the positions of the words in use whose bit is
    set -- all but the thread's own when it skips itself. *)
Theorem readers_iteration `{CF : Config} `{Q : Quiet} k a o m (skip_self : bool)
    (Hown : own_bit k) (Hthreads : 0 < worker_threads <= CAPACITY)
    (Ho : objects m !! a = Some o) (Hw : wf_bitmap (object.tuple o)) :
  let set := filter (fun p => reader_bit (object.tuple o) p = true) (seqZ 0 (64 * nwords)) in
  (length set + Z.to_nat nwords < fuel)%nat ->
  runs (visited a skip_self) m
    (filter (fun p => mine skip_self p = false) set) m /\
  NoDup set /\ (forall p, 0 <= p < worker_threads -> reader_bit (object.tuple o) p = true -> p ∈ set).
Proof.
  intros set Hf. split_and!.
  - destruct (pending_all Hthreads o Hw) as [Ep Hit]. unfold visited, readers_bitmap_iterator.
    eapply runs_bind; [eapply runs_bind; [by apply runs_rd_word|]; apply runs_ret|].
    assert (work o (mk_iter 0 (word (dbtuple.readers_bitmap (object.tuple o)) 0)) < fuel)%nat as Hwk.
    { unfold work. rewrite Ep. cbn [cur_entry_index]. rewrite Z.sub_0_r. exact Hf. }
    assert (filter (fun p => mine skip_self p = false) set =
            wanted o skip_self (mk_iter 0 (word (dbtuple.readers_bitmap (object.tuple o)) 0))) as ->.
    { unfold wanted. by rewrite Ep. }
    apply (runs_drive k Hown a o m Ho Hw skip_self _ _ []); [done|lia|].
    unfold wanted. pose proof (length_filter (fun p => mine skip_self p = false)
      (pending o (mk_iter 0 (word (dbtuple.readers_bitmap (object.tuple o)) 0)))). unfold work in Hwk. lia.
  - apply NoDup_filter, NoDup_seqZ.
  - intros p Hp Hb. apply list_elem_of_filter. split; [done|]. apply elem_of_seqZ. unfold nwords. zlia.
Qed.

(** ** Examples *)

Section examples.

#[local] Instance readers_config : Config := config true false 0.
#[local] Instance readers_platform : Platform := demo_platform alone 2.
#[local] Instance readers_quiet : Quiet.
Proof. done. Qed.

(** A version with registered readers at positions 0, 1 and 5. *)
Definition read_by : mem :=
  with_object 4096 (upd_tuple (dbtuple.set_readers_bitmap [35; 0; 0; 0]) (committed_version NULL_PTR 50 0 [1]))
    empty_mem.

Lemma read_by_wf : wf_bitmap (dbtuple.set_readers_bitmap [35; 0; 0; 0] (object.tuple (committed_version NULL_PTR 50 0 [1]))).
Proof. split; [done|]. cbn. repeat constructor; unfold fits; lia. Qed.

Lemma second_bit : own_bit 1.
Proof. split_and!; [done|lia..|done|done]. Qed.

Lemma reader_bit_protocol_witness :
  exists m' t', serial_deregister_reader_tx 4096 read_by O = Ok (tt, (m', t')) /\ has_bit 4096 false m'.
Proof.
  destruct (reader_bit_protocol 1 4096 (XID.make 1 1) second_bit) as (_ & H & _).
  - intros b t m Hm. exact Hm.
  - destruct (H read_by O) as ([] & m' & t' & E & Hm).
    + eexists. split; [reflexivity|apply read_by_wf].
    + exists m', t'. split; [exact E|exact Hm].
Defined.

Lemma readers_iteration_witness : runs (visited 4096 true) read_by [0; 5] read_by.
Proof.
  destruct (readers_iteration (CF := readers_config) 1 4096 _ read_by true second_bit
    ltac:(cbn; unfold CAPACITY; lia) eq_refl read_by_wf) as [H _].
  - apply Nat.ltb_lt. vm_compute. reflexivity.
  - exact H.
Defined.

End examples.
