(* ===== verification/Snapshot.v ===== *)
(** * Snapshot reads and first-updater-wins ([dbcore/sm-oid.cpp])

    What [oid_get_version] and [oid_put_update] compute when the thread is
    undisturbed, stated against the version chain as a list, and what that
    means for snapshot isolation. *)
From stdpp Require Import base numbers list gmap.
From Stdlib Require Import ZArith Lia.
From S2P Require Import Prelude FatPtr SizeEncode Shared Program Contexts Readers Versions Txn Scenario.

Local Open Scope Z_scope.

(** ** Version chains as lists *)

Section chains.
Context `{BE : Backend}.

(** The addresses of the versions reachable from [p], all in memory. *)
Inductive chain (m : mem) : fat_ptr.t -> list Z -> Prop :=
| chain_nil p :
    fat_ptr.asi_type p <> fat_ptr.ASI_LOG -> fat_ptr.offset p = 0 -> chain m p []
| chain_cons p o l :
    fat_ptr.asi_type p <> fat_ptr.ASI_LOG -> fat_ptr.offset p <> 0 ->
    objects m !! fat_ptr.offset p = Some o -> chain m (object._next o) l ->
    chain m p (fat_ptr.offset p :: l).

(** A version whose stamp can be interpreted without retrying: a commit LSN,
    or an XID whose context still belongs to it. *)
Definition settled (m : mem) (a : Z) : Prop :=
  match objects m !! a with
  | None => False
  | Some o =>
      let s := object._clsn o in
      fat_ptr.wf s /\
      (fat_ptr.asi_type s = fat_ptr.ASI_LOG \/
       fat_ptr.asi_type s = fat_ptr.ASI_XID /\
       XID._val (XID.mk (fat_ptr._ptr s)) <> 0 /\ fits 30 (XID.epoch (XID.mk (fat_ptr._ptr s))) /\
       xid_context.owner (ctx m (XID.local (XID.mk (fat_ptr._ptr s)))) = XID.mk (fat_ptr._ptr s))
  end.

(** The rule of snapshot isolation: a version is visible to visitor [xc] if it
    is the visitor's own, or committed before the visitor began. *)
Definition visible (m : mem) (xc : Z) (a : Z) : bool :=
  match objects m !! a with
  | None => false
  | Some o =>
      let s := object._clsn o in
      let b := xid_context.begin_ (ctx m xc) in
      if fat_ptr.asi_type s =? fat_ptr.ASI_XID then
        let x := XID.mk (fat_ptr._ptr s) in
        let h := ctx m (XID.local x) in
        XID.eqb x (xid_context.owner (ctx m xc)) ||
        (txn_state_eqb (xid_context.state h) TXN_CMMTD && (xid_context.end_ h <? b))
      else fat_ptr.offset s <=? b
  end.

(** The newest visible version. *)
Definition newest_visible (m : mem) (xc : Z) (l : list Z) : option Z :=
  match filter (fun a => visible m xc a = true) l with a :: _ => Some a | [] => None end.

End chains.

Section snapshot.
Context `{CF : Config} `{Q : Quiet}.

Lemma runs_rd_ctx {A} i (f : xid_context.t -> A) m : runs (rd_ctx i f) m (f (ctx m i)) m.
Proof. exact (runs_rd (fun m => f (ctx m i)) m). Qed.

Lemma runs_rd_obj {A} a (f : object.t -> A) m o :
  objects m !! a = Some o -> runs (rd_obj a f) m (f o) m.
Proof. intros E. apply runs_atomic. by rewrite E. Qed.

Lemma runs_wr_obj a g m o : objects m !! a = Some o -> runs (wr_obj a g) m tt (upd_obj a g m).
Proof. intros E. apply runs_atomic. by rewrite E. Qed.

Lemma runs_rd_oid_slot a o m : runs (rd_slot (OidSlot a o)) m (oid_entry m a o) m.
Proof. by apply runs_atomic. Qed.

Lemma runs_rd_next_slot a m o :
  objects m !! a = Some o -> runs (rd_slot (NextSlot a)) m (object._next o) m.
Proof. intros E. apply runs_atomic. cbn. by rewrite E. Qed.

Lemma runs_lift {A} (r : res A) a m : r = Ok a -> runs (lift r) m a m.
Proof. intros ->. apply runs_ret. Qed.

Lemma runs_assert b m : b = true -> runs (always_assert b) m tt m.
Proof. intros ->. apply runs_ret. Qed.

(** A context that belongs to the XID is found. *)
Lemma runs_get_context x m :
  XID._val x <> 0 -> fits 30 (XID.epoch x) -> xid_context.owner (ctx m (XID.local x)) = x ->
  runs (xid_get_context x) m (Some (XID.local x)) m.
Proof.
  intros Hx He Ho. unfold xid_get_context. eapply runs_bind; [apply runs_rd_ctx|].
  rewrite Ho. apply Z.eqb_neq in Hx as ->.
  assert ((XID.epoch x <? XID.epoch x) || (u32 (XID.epoch x + 3) <=? XID.epoch x) = false) as ->.
  { apply orb_false_iff. split; [apply Z.ltb_ge; lia|]. apply Z.leb_gt.
    rewrite (wrap_small 32) by (unfold fits in *; lia). lia. }
  apply runs_ret.
Qed.

(** ** [oid_get_version] *)

(** The builds whose readers see their snapshot and do not stamp phantoms. *)
Definition plain_si : Prop :=
  RC = false /\ RC_SPIN = false /\ PHANTOM_PROT && (SSI || SSN) = false.

Lemma lsn_of_log_ptr s :
  fat_ptr.wf s -> fat_ptr.asi_type s = fat_ptr.ASI_LOG ->
  exists l, LSN.from_ptr s = Ok l /\ LSN.offset l = fat_ptr.offset s.
Proof.
  intros Hw Ht. unfold LSN.from_ptr. rewrite Ht. cbn [andb negb]. eexists. split; [reflexivity|].
  unfold LSN.offset. rewrite lsn_layout.
  - word_const. rewrite Z.shiftr_div_pow2 by lia. rewrite offset_view, asi_segment_view. zlia.
  - unfold fat_ptr.wf in Hw. rewrite offset_view. zlia.
  - rewrite asi_segment_view. zlia.
  - word_const; zlia.
Qed.

Lemma runs_visit_lsn xc s m :
  plain_si -> fat_ptr.wf s -> fat_ptr.asi_type s = fat_ptr.ASI_LOG ->
  runs (visit_lsn xc s) m
    (if fat_ptr.offset s <=? xid_context.begin_ (ctx m xc) then Visible else Skip) m.
Proof.
  intros (E1 & E2 & E3) Hw Ht. unfold visit_lsn, oid_check_phantom. rewrite E1, E2, E3. cbn [orb andb].
  destruct (lsn_of_log_ptr s Hw Ht) as (l & El & Eo).
  eapply runs_bind; [by apply runs_lift|]. eapply runs_bind; [apply runs_rd_ctx|].
  rewrite Eo. destruct (_ <=? _); [apply runs_ret|]. eapply runs_bind; apply runs_ret.
Qed.

Lemma runs_visit_xid xc s m :
  plain_si -> fat_ptr.asi_type s = fat_ptr.ASI_XID ->
  let x := XID.mk (fat_ptr._ptr s) in
  XID._val x <> 0 -> fits 30 (XID.epoch x) -> xid_context.owner (ctx m (XID.local x)) = x ->
  runs (visit_xid xc s) m
    (if XID.eqb x (xid_context.owner (ctx m xc)) ||
        (txn_state_eqb (xid_context.state (ctx m (XID.local x))) TXN_CMMTD &&
         (xid_context.end_ (ctx m (XID.local x)) <? xid_context.begin_ (ctx m xc)))
     then Visible else Skip) m.
Proof.
  intros (E1 & E2 & E3) Ht x Hx He Ho. unfold visit_xid, oid_check_phantom. rewrite E1, E2, E3.
  eapply runs_bind; [apply runs_lift; unfold XID.from_ptr; by rewrite Ht|]. fold x.
  eapply runs_bind; [apply runs_rd_ctx|]. destruct (XID.eqb x _); [apply runs_ret|]. cbn [orb andb].
  eapply runs_bind; [by apply runs_get_context|].
  do 2 (eapply runs_bind; [apply runs_rd_ctx|]). rewrite Ho.
  unfold XID.eqb. rewrite Z.eqb_refl. cbn [negb].
  destruct (txn_state_eqb _ TXN_CMMTD); cbn [andb]; [|apply runs_ret].
  do 2 (eapply runs_bind; [apply runs_rd_ctx|]).
  destruct (_ <? _); [apply runs_ret|].
  eapply runs_bind; [apply runs_rd_ctx|]. eapply runs_bind; apply runs_ret.
Qed.

Lemma wf_not_null s : fat_ptr.asi_type s <> 0 -> fat_ptr.eqb s NULL_PTR = false.
Proof.
  intros H. apply Z.eqb_neq. intros E. apply H. destruct s as [s]. cbn in E. by subst.
Qed.

(** The decision about one settled version. *)
Lemma runs_visit xc a o m :
  plain_si -> objects m !! a = Some o -> settled m a ->
  let s := object._clsn o in
  fat_ptr.eqb s NULL_PTR = false /\
  (fat_ptr.asi_type s =? fat_ptr.ASI_XID) || (fat_ptr.asi_type s =? fat_ptr.ASI_LOG) = true /\
  runs (if fat_ptr.asi_type s =? fat_ptr.ASI_XID then visit_xid xc s else visit_lsn xc s) m
    (if visible m xc a then Visible else Skip) m.
Proof.
  intros Hsi Ho Hset s. unfold settled in Hset. rewrite Ho in Hset. unfold visible. rewrite Ho.
  fold s in Hset |- *. destruct Hset as [Hw [Ht|(Ht & Hx & He & Hc)]]; rewrite Ht.
  - split_and!; [apply wf_not_null; by rewrite Ht|done|]. by apply runs_visit_lsn.
  - split_and!; [apply wf_not_null; by rewrite Ht|done|]. by apply runs_visit_xid.
Qed.

Lemma runs_version_step oa o xc pp p a l m :
  plain_si -> chain m p (a :: l) -> settled m a ->
  exists p', chain m p' l /\
    runs (version_step oa o xc (Some (pp, p))) m
      (if visible m xc a then inr (Some a) else inl (Some (NextSlot a, p'))) m.
Proof.
  intros Hsi Hc Hset. inversion Hc as [|? ob ? Ht Hn Hob Hl]; subst.
  destruct (runs_visit xc _ _ _ Hsi Hob Hset) as (En & Ea & Hv).
  exists (object._next ob). split; [done|].
  unfold version_step. eapply runs_bind; [apply runs_ret|]. cbv beta iota.
  apply Z.eqb_neq in Ht as ->. cbn [negb]. eapply runs_bind; [apply runs_ret|].
  apply Z.eqb_neq in Hn as ->.
  eapply runs_bind; [by apply runs_rd_next_slot|]. eapply runs_bind; [by apply runs_rd_obj|].
  rewrite En. eapply runs_bind; [by apply runs_assert|]. eapply runs_bind; [exact Hv|].
  destruct (visible m xc _); apply runs_ret.
Qed.

Lemma runs_version_end oa o xc pp p m :
  chain m p [] -> runs (version_step oa o xc (Some (pp, p))) m (inr None) m.
Proof.
  intros Hc. inversion Hc as [? Ht Hn|]; subst. unfold version_step.
  eapply runs_bind; [apply runs_ret|]. cbv beta iota. apply Z.eqb_neq in Ht as ->. cbn [negb].
  eapply runs_bind; [apply runs_ret|]. rewrite Hn. apply runs_ret.
Qed.

Lemma runs_version_loop oa o xc l n pp p m :
  plain_si -> chain m p l -> Forall (settled m) l -> (length l < n)%nat ->
  runs (loop n (version_step oa o xc) (Some (pp, p))) m (newest_visible m xc l) m.
Proof.
  intros Hsi. revert n pp p. induction l as [|a l IH]; intros n pp p Hc Hset Hn.
  - destruct n; [simpl in Hn; lia|]. apply runs_loop_end. by apply runs_version_end.
  - apply Forall_cons in Hset as [Ha Hset]. destruct n; [simpl in Hn; lia|].
    destruct (runs_version_step oa o xc pp p a l m Hsi Hc Ha) as (p' & Hc' & Hr).
    unfold newest_visible. rewrite filter_cons. destruct (visible m xc a) eqn:Ev.
    + rewrite decide_True by done. by apply runs_loop_end.
    + rewrite decide_False by done. eapply runs_loop_step; [exact Hr|].
      apply IH; [done..|]. simpl in Hn. lia.
Qed.

Lemma version_step_start oa o xc m r m' :
  runs (version_step oa o xc (Some (OidSlot oa o, oid_entry m oa o))) m r m' ->
  runs (version_step oa o xc None) m r m'.
Proof.
  intros H t. destruct (H (S t)) as [t' E]. exists t'. rewrite <- E.
  unfold version_step at 1. unfold bind at 1 2. unfold rd_slot, atomic. cbn. by rewrite quiet.
Qed.

Lemma runs_get_version oa o xc l m :
  plain_si -> chain m (oid_entry m oa o) l -> Forall (settled m) l -> (length l < fuel)%nat ->
  runs (oid_get_version oa o xc) m (newest_visible m xc l) m.
Proof.
  intros Hsi Hc Hset Hfuel. unfold oid_get_version. destruct fuel as [|n]; [lia|]. destruct l as [|a l].
  - apply runs_loop_end. by apply version_step_start, runs_version_end.
  - apply Forall_cons in Hset as [Ha Hset].
    destruct (runs_version_step oa o xc (OidSlot oa o) _ a l m Hsi Hc Ha) as (p' & Hc' & Hr).
    apply version_step_start in Hr. unfold newest_visible. rewrite filter_cons.
    destruct (visible m xc a) eqn:Ev.
    + rewrite decide_True by done. by apply runs_loop_end.
    + rewrite decide_False by done. eapply runs_loop_step; [exact Hr|].
      apply runs_version_loop; [done..|]. simpl in Hfuel. lia.
Qed.

(** C7: a read under snapshot isolation returns the newest version of the
    record that the reader may see: its own uncommitted version, or the
    newest version whose writer committed before the reader began.  Nothing
    in memory changes, and the search ends within as many turns as the chain
    has versions, plus one.  The reader is undisturbed; the build is one whose
    readers read their snapshot and stamp no phantoms ([plain_si]); all
    versions of the record are in memory; and each carries a commit LSN or an
    XID whose context still belongs to it ([settled]).  Versions still in the
    log, cleared stamps and contexts handed to another transaction in the
    meantime, on which the code loads or retries, are not covered. *)
Theorem snapshot_read oa o xc l m
    (Hsi : plain_si) (Hc : chain m (oid_entry m oa o) l) (Hset : Forall (settled m) l)
    (Hfuel : (length l < fuel)%nat) :
  runs (oid_get_version oa o xc) m (newest_visible m xc l) m.
Proof. by apply runs_get_version. Qed.

(** ** [oid_put_update] *)

(** What [put_decision] answers for a settled head version [o]. *)
Definition may_update (m : mem) (xc : Z) (o : object.t) : put_action :=
  let s := object._clsn o in
  if fat_ptr.asi_type s =? fat_ptr.ASI_XID then
    let x := XID.mk (fat_ptr._ptr s) in
    if XID.eqb x (xid_context.owner (ctx m xc)) then Install true
    else if txn_state_eqb (xid_context.state (ctx m (XID.local x))) TXN_CMMTD then Install false
    else Refuse
  else if RC then Install false
  else if xid_context.begin_ (ctx m xc) <=? fat_ptr.offset s then Refuse else Install false.

Lemma runs_put_decision xc a o m :
  objects m !! a = Some o -> settled m a ->
  runs (put_decision (object._clsn o) xc) m (may_update m xc o) m.
Proof.
  intros Ho Hset. unfold settled in Hset. rewrite Ho in Hset.
  unfold put_decision, may_update. destruct Hset as [Hw [Ht|(Ht & Hx & He & Hc)]]; rewrite Ht.
  - rewrite wf_not_null by (by rewrite Ht). cbn [Z.eqb Pos.eqb fat_ptr.ASI_LOG fat_ptr.ASI_XID].
    destruct RC; [apply runs_ret|].
    destruct (lsn_of_log_ptr _ Hw Ht) as (l & El & Eo).
    eapply runs_bind; [by apply runs_lift|]. eapply runs_bind; [apply runs_rd_ctx|].
    rewrite Eo. destruct (_ <=? _); apply runs_ret.
  - rewrite wf_not_null by (by rewrite Ht). cbn [Z.eqb Pos.eqb fat_ptr.ASI_LOG fat_ptr.ASI_XID].
    eapply runs_bind; [apply runs_lift; unfold XID.from_ptr; by rewrite Ht|].
    eapply runs_bind; [apply runs_rd_ctx|]. destruct (XID.eqb _ _); [apply runs_ret|].
    eapply runs_bind; [by apply runs_get_context|].
    do 2 (eapply runs_bind; [apply runs_rd_ctx|]). rewrite Hc.
    unfold XID.eqb. rewrite Z.eqb_refl. cbn [negb]. destruct (txn_state_eqb _ _); apply runs_ret.
Qed.

(** The first half of [oid_put_update]: look at the head and decide. *)
Lemma runs_decide oa o xc h m :
  objects m !! fat_ptr.offset (oid_entry m oa o) = Some h ->
  settled m (fat_ptr.offset (oid_entry m oa o)) -> (0 < fuel)%nat ->
  runs (loop fuel (fun _ : unit =>
    let* head := rd_slot (OidSlot oa o) in
    let* clsn := rd_obj (fat_ptr.offset head) object._clsn in
    let* a := put_decision clsn xc in
    ret (match a with
         | StartOver => inl tt
         | Refuse => inr None
         | Install overwrite => inr (Some (head, overwrite))
         end)) tt) m
    (match may_update m xc h with
     | Install overwrite => Some (oid_entry m oa o, overwrite)
     | _ => None
     end) m.
Proof.
  intros Hh Hset Hf. destruct fuel as [|n]; [lia|]. apply runs_loop_end.
  eapply runs_bind; [apply runs_rd_oid_slot|]. eapply runs_bind; [by apply runs_rd_obj|].
  eapply runs_bind; [by eapply runs_put_decision|].
  destruct (may_update m xc h) eqn:E; [|apply runs_ret..].
  exfalso. unfold may_update in E. repeat case_match; done.
Qed.

Lemma runs_ensure_oid oa o e m :
  fat_ptr.asi_type (oid_entry m oa o) <> fat_ptr.ASI_LOG ->
  runs (ensure_tuple_oid oa o e) m (OidSlot oa o) m.
Proof.
  intros Ht. unfold ensure_tuple_oid. eapply runs_bind; [apply runs_rd_oid_slot|].
  apply Z.eqb_neq in Ht as ->. eapply runs_bind; apply runs_ret.
Qed.

(** The new version [oid_put_update] builds. *)
Definition new_tuple (v : varstr_ptr) : dbtuple.t :=
  let x := dbtuple.set_pvalue v (new_dbtuple (u32 (varstr_size v))) in
  match v with VARSTR b => dbtuple.set_value_start b x | _ => x end.

Definition alloc_size (v : varstr_ptr) : Z := sizeof_dbtuple + sizeof_object + u32 (varstr_size v).

Lemma runs_create v e m :
  v <> DEFUNCT_TUPLE_MARK ->
  let r := mm_allocate (alloc_size v) e m in
  runs (create_tuple_object v false e) m (fat_ptr.make r.1 (size_code_of (alloc_size v)) 0)
    (set_tls_unlinked_objects r.2
      (set_objects (<[r.1 := object.mk NULL_PTR NULL_PTR NULL_PTR e (new_tuple v) (0, 0)]> (objects m)) m)).
Proof.
  intros Hv r. unfold create_tuple_object. fold (alloc_size v).
  eapply runs_bind.
  { apply runs_lift. instantiate (1 := new_tuple v). destruct v as [| |bs]; try done.
    unfold new_tuple, tuple_do_write. cbn. by rewrite drop_nil, app_nil_r. }
  eapply runs_bind; [|apply runs_ret].
  apply runs_atomic. unfold r. by destruct (mm_allocate (alloc_size v) e m).
Qed.

Lemma size_code_fits sz : fits 8 (size_code_of sz).
Proof.
  unfold size_code_of, encode_size_aligned.
  destruct (bsearch 8 _ 0 255) as [c|] eqn:E; cbn [mbind option_bind]; [|unfold INVALID_SIZE_CODE; zlia].
  apply bsearch_bounds in E; zlia.
Qed.

Lemma new_ptr_layout n sz :
  fits 48 n -> fat_ptr._ptr (fat_ptr.make n (size_code_of sz) 0) = n * 65536 + 0 + size_code_of sz.
Proof. intros Hn. apply (make_layout n 0 (size_code_of sz) Hn); [zlia|apply size_code_fits]. Qed.

Lemma new_ptr_offset n sz : fits 48 n -> fat_ptr.offset (fat_ptr.make n (size_code_of sz) 0) = n.
Proof.
  intros Hn. rewrite offset_view, new_ptr_layout by done. pose proof (size_code_fits sz). zlia.
Qed.

(** The pointer to a node of the list of updated OIDs. *)
Lemma recycle_ptr_offset n code sz :
  fits 48 n ->
  default (INVALID_SIZE_CODE, sizeof_recycle_oid + sizeof_object)
    (encode_size_aligned (sizeof_recycle_oid + sizeof_object) DEFAULT_ALIGNMENT_BITS) = (code, sz) ->
  fat_ptr.offset (fat_ptr.make n code 0) = n.
Proof.
  intros Hn E. assert (code = size_code_of (sizeof_recycle_oid + sizeof_object)) as ->.
  { unfold size_code_of. destruct (encode_size_aligned _ _) as [[c s]|]; cbn in E; by simplify_eq. }
  by apply new_ptr_offset.
Qed.

Lemma new_ptr_type n sz :
  fits 48 n -> fat_ptr.asi_type (fat_ptr.make n (size_code_of sz) 0) <> fat_ptr.ASI_LOG.
Proof.
  intros Hn. rewrite asi_type_view, new_ptr_layout by done. pose proof (size_code_fits sz).
  unfold fat_ptr.ASI_LOG. zlia.
Qed.

(** A chain depends on the links of its members only. *)
Lemma chain_frame m m' p l :
  chain m p l ->
  (forall a o, a ∈ l -> objects m !! a = Some o ->
     exists o', objects m' !! a = Some o' /\ object._next o' = object._next o) ->
  chain m' p l.
Proof.
  intros Hc. induction Hc as [p Ht Hz|p o l Ht Hz Ho Hc IH]; intros K; [by constructor|].
  destruct (K _ o ltac:(left) Ho) as (o' & Ho' & En). econstructor; [done..|].
  rewrite En. apply IH. intros a oa Ha. apply K. by right.
Qed.

Lemma chain_tail m p c l h : chain m p (c :: l) -> objects m !! c = Some h -> chain m (object._next h) l.
Proof. intros Hc Hh. inversion Hc; subst. by simplify_eq. Qed.

Lemma chain_in m p l a : chain m p l -> a ∈ l -> is_Some (objects m !! a).
Proof. intros Hc. induction Hc; intros Ha; [set_solver|]. apply elem_of_cons in Ha as [->|]; eauto. Qed.

(** What a successful update leaves behind, with [n] the new version's
    address and [rest] the versions below it. *)
Definition installed (oa o n : Z) (v : varstr_ptr) (x : XID.t) (rest : list Z) (m m' : mem) : Prop :=
  chain m' (oid_entry m' oa o) (n :: rest) /\
  (exists on, objects m' !! n = Some on /\ object.tuple on = new_tuple v /\
     object._clsn on = XID.to_ptr x) /\
  contexts m' = contexts m.

Context (oa o xc : Z) (v : varstr_ptr) (m : mem) (h : object.t) (l : list Z).
Let head := oid_entry m oa o.
Let a := fat_ptr.offset head.
Let r := mm_allocate (alloc_size v) (xid_context.begin_epoch (ctx m xc)) m.
Let newp := fat_ptr.make r.1 (size_code_of (alloc_size v)) 0.
Context (Hc : chain m head (a :: l)) (Hh : objects m !! a = Some h) (Hset : settled m a).
Context (Hv : v <> DEFUNCT_TUPLE_MARK) (Hf : (0 < fuel)%nat).
Context (Hfresh : objects m !! r.1 = None) (Haddr : 0 < r.1 < 2 ^ 48).

Lemma head_type : fat_ptr.asi_type head <> fat_ptr.ASI_LOG.
Proof. by inversion Hc. Qed.

Lemma runs_refused :
  may_update m xc h = Refuse -> runs (oid_put_update oa o v xc) m (NULL_PTR, NULL_PTR) m.
Proof.
  intros E. unfold oid_put_update. eapply runs_bind; [apply runs_rd_ctx|].
  eapply runs_bind; [apply runs_ensure_oid, head_type|].
  eapply runs_bind; [by apply (runs_decide oa o xc h)|]. rewrite E. apply runs_ret.
Qed.

(** Memory after the new version was built and stamped with the writer. *)
Definition built : mem :=
  upd_obj r.1 (object.set__clsn (XID.to_ptr (xid_context.owner (ctx m xc))))
    (set_tls_unlinked_objects r.2 (set_objects
      (<[r.1 := object.mk NULL_PTR NULL_PTR NULL_PTR (xid_context.begin_epoch (ctx m xc))
                  (new_tuple v) (0, 0)]> (objects m)) m)).

Lemma newp_offset : fat_ptr.offset newp = r.1.
Proof. apply new_ptr_offset. zlia. Qed.

Lemma built_lookup c : objects built !! c =
  if decide (c = r.1) then
    Some (object.mk NULL_PTR NULL_PTR (XID.to_ptr (xid_context.owner (ctx m xc)))
            (xid_context.begin_epoch (ctx m xc)) (new_tuple v) (0, 0))
  else objects m !! c.
Proof.
  unfold built, upd_obj. cbn. destruct (decide (c = r.1)) as [->|Hne].
  - by rewrite lookup_alter_eq, lookup_insert_eq.
  - by rewrite lookup_alter_ne, lookup_insert_ne by done.
Qed.

Lemma runs_build (ov : bool) res m' :
  may_update m xc h = Install ov ->
  runs (if ov then
          let* n := rd_obj a object._next in
          wr_obj (fat_ptr.offset newp) (object.set__next n) ;;;
          wr_slot (OidSlot oa o) newp ;;;
          mark_defunct a ;;;
          ret (head, newp)
        else
          wr_obj (fat_ptr.offset newp) (object.set__next head) ;;;
          let* ok := cas_slot (OidSlot oa o) head newp in
          ret (if ok then (head, newp) else (NULL_PTR, newp))) built res m' ->
  runs (oid_put_update oa o v xc) m res m'.
Proof.
  intros E K. unfold oid_put_update. eapply runs_bind; [apply runs_rd_ctx|].
  eapply runs_bind; [apply runs_ensure_oid, head_type|].
  eapply runs_bind; [by apply (runs_decide oa o xc h)|]. rewrite E.
  eapply runs_bind; [apply runs_rd_ctx|]. eapply runs_bind; [by apply runs_create|].
  eapply runs_bind; [apply runs_rd_ctx|]. fold r newp. rewrite newp_offset in K |- *.
  eapply runs_bind; [|exact K]. apply (runs_wr_obj _ _ _ (object.mk NULL_PTR NULL_PTR NULL_PTR
    (xid_context.begin_epoch (ctx m xc)) (new_tuple v) (0, 0))). cbn. by rewrite lookup_insert_eq.
Qed.

Lemma not_new c : c ∈ a :: l -> c <> r.1.
Proof. intros Hin ->. destruct (chain_in _ _ _ _ Hc Hin) as [? E]. congruence. Qed.

(** A chain that starts with the new version. *)
Lemma chain_newp m' on rest :
  oid_entry m' oa o = newp -> objects m' !! r.1 = Some on -> chain m' (object._next on) rest ->
  chain m' (oid_entry m' oa o) (r.1 :: rest).
Proof.
  intros E Ho Hr. rewrite E. rewrite <- newp_offset at 1. apply (chain_cons _ _ on).
  - apply new_ptr_type. zlia.
  - rewrite newp_offset. lia.
  - by rewrite newp_offset.
  - done.
Qed.

Lemma runs_installed_above :
  may_update m xc h = Install false ->
  exists m', runs (oid_put_update oa o v xc) m (head, newp) m' /\
    installed oa o r.1 v (xid_context.owner (ctx m xc)) (a :: l) m m'.
Proof.
  intros E. eexists. split.
  - apply (runs_build false); [done|]. rewrite newp_offset.
    eapply runs_bind; [apply (runs_wr_obj _ _ _ _ (eq_trans (built_lookup r.1) (decide_True _ _ eq_refl)))|].
    eapply (runs_bind _ _ _ true); [|apply runs_ret]. apply runs_atomic. cbn [get_slot].
    change (oid_entry _ oa o) with head. unfold fat_ptr.eqb. by rewrite Z.eqb_refl.
  - set (m1 := upd_obj r.1 (object.set__next head) built).
    assert (forall c, objects m1 !! c = if decide (c = r.1)
              then object.set__next head <$> objects built !! c else objects m !! c) as L.
    { intros c. unfold m1, upd_obj. cbn. destruct (decide (c = r.1)) as [->|].
      - by rewrite lookup_alter_eq.
      - by rewrite lookup_alter_ne, built_lookup, decide_False by done. }
    pose proof (L r.1) as Ln. rewrite decide_True, built_lookup, decide_True in Ln by done. cbn in Ln.
    split_and!; [|by eexists; split; [exact Ln|]|done].
    eapply chain_newp; [|exact Ln|].
    + unfold oid_entry. cbn. by rewrite lookup_insert_eq.
    + cbn. eapply chain_frame; [exact Hc|]. intros c oc Hin Ho. exists oc. split; [|done].
      rewrite <- Ho. transitivity (objects m1 !! c); [done|]. rewrite L.
      by rewrite decide_False by (by apply not_new).
Qed.

Lemma runs_installed_in_place :
  may_update m xc h = Install true ->
  exists m', runs (oid_put_update oa o v xc) m (head, newp) m' /\
    installed oa o r.1 v (xid_context.owner (ctx m xc)) l m m' /\
    (exists h', objects m' !! a = Some h' /\ dbtuple.pvalue (object.tuple h') = DEFUNCT_TUPLE_MARK).
Proof.
  intros E. assert (a <> r.1) as Hne by (apply not_new; left).
  assert (objects built !! a = Some h) as Hba by (by rewrite built_lookup, decide_False).
  set (m1 := upd_obj r.1 (object.set__next (object._next h)) built).
  set (m2 := set_oids (<[(oa, o) := newp]> (oids m1)) m1).
  assert (objects m2 !! a = Some h) as H2a.
  { cbn. by rewrite lookup_alter_ne. }
  exists (upd_obj a (upd_tuple (dbtuple.set_pvalue DEFUNCT_TUPLE_MARK)) m2). split.
  - apply (runs_build true); [done|]. rewrite newp_offset.
    eapply runs_bind; [by apply runs_rd_obj|].
    eapply runs_bind; [apply (runs_wr_obj _ _ _ _ (eq_trans (built_lookup r.1) (decide_True _ _ eq_refl)))|].
    eapply runs_bind; [by apply runs_atomic|].
    eapply runs_bind; [by eapply (runs_wr_obj _ _ _ h)|]. apply runs_ret.
  - assert (objects m2 !! r.1 = Some (object.mk NULL_PTR (object._next h)
      (XID.to_ptr (xid_context.owner (ctx m xc))) (xid_context.begin_epoch (ctx m xc))
      (new_tuple v) (0, 0))) as Ln.
    { cbn -[built]. rewrite lookup_alter_eq, built_lookup, decide_True by done. done. }
    split; [split_and!; [| |done]|].
    + eapply chain_newp; [unfold oid_entry; cbn; by rewrite lookup_insert_eq| |].
      * unfold upd_obj. cbn [objects set_objects]. rewrite lookup_alter_ne by done. exact Ln.
      * cbn. eapply chain_frame; [exact (chain_tail _ _ _ _ _ Hc Hh)|]. intros c oc Hin Ho.
        unfold upd_obj. cbn [objects set_objects]. destruct (decide (c = a)) as [->|Hca].
        -- rewrite lookup_alter_eq, H2a. eexists. split; [done|]. cbn. congruence.
        -- rewrite lookup_alter_ne by done. exists oc. split; [|done]. cbn -[built].
           rewrite lookup_alter_ne by (intros <-; by apply (not_new r.1); [right|]).
           rewrite built_lookup, decide_False by (apply not_new; by right). done.
    + eexists. split; [unfold upd_obj; cbn [objects set_objects]|].
      * rewrite lookup_alter_ne by done. exact Ln.
      * done.
    + eexists. unfold upd_obj. cbn [objects set_objects]. by rewrite lookup_alter_eq, H2a.
Qed.

End snapshot.

(** ** First updater wins *)

Section first_updater.
Context `{CF : Config} `{PL : Platform}.

(** Who wrote a version, for a transaction that wants to replace it. *)
Inductive author := Myself | Uncommitted | CommittedAt (stamp : Z).

Definition author_of (m : mem) (xc : Z) (o : object.t) : author :=
  let s := object._clsn o in
  if fat_ptr.asi_type s =? fat_ptr.ASI_XID then
    let x := XID.mk (fat_ptr._ptr s) in
    let w := ctx m (XID.local x) in
    if XID.eqb x (xid_context.owner (ctx m xc)) then Myself
    else if txn_state_eqb (xid_context.state w) TXN_CMMTD then CommittedAt (xid_context.end_ w)
    else Uncommitted
  else CommittedAt (fat_ptr.offset s).

(** The rule of snapshot isolation: one may replace one's own version and
    versions committed before one began; read committed asks for a committed
    version only. *)
Definition allowed (m : mem) (xc : Z) (w : author) : bool :=
  match w with
  | Myself => true
  | Uncommitted => false
  | CommittedAt s => RC || (s <? xid_context.begin_ (ctx m xc))
  end.

(** The head carries its commit LSN, or its writer has not committed, or did
    so before the updater began.  What is left out is a writer that
    committed since, but has not stamped its versions yet. *)
Definition stamps_done (m : mem) (xc : Z) (o : object.t) : Prop :=
  RC = false -> fat_ptr.asi_type (object._clsn o) = fat_ptr.ASI_XID ->
  forall s, author_of m xc o = CommittedAt s -> s < xid_context.begin_ (ctx m xc).

Lemma may_update_rule m xc o :
  stamps_done m xc o ->
  may_update m xc o =
    if allowed m xc (author_of m xc o)
    then Install (match author_of m xc o with Myself => true | _ => false end) else Refuse.
Proof.
  unfold stamps_done, may_update, author_of. destruct (fat_ptr.asi_type _ =? _) eqn:Et; intros Hd.
  - apply Z.eqb_eq in Et. destruct (XID.eqb _ _); [done|]. destruct (txn_state_eqb _ _); [|done].
    cbn [allowed]. destruct RC; [done|]. specialize (Hd eq_refl Et _ eq_refl).
    apply Z.ltb_lt in Hd. cbn [orb]. by rewrite Hd.
  - cbn [allowed]. destruct RC; [done|]. cbn [orb]. rewrite Z.ltb_antisym. by destruct (_ <=? _).
Qed.

End first_updater.

(** C11: updating a record of which [a] is the head version and [l] the rest.
    The update is refused, and nothing changes, when the head belongs to
    another transaction that has not committed, or was committed at or after
    the updater began (unless built with [RC]).  When the head is the
    updater's own version it is replaced in the chain and marked defunct.
    Otherwise the new version becomes the head above it.  The new version
    holds the value written and the updater's XID.  The thread is undisturbed
    and the head is settled; a head whose writer committed after the updater
    began but has not replaced its XID by the commit LSN yet is excluded
    ([stamps_done]), because there the code installs the update without
    comparing the stamps. *)
Theorem put_update_first_updater_wins `{CF : Config} `{Q : Quiet} oa o xc v m a h l
    (Ha : fat_ptr.offset (oid_entry m oa o) = a) (Hc : chain m (oid_entry m oa o) (a :: l))
    (Hh : objects m !! a = Some h) (Hset : settled m a) (Hd : stamps_done m xc h)
    (Hv : v <> DEFUNCT_TUPLE_MARK) (Hf : (0 < fuel)%nat) :
  let n := (mm_allocate (alloc_size v) (xid_context.begin_epoch (ctx m xc)) m).1 in
  let me := xid_context.owner (ctx m xc) in
  objects m !! n = None -> 0 < n < 2 ^ 48 ->
  if allowed m xc (author_of m xc h) then
    let own := match author_of m xc h with Myself => true | _ => false end in
    exists p m', runs (oid_put_update oa o v xc) m (oid_entry m oa o, p) m' /\
      fat_ptr.offset p = n /\
      installed oa o n v me (if own then l else a :: l) m m' /\
      (own = true -> exists h', objects m' !! a = Some h' /\
         dbtuple.pvalue (object.tuple h') = DEFUNCT_TUPLE_MARK)
  else runs (oid_put_update oa o v xc) m (NULL_PTR, NULL_PTR) m.
Proof.
  intros n me Hfresh Haddr. subst a. pose proof (may_update_rule m xc h Hd) as E.
  destruct (allowed m xc (author_of m xc h)); [|by apply (runs_refused oa o xc v m h l)].
  intros own. fold own in E. destruct own.
  - destruct (runs_installed_in_place oa o xc v m h l Hc Hh Hset Hv Hf Hfresh Haddr E)
      as (m' & Hr & Hi & Hdef). eexists _, m'. split_and!; [exact Hr| |done..].
    by apply newp_offset.
  - destruct (runs_installed_above oa o xc v m h l Hc Hh Hset Hv Hf Hfresh Haddr E) as (m' & Hr & Hi).
    eexists _, m'. split_and!; [exact Hr|by apply newp_offset|done..].
Qed.

(** ** Examples *)

Section examples.

#[local] Instance plain_config : Config := {|
  SSN := false; SSI := false; RC := false; RC_SPIN := false; PHANTOM_PROT := true;
  EARLY_SSN_CHECK := false; enable_safesnap := false; enable_gc := true;
  enable_ssi_read_only_opt := false; ssn_read_opt_threshold := SSN_READ_OPT_DISABLED;
  worker_threads := 8 |}.
#[local] Instance plain_platform : Platform := demo_platform alone 1.
#[local] Instance plain_quiet : Quiet.
Proof. done. Qed.

(** Record 1 of table 7: version 12288 of running transaction 1 above version
    8192 (committed at 95) above version 4096 (committed at 50).
    Transaction 2 began at 90, transaction 3 at 200. *)
Definition record_mem : mem :=
  with_object 4096 (committed_version NULL_PTR 50 0 [1])
    (with_object 8192 (committed_version (ptr 4096) 95 0 [2])
      (with_object 12288 (dirty_version (ptr 8192) (XID.make 1 1) [3])
        (with_oid 7 1 (ptr 12288)
          (with_context 1 (context 1 96 0 TXN_ACTIVE)
            (with_context 2 (context 2 90 0 TXN_ACTIVE)
              (with_context 3 (context 3 200 0 TXN_ACTIVE) empty_mem)))))).

Lemma record_chain : chain record_mem (oid_entry record_mem 7 1) [12288; 8192; 4096].
Proof.
  apply (chain_cons record_mem (ptr 12288) (dirty_version (ptr 8192) (XID.make 1 1) [3]));
    [done|done|reflexivity|].
  apply (chain_cons record_mem (ptr 8192) (committed_version (ptr 4096) 95 0 [2])); [done|done|reflexivity|].
  apply (chain_cons record_mem (ptr 4096) (committed_version NULL_PTR 50 0 [1])); [done|done|reflexivity|].
  by constructor.
Qed.

Lemma record_settled : Forall (settled record_mem) [12288; 8192; 4096].
Proof.
  apply Forall_cons; split; [|apply Forall_cons; split; [|apply Forall_singleton]].
  - split; [vm_compute; split; congruence|right].
    split_and!; [reflexivity|done|vm_compute; split; congruence|reflexivity].
  - split; [vm_compute; split; congruence|by left].
  - split; [vm_compute; split; congruence|by left].
Qed.

Lemma snapshot_read_witness : runs (oid_get_version 7 1 2) record_mem (Some 4096) record_mem.
Proof.
  exact (snapshot_read 7 1 2 [12288; 8192; 4096] record_mem (conj eq_refl (conj eq_refl eq_refl))
    record_chain record_settled ltac:(cbn; lia)).
Defined.

(** Transaction 2 may not touch the record while transaction 1 runs. *)
Lemma put_update_first_updater_wins_witness :
  runs (oid_put_update 7 1 (VARSTR [9]) 2) record_mem (NULL_PTR, NULL_PTR) record_mem.
Proof.
  exact (put_update_first_updater_wins 7 1 2 (VARSTR [9]) record_mem 12288
    (dirty_version (ptr 8192) (XID.make 1 1) [3]) [8192; 4096] eq_refl record_chain eq_refl
    (Forall_inv record_settled) ltac:(done) ltac:(done) ltac:(cbn; lia) (top_address_fresh record_mem)
    ltac:(vm_compute; split; congruence)).
Defined.

End examples.
