(* ===== verification/GcSafety.v ===== *)
(** * Garbage collection keeps what snapshots need ([MM::gc_daemon])

    Handling one entry of the list of updated OIDs cuts the record's chain, if
    at all, behind a version that every transaction whose snapshot is not
    older than the trim LSN can see. *)
From stdpp Require Import base numbers list gmap.
From Stdlib Require Import ZArith Lia.
From S2P Require Import Prelude Bits FatPtr SizeEncode Shared Program Contexts Readers Versions Mm.
From S2P Require Import Txn Scenario Snapshot.

Local Open Scope Z_scope.

(** ** Chains *)

Section chains.
Context `{BE : Backend}.
Implicit Types m : mem.

Lemma chain_det m p l : chain m p l -> forall p' l', chain m p' l' -> fat_ptr.offset p = fat_ptr.offset p' -> l = l'.
Proof.
  induction 1 as [p Ht Hz|p o l Ht Hz Ho Hl IH]; intros p' l' Hc' E.
  - inversion Hc'; subst; [done|]. congruence.
  - inversion Hc' as [|? o' l2 ? ? Ho']; subst; [congruence|]. rewrite <- E, Ho in Ho'. simplify_eq.
    rewrite E. f_equal. by eapply IH.
Qed.

(** The chain from one of its members on. *)
Lemma chain_suffix m p l1 a l2 :
  chain m p (l1 ++ a :: l2) -> exists p' o, fat_ptr.offset p' = a /\ chain m p' (a :: l2) /\
    objects m !! a = Some o /\ chain m (object._next o) l2.
Proof.
  revert p. induction l1 as [|b l1 IH]; intros p Hc; cbn in Hc.
  - inversion Hc as [|? o ? ? ? Ho Hl]; subst. exists p, o. done.
  - inversion Hc as [|? o ? ? ? Ho Hl]; subst. by eapply IH.
Qed.

Lemma chain_nodup m p l : chain m p l -> NoDup l.
Proof.
  induction 1 as [|p o l Ht Hz Ho Hl IH]; [constructor|]. constructor; [|done].
  intros Hin. apply list_elem_of_split in Hin as (l1 & l2 & ->).
  destruct (chain_suffix _ _ _ _ _ Hl) as (p' & o' & E & Hc' & _).
  assert (fat_ptr.offset p :: l1 ++ fat_ptr.offset p :: l2 = fat_ptr.offset p :: l2) as Eq.
  { eapply chain_det; [by eapply chain_cons|exact Hc'|done]. }
  apply (f_equal length) in Eq. cbn in Eq. rewrite length_app in Eq. cbn in Eq. lia.
Qed.

(** Cutting a chain behind [k]. *)
Lemma chain_cut m m' p pre k dead ok :
  chain m p (pre ++ k :: dead) ->
  (forall a, a ∈ pre -> objects m' !! a = objects m !! a) ->
  objects m !! k = Some ok -> objects m' !! k = Some (object.set__next NULL_PTR ok) ->
  chain m' p (pre ++ [k]).
Proof.
  revert p. induction pre as [|a pre IH]; intros p Hc Hpre Hk Hk'; cbn in Hc |- *.
  - inversion Hc as [|? o ? ? ? Ho Hl]; subst. econstructor; [done..|]. by constructor.
  - inversion Hc as [|? o ? ? ? Ho Hl]; subst.
    econstructor; [done|done|rewrite Hpre by left; exact Ho|].
    apply IH; [done|intros b Hb; apply Hpre; by right|done..].
Qed.

(** [k] makes the rest of the chain irrelevant for [v]. *)
Lemma newest_prefix m m' v l dead k :
  k ∈ l -> (forall a, a ∈ l -> visible m' v a = visible m v a) -> visible m v k = true ->
  newest_visible m' v l = newest_visible m v (l ++ dead).
Proof.
  intros Hk Hv Hvis. unfold newest_visible. rewrite filter_app.
  assert (filter (fun a => visible m' v a = true) l = filter (fun a => visible m v a = true) l) as ->.
  { apply filter_same. intros a Ha. by rewrite Hv. }
  destruct (filter (fun a => visible m v a = true) l) eqn:E; [|done].
  assert (k ∈ filter (fun a => visible m v a = true) l) as Hin by (by apply list_elem_of_filter).
  rewrite E in Hin. by apply not_elem_of_nil in Hin.
Qed.

End chains.

Section gc.
Context `{CF : Config} `{Q : Quiet} `{MA : !Machine}.
Context (tlsn : Z).

(** A committed version, with a stamp the collector can read. *)
Definition stamped (m : mem) (a : Z) : Prop :=
  exists o, objects m !! a = Some o /\ fat_ptr.wf (object._clsn o) /\
    fat_ptr.asi_type (object._clsn o) = fat_ptr.ASI_LOG.

(** Its commit LSN is not above the trim LSN. *)
Definition old_version (m : mem) (a : Z) : Prop :=
  exists o, objects m !! a = Some o /\ fat_ptr.wf (object._clsn o) /\
    fat_ptr.asi_type (object._clsn o) = fat_ptr.ASI_LOG /\ fat_ptr.offset (object._clsn o) <= tlsn.

Lemma not_old m a o : objects m !! a = Some o -> tlsn < fat_ptr.offset (object._clsn o) -> ~ old_version m a.
Proof. intros Ho Hlt (o' & Ho' & _ & _ & Hle). simplify_eq. lia. Qed.

(** ** Finding the cut *)

Lemma runs_ff_step m c cur o :
  fat_ptr.offset cur <> 0 -> objects m !! fat_ptr.offset cur = Some o ->
  fat_ptr.wf (object._clsn o) -> fat_ptr.asi_type (object._clsn o) = fat_ptr.ASI_LOG ->
  let x := NextSlot (fat_ptr.offset cur) in
  runs (fast_forward_step tlsn (cur, c)) m
    (if fat_ptr.offset (object._clsn o) <=? tlsn then inr (Some (object._next o, x))
     else inl (object._next o, x)) m.
Proof.
  intros Hz Ho Hw Ht x. unfold fast_forward_step. destruct (lsn_of_log_ptr _ Hw Ht) as (ls & El & <-).
  apply Z.eqb_neq in Hz as ->. eapply runs_bind; [by apply runs_rd_obj|].
  rewrite Ht. cbn [negb Z.eqb Pos.eqb fat_ptr.ASI_LOG].
  eapply runs_bind; [by apply runs_rd_next_slot|]. eapply runs_bind; [by apply runs_lift|]. apply runs_ret.
Qed.

(** The walk stops at [x], the last version or one that is old. *)
Lemma runs_fast_forward m n : forall c oc l,
  objects m !! c = Some oc -> chain m (object._next oc) l -> Forall (stamped m) l -> (length l < n)%nat ->
  exists p1 x l2 ox,
    c :: l = p1 ++ x :: l2 /\ objects m !! x = Some ox /\ chain m (object._next ox) l2 /\
    (l2 = [] \/ old_version m x) /\ (forall a, a ∈ p1 -> a = c \/ ~ old_version m a) /\
    runs (loop n (fast_forward_step tlsn) (object._next oc, NextSlot c)) m
      (Some (object._next ox, NextSlot x)) m.
Proof.
  induction n as [|n IH]; intros c oc l Hoc Hc Hst Hn; [lia|]. inversion Hc as [? _ Hz|? o l' _ Hz Ho Hl]; subst.
  - exists [], c, [], oc. split_and!; [done..|by left|by intros a []%not_elem_of_nil|]. apply runs_loop_end. unfold fast_forward_step.
    rewrite Hz. apply runs_ret.
  - apply Forall_cons in Hst as [(o' & Ho' & Hw & Ht) Hst]. rewrite Ho in Ho'. simplify_eq.
    pose proof (runs_ff_step m (NextSlot c) _ _ Hz Ho Hw Ht) as Hstep. cbv zeta in Hstep.
    destruct (Z.leb_spec (fat_ptr.offset (object._clsn o')) tlsn) as [Hle|Hgt].
    + exists [c], (fat_ptr.offset (object._next oc)), l', o'. split_and!; [done..| |by intros a ->%list_elem_of_singleton; left|by apply runs_loop_end].
      right. exists o'. done.
    + destruct (IH (fat_ptr.offset (object._next oc)) o' l') as (p1 & x & l2 & ox & Es & Hx & Hcx & Hor & Hy & Hr);
        [done..|cbn in Hn; lia|].
      exists (c :: p1), x, l2, ox. split_and!; [by rewrite Es|done..| |by eapply runs_loop_step].
      intros a [->|Ha]%elem_of_cons; [by left|right]. destruct (Hy a Ha) as [->|]; [|done]. by eapply not_old.
Qed.

(** ** Cutting *)

(** The lists of scavenged objects can be appended to without touching [l]. *)
Definition apart (m : mem) (st : gc_state) (l : list Z) : Prop :=
  forall size ol, scavenged_object_lists st !! size = Some ol ->
    object_list.tail ol = NULL_PTR \/
    ~ (fat_ptr.offset (object_list.tail ol) ∈ l) /\ is_Some (objects m !! fat_ptr.offset (object_list.tail ol)).

(** What the collector leaves alone: everything but links of objects outside
    [keep]. *)
Record spares (keep : list Z) (m m' : mem) : Prop := {
  sp_contexts : contexts m' = contexts m;
  sp_oids : oids m' = oids m;
  sp_keep a : a ∈ keep -> objects m' !! a = objects m !! a;
  sp_others a o : objects m !! a = Some o -> exists o', objects m' !! a = Some o' /\
    object._clsn o' = object._clsn o /\ object.tuple o' = object.tuple o /\
    object.recycle_oid o' = object.recycle_oid o }.

Lemma spares_refl keep m : spares keep m m.
Proof. split; eauto. Qed.

Lemma spares_trans keep m1 m2 m3 : spares keep m1 m2 -> spares keep m2 m3 -> spares keep m1 m3.
Proof.
  intros [C1 O1 K1 P1] [C2 O2 K2 P2]. split; [congruence..| |].
  - intros a Ha. by rewrite K2, K1.
  - intros a o Ho. destruct (P1 a o Ho) as (o' & Ho' & ? & ? & ?), (P2 a o' Ho') as (o'' & ? & ? & ? & ?).
    exists o''. split_and!; [done|congruence..].
Qed.

Lemma spares_relink keep a p m : a ∉ keep -> spares keep m (upd_obj a (object.set__next p) m).
Proof.
  intros Ha. split; [done..| |].
  - intros b Hb. unfold upd_obj. cbn. by rewrite lookup_alter_ne by (intros ->; done).
  - intros b o Ho. unfold upd_obj. cbn. destruct (decide (a = b)) as [->|].
    + rewrite lookup_alter_eq, Ho. eexists. split_and!; [done..|done].
    + rewrite lookup_alter_ne by done. eauto.
Qed.

Lemma spares_is_some keep m m' a : spares keep m m' -> is_Some (objects m !! a) -> is_Some (objects m' !! a).
Proof. intros S [o Ho]. destruct (sp_others _ _ _ S a o Ho) as (o' & ? & _). eauto. Qed.

Section scavenge.
Context (keep : list Z) (cur : fat_ptr.t) (d := fat_ptr.offset cur).
Context (Hd : ~ (d ∈ keep)) (Hz : d <> 0).

(** A list takes [cur]: its object ends up unlinked, as the list's tail. *)
Lemma runs_put m ol o :
  objects m !! d = Some o ->
  object_list.tail ol = NULL_PTR \/
    ~ (fat_ptr.offset (object_list.tail ol) ∈ d :: keep) /\ is_Some (objects m !! fat_ptr.offset (object_list.tail ol)) ->
  if object_list.nobjects ol =? object_list.CAPACITY then runs (object_list_put ol cur) m (ol, false) m
  else exists h n m', runs (object_list_put ol cur) m (object_list.mk h cur n, true) m' /\
    spares keep m m' /\ exists o', objects m' !! d = Some o' /\ object._next o' = NULL_PTR.
Proof.
  intros Ho Ht. unfold object_list_put. destruct (_ =? object_list.CAPACITY); [apply runs_ret|].
  set (m1 := upd_obj d (object.set__next NULL_PTR) m).
  assert (objects m1 !! d = Some (object.set__next NULL_PTR o)) as Hd1.
  { unfold m1, upd_obj. cbn. by rewrite lookup_alter_eq, Ho. }
  assert (spares keep m m1) as S1 by (by apply spares_relink).
  destruct (fat_ptr.eqb (object_list.tail ol) NULL_PTR) eqn:E.
  - eexists _, _, m1. split; [|split; [done|eauto]].
    eapply runs_bind; [by apply (runs_wr_obj _ _ _ o)|]. apply runs_ret.
  - destruct Ht as [Ht|[Hn Hs]]; [by rewrite Ht in E|].
    apply not_elem_of_cons in Hn as [Hne Hk]. pose proof (spares_is_some _ _ _ _ S1 Hs) as [ot Hot].
    eexists _, _, _. split; [|split].
    + eapply runs_bind; [by apply (runs_wr_obj _ _ _ o)|]. eapply runs_bind; [by apply (runs_wr_obj _ _ _ ot)|]. apply runs_ret.
    + eapply spares_trans; [exact S1|]. by apply spares_relink.
    + exists (object.set__next NULL_PTR o). split; [|done]. unfold upd_obj at 1. cbn [objects set_objects].
      by rewrite lookup_alter_ne by done.
Qed.

Lemma spares_pools f m : spares keep m (set_central_object_pool f m).
Proof. split; eauto. Qed.

Lemma runs_put_or_flush m sol nt o :
  objects m !! d = Some o ->
  object_list.tail sol = NULL_PTR \/
    ~ (fat_ptr.offset (object_list.tail sol) ∈ d :: keep) /\ is_Some (objects m !! fat_ptr.offset (object_list.tail sol)) ->
  exists h n nt' m', runs (put_or_flush sol cur nt) m (object_list.mk h cur n, nt') m' /\
    spares keep m m' /\ exists o', objects m' !! d = Some o' /\ object._next o' = NULL_PTR.
Proof.
  intros Ho Hsol. pose proof (runs_put m sol o Ho Hsol) as Hp. unfold put_or_flush.
  destruct (_ =? object_list.CAPACITY).
  - set (key := (u32 (nt + 1) mod next_thread_id, align_up (list_size sol) DEFAULT_ALIGNMENT)).
    set (mp := set_central_object_pool
      (<[key := sol :: default [] (central_object_pool m !! key)]> (central_object_pool m)) m).
    destruct (runs_put mp object_list.empty o Ho (or_introl eq_refl)) as (h & n & m1 & Hr & S1 & Hd1).
    eexists h, n, _, m1. split; [|split; [|done]].
    + eapply runs_bind; [exact Hp|]. cbn [snd]. eapply runs_bind; [by apply runs_wr|].
      eapply runs_bind; [exact Hr|]. eapply runs_bind; [by apply runs_assert|]. apply runs_ret.
    + eapply spares_trans; [|exact S1]. apply spares_pools.
  - destruct Hp as (h & n & m1 & Hr & S1 & Hd1). eexists h, n, _, m1. split; [|done].
    eapply runs_bind; [exact Hr|]. apply runs_ret.
Qed.

(** Only the first version is scavenged: putting it on a list clears the link
    by which the loop would go on. *)
Lemma runs_scavenge m st o :
  objects m !! d = Some o -> apart m st (d :: keep) -> (1 < fuel)%nat ->
  exists st' m', runs (scavenge cur st) m st' m' /\ spares keep m m' /\ apart m' st' keep /\
    reclaimed_count st' = reclaimed_count st + 1.
Proof.
  intros Ho Ha Hf. set (size := decode_size_aligned (fat_ptr.size_code cur) DEFAULT_ALIGNMENT_BITS).
  set (sol := default object_list.empty (scavenged_object_lists st !! size)).
  assert (object_list.tail sol = NULL_PTR \/ ~ (fat_ptr.offset (object_list.tail sol) ∈ d :: keep) /\
    is_Some (objects m !! fat_ptr.offset (object_list.tail sol))) as Hsol.
  { unfold sol. destruct (scavenged_object_lists st !! size) eqn:E; [by eapply Ha|by left]. }
  destruct (runs_put_or_flush m sol (next_thread st) o Ho Hsol) as (h & n & nt & m1 & Hr & S1 & o1 & Ho1 & Hn1).
  eexists (mk_gc _ _ (<[size := object_list.mk h cur n]> (scavenged_object_lists st)) nt), m1.
  split; [|split; [done|split; [|reflexivity]]].
  - unfold scavenge. destruct fuel as [|[|k]]; [lia..|]. eapply runs_loop_step; [|apply runs_loop_end].
    + unfold scavenge_step. fold d. pose proof Hz as ->%Z.eqb_neq. eapply runs_bind; [by apply (runs_rd_obj _ _ _ o)|].
      fold size sol. eapply runs_bind; [exact Hr|]. eapply runs_bind; [by apply (runs_rd_obj _ _ _ o1)|].
      apply runs_ret.
    + rewrite Hn1. apply runs_ret.
  - intros sz ol. cbn. destruct (decide (sz = size)) as [->|].
    + rewrite lookup_insert_eq. intros [= <-]. right. split; [done|by exists o1].
    + rewrite lookup_insert_ne by done. intros Hl. destruct (Ha _ _ Hl) as [?|[Hn Hs]]; [by left|].
      right. split; [|by eapply spares_is_some]. intros Hin. apply Hn. by right.
Qed.

End scavenge.

Lemma runs_unlink m x ox :
  objects m !! x = Some ox -> runs (wr_slot (NextSlot x) NULL_PTR) m tt (upd_obj x (object.set__next NULL_PTR) m).
Proof. intros E. apply runs_atomic. cbn. by rewrite E. Qed.

Lemma apart_mono m m' st l l' keep :
  spares keep m m' -> (forall a, a ∈ l' -> a ∈ l) -> apart m st l -> apart m' st l'.
Proof.
  intros S Hl Ha sz ol E. destruct (Ha _ _ E) as [?|[Hn Hs]]; [by left|].
  right. split; [eauto|by eapply spares_is_some].
Qed.

(** The first half of a turn of the cutting loop. *)
Lemma runs_cut_step m st x cur o r m' :
  fat_ptr.offset cur <> 0 -> objects m !! fat_ptr.offset cur = Some o ->
  fat_ptr.wf (object._clsn o) -> fat_ptr.asi_type (object._clsn o) = fat_ptr.ASI_LOG ->
  runs (if fat_ptr.offset (object._clsn o) <=? tlsn then
          wr_slot x NULL_PTR ;;;
          let* st' := scavenge cur st in
          ret (inr (true, st'))
        else
          let* cur' := rd_slot (NextSlot (fat_ptr.offset cur)) in
          ret (inl (cur', NextSlot (fat_ptr.offset cur)))) m r m' ->
  runs (cut_step tlsn st (cur, x)) m r m'.
Proof.
  intros Hz Ho Hw Ht Hr. unfold cut_step. destruct (lsn_of_log_ptr _ Hw Ht) as (ls & El & E).
  rewrite <- E in Hr. apply Z.eqb_neq in Hz as ->. eapply runs_bind; [by apply runs_rd_obj|].
  eapply runs_bind; [apply runs_assert; by rewrite Ht|]. eapply runs_bind; [by apply runs_lift|]. exact Hr.
Qed.

(** The chain behind [x] stays as it is, or is cut behind some [k]. *)
Lemma runs_cut_chain m st n : forall x ox l,
  objects m !! x = Some ox -> chain m (object._next ox) l -> Forall (stamped m) l ->
  (length l < n)%nat -> (1 < fuel)%nat ->
  (forall a, a ∈ l -> ~ old_version m a) /\
    runs (loop n (cut_step tlsn st) (object._next ox, NextSlot x)) m (false, st) m \/
  exists q k ok d dead, x :: l = q ++ k :: d :: dead /\ objects m !! k = Some ok /\
    (forall a, a ∈ q ++ [k] -> a = x \/ ~ old_version m a) /\
    forall keep, ~ (d ∈ keep) -> apart m st (d :: keep) -> exists st' m',
      runs (loop n (cut_step tlsn st) (object._next ox, NextSlot x)) m (true, st') m' /\
      spares keep (upd_obj k (object.set__next NULL_PTR) m) m' /\ apart m' st' keep.
Proof.
  induction n as [|n IH]; intros x ox l Hx Hc Hst Hn Hf; [lia|]. inversion Hc as [? _ Hz|? o l' _ Hz Ho Hl]; subst.
  - left. split; [by intros a []%not_elem_of_nil|]. apply runs_loop_end. unfold cut_step. rewrite Hz. apply runs_ret.
  - apply Forall_cons in Hst as [(o' & Ho' & Hw & Ht) Hst]. rewrite Ho in Ho'. simplify_eq.
    pose proof (fun r m' => runs_cut_step m st (NextSlot x) _ o' r m' Hz Ho Hw Ht) as Hstep.
    destruct (Z.leb_spec (fat_ptr.offset (object._clsn o')) tlsn) as [Hle|Hgt].
    + right. exists [], x, ox, (fat_ptr.offset (object._next ox)), l'. split; [done|split; [done|split; [by intros a ->%list_elem_of_singleton; left|]]].
      intros keep Hk Ha. set (m1 := upd_obj x (object.set__next NULL_PTR) m).
      assert (spares [] m m1) as S1 by (apply spares_relink, not_elem_of_nil).
      destruct (spares_is_some _ _ _ _ S1 (mk_is_Some _ _ Ho)) as [o1 Ho1].
      destruct (runs_scavenge keep (object._next ox) Hk Hz m1 st o1) as (st' & m' & Hr & S & A & _);
        [done|by eapply apart_mono|done|].
      exists st', m'. split; [|done]. apply runs_loop_end, Hstep.
      eapply runs_bind; [by eapply runs_unlink|]. eapply runs_bind; [exact Hr|]. apply runs_ret.
    + assert (runs (cut_step tlsn st (object._next ox, NextSlot x)) m
        (inl (object._next o', NextSlot (fat_ptr.offset (object._next ox)))) m) as H1.
      { apply Hstep. eapply runs_bind; [by apply runs_rd_next_slot|]. apply runs_ret. }
      destruct (IH _ o' l' Ho Hl Hst) as [[Hy Hr]|(q & k & ok & d & dead & Es & Hk & Hy & Hall)];
        [cbn in Hn; lia|done|..].
      * left. split; [|by eapply runs_loop_step]. intros a [->|Ha]%elem_of_cons; [by eapply not_old|by apply Hy].
      * right. exists (x :: q), k, ok, d, dead. split; [by rewrite Es|split; [done|split]].
        { intros a [->|Ha]%elem_of_cons; [by left|right]. destruct (Hy a Ha) as [->|]; [by eapply not_old|done]. }
        intros keep Hd Ha. destruct (Hall keep Hd Ha) as (st' & m' & Hr & ?). exists st', m'.
        split; [|done]. by eapply runs_loop_step.
Qed.

(** ** One entry *)

Lemma runs_detach keep m r_prev r r_next :
  ~ (fat_ptr.offset r ∈ keep) -> ~ (fat_ptr.offset r_prev ∈ keep) ->
  is_Some (objects m !! fat_ptr.offset r) -> is_Some (objects m !! fat_ptr.offset r_prev) ->
  exists m', runs (detach r_prev r r_next) m tt m' /\ spares keep m m'.
Proof.
  intros Hr Hp [o Ho] Hs. set (m1 := upd_obj (fat_ptr.offset r) (object.set__next (tls_unlinked_objects m)) m).
  assert (spares keep m m1) as S1 by (by apply spares_relink).
  set (m2 := set_tls_unlinked_objects r m1).
  assert (spares keep m m2) as S2 by (destruct S1; by split).
  destruct (spares_is_some _ _ _ _ S2 Hs) as [op Hop].
  eexists. split; [|eapply spares_trans; [exact S2|by apply spares_relink]].
  eapply runs_bind; [|by apply (runs_wr_obj _ _ m2 op)].
  eapply runs_bind; [apply runs_rd|]. eapply runs_bind; [by apply (runs_wr_obj _ _ _ o)|]. apply runs_wr.
Qed.

(** The version behind which the collector starts. *)
Definition first_committed (m : mem) (vs : list Z) : option Z :=
  match vs with
  | [] => None
  | h :: l =>
      match objects m !! h with
      | Some o => if fat_ptr.asi_type (object._clsn o) =? fat_ptr.ASI_XID then head l else Some h
      | None => None
      end
  end.

(** At most one old version is left behind the first committed one. *)
Definition trimmed (m : mem) (fc : option Z) (kept : list Z) : Prop :=
  forall a b, a ∈ kept -> b ∈ kept -> old_version m a -> old_version m b -> fc <> Some a -> fc <> Some b -> a = b.

Lemma trimmed_but_one m c x kept :
  (forall a, a ∈ kept -> a = c \/ a = x \/ ~ old_version m a) -> trimmed m (Some c) kept.
Proof. intros H a b Ha Hb Oa Ob Na Nb. destruct (H a Ha) as [->|[->|]], (H b Hb) as [->|[->|]]; done. Qed.

(** What is left of the chain [l] of the record: all of it, or a part that
    ends behind an old version. *)
Record collected (m m' : mem) (p : fat_ptr.t) (l kept : list Z) : Prop := {
  co_chain : chain m' p kept;
  co_prefix : exists dead, l = kept ++ dead;
  co_spares : spares [] m m';
  co_old : kept = l \/ exists x, x ∈ kept /\ old_version m x;
  co_trimmed : trimmed m (first_committed m l) kept }.

Lemma spares_weaken keep m m' : spares keep m m' -> spares [] m m'.
Proof. intros [? ? _ ?]. split; [done..|by intros a []%not_elem_of_nil|done]. Qed.

Lemma chain_spared keep m m' p l : spares keep m m' -> (forall a, a ∈ l -> a ∈ keep) -> chain m p l -> chain m' p l.
Proof.
  intros S Hl Hc. induction Hc as [p Ht Hz|p o l Ht Hz Ho Hl' IH]; [by constructor|].
  econstructor; [done..| |apply IH; intros; apply Hl; by right].
  rewrite (sp_keep _ _ _ S); [done|]. apply Hl. left.
Qed.

Lemma collected_all m m' p l :
  chain m p l -> spares l m m' -> trimmed m (first_committed m l) l -> collected m m' p l l.
Proof.
  intros Hc S Ht. split; [by eapply chain_spared| |by eapply spares_weaken|by left|done].
  exists []. by rewrite app_nil_r.
Qed.

Lemma collected_cut m m' p pre k ok dead x :
  chain m p (pre ++ k :: dead) -> objects m !! k = Some ok -> x ∈ pre ++ [k] -> old_version m x ->
  spares (pre ++ [k]) (upd_obj k (object.set__next NULL_PTR) m) m' ->
  trimmed m (first_committed m (pre ++ k :: dead)) (pre ++ [k]) ->
  collected m m' p (pre ++ k :: dead) (pre ++ [k]).
Proof.
  intros Hc Hk Hx Hold S Ht. pose proof (chain_nodup _ _ _ Hc) as Hnd.
  assert (~ (k ∈ pre)) as Hkp.
  { apply NoDup_app in Hnd as (_ & Hd & _). intros Hin. apply (Hd k Hin). left. }
  split; [| |eapply spares_trans; [apply spares_relink, not_elem_of_nil|by eapply spares_weaken]|eauto|done].
  - eapply chain_cut; [exact Hc| |exact Hk|].
    + intros a Ha. rewrite (sp_keep _ _ _ S) by (apply elem_of_app; by left). unfold upd_obj. cbn.
      by rewrite lookup_alter_ne by (intros ->; done).
    + rewrite (sp_keep _ _ _ S) by (apply elem_of_app; right; left). unfold upd_obj. cbn.
      by rewrite lookup_alter_eq, Hk.
  - exists dead. by rewrite <- app_assoc.
Qed.

(** Both walks, from the first committed version [c] on. *)
Lemma runs_trim m st p p0 c oc l :
  chain m p (p0 ++ c :: l) -> objects m !! c = Some oc -> Forall (stamped m) l ->
  first_committed m (p0 ++ c :: l) = Some c -> (forall a, a ∈ p0 -> ~ old_version m a) ->
  apart m st (p0 ++ c :: l) -> (length l < fuel)%nat -> (1 < fuel)%nat ->
  exists f t m' kept,
    runs (fast_forward tlsn (object._next oc) (NextSlot c)) m (Some f) m /\
    runs (cut_chain tlsn (fst f) (snd f) st) m t m' /\ apart m' (snd t) kept /\
    spares [] m m' /\ (forall m'', spares kept m' m'' -> collected m m'' p (p0 ++ c :: l) kept).
Proof.
  intros Hc Hoc Hst Hfc Hp0 Ha Hf Hf1. destruct (chain_suffix _ _ _ _ _ Hc) as (_ & o' & _ & _ & Ho' & Hl).
  rewrite Hoc in Ho'. injection Ho' as <-.
  destruct (runs_fast_forward m fuel c oc l) as (p1 & x & l2 & ox & Es & Hx & Hcx & Hor & Hy & Hff); [done..|].
  assert (Forall (stamped m) l2) as Hst2.
  { destruct p1 as [|b p1]; cbn in Es; injection Es as -> ->; [done|].
    by apply Forall_app, proj2, Forall_cons, proj2 in Hst. }
  destruct (runs_cut_chain m st fuel x ox l2) as [[Hy2 Hr]|(q & k & ok & d & dead & Eq & Hk & Hy2 & Hall)];
    [done..| |done| |].
  - apply (f_equal length) in Es. rewrite length_app in Es. cbn in Es. lia.
  - exists (object._next ox, NextSlot x), (false, st), m, (p0 ++ c :: l). split_and!; [done..|apply spares_refl|].
    intros m'' S. apply collected_all; [done..|]. rewrite Hfc. apply trimmed_but_one with x.
    intros a. rewrite Es, !elem_of_app, elem_of_cons.
    intros [Ha'|[Ha'|[Ha'|Ha']]]; [specialize (Hp0 a Ha')|specialize (Hy a Ha')| |specialize (Hy2 a Ha')]; tauto.
  - destruct Hor as [->|Hold]; [apply (f_equal length) in Eq; rewrite length_app in Eq; cbn in Eq; lia|].
    assert (p0 ++ c :: l = (p0 ++ p1 ++ q) ++ k :: d :: dead) as Ec by (by rewrite Es, Eq, <- !app_assoc).
    rewrite Ec in *. set (pre := p0 ++ p1 ++ q) in *. set (kept := pre ++ [k]).
    assert (x ∈ kept) as Hxk.
    { destruct q as [|b q]; injection Eq as -> _; unfold kept, pre; [apply elem_of_app; right; left|].
      rewrite !elem_of_app, elem_of_cons. tauto. }
    assert (pre ++ k :: d :: dead = kept ++ d :: dead) as Ek by (unfold kept; by rewrite <- app_assoc).
    assert (~ (d ∈ kept)) as Hd.
    { pose proof (chain_nodup _ _ _ Hc) as Hnd. rewrite Ek in Hnd. apply NoDup_app in Hnd as (_ & Hd & _).
      intros Hin. apply (Hd d Hin). left. }
    destruct (Hall kept Hd) as (st' & m' & Hr & S & A).
    { eapply apart_mono; [apply (spares_refl [])| |exact Ha]. intros a. rewrite Ek, elem_of_app, !elem_of_cons. tauto. }
    exists (object._next ox, NextSlot x), (true, st'), m', kept. split_and!; [done..| |].
    + eapply spares_trans; [apply (spares_relink _ k), not_elem_of_nil|by eapply spares_weaken].
    + intros m'' S'. eapply collected_cut; [done..|by eapply spares_trans|].
      rewrite Hfc. apply trimmed_but_one with x. intros a. specialize (Hy2 a). unfold kept, pre.
      rewrite elem_of_app in Hy2. rewrite !elem_of_app.
      intros [[Ha'|[Ha'|Ha']]|Ha']; [specialize (Hp0 a Ha')|specialize (Hy a Ha')|..]; tauto.
Qed.

(** What the collector relies on when it looks at the entry [r] for the record
    [oa], [o]: the record's chain has only its head uncommitted, and the list
    nodes are not versions of the record. *)
Record collectable (m : mem) (r_prev r : fat_ptr.t) (st : gc_state) (oa o : Z) (vs : list Z) : Prop := {
  cl_chain : chain m (oid_entry m oa o) vs;
  cl_entry : exists ro, objects m !! fat_ptr.offset r = Some ro /\ object.recycle_oid ro = (oa, o);
  cl_prev : is_Some (objects m !! fat_ptr.offset r_prev);
  cl_nodes : ~ (fat_ptr.offset r ∈ vs) /\ ~ (fat_ptr.offset r_prev ∈ vs);
  cl_lists : apart m st vs;
  cl_versions : match vs with
                | [] => True
                | h :: l => settled m h /\ (stamped m h \/ l <> []) /\ Forall (stamped m) l
                end }.

(** The walks start behind the first committed version. *)
Lemma runs_first_committed m p h l :
  chain m p (h :: l) -> settled m h -> stamped m h \/ l <> [] -> Forall (stamped m) l ->
  exists oh p0 c oc l', objects m !! h = Some oh /\ h :: l = p0 ++ c :: l' /\ objects m !! c = Some oc /\
    Forall (stamped m) l' /\ first_committed m (h :: l) = Some c /\ (forall a, a ∈ p0 -> ~ old_version m a) /\
    runs (if fat_ptr.asi_type (object._clsn oh) =? fat_ptr.ASI_XID
          then rd_obj h (fun o => fat_ptr.offset (object._next o)) else ret h) m c m.
Proof.
  intros Hc Hs Hh Hl. inversion Hc as [|? o ? _ Hz Ho Hc']; subst. unfold settled in Hs. rewrite Ho in Hs.
  exists o. destruct Hs as (_ & [Ht|[Ht _]]); rewrite Ht.
  - exists [], (fat_ptr.offset p), o, l. split_and!; [done..| |by intros a []%not_elem_of_nil|apply runs_ret].
    unfold first_committed. by rewrite Ho, Ht.
  - destruct l as [|c l].
    + destruct Hh as [(o' & Ho' & _ & Ht')|[]]; [|done]. rewrite Ho in Ho'. injection Ho' as ->. by rewrite Ht in Ht'.
    + apply Forall_cons in Hl as [(oc & Hoc & _) Hl]. inversion Hc'; subst.
      exists [fat_ptr.offset p], (fat_ptr.offset (object._next o)), oc, l. split_and!; [done..| | |].
      { unfold first_committed. by rewrite Ho, Ht. }
      { intros a ->%list_elem_of_singleton (o' & Ho' & _ & Ht' & _). rewrite Ho in Ho'. injection Ho' as <-.
        by rewrite Ht in Ht'. }
      rewrite Z.eqb_refl. by apply (runs_rd_obj _ (fun o => fat_ptr.offset (object._next o)) _ o).
Qed.

(** The entry is handled without starting over. *)
Lemma runs_gc_entry_step m r_prev r st oa o vs :
  collectable m r_prev r st oa o vs -> (length vs < fuel)%nat -> (1 < fuel)%nat ->
  exists res m' kept, runs (gc_entry_step tlsn r_prev r st (oa, o) tt) m (inr res) m' /\
    collected m m' (oid_entry m oa o) vs kept.
Proof.
  intros [Hc (ro & Hr & Ho) Hp [Nr Np] Ha Hv] Hf Hf1.
  assert (forall m1 kept, spares [] m m1 -> (exists dead, vs = kept ++ dead) ->
    exists m', runs (detach r_prev r (object._next ro)) m1 tt m' /\ spares kept m1 m') as Hdetach.
  { intros m1 kept S [dead ->]. rewrite elem_of_app in Nr, Np.
    apply runs_detach; [tauto..| |]; (eapply spares_is_some; [exact S|]); [by exists ro|done]. }
  unfold gc_entry_step. destruct vs as [|h l].
  - destruct (Hdetach m [] (spares_refl _ _)) as (m' & Hd & S); [by exists []|].
    exists (r_prev, object._next ro, st), m', []. split; [|apply collected_all; [done..|by intros a b []%not_elem_of_nil]].
    eapply runs_bind; [apply runs_rd_oid_slot|]. eapply runs_bind; [by apply (runs_rd_obj _ _ _ ro)|].
    cbn [fst snd]. inversion Hc as [? _ Hz|]; subst. rewrite Hz. eapply runs_bind; [exact Hd|]. apply runs_ret.
  - destruct Hv as (Hs & Hh & Hl).
    destruct (runs_first_committed m _ h l Hc Hs Hh Hl) as (oh & p0 & c & oc & l' & Hoh & Ev & Hoc & Hl' & Efc & Hp0 & Hfc).
    destruct (runs_trim m st (oid_entry m oa o) p0 c oc l') as ([f1 f2] & [cut st'] & m1 & kept & Hff & Hcut & A & S & Hco);
      [by rewrite <- Ev|done|done|by rewrite <- Ev|done|by rewrite <- Ev| |done|].
    { apply (f_equal length) in Ev. rewrite length_app in Ev. cbn in *. lia. }
    rewrite <- Ev in Hco.
    destruct (Hdetach m1 kept S) as (m2 & Hd & S2); [apply (co_prefix _ _ _ _ _ (Hco m1 (spares_refl _ _)))|].
    inversion Hc as [|? oh' ? _ Hz Hoh']; subst. apply Z.eqb_neq in Hz.
    assert (forall res m', runs (if (fat_ptr.offset (object._next oc) =? 0) || cut
      then detach r_prev r (object._next ro) ;;; ret (@inr unit _ (r_prev, object._next ro, st'))
      else ret (@inr unit _ (r, object._next ro, st'))) m1 (inr res) m' ->
      runs (gc_entry_step tlsn r_prev r st (oa, o) tt) m (inr res) m') as Hrun.
    { intros res m' Hend. eapply runs_bind; [apply runs_rd_oid_slot|].
      eapply runs_bind; [by apply (runs_rd_obj _ _ _ ro)|]. cbn [fst snd]. rewrite Hz.
      eapply runs_bind; [by apply (runs_rd_obj _ _ _ oh)|]. eapply runs_bind; [exact Hfc|].
      eapply runs_bind; [by apply (runs_rd_next_slot _ _ oc)|]. eapply runs_bind; [exact Hff|].
      eapply runs_bind; [exact Hcut|]. exact Hend. }
    destruct (_ || cut).
    + exists (r_prev, object._next ro, st'), m2, kept. split; [|by apply Hco].
      apply Hrun. eapply runs_bind; [exact Hd|]. apply runs_ret.
    + exists (r, object._next ro, st'), m1, kept. split; [|apply Hco, spares_refl]. apply Hrun, runs_ret.
Qed.

Lemma runs_gc_entry m r_prev r st oa o vs :
  collectable m r_prev r st oa o vs -> (length vs < fuel)%nat -> (1 < fuel)%nat ->
  exists res m' kept, runs (gc_entry tlsn r_prev r st) m res m' /\ collected m m' (oid_entry m oa o) vs kept.
Proof.
  intros Hcl Hf Hf1. destruct (cl_entry _ _ _ _ _ _ _ Hcl) as (ro & Hr & Ho).
  destruct (runs_gc_entry_step m r_prev r st oa o vs Hcl Hf Hf1) as (res & m' & kept & Hrun & Hco).
  exists res, m', kept. split; [|done]. eapply runs_bind; [by apply (runs_rd_obj _ _ _ ro)|].
  rewrite Ho. destruct fuel as [|n]; [lia|]. by apply runs_loop_end.
Qed.

(** ** Readers *)

Lemma spares_ctx keep m m' i : spares keep m m' -> ctx m' i = ctx m i.
Proof. intros S. unfold ctx. by rewrite (sp_contexts _ _ _ S). Qed.

Lemma spares_visible keep m m' v a : spares keep m m' -> is_Some (objects m !! a) -> visible m' v a = visible m v a.
Proof.
  intros S [o Ho]. destruct (sp_others _ _ _ S a o Ho) as (o' & Ho' & E & _). unfold visible.
  rewrite Ho, Ho', E. cbv zeta. by rewrite !(spares_ctx keep m m').
Qed.

Lemma spares_settled keep m m' a : spares keep m m' -> settled m a -> settled m' a.
Proof.
  intros S. unfold settled. destruct (objects m !! a) as [o|] eqn:Ho; [|done].
  destruct (sp_others _ _ _ S a o Ho) as (o' & -> & -> & _). cbv zeta. by rewrite (spares_ctx keep m m').
Qed.

Lemma settled_is_some m a : settled m a -> is_Some (objects m !! a).
Proof. unfold settled. destruct (objects m !! a); [eauto|done]. Qed.

Lemma stamped_settled m a : stamped m a -> settled m a.
Proof. intros (o & Ho & ? & ?). unfold settled. rewrite Ho. auto. Qed.

(** A snapshot that is not older than the trim LSN finds the same version. *)
Lemma collected_newest m m' p vs kept v :
  Forall (settled m) vs -> collected m m' p vs kept -> tlsn <= xid_context.begin_ (ctx m v) ->
  newest_visible m' v kept = newest_visible m v vs.
Proof.
  intros Hset [Hc [dead ->] S Hold _] Hb.
  assert (forall a, a ∈ kept -> visible m' v a = visible m v a) as Hv.
  { intros a Ha. eapply spares_visible; [exact S|]. apply settled_is_some.
    rewrite Forall_forall in Hset. apply Hset, elem_of_app. by left. }
  destruct Hold as [E|(x & Hx & o & Ho & _ & Ht & Hle)].
  - rewrite <- E. unfold newest_visible. erewrite filter_same; [done|]. cbv beta. intros a Ha. by rewrite Hv.
  - apply newest_prefix with x; [done..|]. unfold visible. rewrite Ho, Ht. cbn. lia.
Qed.

Lemma collectable_settled m r_prev r st oa o vs :
  collectable m r_prev r st oa o vs -> Forall (settled m) vs.
Proof.
  intros [_ _ _ _ _ Hv]. destruct vs as [|h l]; [constructor|]. destruct Hv as (Hh & _ & Hl).
  constructor; [done|]. eapply Forall_impl; [exact Hl|]. apply stamped_settled.
Qed.

(** C15: the garbage collector handles an entry of the list of
    updated OIDs to the end, and a read of that record by any transaction
    whose snapshot is not older than the trim LSN returns the same version
    afterwards as it did before, with the same contents. *)
Theorem gc_keeps_snapshots m r_prev r st oa o vs
    (Hsi : plain_si) (Hcl : collectable m r_prev r st oa o vs)
    (Hf : (length vs < fuel)%nat) (Hf1 : (1 < fuel)%nat) :
  exists res m', runs (gc_entry tlsn r_prev r st) m res m' /\
    forall v, tlsn <= xid_context.begin_ (ctx m v) ->
      exists a, runs (oid_get_version oa o v) m a m /\ runs (oid_get_version oa o v) m' a m' /\
        forall x, a = Some x -> option_map object.tuple (objects m' !! x) = option_map object.tuple (objects m !! x).
Proof.
  pose proof (collectable_settled _ _ _ _ _ _ _ Hcl) as Hset.
  destruct (runs_gc_entry m r_prev r st oa o vs Hcl Hf Hf1) as (res & m' & kept & Hrun & Hco).
  exists res, m'. split; [done|]. intros v Hv. exists (newest_visible m v vs).
  pose proof (cl_chain _ _ _ _ _ _ _ Hcl) as Hc. pose proof (co_spares _ _ _ _ _ Hco) as S.
  split; [by apply runs_get_version|split].
  - rewrite <- (collected_newest m m' _ vs kept v) by done. destruct Hco as [Hc' [dead Ed] _ _ _].
    rewrite Ed in Hset, Hf. apply Forall_app in Hset as [Hset _]. rewrite length_app in Hf.
    apply runs_get_version; [done| | |lia].
    + unfold oid_entry in *. by rewrite (sp_oids _ _ _ S).
    + eapply Forall_impl; [exact Hset|]. intros a. by eapply spares_settled.
  - intros x E. destruct (objects m !! x) as [ox|] eqn:Hx.
    + destruct (sp_others _ _ _ S x ox Hx) as (o' & -> & _ & Et & _). cbn. by rewrite Et.
    + unfold newest_visible in E. destruct (filter _ vs) as [|y ys] eqn:Ef; [done|]. injection E as ->.
      assert (x ∈ filter (fun a => visible m v a = true) vs) as [Hvis _]%list_elem_of_filter by (rewrite Ef; left).
      unfold visible in Hvis. by rewrite Hx in Hvis.
Qed.

(** C16: after the collector has handled an entry, the record's chain is
    a prefix of what it was, and behind the version the collector started from
    (the first committed one) at most one version not newer than the trim LSN
    can still be reached. *)
Theorem gc_trims m r_prev r st oa o vs
    (Hcl : collectable m r_prev r st oa o vs) (Hf : (length vs < fuel)%nat) (Hf1 : (1 < fuel)%nat) :
  exists res m' kept dead, runs (gc_entry tlsn r_prev r st) m res m' /\
    chain m' (oid_entry m' oa o) kept /\ vs = kept ++ dead /\ trimmed m (first_committed m vs) kept.
Proof.
  destruct (runs_gc_entry m r_prev r st oa o vs Hcl Hf Hf1) as (res & m' & kept & Hrun & [Hc [dead Ed] S _ Ht]).
  exists res, m', kept, dead. split_and!; [done| |done..]. unfold oid_entry in *. by rewrite (sp_oids _ _ _ S).
Qed.

(** However long the chain of trimmed versions is, one of them is scavenged. *)
Theorem scavenge_first_only m st cur o :
  objects m !! fat_ptr.offset cur = Some o -> fat_ptr.offset cur <> 0 -> apart m st [fat_ptr.offset cur] ->
  (1 < fuel)%nat ->
  exists st' m', runs (scavenge cur st) m st' m' /\ reclaimed_count st' = reclaimed_count st + 1.
Proof.
  intros Ho Hz Ha Hf. destruct (runs_scavenge [] cur (not_elem_of_nil _) Hz m st o Ho Ha Hf) as (st' & m' & ? & _ & _ & ?).
  eauto.
Qed.

End gc.

(** ** Examples *)

Section examples.

#[local] Existing Instance plain_config.
#[local] Existing Instance plain_platform.
#[local] Existing Instance plain_quiet.
#[local] Instance demo_machine : Machine := {|
  cur_node := 0; numa_nodes := 1; node_memory_gb := 4; node_base _ := 0; my_id := 1; next_thread_id := 4;
  mm_new_epoch _ _ := true |}.

(** The record of [record_mem] with two versions more, and the list node for
    it. *)
Definition gc_mem : mem :=
  with_object 2048 (committed_version NULL_PTR 20 0 [4])
    (with_object 4096 (committed_version (ptr 2048) 50 0 [1])
      (with_object 8192 (committed_version (ptr 4096) 95 0 [2])
        (with_object 12288 (committed_version (ptr 8192) 150 0 [3])
          (with_object 16384 (dirty_version (ptr 12288) (XID.make 1 1) [5])
            (with_object 20480 (object.mk NULL_PTR NULL_PTR (log_stamp 0) 1
                 (object.tuple (committed_version NULL_PTR 0 0 [])) (7, 1))
              (with_object 24576 (committed_version (ptr 20480) 0 0 [])
                (with_oid 7 1 (ptr 16384)
                  (with_context 1 (context 1 160 0 TXN_ACTIVE)
                    (with_context 2 (context 2 120 0 TXN_ACTIVE) empty_mem))))))))).

Definition gc_start : gc_state := mk_gc 0 0 ∅ 0.

Lemma gc_collectable :
  collectable gc_mem (ptr 24576) (ptr 20480) gc_start 7 1 [16384; 12288; 8192; 4096; 2048].
Proof.
  split.
  - apply (chain_cons gc_mem (ptr 16384) (dirty_version (ptr 12288) (XID.make 1 1) [5])); [done|done|reflexivity|].
    apply (chain_cons gc_mem (ptr 12288) (committed_version (ptr 8192) 150 0 [3])); [done|done|reflexivity|].
    apply (chain_cons gc_mem (ptr 8192) (committed_version (ptr 4096) 95 0 [2])); [done|done|reflexivity|].
    apply (chain_cons gc_mem (ptr 4096) (committed_version (ptr 2048) 50 0 [1])); [done|done|reflexivity|].
    apply (chain_cons gc_mem (ptr 2048) (committed_version NULL_PTR 20 0 [4])); [done|done|reflexivity|].
    by constructor.
  - eexists. split; reflexivity.
  - eexists. reflexivity.
  - split; apply (bool_decide_unpack _); vm_compute; exact I.
  - intros size ol E. cbn [scavenged_object_lists gc_start] in E. by rewrite lookup_empty in E.
  - split; [|split; [by right|]].
    + split; [vm_compute; split; congruence|right].
      split_and!; [reflexivity|done|vm_compute; split; congruence|reflexivity].
    + repeat (apply Forall_cons; split); [..|by constructor];
        (eexists; split; [reflexivity|split; [vm_compute; split; congruence|reflexivity]]).
Qed.

(** With trim LSN 100, transaction 2 reads version 95 before and after. *)
Lemma gc_keeps_snapshots_witness :
  exists res m', runs (gc_entry 100 (ptr 24576) (ptr 20480) gc_start) gc_mem res m' /\
    runs (oid_get_version 7 1 2) m' (Some 8192) m'.
Proof.
  destruct (gc_keeps_snapshots (CF := plain_config) (PL := plain_platform) 100 gc_mem (ptr 24576) (ptr 20480) gc_start 7 1 [16384; 12288; 8192; 4096; 2048]
    (conj eq_refl (conj eq_refl eq_refl)) gc_collectable ltac:(cbn; lia) ltac:(cbn; lia)) as (res & m' & Hr & Hv).
  exists res, m'. split; [exact Hr|]. destruct (Hv 2 ltac:(vm_compute; discriminate)) as (a & Ha & Ha' & _).
  assert (runs (oid_get_version 7 1 2) gc_mem (Some 8192) gc_mem) as Hb.
  { refine (runs_get_version (CF := plain_config) 7 1 2 [16384; 12288; 8192; 4096; 2048] gc_mem _
      (cl_chain _ _ _ _ _ _ _ gc_collectable) (collectable_settled _ _ _ _ _ _ _ gc_collectable) _).
    - split_and!; reflexivity.
    - cbn. lia. }
  destruct (runs_det _ _ _ _ _ _ Ha Hb) as [-> _]. exact Ha'.
Defined.

Lemma gc_trims_witness :
  exists res m' kept dead, runs (gc_entry 100 (ptr 24576) (ptr 20480) gc_start) gc_mem res m' /\
    chain m' (oid_entry m' 7 1) kept /\ [16384; 12288; 8192; 4096; 2048] = kept ++ dead /\
    trimmed 100 gc_mem (Some 12288) kept.
Proof.
  exact (gc_trims (PL := plain_platform) 100 gc_mem (ptr 24576) (ptr 20480) gc_start 7 1 [16384; 12288; 8192; 4096; 2048]
    gc_collectable ltac:(cbn; lia) ltac:(cbn; lia)).
Defined.

End examples.
