(* ===== verification/XidAlloc.v ===== *)
(** * Handing out contexts ([xid_alloc], [xid_free])

    The allocator as a machine whose steps are whole calls by any number of
    threads.  Its invariant accounts for every context: it is free in the
    shared bitmaps, or reserved by one thread, or in use by one transaction. *)
From stdpp Require Import base numbers list gmap relations.
From Stdlib Require Import ZArith Lia.
From S2P Require Import Prelude Bits FatPtr Shared Program Contexts Scenario Snapshot.

Local Open Scope Z_scope.

(** ** Where a context is *)

(** The bit of the shared bitmaps that stands for context [id]. *)
Definition half (id : Z) : Z := id / 16384.
Definition wordof (id : Z) : Z := id / 64 mod 256.
Definition bitof (id : Z) : Z := id mod 64.

Lemma NWORDS_eq : NWORDS = 256.
Proof. reflexivity. Qed.

Definition is_context (id : Z) : Prop := 0 <= id < NCONTEXTS.

(** A thread's reserve has the bit of [id]. *)
Definition reserves (t : thread_data.t) (id : Z) : Prop :=
  0 <= id - thread_data.base_id t < 64 /\
  Z.testbit (thread_data.bitmap t) (id - thread_data.base_id t) = true.

Lemma empty_reserve t id : thread_data.bitmap t = 0 -> ~ reserves t id.
Proof. intros E [_ H]. by rewrite E, Z.bits_0 in H. Qed.

Inductive holder := Shared | Thread (i : nat) | Transaction (x : XID.t).

Section machine.
Context `{CF : Config} `{Q : Quiet}.

Definition in_shared (m : mem) (id : Z) : Prop :=
  Z.testbit (xid_word m (half id) (wordof id)) (bitof id) = true.

(** [T] is the threads' [tls], [L] the XIDs in use. *)
Definition holds (m : mem) (T : gmap nat thread_data.t) (L : list XID.t) (h : holder) (id : Z) : Prop :=
  match h with
  | Shared => in_shared m id
  | Thread i => exists t, T !! i = Some t /\ reserves t id
  | Transaction x => x ∈ L /\ XID.local x = id
  end.

(** A reserve of one aligned word, of an epoch at most the current one; in the
    current epoch its word is already used up. *)
Record wf_reserve (m : mem) (t : thread_data.t) : Prop := {
  wr_fits : fits 64 (thread_data.bitmap t);
  wr_init : thread_data.initialized t = false -> thread_data.bitmap t = 0;
  wr_word : thread_data.bitmap t <> 0 ->
    0 <= thread_data.epoch t <= xid_cur_epoch m /\ thread_data.epoch t mod 4 < 2 /\
    exists w, 0 <= w < NWORDS /\
      thread_data.base_id t = (thread_data.epoch t mod 4) * 16384 + w * 64 /\
      (thread_data.epoch t = xid_cur_epoch m -> w < widx m (thread_data.epoch t mod 4)) }.

(** An XID that was handed out, in epoch [e] for context [id]. *)
Record handed_out (m : mem) (T : gmap nat thread_data.t) (x : XID.t) (e id : Z) : Prop := {
  ho_xid : x = XID.make e id;
  ho_epoch : 0 <= e <= xid_cur_epoch m;
  ho_context : is_context id;
  ho_half : e mod 4 = half id;
  ho_used : e = xid_cur_epoch m -> wordof id < widx m (e mod 4);
  ho_gone i t : T !! i = Some t -> thread_data.epoch t = e -> ~ reserves t id }.

(** The state of the allocator: [H] are all XIDs handed out so far. *)
Record alloc_inv (m : mem) (T : gmap nat thread_data.t) (L H : list XID.t) : Prop := {
  iv_epoch : 0 <= xid_cur_epoch m;
  iv_widx b : 0 <= widx m b <= NWORDS;
  iv_word b w : fits 64 (xid_word m b w);
  iv_rows b w : 2 <= b -> xid_word m b w = 0;
  iv_reserve i t : T !! i = Some t -> wf_reserve m t;
  iv_handed x : x ∈ H -> exists e id, handed_out m T x e id;
  iv_fresh : NoDup H;
  iv_live x : x ∈ L -> x ∈ H /\ xid_context.owner (ctx m (XID.local x)) = x;
  iv_nodup : NoDup L;
  iv_place id : is_context id ->
    exists h, holds m T L h id /\ forall h', holds m T L h' id -> h' = h }.

(** Contexts only move: each has the same place as before, or left its old
    place for exactly one new one. *)
Definition moves (m : mem) T L (m' : mem) T' L' : Prop :=
  forall id, is_context id ->
    (forall h, holds m' T' L' h id <-> holds m T L h id) \/
    (exists h2, holds m' T' L' h2 id /\ forall h, holds m' T' L' h id -> h = h2).

Lemma place_moves m T L m' T' L' :
  moves m T L m' T' L' ->
  (forall id, is_context id -> exists h, holds m T L h id /\ forall h', holds m T L h' id -> h' = h) ->
  forall id, is_context id -> exists h, holds m' T' L' h id /\ forall h', holds m' T' L' h' id -> h' = h.
Proof.
  intros Hm Hp id Hid. destruct (Hm id Hid) as [Hsame|Hnew]; [|done].
  destruct (Hp id Hid) as (h & Hh & Hu). exists h. rewrite Hsame. split; [done|].
  intros h' Hh'. apply Hu. by apply Hsame.
Qed.

Lemma context_bits id :
  is_context id -> 0 <= half id < 2 /\ 0 <= wordof id < NWORDS /\ 0 <= bitof id < 64 /\
    id = half id * 16384 + wordof id * 64 + bitof id.
Proof. unfold is_context, half, wordof, bitof, NCONTEXTS. rewrite NWORDS_eq. zlia. Qed.

(** ** One turn of the refill loop *)

Definition base_of (e i : Z) : Z := u16 ((e mod 2) * NCONTEXTS / 2 + i * BITS_PER_WORD).

Lemma base_of_eq e i : e mod 4 < 2 -> 0 <= i < NWORDS -> base_of e i = (e mod 4) * 16384 + i * 64.
Proof.
  rewrite NWORDS_eq. intros He Hi. unfold base_of, NCONTEXTS, BITS_PER_WORD. zlia.
Qed.

(** The next word of the current bitmap becomes the thread's reserve. *)
Definition grab (m : mem) : mem :=
  let e := xid_cur_epoch m in
  let b := e mod NBITMAPS in
  let i := widx m b in
  set_xid_bitmaps (<[(b, i) := thread_data.bitmap (xid_tls m)]> (xid_bitmaps m))
    (set_xid_tls (thread_data.mk e (xid_word m b i) (base_of e i) (thread_data.initialized (xid_tls m)))
      (set_xid_widx (<[b := i + 1]> (xid_widx m)) m)).

(** The current bitmap is used up: the next epoch starts at word 0. *)
Definition bump (m : mem) : mem :=
  let e := xid_cur_epoch m in
  set_xid_cur_epoch (e + 1) (set_xid_widx (<[(e + 1) mod NBITMAPS := 0]> (xid_widx m)) m).

Lemma runs_loop_once {A} n (body : unit -> M (unit + A)) m a m' :
  (0 < n)%nat -> runs (body tt) m (inr a) m' -> runs (loop n body tt) m a m'.
Proof. intros Hn H. destruct n; [lia|]. by apply runs_loop_end. Qed.

Definition refill_step : M (unit + unit) :=
  let* bm := rd (fun m => thread_data.bitmap (xid_tls m)) in
  if negb (bm =? 0) then ret (inr tt)
  else
    let* e := rd xid_cur_epoch in
    let b := e mod NBITMAPS in
    let* i := rd (fun m => widx m b) in
    let* i := loop fuel (fun i : Z =>
      if i <? NWORDS then
        let* j := cas_widx b i in
        if j =? i then ret (inr i) else ret (inl j)
      else ret (inr i)) i in
    if i =? NWORDS then
      let* cur := rd xid_cur_epoch in
      (if e =? cur then
         wr (fun m => set_xid_widx (<[(e + 1) mod NBITMAPS := 0]> (xid_widx m)) m) ;;;
         loop fuel (fun _ : unit => let* ok := new_epoch in ret (if ok then inr tt else inl tt)) tt
       else ret tt) ;;;
      ret (inl tt)
    else
      wr (upd_tls (thread_data.set_epoch e)) ;;;
      wr (upd_tls (thread_data.set_base_id
        (u16 ((e mod 2) * NCONTEXTS / 2 + i * BITS_PER_WORD)))) ;;;
      let* old := rd (fun m => thread_data.bitmap (xid_tls m)) in
      let* w := rd (fun m => xid_word m b i) in
      wr (upd_tls (thread_data.set_bitmap w)) ;;;
      wr (fun m => set_xid_bitmaps (<[(b, i) := old]> (xid_bitmaps m)) m) ;;;
      ret (inl tt).

Lemma xid_refill_eq : xid_refill = loop fuel (fun _ => refill_step) tt.
Proof. reflexivity. Qed.

Context (Hfuel : (0 < fuel)%nat) (Hepoch : forall t m, xid_new_epoch t m = true).

Lemma runs_grab m :
  thread_data.bitmap (xid_tls m) = 0 -> widx m (xid_cur_epoch m mod NBITMAPS) < NWORDS ->
  runs refill_step m (inl tt) (grab m).
Proof.
  intros Hb Hw. unfold refill_step.
  eapply runs_bind; [apply runs_rd|]. rewrite Hb. cbn [Z.eqb negb].
  eapply runs_bind; [apply runs_rd|]. eapply runs_bind; [apply runs_rd|].
  eapply runs_bind.
  { destruct fuel as [|n]; [lia|]. apply runs_loop_end. apply Z.ltb_lt in Hw as ->.
    eapply runs_bind; [apply runs_atomic; cbv zeta; rewrite Z.eqb_refl; done|].
    cbv beta. rewrite Z.eqb_refl. apply runs_ret. }
  cbv beta. rewrite (proj2 (Z.eqb_neq _ _)) by lia.
  do 2 (eapply runs_bind; [apply runs_wr|]). do 2 (eapply runs_bind; [apply runs_rd|]).
  do 2 (eapply runs_bind; [apply runs_wr|]). apply runs_ret.
Qed.

Lemma runs_bump m :
  thread_data.bitmap (xid_tls m) = 0 -> widx m (xid_cur_epoch m mod NBITMAPS) = NWORDS ->
  runs refill_step m (inl tt) (bump m).
Proof.
  intros Hb Hw. unfold refill_step.
  eapply runs_bind; [apply runs_rd|]. rewrite Hb. cbn [Z.eqb negb].
  eapply runs_bind; [apply runs_rd|]. eapply runs_bind; [apply runs_rd|].
  eapply runs_bind.
  { destruct fuel as [|n]; [lia|]. apply runs_loop_end. rewrite Hw, Z.ltb_irrefl. apply runs_ret. }
  cbv beta. rewrite Z.eqb_refl. eapply runs_bind; [apply runs_rd|]. cbv beta. rewrite Z.eqb_refl.
  eapply runs_bind; [|apply runs_ret]. eapply runs_bind; [apply runs_wr|]. apply runs_loop_once; [done|].
  eapply (runs_bind _ _ _ true); [|apply runs_ret].
  intros t. eexists. unfold new_epoch. by rewrite quiet, Hepoch.
Qed.

(** ** The invariant under a turn *)

Lemma in_word id h w :
  0 <= h < 2 -> 0 <= w < NWORDS -> 0 <= id - (h * 16384 + w * 64) < 64 ->
  is_context id /\ half id = h /\ wordof id = w /\ bitof id = id - (h * 16384 + w * 64).
Proof. rewrite NWORDS_eq. unfold is_context, half, wordof, bitof, NCONTEXTS. zlia. Qed.

Lemma widx_insert m b v b' :
  widx (set_xid_widx (<[b := v]> (xid_widx m)) m) b' = if decide (b = b') then v else widx m b'.
Proof.
  unfold widx. cbn. destruct (decide (b = b')) as [->|].
  - by rewrite lookup_insert_eq.
  - by rewrite lookup_insert_ne.
Qed.

Lemma xid_word_insert m b w v b' w' :
  xid_word (set_xid_bitmaps (<[(b, w) := v]> (xid_bitmaps m)) m) b' w' =
  if decide ((b, w) = (b', w')) then v else xid_word m b' w'.
Proof.
  unfold xid_word. cbn. destruct (decide ((b, w) = (b', w'))) as [E|].
  - rewrite E. by rewrite lookup_insert_eq.
  - by rewrite lookup_insert_ne.
Qed.

(** What a reserve says about a context in it. *)
Lemma reserves_word m t id :
  wf_reserve m t -> reserves t id ->
  is_context id /\ half id = thread_data.epoch t mod 4 /\
  thread_data.base_id t = half id * 16384 + wordof id * 64 /\ bitof id = id - thread_data.base_id t /\
  (thread_data.epoch t = xid_cur_epoch m -> wordof id < widx m (thread_data.epoch t mod 4)).
Proof.
  intros [Hf _ Hw] [Hr Hb]. assert (thread_data.bitmap t <> 0) as Hne.
  { intros E. by rewrite E, Z.bits_0 in Hb. }
  destruct (Hw Hne) as (He & H4 & w & Hw1 & Eb & Hu).
  rewrite Eb in Hr. pose proof (Z.mod_pos_bound (thread_data.epoch t) 4 ltac:(lia)).
  destruct (in_word id (thread_data.epoch t mod 4) w ltac:(lia) Hw1 Hr) as (Hc & Eh & Ew & Ebit). rewrite Eb, Eh, Ew. done.
Qed.

Section grab.
Context (m : mem) (T : gmap nat thread_data.t) (L H : list XID.t) (j : nat).
Context (I : alloc_inv m (<[j := xid_tls m]> T) L H).
Context (Hb : thread_data.bitmap (xid_tls m) = 0) (Hinit : thread_data.initialized (xid_tls m) = true).
Let e := xid_cur_epoch m.
Let b := e mod NBITMAPS.
Let i := widx m b.
Context (Hi : i < NWORDS).

Lemma grab_widx b' : widx (grab m) b' = if decide (b = b') then i + 1 else widx m b'.
Proof. apply (widx_insert m b (i + 1) b'). Qed.

Lemma grab_word b' w' : xid_word (grab m) b' w' = if decide ((b, i) = (b', w')) then 0 else xid_word m b' w'.
Proof. rewrite <- Hb. apply (xid_word_insert m b i _ b' w'). Qed.

Lemma grab_widx_mono b' : widx m b' <= widx (grab m) b'.
Proof. rewrite grab_widx. destruct (decide (b = b')) as [<-|]; [fold i; lia|lia]. Qed.

Lemma b_range : 0 <= b < 4.
Proof. apply Z.mod_pos_bound. done. Qed.

Lemma i_range : 0 <= i < NWORDS.
Proof. split; [apply (iv_widx _ _ _ _ I)|done]. Qed.

Lemma base_b : b < 2 -> base_of e i = b * 16384 + i * 64.
Proof. intros Hb2. apply base_of_eq; [exact Hb2|apply i_range]. Qed.

Lemma grab_reserve : wf_reserve (grab m) (xid_tls (grab m)).
Proof.
  split; cbn [xid_tls grab set_xid_bitmaps set_xid_tls thread_data.bitmap thread_data.epoch thread_data.base_id].
  - apply (iv_word _ _ _ _ I).
  - cbn. intros Hf. by rewrite Hinit in Hf.
  - intros Hne. pose proof (iv_epoch _ _ _ _ I) as He. pose proof b_range as Hbr. pose proof i_range as Hir.
    assert (b < 2) as Hb2.
    { destruct (Z.le_gt_cases 2 b); [|done]. by rewrite (iv_rows _ _ _ _ I) in Hne by done. }
    fold e b i. split_and!; [unfold e in *; lia|done|done|]. exists i. split_and!; [lia..| |].
    + by apply base_b.
    + intros _. rewrite grab_widx, decide_True by done. lia.
Qed.

(** The contexts of the word taken. *)
Definition taken (id : Z) : Prop := half id = b /\ wordof id = i.

Lemma grab_reserves id : is_context id ->
  reserves (xid_tls (grab m)) id <-> taken id /\ in_shared m id.
Proof.
  intros Hid. destruct (context_bits id Hid) as (Hh & Hw & Hbt & E). pose proof i_range as Hir. split.
  - intros Hr. destruct (reserves_word _ _ _ grab_reserve Hr) as (_ & Eh & Eb & Ebt & _).
    destruct Hr as [_ Hr]. cbn in Eh, Eb, Ebt, Hr. fold e b i in Eh, Eb, Ebt, Hr.
    change (half id = b) in Eh. assert (wordof id = i) as Ew.
    { rewrite base_b, Eh in Eb by lia. lia. }
    split; [done|]. unfold in_shared. by rewrite Eh, Ew, Ebt.
  - intros [[Eh Ew] Hs]. unfold in_shared in Hs. rewrite Eh, Ew in Hs.
    unfold reserves. cbn. fold e b i. rewrite base_b by lia.
    rewrite Eh, Ew in E. replace (id - (b * 16384 + i * 64)) with (bitof id) by lia. done.
Qed.

Lemma grab_shared id : is_context id -> in_shared (grab m) id <-> in_shared m id /\ ~ taken id.
Proof.
  intros Hid. unfold in_shared, taken. rewrite grab_word. destruct (decide _) as [[= -> ->]|Hne].
  - rewrite Z.bits_0. split; [done|]. intros [_ Hn]. by destruct Hn.
  - split; [|tauto]. intros ?. split; [done|]. intros [E1 E2]. apply Hne. by rewrite E1, E2.
Qed.

Lemma grab_moves :
  moves m (<[j := xid_tls m]> T) L (grab m) (<[j := xid_tls (grab m)]> T) L.
Proof.
  intros id Hid. destruct (decide (half id = b /\ wordof id = i /\
    Z.testbit (xid_word m (half id) (wordof id)) (bitof id) = true)) as [(E1 & E2 & Hs)|Hn].
  - right. assert (reserves (xid_tls (grab m)) id) as Hr by (apply grab_reserves; done).
    exists (Thread j). split; [exists (xid_tls (grab m)); by rewrite lookup_insert_eq|].
    assert (holds m (<[j := xid_tls m]> T) L Shared id) as Hold by done.
    destruct (iv_place _ _ _ _ I id Hid) as (h0 & _ & Hu). pose proof (Hu _ Hold) as <-.
    intros [|i'|y] Hh.
    + apply grab_shared in Hh as [_ Hn]; [|done]. by destruct Hn.
    + destruct (decide (i' = j)) as [->|Hne]; [done|].
      assert (Thread i' = Shared) as Hbad; [|done]. apply Hu. destruct Hh as (t & Ht & Hrt).
      exists t. by rewrite lookup_insert_ne in Ht |- * by done.
    + assert (Transaction y = Shared) as Hbad; [|done]. apply Hu. exact Hh.
  - left. intros [|i'|y]; [| |done].
    + cbn. rewrite grab_shared by done. unfold taken, in_shared in *. tauto.
    + cbn. destruct (decide (i' = j)) as [->|Hne].
      * rewrite !lookup_insert_eq. split.
        -- intros (t & [= <-] & Hr). apply grab_reserves in Hr as [[? ?] ?]; [|done]. by destruct Hn.
        -- intros (t & [= <-] & Hr). by destruct (empty_reserve _ id Hb).
      * by rewrite !lookup_insert_ne by done.
Qed.

Lemma inv_grab : alloc_inv (grab m) (<[j := xid_tls (grab m)]> T) L H.
Proof.
  split.
  - apply (iv_epoch _ _ _ _ I).
  - intros b'. rewrite grab_widx. pose proof i_range. pose proof (iv_widx _ _ _ _ I b').
    destruct (decide _); lia.
  - intros b' w'. rewrite grab_word. destruct (decide _); [zlia|apply (iv_word _ _ _ _ I)].
  - intros b' w' Hb'. rewrite grab_word. destruct (decide _); [done|]. by apply (iv_rows _ _ _ _ I).
  - intros i' t. destruct (decide (i' = j)) as [->|].
    + rewrite lookup_insert_eq. intros [= <-]. apply grab_reserve.
    + rewrite lookup_insert_ne by done. intros Ht.
      destruct (iv_reserve _ _ _ _ I i' t) as [Hf Hf' Hw]; [by rewrite lookup_insert_ne|]. split; [done..|].
      intros Hne. destruct (Hw Hne) as (? & ? & w & ? & ? & Hu). do 2 (split; [done|]). exists w.
      do 2 (split; [done|]). intros Ee. specialize (Hu Ee).
      pose proof (grab_widx_mono (thread_data.epoch t mod 4)). lia.
  - intros x Hx. destruct (iv_handed _ _ _ _ I x Hx) as (e' & id & [Hx' He Hc Hh Hu Hg]).
    exists e', id. split; try done.
    + intros Ee. specialize (Hu Ee). pose proof (grab_widx_mono (e' mod 4)). lia.
    + intros i' t. destruct (decide (i' = j)) as [->|].
      * rewrite lookup_insert_eq. intros [= <-] Ee Hr. apply grab_reserves in Hr as [[E1 E2] _]; [|done].
        cbn in Ee. specialize (Hu (eq_sym Ee)). rewrite <- Ee in Hu. fold e in Hu. change (e mod 4) with b in Hu.
        fold i in Hu. lia.
      * rewrite lookup_insert_ne by done. intros Ht. apply Hg with i'. by rewrite lookup_insert_ne.
  - apply (iv_fresh _ _ _ _ I).
  - intros x Hx. apply (iv_live _ _ _ _ I x Hx).
  - apply (iv_nodup _ _ _ _ I).
  - eapply place_moves; [apply grab_moves|apply (iv_place _ _ _ _ I)].
Qed.

End grab.

Lemma inv_bump m T L H : alloc_inv m T L H -> alloc_inv (bump m) T L H.
Proof.
  intros I. set (m' := bump m).
  assert (forall b, 0 <= widx m' b <= NWORDS) as Hw.
  { intros b. unfold m', bump. change (widx (set_xid_cur_epoch _ ?x) b) with (widx x b).
    rewrite widx_insert. destruct (decide _); [rewrite NWORDS_eq; lia|apply (iv_widx _ _ _ _ I)]. }
  split; [|done|apply (iv_word _ _ _ _ I)|apply (iv_rows _ _ _ _ I)| | |apply (iv_fresh _ _ _ _ I)
         |apply (iv_live _ _ _ _ I)|apply (iv_nodup _ _ _ _ I)|apply (iv_place _ _ _ _ I)].
  - pose proof (iv_epoch _ _ _ _ I). cbn. lia.
  - intros i t Ht. destruct (iv_reserve _ _ _ _ I i t Ht) as [Hf Hf' Hr]. split; [done..|].
    intros Hne. destruct (Hr Hne) as (He & H4 & w & Hwd & Hb & _). cbn. split; [lia|]. split; [done|].
    exists w. split_and!; [lia..|done|]. intros E. lia.
  - intros x Hx. destruct (iv_handed _ _ _ _ I x Hx) as (e & id & [Hx' He Hc Hh _ Hg]).
    exists e, id. split; try done; cbn; [lia|]. intros E. lia.
Qed.

(** ** Taking a context out of the reserve *)

(** A context that belongs to the XID [x] and is reset. *)
Definition fresh_context (x : XID.t) (c : xid_context.t) : Prop :=
  xid_context.owner c = x /\ xid_context.end_ c = 0 /\ xid_context.state c = TXN_ACTIVE /\
  (SSN = true -> xid_context.sstamp c = 0 /\ xid_context.pstamp c = 0) /\
  (SSI = true -> xid_context.ct3 c = 0 /\ xid_context.last_safesnap c = 0) /\
  (SSN || SSI = true -> xid_context.xct c = 0).

Section take.
Context (m : mem) (T : gmap nat thread_data.t) (L H : list XID.t) (j : nat).
Context (I : alloc_inv m (<[j := xid_tls m]> T) L H) (Hmax : xid_cur_epoch m < 2 ^ 32).
Let t := xid_tls m.
Context (Hb : thread_data.bitmap t <> 0).
Let id := thread_data.base_id t + ctz (thread_data.bitmap t).
Let x := XID.make (thread_data.epoch t) id.

Lemma own_reserve : wf_reserve m t.
Proof. apply (iv_reserve _ _ _ _ I j). by rewrite lookup_insert_eq. Qed.

Lemma reserve_pos : 0 < thread_data.bitmap t < 2 ^ 64.
Proof. pose proof (wr_fits _ _ own_reserve) as [? ?]. lia. Qed.

Lemma id_reserved : reserves t id.
Proof.
  destruct (bits_of_cons _ reserve_pos) as (_ & _ & Hc). destruct (testbit_ctz (thread_data.bitmap t)) as [Ht _];
    [apply reserve_pos|].
  unfold reserves, id. replace (_ + _ - _) with (ctz (thread_data.bitmap t)) by lia. done.
Qed.

Lemma id_context : is_context id.
Proof. apply (reserves_word m t id own_reserve id_reserved). Qed.

Lemma x_fits : fits 32 (thread_data.epoch t) /\ fits 16 id.
Proof.
  destruct (wr_word _ _ own_reserve Hb) as (He & _). pose proof id_context as Hi.
  unfold is_context, NCONTEXTS in Hi. unfold fits. lia.
Qed.

Lemma x_local : XID.local x = id.
Proof. destruct x_fits. by apply xid_local. Qed.

(** What [take_one] leaves: the reserve without the context, and a context
    that belongs to the new XID and is reset. *)
Record took (m' : mem) : Prop := {
  tk_context : fresh_context x (ctx m' id);
  tk_others i : i <> id -> ctx m' i = ctx m i;
  tk_tls : xid_tls m' = thread_data.set_bitmap
    (Z.land (thread_data.bitmap t) (thread_data.bitmap t - 1)) t;
  tk_bitmaps : xid_bitmaps m' = xid_bitmaps m;
  tk_widx : xid_widx m' = xid_widx m;
  tk_epoch : xid_cur_epoch m' = xid_cur_epoch m }.

Lemma runs_take_one : exists m', runs take_one m x m' /\ took m'.
Proof.
  pose proof reserve_pos as Hp. destruct x_fits as [Hf1 Hf2].
  eexists. split.
  - unfold take_one. eapply runs_bind; [apply runs_rd|]. fold t id. cbv zeta.
    rewrite (wrap_small 32), (wrap_small 16) by done. fold x.
    eapply runs_bind; [apply runs_wr|].
    eapply (runs_bind _ _ _ tt).
    { instantiate (1 := if SSN then upd_ctx id (xid_context.set_xct 0) (upd_ctx id (xid_context.set_pstamp 0)
        (upd_ctx id (xid_context.set_sstamp 0) (upd_ctx id (xid_context.set_owner x) m)))
        else upd_ctx id (xid_context.set_owner x) m).
      destruct SSN; [|apply runs_ret]. do 2 (eapply runs_bind; [apply runs_wr|]). apply runs_wr. }
    match goal with |- runs _ ?mm _ _ => set (m2 := mm) end.
    eapply (runs_bind _ _ _ tt).
    { instantiate (1 := if SSI then upd_ctx id (xid_context.set_xct 0) (upd_ctx id (xid_context.set_last_safesnap 0)
        (upd_ctx id (xid_context.set_ct3 0) m2)) else m2).
      destruct SSI; [|apply runs_ret]. do 2 (eapply runs_bind; [apply runs_wr|]). apply runs_wr. }
    do 3 (eapply runs_bind; [apply runs_wr|]). apply runs_ret.
  - split.
    + unfold fresh_context, upd_tls. cbn [set_xid_tls].
      change (ctx (set_xid_tls _ ?mm) id) with (ctx mm id).
      destruct SSN, SSI; rewrite !ctx_upd_eq; cbn; split_and!; intros; done.
    + intros i Hi. change (ctx (upd_tls _ ?mm) i) with (ctx mm i).
      destruct SSN, SSI; by rewrite !ctx_upd_ne.
    + unfold upd_tls. cbn [set_xid_tls xid_tls]. 
      assert (forall mm, xid_tls mm = t -> thread_data.set_bitmap (Z.land (thread_data.bitmap (xid_tls mm))
        (u64 (thread_data.bitmap (xid_tls mm) - 1))) (xid_tls mm) = thread_data.set_bitmap
        (Z.land (thread_data.bitmap t) (thread_data.bitmap t - 1)) t) as K.
      { intros mm ->. by rewrite (wrap_small 64) by (unfold fits; lia). }
      apply K. by destruct SSN, SSI.
    + by destruct SSN, SSI.
    + by destruct SSN, SSI.
    + by destruct SSN, SSI.
Qed.

Context (m' : mem) (Ht : took m').

Lemma took_reserves id' : reserves (xid_tls m') id' <-> reserves t id' /\ id' <> id.
Proof.
  pose proof reserve_pos as Hp. rewrite (tk_tls _ Ht). unfold reserves. cbn.
  destruct (decide (0 <= id' - thread_data.base_id t < 64)) as [Hr|]; [|tauto].
  rewrite testbit_clear_lowest by lia. rewrite andb_true_iff, negb_true_iff, Z.eqb_neq. unfold id.
  intuition lia.
Qed.

Lemma took_word b w : xid_word m' b w = xid_word m b w.
Proof. unfold xid_word. by rewrite (tk_bitmaps _ Ht). Qed.

Lemma took_widx b : widx m' b = widx m b.
Proof. unfold widx. by rewrite (tk_widx _ Ht). Qed.

Lemma took_tls_epoch : thread_data.epoch (xid_tls m') = thread_data.epoch t.
Proof. by rewrite (tk_tls _ Ht). Qed.

Lemma took_wf t' : wf_reserve m t' -> wf_reserve m' t'.
Proof.
  intros [Hf Hi Hw]. split; [done..|]. intros Hne. rewrite (tk_epoch _ Ht).
  destruct (Hw Hne) as (? & ? & w & ? & ? & ?). do 2 (split; [done|]). exists w. by rewrite took_widx.
Qed.

Lemma took_wf_own : wf_reserve m' (xid_tls m').
Proof.
  apply took_wf. rewrite (tk_tls _ Ht). destruct own_reserve as [Hf Hi Hw].
  split; cbn; [by apply land_fits| |by intros _; apply Hw].
  intros Hn. by destruct Hb; apply Hi.
Qed.

Lemma holds_self : holds m (<[j := xid_tls m]> T) L (Thread j) id.
Proof. exists t. split; [by rewrite lookup_insert_eq|apply id_reserved]. Qed.

Lemma only_self h : holds m (<[j := xid_tls m]> T) L h id -> h = Thread j.
Proof.
  intros Hh. destruct (iv_place _ _ _ _ I id id_context) as (h0 & _ & Hu).
  by rewrite (Hu _ Hh), (Hu _ holds_self).
Qed.

Lemma x_new : x ∉ H.
Proof.
  intros Hx. destruct (iv_handed _ _ _ _ I x Hx) as (e & id' & [Ex He Hc _ _ Hg]).
  destruct x_fits as [F1 F2]. assert (fits 32 e /\ fits 16 id') as [F3 F4].
  { unfold is_context, NCONTEXTS in Hc. unfold fits. lia. }
  pose proof (xid_epoch _ _ F1 F2) as E1. pose proof (xid_local _ _ F1 F2) as E2.
  fold x in E1, E2. rewrite Ex, xid_epoch in E1 by done. rewrite Ex, xid_local in E2 by done.
  subst e id'. apply (Hg j t); [by rewrite lookup_insert_eq|done|apply id_reserved].
Qed.

Lemma x_handed : handed_out m' (<[j := xid_tls m']> T) x (thread_data.epoch t) id.
Proof.
  destruct (reserves_word m t id own_reserve id_reserved) as (Hc & Hh & Hba & Hbit & Hu).
  destruct (wr_word _ _ own_reserve Hb) as (He & _). split; try done.
  - by rewrite (tk_epoch _ Ht).
  - by rewrite (tk_epoch _ Ht), took_widx.
  - intros i t'. destruct (decide (i = j)) as [->|Hne].
    + rewrite lookup_insert_eq. intros [= <-] _ [_ Hn]%took_reserves. done.
    + rewrite lookup_insert_ne by done. intros Hi _ Hr. assert (Thread i = Thread j) as [= ?]; [|done].
      apply only_self. exists t'. by rewrite lookup_insert_ne.
Qed.

Lemma handed_kept y e i' :
  handed_out m (<[j := xid_tls m]> T) y e i' -> handed_out m' (<[j := xid_tls m']> T) y e i'.
Proof.
  intros [Hy He Hc Hh Hu Hg]. split; try done; rewrite ?(tk_epoch _ Ht), ?took_widx; [done..|].
  intros i t'. destruct (decide (i = j)) as [->|Hne].
  - rewrite lookup_insert_eq. intros [= <-] Ee [Hr _]%took_reserves. rewrite took_tls_epoch in Ee.
    apply (Hg j t); [by rewrite lookup_insert_eq|done..].
  - rewrite lookup_insert_ne by done. intros Hi. apply Hg with i. by rewrite lookup_insert_ne.
Qed.

Lemma take_moves :
  moves m (<[j := xid_tls m]> T) L m' (<[j := xid_tls m']> T) (x :: L).
Proof.
  intros id' Hid. destruct (decide (id' = id)) as [->|Hne].
  - right. exists (Transaction x). split; [split; [left|apply x_local]|].
    intros [|i|y] Hh.
    + assert (Shared = Thread j); [|done]. apply only_self. unfold holds, in_shared in *. by rewrite took_word in Hh.
    + exfalso. destruct Hh as (t' & Ht' & Hr). destruct (decide (i = j)) as [->|Hne].
      * rewrite lookup_insert_eq in Ht'. simplify_eq. by apply took_reserves in Hr as [_ ?].
      * assert (Thread i = Thread j) as [= ?]; [|done]. apply only_self. exists t'.
        by rewrite lookup_insert_ne in Ht' |- * by done.
    + destruct Hh as [[->|Hy]%elem_of_cons Hl]; [done|].
      assert (Transaction y = Thread j); [|done]. by apply only_self.
  - left. intros [|i|y]; cbn.
    + unfold in_shared. by rewrite took_word.
    + destruct (decide (i = j)) as [->|Hij].
      * rewrite !lookup_insert_eq. split; intros (t' & [= <-] & Hr).
        -- apply took_reserves in Hr as [Hr _]. eauto.
        -- exists (xid_tls m'). split; [done|]. by apply took_reserves.
      * by rewrite !lookup_insert_ne by done.
    + rewrite elem_of_cons. split; [|tauto]. intros [[->|Hy] Hl]; [|done]. by rewrite x_local in Hl.
Qed.

Lemma inv_take : alloc_inv m' (<[j := xid_tls m']> T) (x :: L) (x :: H).
Proof.
  split.
  - rewrite (tk_epoch _ Ht). apply (iv_epoch _ _ _ _ I).
  - intros b. rewrite took_widx. apply (iv_widx _ _ _ _ I).
  - intros b w. rewrite took_word. apply (iv_word _ _ _ _ I).
  - intros b w. rewrite took_word. apply (iv_rows _ _ _ _ I).
  - intros i t'. destruct (decide (i = j)) as [->|Hne].
    + rewrite lookup_insert_eq. intros [= <-]. apply took_wf_own.
    + rewrite lookup_insert_ne by done. intros Hi. apply took_wf, (iv_reserve _ _ _ _ I i).
      by rewrite lookup_insert_ne.
  - intros y [->|Hy]%elem_of_cons.
    + eexists _, _. apply x_handed.
    + destruct (iv_handed _ _ _ _ I y Hy) as (e & i' & Hh). exists e, i'. by apply handed_kept.
  - apply NoDup_cons. split; [apply x_new|apply (iv_fresh _ _ _ _ I)].
  - intros y [->|Hy]%elem_of_cons.
    + split; [left|]. rewrite x_local. apply (tk_context _ Ht).
    + destruct (iv_live _ _ _ _ I y Hy) as [Hh Ho]. split; [by right|]. rewrite (tk_others _ Ht); [done|].
      intros E. assert (Transaction y = Thread j); [|done]. by apply only_self.
  - apply NoDup_cons. split; [|apply (iv_nodup _ _ _ _ I)].
    intros Hx. apply x_new. by apply (iv_live _ _ _ _ I).
  - eapply place_moves; [apply take_moves|apply (iv_place _ _ _ _ I)].
Qed.

End take.

(** ** Giving a context back *)

Definition without (x : XID.t) (L : list XID.t) : list XID.t := filter (fun y => y <> x) L.

Section free.
Context (m : mem) (T : gmap nat thread_data.t) (L H : list XID.t) (x : XID.t).
Context (I : alloc_inv m T L H) (Hmax : xid_cur_epoch m < 2 ^ 32) (Hx : x ∈ L).
Let id := XID.local x.

Definition freed : mem :=
  let b := XID.epoch x mod NBITMAPS in
  let w := (id / BITS_PER_WORD) mod NWORDS in
  let m1 := upd_ctx id (xid_context.set_owner (XID.mk 0)) m in
  set_xid_bitmaps (<[(b, w) := Z.lor (xid_word m1 b w) (Z.shiftl 1 (id mod BITS_PER_WORD))]>
                     (xid_bitmaps m1)) m1.

Lemma runs_free : runs (xid_free x) m tt freed.
Proof.
  unfold xid_free. eapply runs_bind; [apply runs_rd_ctx|]. fold id.
  destruct (iv_live _ _ _ _ I x Hx) as [_ Ho]. fold id in Ho. rewrite Ho.
  eapply runs_bind; [apply runs_lift; unfold XID.eqb; rewrite Z.eqb_refl; done|].
  eapply runs_bind; [apply runs_wr|]. apply runs_wr.
Qed.

Lemma x_place : is_context id /\ XID.epoch x mod NBITMAPS = half id.
Proof.
  destruct (iv_live _ _ _ _ I x Hx) as [Hh _]. destruct (iv_handed _ _ _ _ I x Hh) as (e & i & [Ex He Hc E4 _ _]).
  unfold is_context, NCONTEXTS in Hc. unfold id. rewrite Ex, xid_local, xid_epoch by (unfold fits; lia). done.
Qed.

Lemma only_x h : holds m T L h id -> h = Transaction x.
Proof.
  intros Hh. destruct (iv_place _ _ _ _ I id (proj1 x_place)) as (h0 & _ & Hu).
  rewrite (Hu _ Hh). symmetry. by apply Hu.
Qed.

Lemma freed_word b w :
  xid_word freed b w = if decide ((half id, wordof id) = (b, w))
    then Z.lor (xid_word m (half id) (wordof id)) (2 ^ bitof id) else xid_word m b w.
Proof.
  destruct x_place as [Hc E4]. unfold freed. rewrite E4. cbv zeta.
  rewrite xid_word_insert. rewrite Z.shiftl_1_l. done.
Qed.

Lemma freed_shared id' : is_context id' -> in_shared freed id' <-> in_shared m id' \/ id' = id.
Proof.
  intros Hid. destruct (context_bits id' Hid) as (_ & _ & Hbt & E').
  destruct (context_bits id (proj1 x_place)) as (_ & _ & Hbt0 & E0).
  unfold in_shared. rewrite freed_word. destruct (decide _) as [[= E1 E2]|Hne].
  - rewrite E1, E2, Z.lor_spec, Z.pow2_bits_eqb, orb_true_iff, Z.eqb_eq by lia.
    split; (intros [?|?]; [by left|right]); lia.
  - split; [by left|]. intros [?| ->]; [done|]. by destruct Hne.
Qed.

Lemma free_moves : moves m T L freed T (without x L).
Proof.
  intros id' Hid. destruct (decide (id' = id)) as [->|Hne].
  - right. exists Shared. split; [apply freed_shared; auto|]. intros [|i|y] Hh; [done| |].
    + by pose proof (only_x (Thread i) Hh).
    + destruct Hh as [[Hn Hy]%list_elem_of_filter Hl]. pose proof (only_x (Transaction y) (conj Hy Hl)). by simplify_eq.
  - left. intros [|i|y]; cbn; [|done|].
    + rewrite freed_shared by done. tauto.
    + unfold without. rewrite list_elem_of_filter. split; [tauto|]. intros [Hy Hl]. split_and!; [|done..].
      intros ->. by destruct Hne.
Qed.

Lemma inv_free : alloc_inv freed T (without x L) H.
Proof.
  assert (forall b, widx freed b = widx m b) as Hw by done.
  assert (xid_cur_epoch freed = xid_cur_epoch m) as He by done.
  split; rewrite ?He; try apply I.
  - intros b w. rewrite freed_word. destruct (decide _); [|apply (iv_word _ _ _ _ I)].
    destruct (context_bits id (proj1 x_place)) as (_ & _ & Hbt & _).
    apply lor_fits; [lia|apply (iv_word _ _ _ _ I)|]. split; [apply Z.pow_nonneg; lia|apply Z.pow_lt_mono_r; lia].
  - intros b w Hb. rewrite freed_word. destruct (context_bits id (proj1 x_place)) as (Hh & _).
    rewrite decide_False by (intros [= <- _]; lia). by apply (iv_rows _ _ _ _ I).
  - intros i t Ht. destruct (iv_reserve _ _ _ _ I i t Ht) as [? ? Hr]. by split.
  - intros y Hy. destruct (iv_handed _ _ _ _ I y Hy) as (e & i & []). exists e, i. by split.
  - intros y [Hn Hy]%list_elem_of_filter. destruct (iv_live _ _ _ _ I y Hy) as [Hh Ho]. split; [done|].
    change (ctx freed (XID.local y)) with (ctx (upd_ctx id (xid_context.set_owner (XID.mk 0)) m) (XID.local y)).
    rewrite ctx_upd_ne; [done|]. intros E. pose proof (only_x (Transaction y) (conj Hy (eq_sym E))). by simplify_eq.
  - apply NoDup_filter, (iv_nodup _ _ _ _ I).
  - eapply place_moves; [apply free_moves|apply (iv_place _ _ _ _ I)].
Qed.

End free.

(** ** Refilling a reserve *)

Section refill.
Context (T : gmap nat thread_data.t) (L H : list XID.t) (j : nat).

(** The invariant while thread [j] runs. *)
Definition running (m : mem) : Prop :=
  alloc_inv m (<[j := xid_tls m]> T) L H /\ thread_data.initialized (xid_tls m) = true.

Lemma running_grab m :
  running m -> thread_data.bitmap (xid_tls m) = 0 -> widx m (xid_cur_epoch m mod NBITMAPS) < NWORDS ->
  running (grab m).
Proof. intros [I Hi] Hb Hw. split; [by apply inv_grab|done]. Qed.

Lemma running_bump m : running m -> running (bump m).
Proof. intros [I Hi]. split; [by apply inv_bump|done]. Qed.

(** What a turn does: leave, take a word or open an epoch. *)
Lemma refill_cases m :
  running m ->
  thread_data.bitmap (xid_tls m) <> 0 /\ runs refill_step m (inr tt) m \/
  thread_data.bitmap (xid_tls m) = 0 /\ widx m (xid_cur_epoch m mod NBITMAPS) < NWORDS /\
    runs refill_step m (inl tt) (grab m) \/
  thread_data.bitmap (xid_tls m) = 0 /\ widx m (xid_cur_epoch m mod NBITMAPS) = NWORDS /\
    runs refill_step m (inl tt) (bump m).
Proof.
  intros [I _]. destruct (Z.eq_dec (thread_data.bitmap (xid_tls m)) 0) as [Hb|Hb]; [right|left].
  - pose proof (iv_widx _ _ _ _ I (xid_cur_epoch m mod NBITMAPS)) as Hw.
    destruct (Z.eq_dec (widx m (xid_cur_epoch m mod NBITMAPS)) NWORDS); [right|left].
    + split_and!; [done..|]. by apply runs_bump.
    + split_and!; [done|lia|]. apply runs_grab; [done|lia].
  - split; [done|]. unfold refill_step. eapply runs_bind; [apply runs_rd|]. cbv beta.
    rewrite (proj2 (Z.eqb_neq _ _)) by done. apply runs_ret.
Qed.

Lemma refill_hoare :
  hoare running xid_refill (fun _ m => running m /\ thread_data.bitmap (xid_tls m) <> 0).
Proof.
  rewrite xid_refill_eq. apply (hoare_loop _ _ _ (fun _ => running)). intros _ m t Hm.
  destruct (refill_cases m Hm) as [[Hb Hr]|[(Hb & Hw & Hr)|(Hb & Hw & Hr)]];
    destruct (Hr t) as [t' ->]; [done|by apply running_grab|by apply running_bump].
Qed.

(** The number of turns until word [w] of row [r] is taken, at the latest. *)
Context (r w : Z) (Hr : 0 <= r < 2) (Hw : 0 <= w < NWORDS).

Definition distance (m : mem) : Z :=
  let e := xid_cur_epoch m in
  let i := widx m (e mod NBITMAPS) in
  if negb (thread_data.bitmap (xid_tls m) =? 0) then 0
  else if (r =? e mod NBITMAPS) && (i <=? w) then w - i + 1
  else (NWORDS - i) + 1 + ((r - e - 1) mod 4) * (NWORDS + 1) + w + 1.

(** The word is there, unless the thread already has a reserve. *)
Definition target (m : mem) : Prop := thread_data.bitmap (xid_tls m) <> 0 \/ xid_word m r w <> 0.

Lemma distance_bound m : running m -> 0 <= distance m <= 1285.
Proof.
  intros [I _]. unfold distance. pose proof (iv_widx _ _ _ _ I (xid_cur_epoch m mod NBITMAPS)) as Hi.
  rewrite NWORDS_eq in *. destruct (negb _); [lia|].
  destruct (Z.leb_spec (widx m (xid_cur_epoch m mod NBITMAPS)) w); rewrite ?andb_false_r, ?andb_true_r;
    [destruct (_ =? _)|]; zlia.
Qed.

Lemma grab_closer m :
  running m -> thread_data.bitmap (xid_tls m) = 0 -> widx m (xid_cur_epoch m mod NBITMAPS) < NWORDS ->
  target m -> target (grab m) /\ distance (grab m) < distance m.
Proof.
  intros [I _] Hb Hi [|Ht]; [done|]. pose proof (iv_widx _ _ _ _ I (xid_cur_epoch m mod NBITMAPS)) as Hi0.
  set (b := xid_cur_epoch m mod NBITMAPS) in *. set (i := widx m b) in *.
  assert (distance m > 0) as Hpos.
  { unfold distance. rewrite Hb. cbn [negb Z.eqb]. fold b i. rewrite NWORDS_eq in *.
    destruct (_ && (i <=? w)) eqn:E; [apply andb_true_iff in E as [_ E]; lia|zlia]. }
  destruct (Z.eq_dec (xid_word m b i) 0) as [E0|E0].
  - assert ((r, w) <> (b, i)) as Hne by congruence. split.
    + right. rewrite grab_word by done. fold b i. rewrite decide_False by congruence. done.
    + unfold distance. change (xid_cur_epoch (grab m)) with (xid_cur_epoch m). fold b.
      rewrite grab_widx. fold b i. rewrite decide_True by done. cbn [grab xid_tls set_xid_bitmaps set_xid_tls thread_data.bitmap].
      fold b i. rewrite E0, Hb. cbn [negb Z.eqb].
      destruct (Z.eqb_spec r b) as [->|Hrb]; cbn [andb]; [|lia].
      assert (i <> w) by congruence. destruct (Z.leb_spec i w), (Z.leb_spec (i + 1) w); lia.
  - split; [by left|]. unfold distance at 1. cbn [grab xid_tls set_xid_bitmaps set_xid_tls thread_data.bitmap].
    fold b i. rewrite (proj2 (Z.eqb_neq _ _)) by done. cbn [negb]. lia.
Qed.

Lemma bump_closer m :
  thread_data.bitmap (xid_tls m) = 0 -> widx m (xid_cur_epoch m mod NBITMAPS) = NWORDS ->
  target m -> target (bump m) /\ distance (bump m) < distance m.
Proof.
  intros Hb Hi Ht. split; [exact Ht|]. unfold distance.
  change (xid_tls (bump m)) with (xid_tls m). change (xid_cur_epoch (bump m)) with (xid_cur_epoch m + 1).
  assert (widx (bump m) ((xid_cur_epoch m + 1) mod NBITMAPS) = 0) as ->.
  { unfold bump. change (widx (set_xid_cur_epoch _ ?x) ?b) with (widx x b). by rewrite widx_insert, decide_True. }
  rewrite Hb, Hi. cbn [negb Z.eqb]. rewrite NWORDS_eq in *. change NBITMAPS with 4.
  rewrite (proj2 (Z.leb_gt 256 w)) by lia. rewrite andb_false_r.
  rewrite (proj2 (Z.leb_le 0 w)) by lia. rewrite andb_true_r.
  destruct (Z.eqb_spec r ((xid_cur_epoch m + 1) mod 4)); zlia.
Qed.

Lemma refill_total :
  (1285 < fuel)%nat ->
  total (fun m => running m /\ target m) xid_refill
    (fun _ m => running m /\ thread_data.bitmap (xid_tls m) <> 0).
Proof.
  intros Hf. rewrite xid_refill_eq.
  eapply total_pre; [|apply (total_loop_mem (fun _ m => Z.to_nat (distance m)) _ _ _
    (fun _ m => running m /\ target m))].
  - intros m [Hm Ht]. split; [done|]. pose proof (distance_bound m Hm). lia.
  - intros [] k m t [[Hm Ht] Hk].
    destruct (refill_cases m Hm) as [[Hb Hrn]|[(Hb & Hi & Hrn)|(Hb & Hi & Hrn)]];
      destruct (Hrn t) as [t' E]; eexists _, _, t'; (split; [exact E|]); [done| |].
    + destruct (grab_closer m Hm Hb Hi Ht) as [Ht' Hd]. pose proof (running_grab m Hm Hb Hi) as Hm'.
      pose proof (distance_bound _ Hm'). split; [done|lia].
    + destruct (bump_closer m Hb Hi Ht) as [Ht' Hd]. pose proof (running_bump m Hm) as Hm'.
      pose proof (distance_bound _ Hm'). split; [done|lia].
Qed.

End refill.

(** ** Whole calls *)

Lemma inv_set_tls m T L H t : alloc_inv m T L H -> alloc_inv (set_xid_tls t m) T L H.
Proof.
  intros [I1 I2 I3 I4 I5 I6 I7 I8 I9 I10]. split; try done.
  - intros i u Hu. destruct (I5 i u Hu). by split.
  - intros x Hx. destruct (I6 x Hx) as (e & id & []). exists e, id. by split.
Qed.

Definition tls_of (T : gmap nat thread_data.t) (j : nat) : thread_data.t :=
  default (thread_data.mk 0 0 0 false) (T !! j).

(** Replacing an empty reserve by an empty one. *)
Lemma inv_register m T L H j t :
  alloc_inv m T L H -> thread_data.bitmap (tls_of T j) = 0 ->
  thread_data.bitmap t = 0 -> alloc_inv m (<[j := t]> T) L H.
Proof.
  intros I Hb Ht. pose proof I as [I1 I2 I3 I4 I5 I6 I7 I8 I9 I10]. split; try done.
  - intros i u. destruct (decide (i = j)) as [->|].
    + rewrite lookup_insert_eq. intros [= <-]. split; [rewrite Ht; zlia|done|by rewrite Ht].
    + rewrite lookup_insert_ne by done. apply I5.
  - intros x Hx. destruct (I6 x Hx) as (e & id & [? ? ? ? ? Hg]). exists e, id. split; try done.
    intros i u. destruct (decide (i = j)) as [->|].
    + rewrite lookup_insert_eq. intros [= <-] _. by apply empty_reserve.
    + rewrite lookup_insert_ne by done. apply Hg.
  - apply (place_moves m T L m _ L); [|done]. intros id Hid. left. intros [|i|y]; [done| |done]. cbn.
    destruct (decide (i = j)) as [->|].
    + rewrite lookup_insert_eq. split.
      * intros (u & [= <-] & Hr). by destruct (empty_reserve t id Ht).
      * intros (u & Hu & Hr). unfold tls_of in Hb. rewrite Hu in Hb. by destruct (empty_reserve u id Hb).
    + by rewrite lookup_insert_ne.
Qed.

(** The start of [xid_alloc] in thread [j]. *)
Definition entering (T : gmap nat thread_data.t) (L H : list XID.t) (j : nat) (m : mem) : Prop :=
  alloc_inv m T L H /\ xid_tls m = tls_of T j.

Lemma entering_total T L H j ws :
  total (fun m => entering T L H j m /\ xid_bitmaps m = ws)
    (let* init := rd (fun m => thread_data.initialized (xid_tls m)) in
     if init then ret tt else thread_registered)
    (fun _ m => running T L H j m /\ xid_bitmaps m = ws /\
       (thread_data.bitmap (tls_of T j) <> 0 -> thread_data.bitmap (xid_tls m) <> 0)).
Proof.
  intros m t [[I E] Hws]. unfold bind, rd, atomic. rewrite quiet. cbv beta iota. rewrite E.
  destruct (thread_data.initialized (tls_of T j)) eqn:Ei.
  - exists tt, m, (S t). split; [done|]. split_and!; [|done|by rewrite E]. split; [|by rewrite E].
    rewrite insert_id; [done|].
    unfold tls_of in E, Ei. destruct (T !! j) as [u|] eqn:Eu; [|done]. by rewrite E.
  - assert (thread_data.bitmap (tls_of T j) = 0) as Hb.
    { unfold tls_of in *. destruct (T !! j) as [u|] eqn:Eu; [|done]. cbn in Ei |- *.
      by apply (wr_init _ _ (iv_reserve _ _ _ _ I j u Eu)). }
    unfold thread_registered, wr, atomic. rewrite quiet.
    eexists tt, _, _. split; [done|]. split_and!; [|done|done]. split; [|done]. by apply inv_set_tls, inv_register.
Qed.

(** What a caller of [xid_alloc] in thread [j] gets. *)
Definition allocated (T : gmap nat thread_data.t) (L H : list XID.t) (j : nat) (x : XID.t) (m : mem) : Prop :=
  alloc_inv m (<[j := xid_tls m]> T) (x :: L) (x :: H) /\ fresh_context x (ctx m (XID.local x)).

Lemma take_total T L H j :
  total (fun m => (running T L H j m /\ thread_data.bitmap (xid_tls m) <> 0) /\ xid_cur_epoch m < 2 ^ 32)
    take_one (allocated T L H j).
Proof.
  intros m t [[[I Hi] Hb] Hmax]. destruct (runs_take_one m T L H j I Hmax Hb) as (m' & Hr & Ht).
  destruct (Hr t) as [t' E]. eexists _, m', t'. split; [exact E|].
  pose proof (x_local m T L H j I Hmax Hb) as El. split.
  - by apply (inv_take m T L H j I Hmax Hb m' Ht).
  - rewrite El. apply (tk_context _ _ Ht).
Qed.

Definition same_epoch (m m' : mem) : Prop := xid_cur_epoch m' = xid_cur_epoch m.

Lemma guar_take_one : guar same_epoch take_one.
Proof. unfold take_one. guar; done. Qed.

Lemma alloc_assoc m t :
  (bind (let* init := rd (fun m => thread_data.initialized (xid_tls m)) in
         if init then ret tt else thread_registered) (fun _ => xid_refill ;;; take_one)) m t = xid_alloc m t.
Proof. apply bind_assoc. Qed.

Lemma alloc_hoare T L H j :
  hoare (entering T L H j) xid_alloc
    (fun x m => xid_cur_epoch m < 2 ^ 32 -> allocated T L H j x m).
Proof.
  eapply hoare_ext; [apply alloc_assoc|].
  eapply hoare_bind with (fun _ => running T L H j).
  { intros m t Hm. pose proof (total_hoare _ _ _ (entering_total T L H j (xid_bitmaps m)) m t (conj Hm eq_refl)) as K.
    by destruct (bind _ _ m t) as [[? [? ?]]|]; [destruct K|]. }
  intros u.
  eapply hoare_bind; [apply refill_hoare|]. intros v m2 t2 Hm2.
  destruct (Z.lt_ge_cases (xid_cur_epoch m2) (2 ^ 32)) as [Hlt|Hge].
  - destruct (take_total T L H j m2 t2 (conj Hm2 Hlt)) as (x & m3 & t3 & -> & Hx). done.
  - pose proof (guar_take_one (fun m => 2 ^ 32 <= xid_cur_epoch m) (stable_quiet _)) as K.
    specialize (K ltac:(intros ? ? ? E; cbv beta; by rewrite E) m2 t2 Hge).
    destruct (take_one m2 t2) as [[x [m3 t3]]|]; [|done]. intros ?. exfalso. lia.
Qed.

(** There is a context thread [j] can get at: a free one, or one it reserved. *)
Definition available (T : gmap nat thread_data.t) (j : nat) (m : mem) : Prop :=
  exists id, is_context id /\ (in_shared m id \/ reserves (tls_of T j) id).

Lemma take_one_total : total (fun _ => True) take_one (fun _ _ => True).
Proof.
  unfold take_one. eapply total_bind; [by apply (total_rd _ _ (fun _ _ => True)); [apply stable_quiet|]|].
  intros t. repeat first [by apply total_ret | by apply total_wr; [apply stable_quiet|]
    | apply total_seq; [|intros ?] | destruct SSN, SSI].
Qed.

Lemma alloc_total T L H j :
  (1285 < fuel)%nat ->
  total (fun m => entering T L H j m /\ available T j m) xid_alloc
    (fun x m => xid_cur_epoch m < 2 ^ 32 -> allocated T L H j x m).
Proof.
  intros Hf. eapply total_post; [apply total_and|].
  2:{ eapply hoare_pre; [|apply alloc_hoare]. by intros m []. }
  2:{ intros x m [_ K]. exact K. }
  eapply total_ext; [apply alloc_assoc|]. intros m t [He (id & Hid & Ha)].
  destruct (context_bits id Hid) as (Hh & Hw & _).
  apply (total_bind (fun m' => entering T L H j m' /\ xid_bitmaps m' = xid_bitmaps m) _ _
    (fun _ m' => running T L H j m' /\ target (half id) (wordof id) m') (fun _ _ => True)); [|..|done].
  - eapply total_post; [apply entering_total|]. intros _ m' (Hr & Hb & Ht). split; [done|].
    destruct Ha as [Hs|Hs].
    + right. unfold in_shared, xid_word in *. rewrite Hb. intros E0. by rewrite E0, Z.bits_0 in Hs.
    + left. apply Ht. intros E0. by apply (empty_reserve _ id E0).
  - intros u. eapply total_bind; [by apply refill_total|]. intros v.
    eapply total_pre; [|apply take_one_total]. done.
Qed.

(** ** A thread that leaves *)

(** The XIDs of a reserve. *)
Definition unused (t : thread_data.t) : list XID.t :=
  map (fun k => XID.make (thread_data.epoch t) (thread_data.base_id t + k)) (bits_of (thread_data.bitmap t)).

Lemma without_new x L : x ∉ L -> without x (x :: L) = L.
Proof.
  intros Hx. unfold without. rewrite filter_cons, decide_False by (intros Hn; by apply Hn).
  induction L as [|y L IH]; [done|]. apply not_elem_of_cons in Hx as [Hne Hx].
  by rewrite filter_cons, decide_True, IH.
Qed.

Lemma unused_cons m T L H j :
  alloc_inv m (<[j := xid_tls m]> T) L H -> thread_data.bitmap (xid_tls m) <> 0 ->
  unused (xid_tls m) =
    XID.make (thread_data.epoch (xid_tls m)) (thread_data.base_id (xid_tls m) + ctz (thread_data.bitmap (xid_tls m)))
    :: unused (thread_data.set_bitmap (Z.land (thread_data.bitmap (xid_tls m))
         (thread_data.bitmap (xid_tls m) - 1)) (xid_tls m)).
Proof.
  intros I Hb. pose proof (reserve_pos m T L H j I Hb) as Hp. unfold unused.
  by rewrite (proj1 (bits_of_cons _ Hp)).
Qed.

(** Giving back what is left of the reserve [u]. *)
Definition leaving (T : gmap nat thread_data.t) (L H : list XID.t) (j : nat) (u : thread_data.t) (m : mem) : Prop :=
  exists H', alloc_inv m (<[j := xid_tls m]> T) L H' /\
    reverse (unused (xid_tls m)) ++ H' = reverse (unused u) ++ H.

Lemma leave_one T L H j u :
  hoare (fun m => (leaving T L H j u m /\ xid_cur_epoch m < 2 ^ 32) /\ thread_data.bitmap (xid_tls m) <> 0)
    (let* x := take_one in xid_free x ;;; ret (inl (B := unit) tt))
    (fun r m => match r with inl _ => leaving T L H j u m /\ xid_cur_epoch m < 2 ^ 32 | inr _ => False end).
Proof.
  intros m t [[(H' & I & EH) Hmax] Hb]. destruct (runs_take_one m T L H' j I Hmax Hb) as (m1 & Hr & Ht).
  pose proof (inv_take m T L H' j I Hmax Hb m1 Ht) as I1.
  set (x := XID.make (thread_data.epoch (xid_tls m)) (thread_data.base_id (xid_tls m) + ctz (thread_data.bitmap (xid_tls m)))) in *.
  assert (xid_cur_epoch m1 < 2 ^ 32) as Hmax1 by (by rewrite (tk_epoch _ _ Ht)).
  pose proof (runs_free m1 _ _ _ x I1 ltac:(left)) as Hf.
  pose proof (inv_free m1 _ _ _ x I1 Hmax1 ltac:(left)) as I2.
  assert (runs (let* x := take_one in xid_free x ;;; ret (inl (B := unit) tt)) m (inl tt) (freed m1 x)) as K.
  { eapply runs_bind; [exact Hr|]. eapply runs_bind; [exact Hf|]. apply runs_ret. }
  destruct (K t) as [t' ->]. split; [|done]. exists (x :: H'). split.
  - rewrite without_new in I2; [exact I2|]. by apply NoDup_cons_1_1, (iv_nodup _ _ _ _ I1).
  - rewrite <- EH, (unused_cons m T L H' j I Hb). fold x. rewrite reverse_cons, <- app_assoc.
    change (xid_tls (freed m1 x)) with (xid_tls m1). by rewrite (tk_tls _ _ Ht).
Qed.

Lemma deregister_hoare T L H j u :
  hoare (fun m => (alloc_inv m T L H /\ xid_tls m = u /\ T !! j = Some u) /\ xid_cur_epoch m < 2 ^ 32)
    thread_deregistered
    (fun _ m => alloc_inv m (<[j := xid_tls m]> T) L (reverse (unused u) ++ H)).
Proof.
  unfold thread_deregistered.
  eapply hoare_pre with (fun m => leaving T L H j u m /\ xid_cur_epoch m < 2 ^ 32).
  { intros m [(I & E & Hj) Hmax]. split; [|done]. exists H. rewrite E, insert_id by done. done. }
  eapply hoare_bind with (fun _ m => leaving T L H j u m /\ thread_data.bitmap (xid_tls m) = 0).
  - apply (hoare_loop _ _ tt (fun _ m => leaving T L H j u m /\ xid_cur_epoch m < 2 ^ 32)). intros [].
    eapply hoare_bind with (fun bm m => (leaving T L H j u m /\ xid_cur_epoch m < 2 ^ 32) /\
      thread_data.bitmap (xid_tls m) = bm).
    { by apply hoare_rd; [apply stable_quiet|]. }
    intros bm. destruct (Z.eqb_spec bm 0) as [->|Hne]; cbn [negb].
    + apply hoare_ret. intros m [[Hm _] E]. done.
    + eapply hoare_post; [eapply hoare_pre; [|apply (leave_one T L H j u)]|].
      * intros m [Hm E]. by rewrite E.
      * by intros [] m Hm.
  - intros u'. apply hoare_wr; [apply stable_quiet|]. intros m [(H' & I & EH) Hb].
    assert (unused (xid_tls m) = []) as En by (unfold unused; by rewrite Hb).
    rewrite En in EH. cbn in EH. rewrite <- EH. apply inv_set_tls.
    rewrite <- (insert_insert_eq T j _ (xid_tls m)). apply inv_register; [done| |done].
    unfold tls_of. by rewrite lookup_insert_eq.
Qed.

(** ** The initial state *)

Lemma foldr_insert_all (l : list (Z * Z)) (v : Z) k :
  foldr (fun bw ws => <[bw := v]> ws) (∅ : gmap (Z * Z) Z) l !! k = if decide (k ∈ l) then Some v else None.
Proof.
  induction l as [|a l IH]; [done|]. cbn [foldr]. destruct (decide (a = k)) as [->|Hne].
  - rewrite lookup_insert_eq, decide_True by left. done.
  - rewrite lookup_insert_ne, IH by done. destruct (decide (k ∈ l)).
    + rewrite decide_True by (by right). done.
    + rewrite decide_False; [done|]. by intros [->|]%elem_of_cons.
Qed.

Record unused_allocator (m : mem) : Prop := {
  ua_bitmaps : xid_bitmaps m = ∅;
  ua_widx : xid_widx m = ∅;
  ua_epoch : 0 <= xid_cur_epoch m }.

Lemma initial_word m b w :
  xid_bitmaps m = foldr (fun bw ws => <[bw := 2 ^ 64 - 1]> ws) ∅ (b ← seqZ 0 2; w ← seqZ 0 NWORDS; [(b, w)]) ->
  xid_word m b w = if decide (0 <= b < 2 /\ 0 <= w < NWORDS) then 2 ^ 64 - 1 else 0.
Proof.
  intros E. unfold xid_word. rewrite E, foldr_insert_all.
  assert ((b, w) ∈ (b ← seqZ 0 2; w ← seqZ 0 NWORDS; [(b, w)]) <-> 0 <= b < 2 /\ 0 <= w < NWORDS) as K.
  { rewrite list_elem_of_bind. split.
    - intros (b' & (w' & [= -> ->]%list_elem_of_singleton & Hw%elem_of_seqZ)%list_elem_of_bind & Hb%elem_of_seqZ). lia.
    - intros [Hb Hw]. exists b. split; [|apply elem_of_seqZ; lia]. apply list_elem_of_bind. exists w.
      split; [by apply list_elem_of_singleton|apply elem_of_seqZ; lia]. }
  destruct (decide (_ ∈ _)) as [Hin|Hin]; [rewrite decide_True|rewrite decide_False]; tauto.
Qed.

Lemma inv_initial m :
  unused_allocator m ->
  hoare (eq m) global_init (fun _ m' => alloc_inv m' ∅ [] []).
Proof.
  intros [E1 E2 E3]. apply hoare_wr; [apply stable_quiet|]. intros ? <-. rewrite E1.
  match goal with |- alloc_inv ?mm _ _ _ => set (m' := mm) end.
  assert (forall b w, xid_word m' b w = if decide (0 <= b < 2 /\ 0 <= w < NWORDS) then 2 ^ 64 - 1 else 0) as W.
  { intros b w. by apply initial_word. }
  assert (xid_widx m' = ∅ /\ 0 <= xid_cur_epoch m') as [Ew Ee] by done. clearbody m'.
  split; [done| |..|constructor|intros x Hx; set_solver|constructor|].
  - intros b. unfold widx. rewrite Ew, lookup_empty. cbn. rewrite NWORDS_eq. lia.
  - intros b w. rewrite W. destruct (decide _); zlia.
  - intros b w Hb. rewrite W, decide_False by lia. done.
  - intros i t Ht. by rewrite lookup_empty in Ht.
  - intros x Hx. set_solver.
  - intros id Hid. destruct (context_bits id Hid) as (Hh & Hw & Hb & _). exists Shared. split.
    + cbn. unfold in_shared. rewrite W, decide_True by done.
      change (2 ^ 64 - 1) with (Z.ones 64). rewrite Z.testbit_ones_nonneg by lia. apply Z.ltb_lt. lia.
    + intros [|i|y]; [done| |].
      * intros (t & Ht & _). by rewrite lookup_empty in Ht.
      * intros [Hy _]. set_solver.
Qed.

(** ** The machine *)

Record world := World {
  w_mem : mem;
  w_tls : gmap nat thread_data.t;
  w_live : list XID.t;
  w_handed : list XID.t }.

(** One call by some thread: allocate, free an XID in use, leave. *)
Inductive alloc_step : world -> world -> Prop :=
| step_alloc j x t m m' t' T L H :
    xid_alloc (set_xid_tls (tls_of T j) m) t = Ok (x, (m', t')) ->
    alloc_step (World m T L H) (World m' (<[j := xid_tls m']> T) (x :: L) (x :: H))
| step_free x t m m' t' T L H :
    x ∈ L -> xid_free x m t = Ok (tt, (m', t')) ->
    alloc_step (World m T L H) (World m' T (without x L) H)
| step_exit j u t m m' t' T L H :
    T !! j = Some u -> thread_deregistered (set_xid_tls u m) t = Ok (tt, (m', t')) ->
    alloc_step (World m T L H) (World m' (<[j := xid_tls m']> T) L (reverse (unused u) ++ H)).

Definition epoch_grows (m m' : mem) : Prop := xid_cur_epoch m <= xid_cur_epoch m'.

Lemma epoch_mono {A} (c : M A) m t a m' t' :
  guar epoch_grows c -> c m t = Ok (a, (m', t')) -> xid_cur_epoch m <= xid_cur_epoch m'.
Proof.
  intros G E. pose proof (G (fun m' => xid_cur_epoch m <= xid_cur_epoch m') (stable_quiet _)) as K.
  specialize (K ltac:(unfold epoch_grows; intros; cbv beta in *; lia) m t ltac:(cbv beta; lia)). by rewrite E in K.
Qed.

Lemma guar_new_epoch : guar epoch_grows new_epoch.
Proof.
  intros P Hs HP m t Hm. unfold new_epoch. rewrite quiet. rewrite Hepoch. eapply HP; [done|].
  unfold epoch_grows. cbn. lia.
Qed.

Lemma guar_free x : guar epoch_grows (xid_free x).
Proof. unfold xid_free. guar; unfold epoch_grows; cbn; lia. Qed.

Lemma guar_take : guar epoch_grows take_one.
Proof. eapply guar_weaken; [|apply guar_take_one]. unfold same_epoch, epoch_grows. intros. lia. Qed.

#[local] Hint Resolve guar_new_epoch guar_free guar_take : guar.

Lemma guar_alloc : guar epoch_grows xid_alloc.
Proof.
  unfold xid_alloc, xid_refill, cas_widx, thread_registered. guar; unfold epoch_grows; cbn; try lia.
  apply guar_atomic. intros m a' m' E. cbv zeta in E. case_match; simplify_eq; [right; cbn; lia|by left].
Qed.

Lemma guar_deregistered : guar epoch_grows thread_deregistered.
Proof. unfold thread_deregistered. guar. unfold epoch_grows. cbn. lia. Qed.

Definition world_inv (w : world) : Prop :=
  xid_cur_epoch (w_mem w) < 2 ^ 32 -> alloc_inv (w_mem w) (w_tls w) (w_live w) (w_handed w).

Lemma step_inv w w' : alloc_step w w' -> world_inv w -> world_inv w'.
Proof.
  intros [j x t m m' t' T L H E|x t m m' t' T L H Hx E|j u t m m' t' T L H Hj E] Hw Hmax; unfold world_inv in Hw; cbn [w_mem w_tls w_live w_handed] in *.
  - pose proof (epoch_mono _ _ _ _ _ _ guar_alloc E) as He. cbn in He.
    pose proof (alloc_hoare T L H j _ t (conj (inv_set_tls _ _ _ _ (tls_of T j) (Hw ltac:(lia))) eq_refl)) as K.
    rewrite E in K. by apply K.
  - pose proof (epoch_mono _ _ _ _ _ _ (guar_free x) E) as He. specialize (Hw ltac:(lia)).
    destruct (runs_free m T L H x Hw Hx t) as [t'' E']. rewrite E' in E. simplify_eq.
    apply inv_free; [done|lia|done].
  - pose proof (epoch_mono _ _ _ _ _ _ guar_deregistered E) as He. cbn in He. specialize (Hw ltac:(lia)).
    pose proof (deregister_hoare T L H j u (set_xid_tls u m) t) as K. rewrite E in K. apply K.
    split; [|cbn; lia]. split_and!; [by apply inv_set_tls|done..].
Qed.

Lemma reachable_inv w w' : rtc alloc_step w w' -> world_inv w -> world_inv w'.
Proof. induction 1; [done|]. eauto using step_inv. Qed.

End machine.

(** C17: starting from the initialised bitmaps, after any sequence of
    calls by any threads -- allocations, releases of XIDs in use, threads
    leaving -- and while the epoch fits an XID: no XID has ever been handed out
    twice; every transaction in use owns its context and no other transaction
    uses it; and every context is in exactly one place: free in the shared
    bitmaps, reserved by one thread, or in use by one transaction. *)
Theorem xid_allocation_exclusive `{CF : Config} `{Q : Quiet} m t m1 t1 w
    (Hfuel : (0 < fuel)%nat) (Hepoch : forall t m, xid_new_epoch t m = true)
    (Hm : unused_allocator m) (Hinit : global_init m t = Ok (tt, (m1, t1)))
    (Hreach : rtc alloc_step (World m1 ∅ [] []) w) (Hmax : xid_cur_epoch (w_mem w) < 2 ^ 32) :
  NoDup (w_handed w) /\
  (forall x, x ∈ w_live w -> xid_context.owner (ctx (w_mem w) (XID.local x)) = x) /\
  (forall x y, x ∈ w_live w -> y ∈ w_live w -> XID.local x = XID.local y -> x = y) /\
  (forall id, is_context id -> exists h, holds (w_mem w) (w_tls w) (w_live w) h id /\
     forall h', holds (w_mem w) (w_tls w) (w_live w) h' id -> h' = h).
Proof.
  assert (world_inv w) as Hw.
  { eapply reachable_inv; [done..|]. intros _. pose proof (inv_initial Hfuel Hepoch m Hm m t eq_refl) as K. by rewrite Hinit in K. }
  specialize (Hw Hmax). split_and!.
  - apply (iv_fresh _ _ _ _ Hw).
  - intros x Hx. by apply (iv_live _ _ _ _ Hw).
  - intros x y Hx Hy E. destruct (iv_live _ _ _ _ Hw x Hx) as [_ <-], (iv_live _ _ _ _ Hw y Hy) as [_ <-].
    by rewrite E.
  - apply (iv_place _ _ _ _ Hw).
Qed.

(** C29: for a thread that is not disturbed ([Quiet]), when the epoch manager
    opens new epochs on request and some context is free in the shared bitmaps
    or reserved by the calling thread, [xid_alloc] finishes within 1286 turns of
    its loop -- at worst it uses up the rest of the current bitmap, skips three
    more and reaches the word.  As long as the epoch fits into the 32 bits of an
    XID, it hands out an XID never handed out before, with a context that
    belongs to it and is reset: active, without an end stamp, and with the
    stamps and the transaction pointer of the compiled-in protocol cleared. *)
Theorem xid_alloc_returns `{CF : Config} `{Q : Quiet} T L H j
    (Hfuel : (1285 < fuel)%nat) (Hepoch : forall t m, xid_new_epoch t m = true) :
  total (fun m => (alloc_inv m T L H /\ xid_tls m = tls_of T j) /\ available T j m) xid_alloc
    (fun x m => xid_cur_epoch m < 2 ^ 32 ->
       ~ (x ∈ H) /\ fresh_context x (ctx m (XID.local x)) /\
       alloc_inv m (<[j := xid_tls m]> T) (x :: L) (x :: H)).
Proof.
  eapply total_post; [apply alloc_total; [lia|done|done]|].
  intros x m K Hmax. destruct (K Hmax) as [I Hx]. split_and!; try done.
  apply NoDup_cons_1_1, (iv_fresh _ _ _ _ I).
Qed.

(** The bitmaps of the second row, which the comment in [xid.cpp] describes as
    holding the recently freed contexts, stay empty for ever: a context is
    freed into the bitmap it was taken from. *)
Theorem second_row_never_used `{CF : Config} `{Q : Quiet} m t m1 t1 w
    (Hfuel : (0 < fuel)%nat) (Hepoch : forall t m, xid_new_epoch t m = true)
    (Hm : unused_allocator m) (Hinit : global_init m t = Ok (tt, (m1, t1)))
    (Hreach : rtc alloc_step (World m1 ∅ [] []) w) (Hmax : xid_cur_epoch (w_mem w) < 2 ^ 32) b i :
  2 <= b -> xid_word (w_mem w) b i = 0.
Proof.
  assert (world_inv w) as Hw.
  { eapply reachable_inv; [done..|]. intros _. pose proof (inv_initial Hfuel Hepoch m Hm m t eq_refl) as K.
    by rewrite Hinit in K. }
  apply (iv_rows _ _ _ _ (Hw Hmax)).
Qed.

(** ** Examples *)

Section examples.

#[local] Instance xid_config : Config := config true false SSN_READ_OPT_DISABLED.
#[local] Instance xid_platform : Platform := {|
  interfere := alone; fuel := 1300;
  mm_allocate _ _ m := (top_address m, tls_unlinked_objects m);
  tls_entry := 1; tls_index := 0; xid_new_epoch _ _ := true |}.
#[local] Instance xid_quiet : Quiet.
Proof. done. Qed.

Definition no_xids : mem := set_xid_cur_epoch 0 empty_mem.

Lemma no_xids_ok : unused_allocator no_xids.
Proof. done. Qed.

(** Thread 0 can allocate, and does so in epoch 0. *)
Definition first_alloc_ok : bool :=
  match global_init no_xids O with
  | Ok (_, (m1, _)) =>
      match xid_alloc (set_xid_tls (tls_of ∅ O) m1) O with
      | Ok (_, (m', _)) => Z.testbit (xid_word m1 0 0) 0 && (xid_cur_epoch m' =? 0)
      | Throw _ => false
      end
  | Throw _ => false
  end.

Lemma first_alloc :
  exists m1 t1 x m' t', global_init no_xids O = Ok (tt, (m1, t1)) /\
    xid_alloc (set_xid_tls (tls_of ∅ O) m1) O = Ok (x, (m', t')) /\
    Z.testbit (xid_word m1 0 0) 0 = true /\ xid_cur_epoch m' = 0.
Proof.
  assert (first_alloc_ok = true) as H by (vm_compute; reflexivity). unfold first_alloc_ok in H.
  destruct (global_init no_xids O) as [[[] [m1 t1]]|]; [|done].
  destruct (xid_alloc _ O) as [[x [m' t']]|] eqn:E; [|done].
  apply andb_true_iff in H as [H1 H2%Z.eqb_eq]. eauto 10.
Qed.

Lemma xid_allocation_exclusive_witness :
  exists m1 x m' t', xid_alloc (set_xid_tls (tls_of ∅ O) m1) O = Ok (x, (m', t')) /\
    xid_context.owner (ctx m' (XID.local x)) = x.
Proof.
  destruct first_alloc as (m1 & t1 & x & m' & t' & E1 & E & _ & Hmax). exists m1, x, m', t'. split; [exact E|].
  destruct (xid_allocation_exclusive (CF := xid_config) no_xids O m1 t1
    (World m' (<[O := xid_tls m']> ∅) [x] [x]) ltac:(apply Nat.ltb_lt; reflexivity) (fun _ _ => eq_refl)
    no_xids_ok E1 (rtc_once _ _ (step_alloc O x O m1 m' t' ∅ [] [] E))) as (_ & H & _).
  - cbn [w_mem]. rewrite Hmax. reflexivity.
  - apply H. left.
Defined.

Lemma xid_alloc_returns_witness :
  exists m1 x m' t', xid_alloc (set_xid_tls (tls_of ∅ O) m1) O = Ok (x, (m', t')) /\
    (xid_cur_epoch m' < 2 ^ 32 -> xid_context.state (ctx m' (XID.local x)) = TXN_ACTIVE).
Proof.
  destruct first_alloc as (m1 & t1 & _ & _ & _ & E1 & _ & Hfree & _).
  pose proof (inv_initial ltac:(apply Nat.ltb_lt; reflexivity) (fun _ _ => eq_refl)
    no_xids no_xids_ok no_xids O eq_refl) as I. rewrite E1 in I.
  destruct (xid_alloc_returns (CF := xid_config) ∅ [] [] O ltac:(apply Nat.ltb_lt; reflexivity) (fun _ _ => eq_refl))
    with (set_xid_tls (tls_of ∅ O) m1) O as (x & m' & t' & E & K).
  - split; [split; [by apply inv_set_tls|reflexivity]|]. exists 0. split; [done|]. left. exact Hfree.
  - exists m1, x, m', t'. split; [exact E|]. intros Hmax. apply (K Hmax).
Defined.

End examples.
