(* ===== verification/Aborting.v ===== *)
(** * Abort ([transaction::abort_impl])

    Aborting unlinks every version the transaction installed and gives the
    records back their previous heads; other transactions read the same
    versions as before. *)
From stdpp Require Import base numbers list gmap.
From Stdlib Require Import ZArith Lia.
From S2P Require Import Prelude Bits FatPtr SizeEncode Shared Program Contexts Readers Versions Txn.
From S2P Require Import Scenario ReadersSpec Snapshot.

Local Open Scope Z_scope.

Section abort.
Context `{CF : Config} `{Q : Quiet}.
Context (this : Z) (x : transaction.t) (m0 : mem).
Let xc := transaction.xc x.

(** [w] is the current version of its record, with object [o]: not one the
    transaction replaced itself. *)
Definition current (w : write_record_t) (o : object.t) : Prop :=
  w ∈ transaction.write_set x /\ objects m0 !! get_object w = Some o /\
  dbtuple.pvalue (object.tuple o) <> DEFUNCT_TUPLE_MARK.

(** The write set describes the chains: each current version is the head of
    its record, and what it overwrote is in memory. *)
Record abortable : Prop := {
  ab_txn : txns m0 !! this = Some x;
  ab_reads r : r ∈ transaction.read_set x -> has_tuple r m0;
  ab_writes w : w ∈ transaction.write_set x -> is_Some (objects m0 !! get_object w);
  ab_head w o : current w o -> fat_ptr.offset (oid_entry m0 (oa w) (oid w)) = get_object w;
  ab_nonnull w o : current w o -> get_object w <> 0;
  ab_next w o : current w o ->
    fat_ptr.offset (object._next o) = 0 \/ is_Some (objects m0 !! fat_ptr.offset (object._next o));
  ab_nodup : NoDup (get_object <$> transaction.write_set x) }.

Context (H : abortable).

Definition removed (done : list write_record_t) (a : Z) : Prop :=
  exists w o, w ∈ done /\ current w o /\ a = get_object w.

Definition same_value (o o' : object.t) : Prop :=
  dbtuple.pvalue (object.tuple o') = dbtuple.pvalue (object.tuple o) /\
  dbtuple.value_start (object.tuple o') = dbtuple.value_start (object.tuple o) /\
  dbtuple.size (object.tuple o') = dbtuple.size (object.tuple o).

(** Memory when the slots of [ds] have been reset and the versions of [dv]
    taken out. *)
Record undone (ds dv : list write_record_t) (m : mem) : Prop := {
  un_txn : txns m = txns m0;
  un_state : xid_context.state (ctx m xc) = TXN_ABRTD;
  un_others i : i <> xc -> ctx m i = ctx m0 i;
  un_reset w o : w ∈ ds -> current w o -> oid_entry m (oa w) (oid w) = object._next o;
  un_kept b i : (forall w o, w ∈ ds -> current w o -> (oa w, oid w) <> (b, i)) ->
    oid_entry m b i = oid_entry m0 b i;
  un_objects a o : objects m0 !! a = Some o ->
    exists o', objects m !! a = Some o' /\ same_value o o' /\
      (removed dv a -> object._clsn o' = NULL_PTR) /\
      (~ removed dv a -> object._clsn o' = object._clsn o /\ object._next o' = object._next o) }.

Lemma removed_nil a : ~ removed [] a.
Proof. intros (w & o & Hw & _). set_solver. Qed.

Lemma removed_snoc dv w a :
  removed (dv ++ [w]) a <-> removed dv a \/ (exists o, current w o /\ a = get_object w).
Proof.
  split.
  - intros (w' & o & [Hin| ->%list_elem_of_singleton]%elem_of_app & Hc & ->); [left; by exists w', o|eauto].
  - intros [(w' & o & Hin & Hc & ->)|(o & Hc & ->)]; [exists w', o|exists w, o].
    + split_and!; [apply elem_of_app; by left|done..].
    + split_and!; [apply elem_of_app; right; by apply list_elem_of_singleton|done..].
Qed.

(** Changing fields of a tuple other than its value. *)
Lemma undone_upd_tuple ds dv a g m :
  (forall y, dbtuple.pvalue (g y) = dbtuple.pvalue y /\
             dbtuple.value_start (g y) = dbtuple.value_start y /\ dbtuple.size (g y) = dbtuple.size y) ->
  undone ds dv m -> undone ds dv (upd_obj a (upd_tuple g) m).
Proof.
  intros Hg [U1 U2 U3 U4 U5 U6]. split; [done..|]. intros c o Ho.
  destruct (U6 c o Ho) as (o' & Ho' & (V1 & V2 & V3) & Hr & Hk). unfold upd_obj. cbn.
  destruct (decide (a = c)) as [->|].
  - exists (upd_tuple g o'). rewrite lookup_alter_eq, Ho'. split_and!; try done.
    destruct (Hg (object.tuple o')) as (G1 & G2 & G3).
    unfold same_value. cbn. rewrite G1, G2, G3. done.
  - exists o'. rewrite lookup_alter_ne by done. done.
Qed.

Lemma undone_object ds dv a o m :
  undone ds dv m -> objects m0 !! a = Some o -> is_Some (objects m !! a).
Proof. intros U Ho. destruct (un_objects _ _ _ U a o Ho) as (o' & ? & _). eauto. Qed.

(** ** Stamps of overwritten versions *)

(** [a] is the version that some current version of [db] overwrote. *)
Definition overwritten (db : list write_record_t) (a : Z) : Prop :=
  exists w o, w ∈ db /\ current w o /\ a = fat_ptr.offset (object._next o) /\ a <> 0.

(** The tuple [y] at [a] has become [y']: the successor stamp of an overwritten
    version is gone, and its mark that locks out read-mostly transactions. *)
Definition stamps (db : list write_record_t) (a : Z) (y y' : dbtuple.t) : Prop :=
  dbtuple.xstamp y' = dbtuple.xstamp y /\
  (overwritten db a -> SSI || SSN = true -> dbtuple.sstamp y' = NULL_PTR) /\
  (~ overwritten db a \/ SSI || SSN = false -> dbtuple.sstamp y' = dbtuple.sstamp y) /\
  (fits 8 (dbtuple.preader y) ->
     (overwritten db a -> SSN && ssn_read_opt_enabled = true -> dbtuple.preader y' = Z.land (dbtuple.preader y) 127) /\
     (~ overwritten db a \/ SSN && ssn_read_opt_enabled = false -> dbtuple.preader y' = dbtuple.preader y) /\
     (dbtuple.preader y' = dbtuple.preader y \/ dbtuple.preader y' = Z.land (dbtuple.preader y) 127)).

Definition restamped (db : list write_record_t) (m : mem) : Prop :=
  forall a o, objects m0 !! a = Some o -> exists o', objects m !! a = Some o' /\ stamps db a (object.tuple o) (object.tuple o').

Lemma not_overwritten_nil a : ~ overwritten [] a.
Proof. intros (w & o & Hw & _). set_solver. Qed.

Lemma restamped_start m : objects m = objects m0 -> restamped [] m.
Proof.
  intros E a o Ho. exists o. rewrite E. split; [done|]. pose proof (not_overwritten_nil a). split_and!; try done. intros _. split_and!; [done|done|by left].
Qed.

Lemma overwritten_snoc db w o a : current w o ->
  overwritten (db ++ [w]) a <-> overwritten db a \/ a = fat_ptr.offset (object._next o) /\ a <> 0.
Proof.
  intros Hc. split.
  - intros (w' & o' & [Hin| ->%list_elem_of_singleton]%elem_of_app & Hc' & Ha); [left; by exists w', o'|right].
    assert (o' = o) as -> by (destruct Hc as (_ & E & _), Hc' as (_ & E' & _); congruence). done.
  - intros [(w' & o' & Hin & Hc' & Ha)|Ha]; [exists w', o'|exists w, o]; (split; [set_solver|done]).
Qed.

(** Whoever is not newly overwritten keeps its stamps. *)
Lemma stamps_same db db' a y y' : (overwritten db' a <-> overwritten db a) -> stamps db a y y' -> stamps db' a y y'.
Proof. unfold stamps. intros ->. done. Qed.

(** Steps that leave all tuples alone, but for values and readers. *)
Definition same_stamps (m m' : mem) : Prop :=
  forall a o, objects m !! a = Some o -> exists o', objects m' !! a = Some o' /\
    dbtuple.xstamp (object.tuple o') = dbtuple.xstamp (object.tuple o) /\
    dbtuple.sstamp (object.tuple o') = dbtuple.sstamp (object.tuple o) /\
    dbtuple.preader (object.tuple o') = dbtuple.preader (object.tuple o).

Lemma restamped_frame db m m' : restamped db m -> same_stamps m m' -> restamped db m'.
Proof.
  intros Hr Hs a o Ho. destruct (Hr a o Ho) as (o1 & Ho1 & Hst). destruct (Hs a o1 Ho1) as (o2 & Ho2 & E1 & E2 & E3).
  exists o2. split; [done|]. unfold stamps in *. by rewrite E1, E2, E3.
Qed.

Lemma same_stamps_upd a g m :
  (forall o, dbtuple.xstamp (object.tuple (g o)) = dbtuple.xstamp (object.tuple o) /\
     dbtuple.sstamp (object.tuple (g o)) = dbtuple.sstamp (object.tuple o) /\
     dbtuple.preader (object.tuple (g o)) = dbtuple.preader (object.tuple o)) -> same_stamps m (upd_obj a g m).
Proof.
  intros Hg c o Ho. unfold upd_obj. cbn. destruct (decide (a = c)) as [->|].
  - exists (g o). by rewrite lookup_alter_eq, Ho.
  - exists o. by rewrite lookup_alter_ne.
Qed.

Lemma same_stamps_refl m m' : objects m' = objects m -> same_stamps m m'.
Proof. intros E a o Ho. exists o. by rewrite E. Qed.

(** Taking back the stamps of the version that [w] overwrote. *)
Lemma restamp_next db w o m1 m2 o1 y2 (nx := fat_ptr.offset (object._next o)) :
  restamped db m1 -> current w o -> nx <> 0 -> SSI || SSN = true ->
  (forall a, a <> nx -> objects m2 !! a = objects m1 !! a) ->
  objects m1 !! nx = Some o1 -> (exists o2, objects m2 !! nx = Some o2 /\ object.tuple o2 = y2) ->
  dbtuple.xstamp y2 = dbtuple.xstamp (object.tuple o1) -> dbtuple.sstamp y2 = NULL_PTR ->
  (fits 8 (dbtuple.preader (object.tuple o1)) -> dbtuple.preader y2 =
     if SSN && ssn_read_opt_enabled then Z.land (dbtuple.preader (object.tuple o1)) 127 else dbtuple.preader (object.tuple o1)) ->
  restamped (db ++ [w]) m2.
Proof.
  intros Hr Hc Hnz HS Hoth Ho1 (o2 & Ho2 & <-) Hx Hs Hp a oa0 Ha. destruct (Hr a oa0 Ha) as (o' & Ho' & Hst).
  pose proof (overwritten_snoc db w o a Hc) as Hov. destruct (decide (a = nx)) as [->|Hne].
  - rewrite Ho1 in Ho'. injection Ho' as <-. exists o2. split; [done|].
    assert (overwritten (db ++ [w]) nx) as Hyes by (apply Hov; by right). destruct Hst as (S1 & _ & _ & S4).
    split_and!; [congruence|done|by intros [?|?]; [|congruence]|]. intros Hf. destruct (S4 Hf) as (S5 & S6 & Hor).
    assert (SSN && ssn_read_opt_enabled = true -> dbtuple.preader (object.tuple o2) = Z.land (dbtuple.preader (object.tuple oa0)) 127) as Hon.
    { intros E. rewrite E in Hp. destruct Hor as [E1|E1]; rewrite E1 in Hp.
      - by apply Hp.
      - rewrite Hp by (by apply land_fits). by rewrite <- Z.land_assoc. }
    assert (SSN && ssn_read_opt_enabled = false -> dbtuple.preader (object.tuple o2) = dbtuple.preader (object.tuple oa0)) as Hoff.
    { intros E. rewrite E, (S6 (or_intror E)) in Hp. by apply Hp. }
    split_and!; [auto|by intros [?|E]; [|auto]|]. destruct (SSN && ssn_read_opt_enabled); auto.
  - exists o'. rewrite Hoth by done. split; [done|]. eapply stamps_same; [|exact Hst]. rewrite Hov. split; [intros [?|[? _]]; done|by left].
Qed.

Lemma restamped_skip db w m : restamped db m ->
  (forall o, current w o -> fat_ptr.offset (object._next o) = 0 \/ SSI || SSN = false) -> restamped (db ++ [w]) m.
Proof.
  intros Hr Hn a o Ha. destruct (Hr a o Ha) as (o' & Ho' & Hst). exists o'. split; [done|].
  assert (overwritten (db ++ [w]) a -> overwritten db a \/ SSI || SSN = false) as Hov.
  { intros (w' & o1 & [Hin| ->%list_elem_of_singleton]%elem_of_app & Hc & Ha' & Hnz); [left; by exists w', o1|].
    destruct (Hn o1 Hc); [congruence|by right]. }
  assert (overwritten db a -> overwritten (db ++ [w]) a) as Hov' by (intros (w' & o1 & Hin & ?); exists w', o1; set_solver).
  destruct Hst as (S1 & S2 & S3 & S4). assert (SSI || SSN = false -> SSN && ssn_read_opt_enabled = false) as HN.
  { intros [_ ->]%orb_false_iff. done. }
  split_and!; [done| | |].
  - intros Ho E. apply S2; [|done]. destruct (Hov Ho); [done|congruence].
  - intros [Ho|E]; apply S3; [left; auto|by right].
  - intros Hf. destruct (S4 Hf) as (S5 & S6 & S7). split_and!; [| |done].
    + intros Ho E. destruct (Hov Ho) as [|E']; [auto|]. apply HN in E'. congruence.
    + intros [Ho|E]; apply S6; [left; auto|by right].
Qed.

Section one_write.
Context (done : list write_record_t) (w : write_record_t) (o : object.t).
Context (Hsplit : exists suf, transaction.write_set x = done ++ w :: suf) (Hw : current w o).

(** The versions of a write set are distinct, so earlier entries are about
    other versions and other records. *)
Lemma not_done w' : w' ∈ done -> get_object w' <> get_object w.
Proof.
  intros Hin E. destruct Hsplit as [suf Es]. pose proof (ab_nodup H) as N. rewrite Es in N.
  rewrite fmap_app, fmap_cons in N. apply NoDup_app in N as (_ & N & _).
  apply (N (get_object w')).
  - by apply list_elem_of_fmap_2.
  - rewrite E. left.
Qed.

Lemma not_removed : ~ removed done (get_object w).
Proof. intros (w' & o' & Hin & _ & E). by apply (not_done w' Hin). Qed.

Lemma other_slot w' o' : w' ∈ done -> current w' o' -> (oa w', oid w') <> (oa w, oid w).
Proof.
  intros Hin Hc [= E1 E2]. apply (not_done w' Hin). rewrite <- (ab_head H w' o'), <- (ab_head H w o) by done.
  by rewrite E1, E2.
Qed.

Lemma total_unlink :
  total (undone done done) (oid_unlink (oa w) (oid w)) (fun _ => undone (done ++ [w]) done).
Proof.
  unfold oid_unlink.
  apply total_bind with (fun p m => undone done done m /\ fat_ptr.offset p = get_object w).
  { apply total_atomic; [apply stable_quiet|]. intros m U. eexists _, _. split; [done|]. split; [done|].
    rewrite (un_kept _ _ _ U); [by apply (ab_head H w o)|]. intros w' o' Hin Hc. by apply (other_slot w' o'). }
  intros p. apply total_pure. intros ->.
  apply total_bind with (fun n m => undone done done m /\ n = object._next o).
  { apply total_rd_obj; [apply stable_quiet|]. intros m U.
    destruct (un_objects _ _ _ U _ _ (proj1 (proj2 Hw))) as (o' & Ho' & _ & _ & Hk).
    exists o'. split; [done|]. split; [done|]. apply Hk, not_removed. }
  intros n. apply total_pure. intros ->.
  apply total_atomic; [apply stable_quiet|]. intros m U. eexists _, _. split; [done|].
  destruct U as [U1 U2 U3 U4 U5 U6]. split; try done.
  - intros w' o' [Hin| ->%list_elem_of_singleton]%elem_of_app Hc; unfold oid_entry; cbn.
    + rewrite lookup_insert_ne by (intros E; by apply (other_slot w' o')). by apply U4.
    + rewrite lookup_insert_eq. cbn. destruct Hc as (_ & E & _), Hw as (_ & E' & _). congruence.
  - intros b i Hall. unfold oid_entry. cbn. rewrite lookup_insert_ne.
    + apply U5. intros w' o' Hin. apply Hall, elem_of_app. by left.
    + apply (Hall w o); [|done]. apply elem_of_app. right. by apply list_elem_of_singleton.
Qed.

(** Taking the version itself out: clear its stamp, put it on the free list. *)
Lemma undone_clear m :
  undone (done ++ [w]) done m ->
  undone (done ++ [w]) (done ++ [w]) (upd_obj (get_object w) (object.set__clsn NULL_PTR) m).
Proof.
  intros [U1 U2 U3 U4 U5 U6]. split; try done. intros a oa' Ho.
  destruct (U6 a oa' Ho) as (o' & Ho' & Hv & Hr & Hk). unfold upd_obj. cbn.
  destruct (decide (get_object w = a)) as [<-|Hne].
  - exists (object.set__clsn NULL_PTR o'). rewrite lookup_alter_eq, Ho'. split_and!; [done..|].
    intros Hn. exfalso. apply Hn. apply removed_snoc. right. eauto.
  - exists o'. rewrite lookup_alter_ne by done. split_and!; [done|done| |].
    + intros [Hd|(? & _ & E)]%removed_snoc; [by apply Hr|done].
    + intros Hn. apply Hk. intros Hd. apply Hn, removed_snoc. by left.
Qed.

Lemma undone_relink ds p m :
  undone ds (done ++ [w]) m ->
  undone ds (done ++ [w]) (upd_obj (get_object w) (object.set__next p) m).
Proof.
  intros [U1 U2 U3 U4 U5 U6]. split; try done. intros a oa' Ho.
  destruct (U6 a oa' Ho) as (o' & Ho' & Hv & Hr & Hk). unfold upd_obj. cbn.
  destruct (decide (get_object w = a)) as [<-|Hne].
  - exists (object.set__next p o'). rewrite lookup_alter_eq, Ho'. split_and!; [done|done|done|].
    intros Hn. exfalso. apply Hn. apply removed_snoc. right. eauto.
  - exists o'. rewrite lookup_alter_ne by done. done.
Qed.

Lemma own_object ds dv m : undone ds dv m -> is_Some (objects m !! get_object w).
Proof. intros U. destruct Hw as (_ & Ho & _). by eapply undone_object. Qed.

Lemma total_take_out :
  total (undone (done ++ [w]) done)
    (wr_obj (get_object w) (object.set__clsn NULL_PTR) ;;; deallocate (new_object w))
    (fun _ => undone (done ++ [w]) (done ++ [w])).
Proof.
  eapply total_bind with (fun _ => undone (done ++ [w]) (done ++ [w])).
  { apply total_wr_obj; [apply stable_quiet|]. intros m U. split; [by eapply own_object|].
    by apply undone_clear. }
  intros _. unfold deallocate. apply total_seq; [by apply total_rd; [apply stable_quiet|]|]. intros p.
  apply total_seq.
  { apply total_wr_obj; [apply stable_quiet|]. intros m U. split; [by eapply own_object|].
    by apply undone_relink. }
  intros _. apply total_wr; [apply stable_quiet|]. intros m [U1 U2 U3 U4 U5 U6]. by split.
Qed.

End one_write.

(** ** One entry of the write set *)

(** [welcome_read_mostly_tx] clears the mark. *)
Lemma welcomed pr : fits 8 pr -> (if Z.shiftr pr 7 =? 0 then pr else Z.lxor pr (Z.shiftl 1 7)) = Z.land pr 127.
Proof.
  intros [H0 H1]. rewrite Z.shiftr_div_pow2 by lia. change (2 ^ 7) with 128. change 127 with (2 ^ 7 - 1). rewrite land_mask by lia.
  change (2 ^ 7) with 128. change (Z.shiftl 1 7) with 128. destruct (Z.eqb_spec (pr / 128) 0) as [E|E].
  - rewrite Z.mod_small; [done|]. pose proof (Z.div_mod pr 128). pose proof (Z.mod_pos_bound pr 128). lia.
  - assert (pr / 128 = 1) as E1 by (pose proof (Z.div_mod pr 128); pose proof (Z.mod_pos_bound pr 128); change (2 ^ 8) with 256 in H1; lia).
    apply Z.bits_inj'. intros n Hn. rewrite Z.lxor_spec. change 128 with (2 ^ 7) at 1 2. rewrite Z.pow2_bits_eqb by lia.
    destruct (Z.lt_ge_cases n 7); [rewrite Z.mod_pow2_bits_low, (proj2 (Z.eqb_neq 7 n)) by lia; apply xorb_false_r|].
    rewrite Z.mod_pow2_bits_high by lia. destruct (Z.eqb_spec 7 n) as [<-|Hne].
    + assert (Z.testbit pr 7 = true) as ->; [|done]. apply Z.testbit_true; [lia|]. change (2 ^ 7) with 128. by rewrite E1.
    + rewrite xorb_false_r. apply (Z.bits_above_log2 pr n); [done|]. apply Z.log2_lt_pow2; [pose proof (Z.div_mod pr 128); pose proof (Z.mod_pos_bound pr 128); lia|].
      apply Z.lt_le_trans with (2 ^ 8); [done|]. apply Z.pow_le_mono_r; lia.
Qed.

(** The successor stamp of the overwritten version is taken back. *)
Lemma total_reset_overwritten ds dv done w o :
  current w o -> (exists suf, transaction.write_set x = done ++ w :: suf) -> dv = done ->
  total (fun m => undone ds dv m /\ restamped done m)
    (if SSI || SSN then
       let* n := tuple_next (get_object w) in
       match n with
       | Some nx =>
           wr_tuple nx (dbtuple.set_sstamp NULL_PTR) ;;;
           if SSN then welcome_read_mostly_tx nx else ret tt
       | None => ret tt
       end
     else ret tt) (fun _ m => undone ds dv m /\ restamped (done ++ [w]) m).
Proof.
  intros Hc Hs ->. set (nx := fat_ptr.offset (object._next o)). destruct (SSI || SSN) eqn:HS.
  2:{ apply total_ret. intros m [U Hr]. split; [done|]. apply restamped_skip; auto. }
  apply total_bind with (fun n m => (undone ds done m /\ restamped done m) /\ n = (if nx =? 0 then None else Some nx)).
  { unfold tuple_next. eapply total_bind with (fun p m => (undone ds done m /\ restamped done m) /\ p = object._next o).
    - apply total_rd_obj; [apply stable_quiet|]. intros m [U Hr].
      destruct (un_objects _ _ _ U _ _ (proj1 (proj2 Hc))) as (o' & Ho' & _ & _ & Hk).
      exists o'. split; [done|]. split; [done|]. apply Hk. eapply not_removed; done.
    - intros p. apply total_pure. intros ->. by apply total_ret. }
  intros n. apply total_pure. intros ->. destruct (Z.eqb_spec nx 0) as [Hz|Hz].
  { apply total_ret. intros m [U Hr]. split; [done|]. apply restamped_skip; [done|]. intros o' Hc'. left.
    assert (o' = o) as -> by (destruct Hc as (_ & E & _), Hc' as (_ & E' & _); congruence). exact Hz. }
  destruct (ab_next H w o Hc) as [?|[on Hon]]; [done|].
  set (g := dbtuple.set_sstamp NULL_PTR).
  apply total_bind with (fun _ m => undone ds done m /\ exists m1, restamped done m1 /\ m = upd_obj nx (upd_tuple g) m1).
  { apply total_wr_obj; [apply stable_quiet|]. intros m [U Hr]. split; [by eapply undone_object|].
    split; [by apply undone_upd_tuple|]. by exists m. }
  assert (forall m1, restamped done m1 -> SSN && ssn_read_opt_enabled = false -> restamped (done ++ [w]) (upd_obj nx (upd_tuple g) m1)) as Hoff.
  { intros m1 Hr E. destruct (Hr nx on Hon) as (o1 & Ho1 & _).
    apply (restamp_next done w o m1 _ o1 (g (object.tuple o1))); try done.
    - intros a Ha. unfold upd_obj. cbn. by rewrite lookup_alter_ne.
    - exists (upd_tuple g o1). unfold upd_obj. cbn. by rewrite lookup_alter_eq, Ho1.
    - by rewrite E. }
  intros u. destruct SSN eqn:HN; [|apply total_ret; intros m (U & m1 & Hr & ->); auto].
  unfold welcome_read_mostly_tx. destruct ssn_read_opt_enabled eqn:Hopt; [|apply total_ret; intros m (U & m1 & Hr & ->); auto].
  apply total_bind with (fun pr m => (undone ds done m /\ exists m1 o1, restamped done m1 /\ objects m1 !! nx = Some o1 /\
    pr = dbtuple.preader (object.tuple o1) /\ m = upd_obj nx (upd_tuple g) m1)).
  { apply total_rd_obj; [apply stable_quiet|]. intros m (U & m1 & Hr & ->). destruct (Hr nx on Hon) as (o1 & Ho1 & _).
    exists (upd_tuple g o1). unfold upd_obj at 1. cbn [objects set_objects]. rewrite lookup_alter_eq, Ho1. split; [done|].
    split; [done|]. exists m1, o1. done. }
  intros pr. destruct (Z.shiftr pr 7 =? 0) eqn:E; cbn [negb].
  - apply total_ret. intros m (U & m1 & o1 & Hr & Ho1 & -> & ->). split; [done|].
    apply (restamp_next done w o m1 _ o1 (g (object.tuple o1))); try done; [by rewrite HN, orb_true_r|..].
    + intros a Ha. unfold upd_obj. cbn. by rewrite lookup_alter_ne.
    + exists (upd_tuple g o1). unfold upd_obj. cbn. by rewrite lookup_alter_eq, Ho1.
    + intros Hf. rewrite HN, Hopt. cbn. pose proof (welcomed _ Hf) as Hw. by rewrite E in Hw.
  - apply total_wr_obj; [apply stable_quiet|]. intros m (U & m1 & o1 & Hr & Ho1 & -> & ->).
    split; [by eapply undone_object|]. split; [by apply undone_upd_tuple|].
    apply (restamp_next done w o m1 _ o1 (dbtuple.set_preader (Z.lxor (dbtuple.preader (object.tuple o1)) (Z.shiftl 1 7)) (g (object.tuple o1)))); try done;
      [by rewrite HN, orb_true_r|..].
    + intros a Ha. unfold upd_obj. cbn. by rewrite !lookup_alter_ne.
    + eexists. unfold upd_obj. cbn. rewrite !lookup_alter_eq, Ho1. done.
    + intros Hf. rewrite HN, Hopt. cbn. pose proof (welcomed _ Hf) as Hw. by rewrite E in Hw.
Qed.

(** What follows leaves the stamps alone. *)
Lemma guar_unlink_stamps w : guar same_stamps
  (oid_unlink (oa w) (oid w) ;;; wr_obj (get_object w) (object.set__clsn NULL_PTR) ;;; deallocate (new_object w)).
Proof. unfold oid_unlink, deallocate. guar; try (by apply same_stamps_upd); by apply same_stamps_refl. Qed.

Lemma undone_skip ds w m :
  undone ds ds m -> (forall o, ~ current w o) -> undone (ds ++ [w]) (ds ++ [w]) m.
Proof.
  intros [U1 U2 U3 U4 U5 U6] Hn. split; try done.
  - intros w' o [Hin| ->%list_elem_of_singleton]%elem_of_app Hc; [by apply U4|by destruct (Hn o)].
  - intros b i Hall. apply U5. intros w' o Hin. apply Hall. set_solver.
  - intros a o Ho. destruct (U6 a o Ho) as (o' & ? & ? & Hr & Hk). exists o'. split_and!; [done..| |].
    + intros [Hd|(o2 & Hc & _)]%removed_snoc; [by apply Hr|by destruct (Hn o2)].
    + intros Hd. apply Hk. intros Hd'. apply Hd, removed_snoc. by left.
Qed.

Definition taken_back (done : list write_record_t) (m : mem) : Prop := undone done done m /\ restamped done m.

Lemma total_abort_write done w suf :
  transaction.write_set x = done ++ w :: suf ->
  total (taken_back done) (abort_write w) (fun _ => taken_back (done ++ [w])).
Proof.
  intros Es. assert (w ∈ transaction.write_set x) as Hin by (rewrite Es; apply elem_of_app; right; by left).
  destruct (ab_writes H w Hin) as [o Ho]. unfold abort_write.
  apply total_bind with (fun d m => taken_back done m /\
    d = bool_decide (dbtuple.pvalue (object.tuple o) = DEFUNCT_TUPLE_MARK)).
  { apply total_rd_obj; [apply stable_quiet|]. intros m [U Hr].
    destruct (un_objects _ _ _ U _ _ Ho) as (o' & Ho' & (Hp & _) & _). exists o'. by rewrite Hp. }
  intros d. apply total_pure. intros ->. case_bool_decide as Hd.
  - apply total_ret. intros m [U Hr]. assert (forall o', ~ current w o') as Hn by (intros o' (_ & E & Hn); congruence).
    split; [by apply undone_skip|]. apply restamped_skip; [done|]. by intros o' ?%Hn.
  - assert (current w o) as Hc by done.
    eapply total_bind; [eapply (total_reset_overwritten done done done w o); eauto|]. intros u. cbv beta.
    apply total_and.
    + eapply total_pre; [|eapply total_bind; [eapply total_unlink; eauto|]; intros v; eapply total_take_out; eauto].
      by intros m [].
    + eapply hoare_pre; [|apply (guar_inv same_stamps) with (P := restamped (done ++ [w]));
        [apply guar_unlink_stamps|apply stable_quiet|apply restamped_frame]]. by intros m [].
Qed.

Lemma total_abort_writes :
  total (taken_back []) (for_each (transaction.write_set x) (fun w (_ : unit) =>
    abort_write w ;;; ret (inl (B := unit) tt)) tt)
    (fun _ => taken_back (transaction.write_set x)).
Proof.
  apply (total_for_each _ _ tt (fun done _ => taken_back done)); [|done].
  intros pre w suf [] Es. eapply total_bind; [by eapply total_abort_write|]. intros u. by apply total_ret.
Qed.

(** ** The read set *)

Context (k : Z) (Hown : own_bit k).

Lemma quiet_bit_rely a : bit_rely a.
Proof. intros b. apply stable_quiet. Qed.

(** Deregistering from [a] changes the bitmap of [a] only. *)
Definition bitmap_of (a : Z) (m m' : mem) : Prop :=
  exists f, (forall w, fits 64 w -> fits 64 (f w)) /\ m' = upd_obj a (upd_tuple (with_word f)) m.

Lemma guar_bitmap_of a : guar (bitmap_of a) (serial_deregister_reader_tx a).
Proof.
  unfold serial_deregister_reader_tx, rmw_reader_word. guar. exists (fun w => Z.lxor w tls_entry).
  split; [|done]. intros w Hw. apply (bitwise_fits Z.lxor xorb); [|done|done|by eapply entry_fits].
  intros. apply Z.lxor_spec.
Qed.

Lemma has_tuple_bitmap_of a r m m' : has_tuple r m -> bitmap_of a m m' -> has_tuple r m'.
Proof.
  intros (o & Ho & Hw) (f & Hf & ->). unfold has_tuple, upd_obj. cbn. destruct (decide (a = r)) as [->|].
  - eexists. rewrite lookup_alter_eq, Ho. split; [done|]. by apply with_word_wf.
  - rewrite lookup_alter_ne by done. eauto.
Qed.

Lemma has_bit_bitmap_of a r b m m' : a <> r -> has_bit r b m -> bitmap_of a m m' -> has_bit r b m'.
Proof.
  intros Hne (o & Ho & Hw) (f & Hf & ->). exists o. unfold upd_obj. cbn. by rewrite lookup_alter_ne.
Qed.

Definition clear_bits (rs : list Z) (m : mem) : Prop := forall r, r ∈ rs -> has_bit r false m.

Definition readable (m : mem) : Prop := forall r, r ∈ transaction.read_set x -> has_tuple r m.

Lemma total_abort_read done r :
  r ∈ transaction.read_set x ->
  total (fun m => undone [] [] m /\ readable m /\ clear_bits done m) (serial_deregister_reader_tx r)
    (fun _ m => undone [] [] m /\ readable m /\ clear_bits (done ++ [r]) m).
Proof.
  intros Hr. set (P := fun m => undone [] [] m /\ readable m /\
    (forall r', r' ∈ done -> r <> r' -> has_bit r' false m)).
  apply total_pre with P.
  { intros m (U & Hm & Hc). split_and!; [done..|]. intros r' Hin _. by apply Hc. }
  eapply total_post.
  - apply total_and; [eapply total_pre; [|apply (deregister_clears k Hown r), quiet_bit_rely]|].
    + intros m (_ & Hm & _). by apply Hm.
    + apply (guar_inv (bitmap_of r)) with (P := P); [apply guar_bitmap_of|apply stable_quiet|].
      intros m m' (U & Hm & Hc) Hst. split_and!.
      * destruct Hst as (f & _ & ->). by apply undone_upd_tuple.
      * intros r' Hr'. eapply has_tuple_bitmap_of; [by apply Hm|done].
      * intros r' Hin Hne. eapply has_bit_bitmap_of; eauto.
  - intros u m (Hb & U & Hm & Hc). split_and!; [done..|].
    intros r' [Hin| ->%list_elem_of_singleton]%elem_of_app; [|done].
    destruct (decide (r = r')) as [<-|]; [done|by apply Hc].
Qed.

(** The bitmaps are not touched afterwards. *)
Definition same_bitmaps (m m' : mem) : Prop :=
  forall a o, objects m !! a = Some o -> exists o', objects m' !! a = Some o' /\
    dbtuple.readers_bitmap (object.tuple o') = dbtuple.readers_bitmap (object.tuple o).

Lemma same_bitmaps_upd a g m :
  (forall o, dbtuple.readers_bitmap (object.tuple (g o)) = dbtuple.readers_bitmap (object.tuple o)) ->
  same_bitmaps m (upd_obj a g m).
Proof.
  intros Hg c o Ho. unfold upd_obj. cbn. destruct (decide (a = c)) as [->|].
  - exists (g o). by rewrite lookup_alter_eq, Ho.
  - exists o. by rewrite lookup_alter_ne.
Qed.

Lemma same_bitmaps_refl m m' : objects m' = objects m -> same_bitmaps m m'.
Proof. intros E a o Ho. exists o. by rewrite E. Qed.

Lemma guar_abort_write w : guar same_bitmaps (abort_write w).
Proof.
  unfold abort_write, welcome_read_mostly_tx, xor_preader, oid_unlink, deallocate, rd_preader.
  guar; try (by apply same_bitmaps_upd); by apply same_bitmaps_refl.
Qed.

Lemma clear_bits_same rs m m' : clear_bits rs m -> same_bitmaps m m' -> clear_bits rs m'.
Proof.
  intros Hc Hs r Hr. destruct (Hc r Hr) as (o & Ho & Hw & Hb). destruct (Hs r o Ho) as (o' & Ho' & E).
  exists o'. unfold wf_bitmap, reader_bit in *. by rewrite E.
Qed.

(** What is true after the abort. *)
Definition aborted (m : mem) : Prop :=
  taken_back (transaction.write_set x) m /\
  (SSN || SSI = true -> clear_bits (transaction.read_set x) m).

Lemma undone_start m :
  m = upd_ctx xc (xid_context.set_state TXN_ABRTD) m0 -> undone [] [] m.
Proof.
  intros ->. split; try done.
  - by rewrite ctx_upd_eq.
  - intros i Hi. by apply ctx_upd_ne.
  - intros w o Hw. set_solver.
  - intros a o Ho. exists o. split_and!; [done..| |done]. by intros Hr%removed_nil.
Qed.

Lemma undone_mlog ds dv l m : undone ds dv m -> undone ds dv (set_mlog l m).
Proof. intros [U1 U2 U3 U4 U5 U6]. by split. Qed.

(** The transaction object stays what it was. *)
Lemma total_rd_this {A} (f : transaction.t -> A) (P : mem -> Prop) :
  (forall m, P m -> txns m = txns m0) ->
  total P (rd_txn this f) (fun a m => P m /\ a = f x).
Proof.
  intros HP. apply total_rd_txn; [apply stable_quiet|]. intros m Hm. exists x.
  by rewrite (HP m Hm), (ab_txn H).
Qed.

Lemma total_abort_reads :
  total (fun m => undone [] [] m /\ readable m)
    (if SSN || SSI then
       let* rs := rd_txn this transaction.read_set in
       let* _ := for_each rs (fun r (_ : unit) =>
         serial_deregister_reader_tx r ;;; ret (inl (B := unit) tt)) tt in
       ret tt
     else ret tt)
    (fun _ m => undone [] [] m /\ (SSN || SSI = true -> clear_bits (transaction.read_set x) m)).
Proof.
  destruct (SSN || SSI); [|apply total_ret; by intros m []].
  eapply total_bind; [apply total_rd_this; intros m [U _]; apply U|].
  intros rs. apply total_pure. intros ->.
  eapply total_bind; [|intros r; apply total_ret; intros m Hm; exact Hm].
  eapply total_pre with (fun m => undone [] [] m /\ readable m /\ clear_bits [] m).
  { intros m [U Hm]. split_and!; [done..|]. intros r Hr. set_solver. }
  apply (total_for_each _ _ tt (fun done _ m => undone [] [] m /\ readable m /\ clear_bits done m)).
  - intros pre r suf [] E. eapply total_bind; [apply total_abort_read; rewrite E; set_solver|].
    intros u. by apply total_ret.
  - intros _ m (U & Hm & Hc). auto.
Qed.

Lemma guar_reads_stamps : guar same_stamps
    (if SSN || SSI then
       let* rs := rd_txn this transaction.read_set in
       let* _ := for_each rs (fun r (_ : unit) =>
         serial_deregister_reader_tx r ;;; ret (inl (B := unit) tt)) tt in
       ret tt
     else ret tt).
Proof.
  destruct (SSN || SSI); [|apply guar_ret]. apply guar_bind; [guar|]. intros rs. apply guar_bind; [|intros; apply guar_ret].
  apply guar_for_each. intros r u _. apply guar_bind; [|intros; apply guar_ret].
  unfold serial_deregister_reader_tx, rmw_reader_word. guar. by apply same_stamps_upd.
Qed.

Lemma abort_total : total (eq m0) (abort_impl this) (fun _ => aborted).
Proof.
  unfold abort_impl.
  eapply total_bind; [apply total_rd_this; by intros m <-|]. intros c. apply total_pure. intros ->.
  apply total_bind with (fun _ m => (undone [] [] m /\ readable m) /\ restamped [] m).
  { apply total_wr; [apply stable_quiet|]. intros m <-. split; [split; [by apply undone_start|]|by apply restamped_start].
    intros r Hr. by apply (ab_reads H). }
  intros u. cbv beta. clear u.
  apply total_bind with (fun _ m => (undone [] [] m /\ (SSN || SSI = true -> clear_bits (transaction.read_set x) m)) /\ restamped [] m).
  { apply total_and; [eapply total_pre; [|apply total_abort_reads]; by intros m []|].
    eapply hoare_pre; [|apply (guar_inv same_stamps) with (P := restamped []);
      [apply guar_reads_stamps|apply stable_quiet|apply restamped_frame]]. by intros m []. }
  intros u. cbv beta. clear u.
  eapply total_bind; [apply total_rd_this; intros m [[U _] _]; apply U|]. intros ws. apply total_pure. intros ->.
  apply total_bind with (fun _ => aborted).
  { apply total_and; [eapply total_pre; [|apply total_abort_writes]; by intros m [[? _] ?]|].
    eapply hoare_pre with (fun m => SSN || SSI = true -> clear_bits (transaction.read_set x) m); [by intros m [[_ ?] _]|].
    apply (guar_inv same_bitmaps); [|apply stable_quiet|].
    - apply guar_for_each. intros w u _. apply guar_bind; [apply guar_abort_write|]. intros. apply guar_ret.
    - intros m m' Hm Hs E. eapply clear_bits_same; [by apply Hm|done]. }
  intros u. cbv beta. clear u.
  eapply total_bind; [apply total_rd_this; intros m [[U _] _]; apply U|]. intros l. apply total_pure. intros ->.
  destruct (transaction.log x); [|by apply total_ret]. apply total_wr; [apply stable_quiet|].
  intros m [[U Hr] Hm]. split; [split; [by apply undone_mlog|done]|done].
Qed.

(** ** What other transactions read *)

(** [v] is the context of another transaction, to which the versions of the
    aborting one are invisible; those versions occur as heads only. *)
Record bystander (v : Z) : Prop := {
  by_other : v <> xc;
  by_active : xid_context.state (ctx m0 xc) <> TXN_CMMTD;
  by_own w o : current w o ->
    fat_ptr.asi_type (object._clsn o) = fat_ptr.ASI_XID /\
    XID.local (XID.mk (fat_ptr._ptr (object._clsn o))) = xc /\
    XID.eqb (XID.mk (fat_ptr._ptr (object._clsn o))) (xid_context.owner (ctx m0 v)) = false }.

Definition head_only (b i : Z) (l : list Z) : Prop :=
  forall w o, current w o -> get_object w ∈ l -> (oa w, oid w) = (b, i) /\ get_object w ∉ tail l.

Lemma visible_other v m a o :
  bystander v -> undone (transaction.write_set x) (transaction.write_set x) m ->
  objects m0 !! a = Some o -> ~ removed (transaction.write_set x) a ->
  visible m v a = visible m0 v a.
Proof.
  intros B U Ho Hr. destruct (un_objects _ _ _ U a o Ho) as (o' & Ho' & _ & _ & Hk).
  destruct (Hk Hr) as [Ec _]. unfold visible. rewrite Ho, Ho', Ec.
  rewrite (un_others _ _ _ U v (by_other v B)).
  destruct (fat_ptr.asi_type _ =? _); [|done]. f_equal.
  destruct (decide (XID.local (XID.mk (fat_ptr._ptr (object._clsn o))) = xc)) as [->|Hne].
  - rewrite (un_state _ _ _ U). unfold txn_state_eqb.
    rewrite (bool_decide_eq_false_2 (_ = TXN_CMMTD)) by done.
    by rewrite (bool_decide_eq_false_2 (xid_context.state _ = _)) by apply (by_active v B).
  - by rewrite (un_others _ _ _ U).
Qed.

Lemma own_version_invisible v w o : bystander v -> current w o -> visible m0 v (get_object w) = false.
Proof.
  intros B Hc. destruct (by_own v B w o Hc) as (Ht & Hl & Hx). unfold visible.
  rewrite (proj1 (proj2 Hc)), Ht, Hl, Hx. cbn [orb Z.eqb Pos.eqb fat_ptr.ASI_XID].
  unfold txn_state_eqb. by rewrite (bool_decide_eq_false_2 _ (by_active v B)).
Qed.

(** A chain without removed versions is unchanged. *)
Lemma chain_undone m p l :
  undone (transaction.write_set x) (transaction.write_set x) m ->
  chain m0 p l -> (forall a, a ∈ l -> ~ removed (transaction.write_set x) a) -> chain m p l.
Proof.
  intros U Hc Hn. eapply chain_frame; [done|]. intros a o Ha Ho.
  destruct (un_objects _ _ _ U a o Ho) as (o' & Ho' & _ & _ & Hk). exists o'. split; [done|].
  by apply Hk, Hn.
Qed.

Lemma newest_undone v m l p :
  bystander v -> undone (transaction.write_set x) (transaction.write_set x) m ->
  chain m0 p l -> (forall a, a ∈ l -> ~ removed (transaction.write_set x) a) ->
  newest_visible m v l = newest_visible m0 v l.
Proof.
  intros B U Hc Hn. unfold newest_visible.
  rewrite (filter_same (fun a => visible m v a = true) (fun a => visible m0 v a = true)); [done|].
  intros a Ha. destruct (chain_in _ _ _ _ Hc Ha) as [o Ho]. by rewrite (visible_other v m a o) by auto.
Qed.

(** Either no version of the chain is removed, or exactly its head is. *)
Lemma removed_cases b i l :
  chain m0 (oid_entry m0 b i) l -> head_only b i l ->
  (forall a, a ∈ l -> ~ removed (transaction.write_set x) a) /\
    (forall w o, current w o -> (oa w, oid w) <> (b, i)) \/
  (exists w o l', l = get_object w :: l' /\ current w o /\ (oa w, oid w) = (b, i) /\
     (forall a, a ∈ l' -> ~ removed (transaction.write_set x) a)).
Proof.
  intros Hc Hh.
  assert (forall w o, current w o -> (oa w, oid w) = (b, i) ->
    exists l', l = get_object w :: l' /\ (forall a, a ∈ l' -> ~ removed (transaction.write_set x) a)) as K.
  { intros w o Hw [= <- <-]. pose proof (ab_head H w o Hw) as E. inversion Hc as [? _ Ez|? ? l' _ Hz Ho Hl]; subst.
    - destruct (ab_nonnull H w o Hw). congruence.
    - rewrite E in *. exists l'. split; [done|]. intros a Ha (w' & o' & _ & Hw' & ->).
      destruct (Hh w' o' Hw') as [[= E1 E2] Ht]; [by right|]. by apply Ht. }
  destruct (decide (Exists (fun w => (oa w, oid w) = (b, i) /\
    bool_decide ((dbtuple.pvalue ∘ object.tuple <$> objects m0 !! get_object w) = Some DEFUNCT_TUPLE_MARK) = false)
    (transaction.write_set x))) as [Hex|Hno].
  - apply Exists_exists in Hex as (w & Hin & Es & Hd%bool_decide_eq_false). right.
    destruct (ab_writes H w Hin) as [o Ho]. rewrite Ho in Hd. cbn in Hd.
    assert (dbtuple.pvalue (object.tuple o) <> DEFUNCT_TUPLE_MARK) by congruence.
    destruct (K w o) as (l' & El & Hl'); [done..|]. exists w, o, l'. done.
  - left. assert (forall w o, current w o -> (oa w, oid w) <> (b, i)) as N.
    { intros w o (Hin & Ho & Hd) E. apply Hno, Exists_exists. exists w. split_and!; [done..|].
      apply bool_decide_eq_false. rewrite Ho. cbn. congruence. }
    split; [|exact N]. intros a Ha (w & o & _ & Hw & ->). by apply (N w o Hw), (Hh w o).
Qed.

Lemma restored_chain v m b i l :
  bystander v -> undone (transaction.write_set x) (transaction.write_set x) m ->
  chain m0 (oid_entry m0 b i) l -> head_only b i l ->
  exists l', chain m (oid_entry m b i) l' /\ newest_visible m v l' = newest_visible m0 v l.
Proof.
  intros B U Hc Hh. destruct (removed_cases b i l Hc Hh) as [[Hn Hs]|(w & o & l' & -> & Hw & [= <- <-] & Hn)].
  - exists l. rewrite (un_kept _ _ _ U) by eauto. split; [by apply chain_undone|by eapply newest_undone].
  - pose proof (chain_tail _ _ _ _ _ Hc (proj1 (proj2 Hw))) as Hc'. exists l'. split.
    + rewrite (un_reset _ _ _ U w o) by (done || apply Hw). by apply chain_undone.
    + rewrite (newest_undone v m l' (object._next o)) by done. unfold newest_visible. rewrite filter_cons.
      by rewrite decide_False by (by rewrite (own_version_invisible v w o)).
Qed.

End abort.

(** C13: for an undisturbed thread, from a memory in which the write set
    describes the chains ([abortable]), [abort_impl] finishes, and afterwards the
    transaction is in state [TXN_ABRTD]; the OID slot of every record it updated
    points to the version that was current before, and the new version's stamp
    is cleared; every other slot is as before; every other version keeps value,
    stamp, link and access stamp.  Under SSN or SSI the versions that had been
    overwritten lose their successor stamp and, with read optimisation, the mark
    that locks out read-mostly transactions, and no others do; and the thread's
    bit is gone from the readers bitmaps of the versions in its read set. *)
Theorem abort_restores `{CF : Config} `{Q : Quiet} k this x m
    (Hown : own_bit k) (H : abortable this x m) :
  let ws := transaction.write_set x in
  total (eq m) (abort_impl this) (fun _ m' =>
    xid_context.state (ctx m' (transaction.xc x)) = TXN_ABRTD /\
    (forall w o, current x m w o ->
       oid_entry m' (oa w) (oid w) = object._next o /\
       exists o', objects m' !! get_object w = Some o' /\ object._clsn o' = NULL_PTR) /\
    (forall b i, (forall w o, current x m w o -> (oa w, oid w) <> (b, i)) ->
       oid_entry m' b i = oid_entry m b i) /\
    (forall a o, objects m !! a = Some o ->
       exists o', objects m' !! a = Some o' /\ same_value o o' /\
         (~ removed x m ws a -> object._clsn o' = object._clsn o /\ object._next o' = object._next o) /\
         stamps x m ws a (object.tuple o) (object.tuple o')) /\
    (SSN || SSI = true -> forall r, r ∈ transaction.read_set x -> has_bit r false m')).
Proof.
  intros ws. eapply total_post; [by apply (abort_total this x m H k)|]. intros _ m' [[U Hr] Hb]. split_and!.
  - apply U.
  - intros w o Hc. split; [apply (un_reset _ _ _ _ _ U); [apply Hc|done]|].
    destruct (un_objects _ _ _ _ _ U _ _ (proj1 (proj2 Hc))) as (o' & Ho' & _ & Hk & _).
    exists o'. split; [done|]. apply Hk. exists w, o. split_and!; [apply Hc|done..].
  - intros b i Hn. apply (un_kept _ _ _ _ _ U). eauto.
  - intros a o Ho. destruct (un_objects _ _ _ _ _ U a o Ho) as (o' & Ho' & Hv & _ & Hk).
    destruct (Hr a o Ho) as (o2 & Ho2 & Hst). rewrite Ho' in Ho2. injection Ho2 as <-. by exists o'.
  - exact Hb.
Qed.

(** C12: an abort is invisible to every other transaction: for each record,
    the newest version such a transaction may see is the same before and
    after, with the same value. *)
Theorem abort_invisible `{CF : Config} `{Q : Quiet} k this x m v
    (Hown : own_bit k) (H : abortable this x m) (B : bystander x m v) :
  total (eq m) (abort_impl this) (fun _ m' =>
    forall b i l, chain m (oid_entry m b i) l -> head_only x m b i l ->
      exists l', chain m' (oid_entry m' b i) l' /\
        newest_visible m' v l' = newest_visible m v l /\
        (forall a o, newest_visible m v l = Some a -> objects m !! a = Some o ->
           exists o', objects m' !! a = Some o' /\ same_value o o')).
Proof.
  eapply total_post; [by apply (abort_total this x m H k)|]. intros _ m' [[U _] _] b i l Hc Hh.
  destruct (restored_chain this x m H v m' b i l B U Hc Hh) as (l' & Hc' & E).
  exists l'. split_and!; [done..|]. intros a o _ Ho.
  destruct (un_objects _ _ _ _ _ U a o Ho) as (o' & Ho' & Hv & _). eauto.
Qed.

(** ** Examples *)

Section examples.

#[local] Instance abort_config : Config := config true false SSN_READ_OPT_DISABLED.
#[local] Instance abort_platform : Platform := demo_platform alone 2.
#[local] Instance abort_quiet : Quiet.
Proof. done. Qed.

(** Transaction 1 replaced version 4096 of record 1 by version 8192 and read
    version 5120; transaction 2 began at 90. *)
Definition abort_txn : transaction.t := txn_of 1 0 [write_record (ptr 8192) 7 1] [5120].

Definition abort_mem : mem :=
  with_object 4096 (committed_version NULL_PTR 50 50 [1; 2])
   (with_object 5120 (upd_tuple (dbtuple.set_readers_bitmap [2; 0; 0; 0]) (committed_version NULL_PTR 40 40 [5]))
    (with_object 8192 (dirty_version (ptr 4096) (XID.make 1 1) [3])
     (with_oid 7 1 (ptr 8192)
      (with_context 1 (context 1 80 0 TXN_ACTIVE)
       (with_context 2 (context 2 90 0 TXN_ACTIVE)
        (with_txn 1 abort_txn empty_mem)))))).

Lemma abort_own : own_bit 1.
Proof. split_and!; [done|lia..|done|done]. Qed.

Lemma abort_mem_ok : abortable 1 abort_txn abort_mem.
Proof.
  split.
  - reflexivity.
  - intros r ->%list_elem_of_singleton. eexists. split; [reflexivity|].
    split; [done|]. repeat constructor; unfold fits; lia.
  - intros w ->%list_elem_of_singleton. by eexists.
  - intros w o (->%list_elem_of_singleton & _). reflexivity.
  - intros w o (->%list_elem_of_singleton & _). done.
  - intros w o (->%list_elem_of_singleton & [= <-] & _). right. by eexists.
  - apply NoDup_singleton.
Qed.

Lemma abort_restores_witness :
  exists m' t', abort_impl 1 abort_mem O = Ok (tt, (m', t')) /\ oid_entry m' 7 1 = ptr 4096.
Proof.
  destruct (abort_restores (CF := abort_config) 1 1 abort_txn abort_mem abort_own abort_mem_ok abort_mem O
    eq_refl) as ([] & m' & t' & E & _ & K & _).
  exists m', t'. split; [exact E|].
  apply (K (write_record (ptr 8192) 7 1) (dirty_version (ptr 4096) (XID.make 1 1) [3])).
  split_and!; [by apply list_elem_of_singleton|reflexivity|done].
Defined.

Lemma abort_invisible_witness :
  exists m' t' l', abort_impl 1 abort_mem O = Ok (tt, (m', t')) /\
    newest_visible m' 2 l' = Some 4096.
Proof.
  destruct (abort_invisible (CF := abort_config) 1 1 abort_txn abort_mem 2 abort_own abort_mem_ok) with abort_mem O
    as ([] & m' & t' & E & K).
  - split; [done|done|]. intros w o (->%list_elem_of_singleton & [= <-] & _). done.
  - reflexivity.
  - destruct (K 7 1 [8192; 4096]) as (l' & _ & Hn & _).
    + apply (chain_cons abort_mem (ptr 8192) (dirty_version (ptr 4096) (XID.make 1 1) [3]));
        [done|done|reflexivity|].
      apply (chain_cons abort_mem (ptr 4096) (committed_version NULL_PTR 50 50 [1; 2])); [done|done|reflexivity|].
      by constructor.
    + intros w o (->%list_elem_of_singleton & _) _. split; [done|]. cbn.
      intros Hin%list_elem_of_singleton. done.
    + exists m', t', l'. split; [exact E|]. rewrite Hn. reflexivity.
Defined.

End examples.
