(* ===== verification/SiCommit.v ===== *)
(** * Snapshot-isolation commit ([transaction::commit], [si_commit])

    A commit is atomic for the snapshots of other transactions: those that
    began before its commit stamp keep reading exactly what they read before,
    and those that begin later see every version it wrote. *)
From stdpp Require Import base numbers list gmap.
From Stdlib Require Import ZArith Lia.
From S2P Require Import Prelude FatPtr SizeEncode Shared Program Contexts Readers Versions Txn.
From S2P Require Import Ssn Ssi Engine Scenario Snapshot.

Local Open Scope Z_scope.

Lemma log_stamp_offset s : fits 48 s -> fat_ptr.offset (log_stamp s) = s.
Proof. apply log_ptr_offset. Qed.

Lemma log_stamp_type s : fits 48 s -> fat_ptr.asi_type (log_stamp s) = fat_ptr.ASI_LOG.
Proof. apply log_ptr_type. Qed.

(** Memory handed out by the allocator is not part of any live object. *)
Definition fresh_allocations `{PL : Platform} : Prop :=
  forall sz e m, objects m !! (mm_allocate sz e m).1 = None.

Section older.
Context `{CF : Config} `{Q : Quiet}.
Context (this xc v s : Z) (x : transaction.t) (m0 : mem).
Let b := xid_context.begin_ (ctx m0 v).

(** [this] is about to commit with stamp [s]; [v] is the context of another
    transaction, which began before. *)
Record older_snapshot : Prop := {
  os_txn : txns m0 !! this = Some x;
  os_xc : transaction.xc x = xc;
  os_other : v <> xc;
  os_stamp : fits 48 s;
  os_before : b < s;
  os_active : xid_context.state (ctx m0 xc) <> TXN_CMMTD;
  os_list : transaction.updated_oids_head x = NULL_PTR;
  os_own w : w ∈ transaction.write_set x ->
    exists o, objects m0 !! get_object w = Some o /\
      fat_ptr.asi_type (object._clsn o) = fat_ptr.ASI_XID /\
      XID.local (XID.mk (fat_ptr._ptr (object._clsn o))) = xc /\
      XID.mk (fat_ptr._ptr (object._clsn o)) <> xid_context.owner (ctx m0 v) }.

Context (H : older_snapshot) (Hfresh : fresh_allocations).

Definition old (a : Z) : Prop := is_Some (objects m0 !! a).

(** The committing transaction's context does not make anything visible. *)
Definition hidden (m : mem) : Prop :=
  xid_context.state (ctx m xc) = TXN_CMMTD -> b <= xid_context.end_ (ctx m xc).

(** What post-commit does to objects: the versions of the write set get their
    value and commit stamp, other live objects keep both. *)
Definition own (a : Z) : Prop := exists w, w ∈ transaction.write_set x /\ a = get_object w.

Definition kept (a : Z) (o o' : object.t) : Prop :=
  object._clsn o' = object._clsn o /\ (object.tuple o' = object.tuple o \/ own a) \/
  own a /\ object._clsn o' = log_stamp s.

Record snap (m : mem) : Prop := {
  sn_old a : old a -> is_Some (objects m !! a);
  sn_visible a : old a -> visible m v a = visible m0 v a;
  sn_values a o : objects m0 !! a = Some o -> visible m0 v a = true ->
    exists o', objects m !! a = Some o' /\ object.tuple o' = object.tuple o;
  sn_visitor : ctx m v = ctx m0 v;
  sn_hidden : hidden m;
  sn_stamps a o : objects m0 !! a = Some o -> exists o', objects m !! a = Some o' /\ kept a o o';
  sn_owner i : xid_context.owner (ctx m i) = xid_context.owner (ctx m0 i);
  sn_txn : exists y, txns m !! this = Some y /\ transaction.write_set y = transaction.write_set x /\
    transaction.xc y = xc }.

Lemma kept_refl a o : kept a o o.
Proof. left. eauto. Qed.

Lemma kept_trans a o1 o2 o3 : kept a o1 o2 -> kept a o2 o3 -> kept a o1 o3.
Proof.
  intros [[E1 T1]|[O1 E1]] [[E2 T2]|[O2 E2]]; [|by right| |by right].
  - left. split; [congruence|]. destruct T1, T2; [left; congruence|by right..].
  - right. split; [done|congruence].
Qed.

Lemma xid_eqb_neq (p q : XID.t) : p <> q -> XID.eqb p q = false.
Proof. intros N. apply Z.eqb_neq. intros E. apply N. destruct p, q. by f_equal. Qed.

Lemma own_invisible w : w ∈ transaction.write_set x -> visible m0 v (get_object w) = false.
Proof.
  intros Hw. pose proof (os_active H) as Hst. destruct (os_own H w Hw) as (o & Ho & Ht & Hl & Hn).
  unfold visible. rewrite Ho, Ht, Hl. cbn [Z.eqb fat_ptr.ASI_XID Pos.eqb].
  rewrite xid_eqb_neq by done. unfold txn_state_eqb. by rewrite bool_decide_eq_false_2.
Qed.

(** Updating the committing context so that it stays hidden. *)
Lemma visible_upd_ctx g m a :
  hidden m -> hidden (upd_ctx xc g m) -> ctx m v = ctx m0 v ->
  visible (upd_ctx xc g m) v a = visible m v a.
Proof.
  intros H1 H2 Hv. pose proof (os_other H) as Hne.
  unfold visible. change (objects (upd_ctx xc g m)) with (objects m).
  destruct (objects m !! a) as [o|]; [|done].
  rewrite (ctx_upd_ne xc v) by done. destruct (fat_ptr.asi_type _ =? _); [|done].
  destruct (decide (XID.local (XID.mk (fat_ptr._ptr (object._clsn o))) = xc)) as [E|E].
  2:{ by rewrite ctx_upd_ne by done. }
  rewrite E. f_equal. rewrite Hv. fold b. unfold hidden, txn_state_eqb in *.
  destruct (bool_decide_reflect (xid_context.state (ctx m xc) = TXN_CMMTD)) as [E1|E1],
    (bool_decide_reflect (xid_context.state (ctx (upd_ctx xc g m) xc) = TXN_CMMTD)) as [E2|E2];
    cbn [andb]; rewrite ?andb_false_r; try done.
  - specialize (H1 E1). specialize (H2 E2). transitivity false; [|symmetry]; apply Z.ltb_ge; lia.
  - specialize (H1 E1). symmetry. apply Z.ltb_ge. lia.
  - specialize (H2 E2). apply Z.ltb_ge. lia.
Qed.

Lemma snap_upd_ctx g m :
  snap m -> hidden (upd_ctx xc g m) -> (forall c, xid_context.owner (g c) = xid_context.owner c) ->
  snap (upd_ctx xc g m).
Proof.
  intros [] Hh Hg. pose proof (os_other H) as Hne. split; try done.
  - intros a Ha. rewrite visible_upd_ctx by done. auto.
  - by rewrite ctx_upd_ne.
  - intros i. by rewrite ctx_upd_field.
Qed.

Definition ostep (m m' : mem) : Prop :=
  contexts m' = contexts m /\
  (forall y, txns m !! this = Some y -> exists y', txns m' !! this = Some y' /\
     transaction.write_set y' = transaction.write_set y /\ transaction.xc y' = transaction.xc y) /\
  (forall a o, objects m !! a = Some o -> exists o', objects m' !! a = Some o' /\ kept a o o').

Lemma visible_kept m m' a o o' :
  contexts m' = contexts m -> ctx m v = ctx m0 v ->
  objects m !! a = Some o -> objects m' !! a = Some o' -> kept a o o' ->
  (own a -> visible m v a = false) -> visible m' v a = visible m v a.
Proof.
  intros Ec Hv Ho Ho' [[Es _]|[Hown Es]] Hinv.
  - unfold visible, ctx. rewrite Ho, Ho', Es, Ec. done.
  - rewrite Hinv by done. unfold visible. rewrite Ho', Es.
    rewrite log_stamp_type, log_stamp_offset by apply (os_stamp H). cbn [Z.eqb].
    change (ctx m' v) with (default null_context (contexts m' !! v)). rewrite Ec.
    change (default null_context (contexts m !! v)) with (ctx m v). rewrite Hv. fold b.
    apply Z.leb_gt, (os_before H).
Qed.

Lemma snap_ostep m m' : snap m -> ostep m m' -> snap m'.
Proof.
  intros [S1 S2 S3 S4 S5 S5s S5o S6] (Ec & Et & Eo).
  assert (ctx m' v = ctx m v) as Ev by (unfold ctx; by rewrite Ec).
  assert (ctx m' xc = ctx m xc) as Ex by (unfold ctx; by rewrite Ec). split.
  - intros a Ha. destruct (S1 a Ha) as [o Ho]. destruct (Eo a o Ho) as (o' & ? & _). eauto.
  - intros a Ha. destruct (S1 a Ha) as [o Ho]. destruct (Eo a o Ho) as (o' & Ho' & Hk).
    rewrite <- S2 by done. apply (visible_kept m m' a o o'); try done.
    intros (w & Hw & ->). rewrite S2 by done. by apply own_invisible.
  - intros a o Ho Hvis. destruct (S3 a o Ho Hvis) as (o1 & Ho1 & E1).
    destruct (Eo a o1 Ho1) as (o2 & Ho2 & Hk). exists o2. split; [done|].
    assert (~ own a) as Hno by (intros (w & Hw & ->); by rewrite own_invisible in Hvis).
    destruct Hk as [[_ [->|]]|[]]; done.
  - by rewrite Ev.
  - unfold hidden. by rewrite Ex.
  - intros a o Ho. destruct (S5s a o Ho) as (o1 & Ho1 & K1). destruct (Eo a o1 Ho1) as (o2 & Ho2 & K2).
    exists o2. split; [done|by eapply kept_trans].
  - intros i. rewrite <- S5o. unfold ctx. by rewrite Ec.
  - destruct S6 as (y & Hy & E1 & E2). destruct (Et y Hy) as (y' & Hy' & E1' & E2').
    exists y'. split_and!; [done|congruence..].
Qed.

Lemma ostep_objects m g :
  (forall a o, objects m !! a = Some o -> exists o', g !! a = Some o' /\ kept a o o') ->
  ostep m (set_objects g m).
Proof. intros K. split_and!; [done| |done]. intros y Hy. eauto. Qed.

Lemma ostep_upd_obj a g m :
  (forall o, kept a o (g o)) -> ostep m (upd_obj a g m).
Proof.
  intros K. apply ostep_objects. intros c o Ho. destruct (decide (a = c)) as [->|].
  - exists (g o). by rewrite lookup_alter_eq, Ho.
  - exists o. rewrite lookup_alter_ne by done. split; [done|apply kept_refl].
Qed.

Lemma ostep_trans m1 m2 m3 : ostep m1 m2 -> ostep m2 m3 -> ostep m1 m3.
Proof.
  intros (C1 & T1 & O1) (C2 & T2 & O2). split_and!; [congruence| |].
  - intros y Hy. destruct (T1 y Hy) as (y' & Hy' & ? & ?), (T2 y' Hy') as (y'' & ? & ? & ?).
    exists y''. split_and!; [done|congruence..].
  - intros a o Ho. destruct (O1 a o Ho) as (o' & Ho' & ?), (O2 a o' Ho') as (o'' & ? & ?).
    exists o''. split; [done|by eapply kept_trans].
Qed.

Lemma ostep_fill_pdest ps m : ostep m (fill_pdest ps m).
Proof.
  induction ps as [|[a p] ps IH]; simpl.
  - split_and!; [done|eauto|]. intros a o Ho. exists o. split; [done|apply kept_refl].
  - eapply ostep_trans; [exact IH|]. apply ostep_upd_obj. intros o. left. auto.
Qed.

Lemma ostep_txn g m :
  (forall y, transaction.write_set (g y) = transaction.write_set y) ->
  (forall y, transaction.xc (g y) = transaction.xc y) ->
  ostep m (upd_txn this g m).
Proof.
  intros E1 E2. split_and!; [done| |].
  - intros y Hy. exists (g y). unfold upd_txn. cbn. by rewrite lookup_alter_eq, Hy.
  - intros a o Ho. exists o. split; [done|apply kept_refl].
Qed.

Lemma guar_ostep_new_object sz e o : guar ostep (new_object_at sz e o).
Proof.
  apply guar_atomic. intros m a m' E. right. pose proof (Hfresh sz e m) as Hf.
  destruct (mm_allocate sz e m) as [c u]. simplify_eq/=.
  assert (ostep m (set_objects (<[a := o]> (objects m)) m)) as K.
  { apply ostep_objects. intros d od Hd. exists od. rewrite lookup_insert_ne by congruence.
    split; [done|apply kept_refl]. }
  exact K.
Qed.

Lemma guar_ostep_log_commit : guar ostep (tx_log_commit this).
Proof.
  apply guar_wr. intros m. destruct (log_commit this (mlog m)) as [l ps].
  apply (ostep_trans m (set_mlog l m)); [|apply ostep_fill_pdest].
  apply (ostep_fill_pdest [] m).
Qed.

Lemma guar_ostep_do_write a : own a -> guar ostep (do_write a).
Proof.
  intros Ha. apply guar_atomic. intros m u m' E. right.
  destruct (objects m !! a) as [o|] eqn:Ho; [|done].
  destruct (tuple_do_write (object.tuple o)) as [y|]; simplify_eq.
  apply ostep_upd_obj. intros o'. left. auto.
Qed.

#[local] Hint Resolve guar_ostep_new_object guar_ostep_log_commit guar_ostep_do_write : guar.

Lemma guar_ostep_enqueue w : guar ostep (enqueue_recycle_oids this w).
Proof.
  unfold enqueue_recycle_oids.
  destruct (default _ (encode_size_aligned _ _)) as [code size]. guar.
  - by apply ostep_txn.
  - apply ostep_upd_obj. intros o. left. auto.
  - by apply ostep_txn.
Qed.

#[local] Hint Resolve guar_ostep_enqueue : guar.

Lemma guar_ostep_post_write w :
  w ∈ transaction.write_set x -> guar ostep (si_post_write this (log_stamp s) w).
Proof.
  intros Hw. assert (own (get_object w)) as Hown by (exists w; auto).
  unfold si_post_write. guar. apply ostep_upd_obj. intros o. right. auto.
Qed.

Lemma guar_ostep_recycle : guar ostep (recycle_updated_oids this).
Proof.
  unfold recycle_updated_oids, recycle. guar.
  - apply guar_atomic. intros m c m' [= <- <-]. right. apply (ostep_fill_pdest [] m).
  - apply ostep_upd_obj. intros o. left. auto.
Qed.

#[local] Hint Resolve guar_ostep_recycle : guar.

Lemma snap_guar {A} (c : M A) : guar ostep c -> hoare snap c (fun _ => snap).
Proof. intros K. apply (guar_inv ostep); [done|apply stable_quiet|apply snap_ostep]. Qed.

Lemma snap_start : snap m0.
Proof.
  destruct H. split; eauto using kept_refl. by intros ?.
Qed.

(** After the commit stamp was stored. *)
Definition stamped (m : mem) : Prop := snap m /\ xid_context.end_ (ctx m xc) = s.

Lemma stamped_guar {A} (c : M A) : guar ostep c -> hoare stamped c (fun _ => stamped).
Proof.
  intros K. apply (guar_inv ostep); [done|apply stable_quiet|]. intros m m' [Hs He] Hst.
  split; [by eapply snap_ostep|]. destruct Hst as (Ec & _). unfold ctx. by rewrite Ec.
Qed.

Lemma stamped_txn {A} (f : transaction.t -> A) :
  hoare stamped (rd_txn this f)
    (fun a m => stamped m /\ exists y, a = f y /\ transaction.write_set y = transaction.write_set x).
Proof.
  apply hoare_atomic; [apply stable_quiet|]. intros m a m' [Hm He] E.
  destruct (sn_txn _ Hm) as (y & Hy & Ew & _). rewrite Hy in E. simplify_eq. split; [done|eauto].
Qed.

(** From the point where the transaction is sure to commit. *)
Lemma finish_snap :
  hoare stamped
    (tx_log_commit this ;;;
     let* clsn := rd_ctx xc xid_context.end_ in
     let* ws := rd_txn this transaction.write_set in
     for_all ws (si_post_write this (log_stamp clsn)) ;;;
     wr_ctx xc (xid_context.set_state TXN_CMMTD) ;;;
     recycle_updated_oids this ;;;
     ret RC_TRUE) (fun _ => snap).
Proof.
  apply hoare_seq; [apply stamped_guar; guar|]. intros _.
  eapply (hoare_bind _ _ _ (fun a m => stamped m /\ a = s)).
  { apply hoare_rd; [apply stable_quiet|]. intros m Hm. split; [done|]. apply Hm. }
  intros a. apply hoare_pure. intros ->.
  eapply hoare_bind; [apply stamped_txn|]. intros ws. apply hoare_pure. intros (y & -> & ->).
  apply hoare_seq.
  { apply stamped_guar, guar_for_all. intros w Hw. by apply guar_ostep_post_write. }
  intros _. eapply (hoare_bind _ _ _ (fun _ => snap)).
  { apply hoare_wr; [apply stable_quiet|]. intros m [Hm He]. apply snap_upd_ctx; [done| |done].
    unfold hidden. rewrite ctx_upd_eq. cbn. rewrite He. pose proof (os_before H). lia. }
  intros _. apply hoare_seq; [apply snap_guar; guar|]. intros _. by apply hoare_ret.
Qed.

Lemma si_commit_snap :
  hoare (fun m => snap m /\ (log_pre_commit this (mlog m)).1 = s) (si_commit this) (fun _ => snap).
Proof.
  unfold si_commit.
  eapply (hoare_bind _ _ _ (fun a m => (snap m /\ (log_pre_commit this (mlog m)).1 = s) /\ a = xc)).
  { apply hoare_atomic; [apply stable_quiet|]. intros m a m' [Hm Hs] E.
    destruct (sn_txn _ Hm) as (y & Hy & _ & Ex). rewrite Hy in E. by simplify_eq. }
  intros a. apply hoare_pure. intros ->.
  eapply (hoare_bind _ _ _ (fun a m => snap m /\ a = s)).
  { apply hoare_atomic; [apply stable_quiet|]. intros m a m' [Hm Hs] E.
    destruct (log_pre_commit this (mlog m)) as [s' l]. simplify_eq/=. split; [|done].
    eapply snap_ostep; [done|]. apply (ostep_fill_pdest [] m). }
  intros a. apply hoare_pure. intros ->.
  eapply (hoare_bind _ _ _ (fun _ => stamped)).
  { apply hoare_wr; [apply stable_quiet|]. intros m Hm. split; [|by rewrite ctx_upd_eq].
    apply snap_upd_ctx; [done| |done]. unfold hidden. rewrite ctx_upd_eq. cbn.
    pose proof (os_before H). lia. }
  intros _. destruct (s =? 0); [apply hoare_ret; by intros m []|].
  apply hoare_seq; [apply stamped_guar; guar|]. intros ok.
  destruct ok; cbn [negb]; [|apply hoare_ret; by intros m []]. apply finish_snap.
Qed.

Lemma commit_snap :
  SSN = false -> SSI = false -> (log_pre_commit this (mlog m0)).1 = s ->
  hoare (eq m0) (commit this) (fun _ => snap).
Proof.
  intros E1 E2 Hs. unfold commit. rewrite E1, E2. cbn [orb].
  eapply (hoare_bind _ _ _ (fun a m => (snap m /\ (log_pre_commit this (mlog m)).1 = s) /\ a = xc)).
  { apply hoare_atomic; [apply stable_quiet|]. intros m a m' <- E.
    rewrite (os_txn H) in E. simplify_eq. split; [split; [apply snap_start|done]|]. apply (os_xc H). }
  intros a. apply hoare_pure. intros ->.
  apply hoare_seq; [by apply hoare_rd; [apply stable_quiet|]|]. intros st.
  apply hoare_seq; [by apply hoare_assert|]. intros _.
  apply hoare_seq; [|intros _; apply si_commit_snap].
  apply hoare_wr; [apply stable_quiet|]. intros m [Hm Hl]. split; [|done].
  apply snap_upd_ctx; [done| |done]. unfold hidden. by rewrite ctx_upd_eq.
Qed.

End older.

(** ** Links and OID slots *)

Section links.
Context `{CF : Config} `{Q : Quiet}.
Context (this : Z) (m0 : mem) (Hfresh : fresh_allocations).

(** Every object is at an address that fits a fat pointer. *)
Definition addressed (m : mem) : Prop := forall a, is_Some (objects m !! a) -> fits 48 a.

(** The list of updated OIDs ends in an object allocated since [m0]. *)
Definition new_tail (m : mem) : Prop :=
  exists y, txns m !! this = Some y /\
    (transaction.updated_oids_head y = NULL_PTR \/
     objects m0 !! fat_ptr.offset (transaction.updated_oids_tail y) = None).

Definition links (m m' : mem) : Prop :=
  forall a o, objects m !! a = Some o -> exists o', objects m' !! a = Some o' /\
    object._next o' = object._next o.

(** The OID arrays are those of [m0], and so are the links of its objects. *)
Record linked (m : mem) : Prop := {
  li_oids : oids m = oids m0;
  li_old a : is_Some (objects m0 !! a) -> is_Some (objects m !! a);
  li_tail : addressed m -> new_tail m;
  li_links : addressed m -> links m0 m }.

Definition lstep (m m' : mem) : Prop :=
  oids m' = oids m /\ links m m' /\
  (forall y, txns m !! this = Some y -> exists y', txns m' !! this = Some y' /\
     transaction.updated_oids_head y' = transaction.updated_oids_head y /\
     transaction.updated_oids_tail y' = transaction.updated_oids_tail y).

Lemma links_refl m : links m m.
Proof. intros a o Ho. eauto. Qed.

Lemma links_trans m1 m2 m3 : links m1 m2 -> links m2 m3 -> links m1 m3.
Proof.
  intros L1 L2 a o Ho. destruct (L1 a o Ho) as (o1 & Ho1 & E1). destruct (L2 a o1 Ho1) as (o2 & Ho2 & E2).
  exists o2. split; [done|congruence].
Qed.

Lemma links_some m m' a : links m m' -> is_Some (objects m !! a) -> is_Some (objects m' !! a).
Proof. intros L [o Ho]. destruct (L a o Ho) as (o' & ? & _). eauto. Qed.

Lemma links_upd_obj a g m :
  (forall o, object._next (g o) = object._next o) -> links m (upd_obj a g m).
Proof.
  intros K c o Ho. unfold upd_obj. cbn. destruct (decide (a = c)) as [->|].
  - exists (g o). by rewrite lookup_alter_eq, Ho.
  - exists o. by rewrite lookup_alter_ne.
Qed.

Lemma links_fill ps m : links m (fill_pdest ps m).
Proof.
  induction ps as [|[a p] ps IH]; simpl; [apply links_refl|].
  eapply links_trans; [exact IH|]. by apply links_upd_obj.
Qed.

Lemma fill_pdest_oids ps m : oids (fill_pdest ps m) = oids m.
Proof. induction ps as [|[a p] ps IH]; simpl; [done|exact IH]. Qed.

Lemma fill_pdest_txns ps m : txns (fill_pdest ps m) = txns m.
Proof. induction ps as [|[a p] ps IH]; simpl; [done|exact IH]. Qed.

Lemma lstep_objects m m' : oids m' = oids m -> txns m' = txns m -> links m m' -> lstep m m'.
Proof. intros E1 E2 L. split_and!; [done..|]. rewrite E2. eauto. Qed.

Lemma linked_lstep m m' : linked m -> lstep m m' -> linked m'.
Proof.
  intros [L1 L2 L3 L4] (E1 & L & Et).
  assert (addressed m' -> addressed m) as Ha.
  { intros A a Hs. apply A. by eapply links_some. }
  split.
  - congruence.
  - intros a Hs. eapply links_some; [exact L|auto].
  - intros A. destruct (L3 (Ha A)) as (y & Hy & Hl). destruct (Et y Hy) as (y' & Hy' & E3 & E4).
    exists y'. by rewrite E3, E4.
  - intros A. eapply links_trans; [exact (L4 (Ha A))|exact L].
Qed.

Lemma linked_guar {A} (c : M A) : guar lstep c -> hoare linked c (fun _ => linked).
Proof. intros K. apply (guar_inv lstep); [done|apply stable_quiet|apply linked_lstep]. Qed.

Lemma guar_lstep_do_write a : guar lstep (do_write a).
Proof.
  apply guar_atomic. intros m u m' E. right.
  destruct (objects m !! a) as [o|] eqn:Ho; [|done].
  destruct (tuple_do_write (object.tuple o)) as [y|]; simplify_eq.
  apply lstep_objects; [done..|by apply links_upd_obj].
Qed.

Lemma guar_lstep_log_commit : guar lstep (tx_log_commit this).
Proof.
  apply guar_wr. intros m. destruct (log_commit this (mlog m)) as [l ps].
  apply lstep_objects; [by rewrite fill_pdest_oids|by rewrite fill_pdest_txns|].
  apply (links_fill ps (set_mlog l m)).
Qed.

(** Appending an object that is new. *)
Lemma linked_set_tail g p r m :
  linked m -> is_Some (objects m !! r) -> objects m0 !! r = None ->
  (fits 48 r -> fat_ptr.offset p = r) ->
  (forall y, transaction.updated_oids_tail (g y) = p) -> linked (upd_txn this g m).
Proof.
  intros [L1 L2 L3 L4] Hs Hn Hp Hg. split; [done..| |done].
  intros A. destruct (L3 A) as (y & Hy & _). exists (g y). unfold upd_txn. cbn.
  rewrite lookup_alter_eq, Hy. split; [done|]. right. by rewrite Hg, Hp by (by apply A).
Qed.

(** Linking behind an object that is new. *)
Lemma linked_set_next a n m :
  linked m -> (addressed m -> objects m0 !! a = None) -> linked (upd_obj a (object.set__next n) m).
Proof.
  intros [L1 L2 L3 L4] Hn.
  assert (forall c, is_Some (objects (upd_obj a (object.set__next n) m) !! c) <-> is_Some (objects m !! c)) as K.
  { intros c. unfold upd_obj. cbn. destruct (decide (a = c)) as [->|].
    - rewrite lookup_alter_eq. by rewrite fmap_is_Some.
    - by rewrite lookup_alter_ne. }
  assert (addressed (upd_obj a (object.set__next n) m) -> addressed m) as Ha.
  { intros A c Hc. apply A. by apply K. }
  split; [done| | |].
  - intros c Hc. apply K. auto.
  - intros A. exact (L3 (Ha A)).
  - intros A c o Ho. destruct (L4 (Ha A) c o Ho) as (o' & Ho' & E). exists o'. split; [|done].
    unfold upd_obj. cbn. rewrite lookup_alter_ne; [done|]. intros ->. by rewrite Hn in Ho by auto.
Qed.

Lemma linked_new_object sz e o :
  hoare linked (new_object_at sz e o)
    (fun r m => (linked m /\ is_Some (objects m !! r)) /\ objects m0 !! r = None).
Proof.
  apply hoare_atomic; [apply stable_quiet|]. intros m r m' Hm E. pose proof (Hfresh sz e m) as Hf.
  destruct (mm_allocate sz e m) as [c u]. simplify_eq/=. split_and!.
  - apply (linked_lstep m); [done|]. apply lstep_objects; [done..|].
    intros d od Hd. exists od. cbn. by rewrite lookup_insert_ne by congruence.
  - cbn. rewrite lookup_insert_eq. eauto.
  - apply eq_None_not_Some. intros Hs. apply (li_old m Hm) in Hs as [? Hs]. congruence.
Qed.

(** Reading the list of updated OIDs. *)
Lemma linked_rd_head (P : mem -> Prop) :
  hoare P (rd_txn this transaction.updated_oids_head)
    (fun h m => P m /\ exists y, txns m !! this = Some y /\ h = transaction.updated_oids_head y).
Proof.
  apply hoare_atomic; [apply stable_quiet|]. intros m h m' Hm E.
  destruct (txns m !! this) as [y|] eqn:Hy; simplify_eq. eauto.
Qed.

Lemma linked_rd_tail (P : mem -> Prop) h :
  (forall m, P m -> linked m) -> fat_ptr.eqb h NULL_PTR = false ->
  hoare (fun m => P m /\ exists y, txns m !! this = Some y /\ h = transaction.updated_oids_head y)
    (rd_txn this transaction.updated_oids_tail)
    (fun p m => P m /\ (addressed m -> objects m0 !! fat_ptr.offset p = None)).
Proof.
  intros HP Hh. apply hoare_atomic; [apply stable_quiet|]. intros m p m' (Hm & y & Hy & ->) E.
  rewrite Hy in E. injection E as <- <-. split; [done|]. intros A.
  destruct (li_tail m (HP m Hm) A) as (y' & Hy' & [Hn|Hn]); simplify_eq; [|done].
  by rewrite Hn in Hh.
Qed.

Lemma linked_enqueue w : hoare linked (enqueue_recycle_oids this w) (fun _ => linked).
Proof.
  unfold enqueue_recycle_oids. destruct (default _ _) as [code sz] eqn:E.
  eapply hoare_bind; [apply linked_new_object|]. intros r. apply hoare_pure. intros Hr.
  assert (fits 48 r -> fat_ptr.offset (fat_ptr.make r code 0) = r) as Eo.
  { intros Hf. by eapply recycle_ptr_offset. }
  eapply hoare_bind; [apply linked_rd_head|]. intros h.
  destruct (fat_ptr.eqb h NULL_PTR) eqn:Eh.
  - apply hoare_atomic; [apply stable_quiet|]. intros m u m' ([Hm Hs] & y & Hy & _) Eq.
    rewrite Hy in Eq. simplify_eq. by eapply linked_set_tail.
  - eapply hoare_bind; [apply linked_rd_tail; [by intros m []|done]|]. intros p.
    eapply (hoare_bind _ _ _ (fun _ m => linked m /\ is_Some (objects m !! r))).
    + apply hoare_atomic; [apply stable_quiet|]. intros m u m' ([Hm Hs] & Hp) Eq.
      destruct (objects m !! fat_ptr.offset p) as [op|] eqn:Hop; simplify_eq.
      split; [by apply linked_set_next|]. unfold upd_obj. cbn. destruct (decide (fat_ptr.offset p = r)) as [<-|].
      * rewrite lookup_alter_eq, Hop. eauto.
      * by rewrite lookup_alter_ne.
    + intros _. apply hoare_atomic; [apply stable_quiet|]. intros m u m' [Hm Hs] Eq.
      destruct (txns m !! this); simplify_eq. by eapply linked_set_tail.
Qed.

Lemma linked_recycle : hoare linked (recycle_updated_oids this) (fun _ => linked).
Proof.
  unfold recycle_updated_oids, recycle. eapply hoare_bind; [apply linked_rd_head|]. intros h.
  destruct (fat_ptr.eqb h NULL_PTR) eqn:Eh; cbn [negb]; [apply hoare_ret; by intros m []|].
  eapply hoare_bind; [by apply linked_rd_tail|]. intros p.
  eapply (hoare_bind _ _ _ (fun _ m => linked m /\ (addressed m -> objects m0 !! fat_ptr.offset p = None))).
  { apply hoare_atomic; [apply stable_quiet|]. intros m c m' [Hm Hp] [= <- <-]. split; [|done].
    apply (linked_lstep m); [done|]. apply lstep_objects; [done..|]. exact (links_refl m). }
  intros succ. apply hoare_atomic; [apply stable_quiet|]. intros m u m' [Hm Hp] Eq.
  destruct (objects m !! fat_ptr.offset p); simplify_eq. by apply linked_set_next.
Qed.

#[local] Hint Resolve guar_lstep_do_write guar_lstep_log_commit : guar.

Lemma lstep_upd_ctx i g m : lstep m (upd_ctx i g m).
Proof. apply lstep_objects; [done..|exact (links_refl m)]. Qed.

#[local] Hint Resolve lstep_upd_ctx : guar.

Lemma linked_post_write p w : hoare linked (si_post_write this p w) (fun _ => linked).
Proof.
  unfold si_post_write. apply hoare_seq; [apply linked_guar; guar|]. intros [|]; [by apply hoare_ret|].
  apply hoare_seq; [apply linked_guar; guar|]. intros _.
  apply hoare_seq.
  { apply linked_guar, guar_wr_obj. intros m. apply lstep_objects; [done..|by apply links_upd_obj]. }
  intros _. destruct enable_gc; [|by apply hoare_ret].
  apply hoare_seq; [apply linked_guar; guar|]. intros [n|]; [apply linked_enqueue|by apply hoare_ret].
Qed.

Lemma linked_post_writes p ws : hoare linked (for_all ws (si_post_write this p)) (fun _ => linked).
Proof.
  unfold for_all. apply hoare_seq; [|intros r; by apply hoare_ret].
  apply (hoare_for_each _ _ _ (fun _ _ => linked) (fun _ => linked)); [|done].
  intros pre w suf u _. apply hoare_seq; [apply linked_post_write|]. intros v. by apply hoare_ret.
Qed.

Lemma linked_si_commit : hoare linked (si_commit this) (fun _ => linked).
Proof.
  unfold si_commit. apply hoare_seq; [apply linked_guar; guar|]. intros xc.
  apply hoare_seq.
  { apply linked_guar, guar_atomic. intros m a m' E. right.
    destruct (log_pre_commit this (mlog m)) as [s l]. simplify_eq. apply lstep_objects; [done..|exact (links_refl m)]. }
  intros s. apply hoare_seq; [apply linked_guar; guar; auto with guar|]. intros _.
  destruct (s =? 0); [by apply hoare_ret|].
  apply hoare_seq; [apply linked_guar; guar|]. intros ok. destruct ok; cbn [negb]; [|by apply hoare_ret].
  apply hoare_seq; [apply linked_guar; guar|]. intros _.
  apply hoare_seq; [apply linked_guar; guar|]. intros clsn.
  apply hoare_seq; [apply linked_guar; guar|]. intros ws.
  apply hoare_seq; [apply linked_post_writes|]. intros _.
  apply hoare_seq; [apply linked_guar; guar; auto with guar|]. intros _.
  apply hoare_seq; [apply linked_recycle|]. intros _. by apply hoare_ret.
Qed.

Lemma linked_commit : SSN = false -> SSI = false -> hoare linked (commit this) (fun _ => linked).
Proof.
  intros E1 E2. unfold commit. rewrite E1, E2. cbn [orb].
  apply hoare_seq; [apply linked_guar; guar|]. intros xc.
  apply hoare_seq; [apply linked_guar; guar|]. intros st.
  apply hoare_seq; [apply linked_guar; guar|]. intros _.
  apply hoare_seq; [apply linked_guar; guar; auto with guar|]. intros _. apply linked_si_commit.
Qed.

End links.

Lemma linked_start `{CF : Config} `{Q : Quiet} this xc v s x m :
  older_snapshot this xc v s x m -> linked this m m.
Proof.
  intros H. split; [done..| |intros _; apply links_refl]. intros _. exists x.
  split; [apply (os_txn _ _ _ _ _ _ H)|left; apply (os_list _ _ _ _ _ _ H)].
Qed.

Section reads.
Context `{CF : Config} `{Q : Quiet}.
Context (this xc v s : Z) (x : transaction.t) (m m' : mem).
Context (H : older_snapshot this xc v s x m) (K : snap this xc v s x m m').

Lemma log_stamp_wf : fat_ptr.wf (log_stamp s).
Proof.
  unfold fat_ptr.wf, log_stamp. unfold INVALID_SIZE_CODE. pose proof (os_stamp _ _ _ _ _ _ H).
  rewrite to_log_ptr_layout by zlia. zlia.
Qed.

(** A version whose stamp can be interpreted stays one. *)
Lemma snap_settled a : settled m a -> settled m' a.
Proof.
  unfold settled. destruct (objects m !! a) as [o|] eqn:Ho; [|done].
  destruct (sn_stamps _ _ _ _ _ _ _ K a o Ho) as (o' & -> & [[-> _]|[_ ->]]); intros [Hw Hs].
  - by rewrite (sn_owner _ _ _ _ _ _ _ K).
  - split; [apply log_stamp_wf|left]. apply log_stamp_type, (os_stamp _ _ _ _ _ _ H).
Qed.

Lemma snap_newest l :
  Forall (settled m) l -> newest_visible m' v l = newest_visible m v l.
Proof.
  intros Hl. unfold newest_visible.
  enough (filter (fun a => visible m' v a = true) l = filter (fun a => visible m v a = true) l) as ->
    by done.
  induction Hl as [|a l Ha Hl IH]; [done|]. rewrite !filter_cons.
  rewrite (sn_visible _ _ _ _ _ _ _ K a); [by rewrite IH|].
  unfold old, settled in *. by destruct (objects m !! a).
Qed.

Lemma newest_is_visible l a : newest_visible m v l = Some a -> visible m v a = true.
Proof.
  unfold newest_visible. destruct (filter _ l) as [|c l'] eqn:E; intros ?; simplify_eq.
  assert (a ∈ a :: l') as Hin by left. rewrite <- E in Hin. by apply list_elem_of_filter in Hin as [].
Qed.

End reads.

(** C9: committing under snapshot isolation does not disturb a transaction
    that began earlier.  Whether the commit succeeds or fails, every record
    has the versions it had, in the same order; [oid_get_version] returns the
    earlier transaction the same version as before, and that version holds
    the same value.  It is assumed that the thread is undisturbed, that the
    record's versions are in memory with stamps that can be interpreted, that
    the build is one whose readers read their snapshot, and that the
    allocator hands out unused memory at addresses of 48 bits. *)
Theorem si_commit_keeps_older_snapshots `{CF : Config} `{Q : Quiet} this xc v s x m t rc m' t'
    (Hsi : plain_si) (E1 : SSN = false) (E2 : SSI = false) (H : older_snapshot this xc v s x m)
    (Hfresh : fresh_allocations) (Haddr : addressed m')
    (Hs : (log_pre_commit this (mlog m)).1 = s)
    (Hrun : commit this m t = Ok (rc, (m', t')))
    oa o l (Hc : chain m (oid_entry m oa o) l) (Hset : Forall (settled m) l)
    (Hfuel : (length l < fuel)%nat) :
  let r := newest_visible m v l in
  chain m' (oid_entry m' oa o) l /\
  runs (oid_get_version oa o v) m r m /\ runs (oid_get_version oa o v) m' r m' /\
  (forall a, r = Some a -> object.tuple <$> objects m' !! a = object.tuple <$> objects m !! a).
Proof.
  intros r. pose proof (commit_snap this xc v s x m H Hfresh E1 E2 Hs m t eq_refl) as K.
  pose proof (linked_commit this m Hfresh E1 E2 m t (linked_start _ _ _ _ _ _ H)) as L.
  rewrite Hrun in K, L.
  assert (chain m' (oid_entry m' oa o) l) as Hc'.
  { unfold oid_entry. rewrite (li_oids _ _ _ L). eapply chain_frame; [exact Hc|].
    intros a oa' _. apply (li_links _ _ _ L Haddr). }
  split_and!; [done|by apply runs_get_version| |].
  - unfold r. erewrite <- snap_newest by done. apply runs_get_version; try done.
    eapply Forall_impl; [exact Hset|]. intros a. by eapply snap_settled.
  - intros a Ha. apply newest_is_visible in Ha. pose proof Ha as Hv. unfold visible in Ha.
    destruct (objects m !! a) as [oa'|] eqn:Ho; [|done].
    destruct (sn_values _ _ _ _ _ _ _ K a oa' Ho Hv) as (o' & -> & E). cbn. by rewrite E.
Qed.

(** ** What later transactions see *)

(** A version that was superseded by its own writer, or carries commit stamp
    [s] and the bytes of its value. *)
Definition published (s : Z) (o : object.t) : Prop :=
  dbtuple.pvalue (object.tuple o) = DEFUNCT_TUPLE_MARK \/
  object._clsn o = log_stamp s /\
  (forall bs, dbtuple.pvalue (object.tuple o) = VARSTR bs ->
     take (length bs) (dbtuple.value_start (object.tuple o)) = bs).

Section publish.
Context `{CF : Config} `{Q : Quiet}.
Context (this s : Z) (x : transaction.t) (Hfresh : fresh_allocations).

(** Post-commit only ever turns a version towards being published. *)
Definition towards (o o' : object.t) : Prop :=
  dbtuple.pvalue (object.tuple o') = dbtuple.pvalue (object.tuple o) /\
  (object._clsn o' = object._clsn o \/ object._clsn o' = log_stamp s) /\
  (dbtuple.value_start (object.tuple o') = dbtuple.value_start (object.tuple o) \/
   tuple_do_write (object.tuple o) = Ok (object.tuple o')).

Definition pstep (m m' : mem) : Prop :=
  (forall y, txns m !! this = Some y -> exists y', txns m' !! this = Some y' /\
     transaction.write_set y' = transaction.write_set y) /\
  (forall a o, objects m !! a = Some o -> exists o', objects m' !! a = Some o' /\ towards o o').

Lemma do_write_value x1 x2 :
  tuple_do_write x1 = Ok x2 ->
  dbtuple.pvalue x2 = dbtuple.pvalue x1 /\
  (forall bs, dbtuple.pvalue x2 = VARSTR bs -> take (length bs) (dbtuple.value_start x2) = bs).
Proof.
  unfold tuple_do_write. destruct (dbtuple.pvalue x1) as [| |bs] eqn:E; intros ?; simplify_eq/=.
  - rewrite E. split; [done|]. congruence.
  - rewrite E. split; [done|]. intros bs' [= ->]. by rewrite take_app_length.
Qed.

Lemma published_towards o o' : published s o -> towards o o' -> published s o'.
Proof.
  intros Hp (E1 & E2 & E3). destruct Hp as [Hd|[Hc Hv]]; [left; congruence|right].
  split; [destruct E2; congruence|]. intros bs Hbs. destruct E3 as [->|Hw].
  - apply Hv. congruence.
  - by apply (do_write_value _ _ Hw).
Qed.

Lemma towards_refl o : towards o o.
Proof. split_and!; auto. Qed.

Lemma pstep_upd_obj a g m : (forall o, towards o (g o)) -> pstep m (upd_obj a g m).
Proof.
  intros K. split; [eauto|]. intros c o Ho. unfold upd_obj. cbn.
  destruct (decide (a = c)) as [->|].
  - exists (g o). by rewrite lookup_alter_eq, Ho.
  - exists o. rewrite lookup_alter_ne by done. split; [done|apply towards_refl].
Qed.

Lemma pstep_txn g m :
  (forall y, transaction.write_set (g y) = transaction.write_set y) -> pstep m (upd_txn this g m).
Proof.
  intros E. split.
  - intros y Hy. exists (g y). unfold upd_txn. cbn. by rewrite lookup_alter_eq, Hy.
  - intros a o Ho. exists o. split; [done|apply towards_refl].
Qed.

Lemma guar_pstep_new_object sz e o : guar pstep (new_object_at sz e o).
Proof.
  apply guar_atomic. intros m a m' E. right. pose proof (Hfresh sz e m) as Hf.
  destruct (mm_allocate sz e m) as [c u]. simplify_eq/=. split; [eauto|].
  intros d od Hd. exists od. cbn. rewrite lookup_insert_ne by congruence.
  split; [done|apply towards_refl].
Qed.

Lemma guar_pstep_do_write a : guar pstep (do_write a).
Proof.
  apply guar_atomic. intros m u m' E. right. destruct (objects m !! a) as [o|] eqn:Ho; [|done].
  destruct (tuple_do_write (object.tuple o)) as [y|] eqn:Ew; simplify_eq. split; [eauto|].
  intros c oc Hc. unfold upd_obj. cbn. destruct (decide (a = c)) as [->|].
  - exists (object.set_tuple y oc). rewrite lookup_alter_eq, Hc. simplify_eq. split; [done|].
    split_and!; cbn; [by apply do_write_value in Ew as []|by left|by right].
  - exists oc. rewrite lookup_alter_ne by done. split; [done|apply towards_refl].
Qed.

#[local] Hint Resolve guar_pstep_new_object guar_pstep_do_write : guar.

Lemma guar_pstep_enqueue w : guar pstep (enqueue_recycle_oids this w).
Proof.
  unfold enqueue_recycle_oids.
  destruct (default _ (encode_size_aligned _ _)) as [code size]. guar.
  - by apply pstep_txn.
  - apply pstep_upd_obj. intros o. split_and!; auto.
  - by apply pstep_txn.
Qed.

Lemma guar_pstep_recycle : guar pstep (recycle_updated_oids this).
Proof.
  unfold recycle_updated_oids, recycle. guar.
  - apply guar_atomic. intros m c m' [= <- <-]. right. split; [eauto|].
    intros a' o Ho. exists o. split; [done|apply towards_refl].
  - apply pstep_upd_obj. intros o. split_and!; auto.
Qed.

#[local] Hint Resolve guar_pstep_enqueue guar_pstep_recycle : guar.

Definition pub (done : list write_record_t) (m : mem) : Prop :=
  forall w, w ∈ done -> exists o, objects m !! get_object w = Some o /\ published s o.

Lemma pub_step done m m' : pub done m -> pstep m m' -> pub done m'.
Proof.
  intros Hp [_ Ho] w Hw. destruct (Hp w Hw) as (o & Hl & Hpo). destruct (Ho _ _ Hl) as (o' & Hl' & Ht).
  exists o'. split; [done|]. by eapply published_towards.
Qed.

Lemma pub_more done w m :
  pub done m -> (exists o, objects m !! get_object w = Some o /\ published s o) -> pub (done ++ [w]) m.
Proof. intros Hp Hw w' [Hin| ->%list_elem_of_singleton]%elem_of_app; auto. Qed.

Lemma pub_guar {A} done (c : M A) : guar pstep c -> hoare (pub done) c (fun _ => pub done).
Proof. intros K. apply (guar_inv pstep); [done|apply stable_quiet|apply pub_step]. Qed.

(** The value of the version at [a] is in place. *)
Definition value_ok (a : Z) (m : mem) : Prop :=
  exists o, objects m !! a = Some o /\
    (forall bs, dbtuple.pvalue (object.tuple o) = VARSTR bs ->
       take (length bs) (dbtuple.value_start (object.tuple o)) = bs).

Lemma do_write_spec done a :
  hoare (pub done) (do_write a) (fun _ m => pub done m /\ value_ok a m).
Proof.
  intros m t Hp. pose proof (guar_pstep_do_write a (pub done) (stable_quiet _) (pub_step done) m t Hp) as K.
  unfold do_write, at_obj, atomic in *. rewrite quiet in *.
  destruct (objects m !! a) as [o|] eqn:Ho; [|done].
  destruct (tuple_do_write (object.tuple o)) as [y|] eqn:Ew; [|done].
  split; [exact K|]. exists (object.set_tuple y o). unfold upd_obj. cbn.
  rewrite lookup_alter_eq, Ho. split; [done|]. cbn. by apply (do_write_value _ _ Ew).
Qed.

Lemma set_clsn_spec done w :
  hoare (fun m => pub done m /\ value_ok (get_object w) m)
    (wr_obj (get_object w) (object.set__clsn (log_stamp s))) (fun _ => pub (done ++ [w])).
Proof.
  apply hoare_atomic; [apply stable_quiet|]. intros m a m' [Hp (o & Ho & Hv)] E.
  rewrite Ho in E. simplify_eq. apply pub_more.
  - eapply pub_step; [done|]. apply pstep_upd_obj. intros o'. split_and!; auto.
  - exists (object.set__clsn (log_stamp s) o). unfold upd_obj. cbn.
    rewrite lookup_alter_eq, Ho. split; [done|]. right. by split.
Qed.

Lemma post_write_spec done w :
  hoare (pub done) (si_post_write this (log_stamp s) w) (fun _ => pub (done ++ [w])).
Proof.
  unfold si_post_write.
  eapply (hoare_bind _ _ _ (fun d m => pub done m /\ (d = true -> pub (done ++ [w]) m))).
  { apply hoare_atomic; [apply stable_quiet|]. intros m d m' Hp E.
    destruct (objects m !! get_object w) as [o|] eqn:Ho; simplify_eq. split; [done|].
    intros Hd. apply bool_decide_eq_true in Hd. apply pub_more; [done|]. exists o.
    split; [done|by left]. }
  intros [|]; [apply hoare_ret; intros m [_ K]; by apply K|].
  eapply hoare_pre; [intros m [K _]; exact K|].
  eapply hoare_bind; [apply do_write_spec|]. intros u. cbv beta. clear u.
  eapply hoare_bind; [apply set_clsn_spec|]. intros u. cbv beta. clear u. apply pub_guar. guar.
Qed.

Lemma post_writes_spec ws :
  hoare (fun _ => True) (for_all ws (si_post_write this (log_stamp s))) (fun _ => pub ws).
Proof.
  unfold for_all. eapply hoare_pre with (pub []); [intros m _ w Hw; set_solver|].
  eapply hoare_bind.
  - apply (hoare_for_each _ _ _ (fun done _ => pub done) (fun _ => pub ws)); [|done].
    intros pre w suf u ->. eapply hoare_bind; [apply post_write_spec|]. intros v. by apply hoare_ret.
  - intros r. by apply hoare_ret.
Qed.

(** The write set of [this] is that of [x], and [c] is its context. *)
Definition writes (c : Z) (m : mem) : Prop :=
  exists y, txns m !! this = Some y /\ transaction.write_set y = transaction.write_set x /\
    transaction.xc y = c.

Lemma rd_writes {A} c (f : transaction.t -> A) (P : mem -> Prop) :
  (forall m, P m -> writes c m) ->
  hoare P (rd_txn this f) (fun a m => P m /\ exists y, a = f y /\
    transaction.write_set y = transaction.write_set x /\ transaction.xc y = c).
Proof.
  intros HP. apply hoare_atomic; [apply stable_quiet|]. intros m a m' Hm E.
  destruct (HP m Hm) as (y & Hy & ? & ?). rewrite Hy in E. simplify_eq. split; [done|eauto].
Qed.

(** The outcome for the versions written. *)
Definition outcome (c rc : Z) (m : mem) : Prop :=
  rc = RC_TRUE -> xid_context.state (ctx m c) = TXN_CMMTD /\ pub (transaction.write_set x) m.

Definition ready (c : Z) (m : mem) : Prop := writes c m /\ xid_context.end_ (ctx m c) = s.

Lemma finish_publishes c :
  hoare (ready c)
    (tx_log_commit this ;;;
     let* clsn := rd_ctx c xid_context.end_ in
     let* ws := rd_txn this transaction.write_set in
     for_all ws (si_post_write this (log_stamp clsn)) ;;;
     wr_ctx c (xid_context.set_state TXN_CMMTD) ;;;
     recycle_updated_oids this ;;;
     ret RC_TRUE) (outcome c).
Proof.
  apply hoare_seq.
  { apply hoare_wr; [apply stable_quiet|]. intros m [Hw He].
    destruct (log_commit this (mlog m)) as [l ps]. unfold ready, writes, ctx.
    by rewrite fill_pdest_txns, fill_pdest_contexts. }
  intros _. eapply (hoare_bind _ _ _ (fun a m => ready c m /\ a = s)).
  { apply hoare_rd; [apply stable_quiet|]. intros m Hm. split; [done|]. apply Hm. }
  intros a. apply hoare_pure. intros ->.
  eapply hoare_bind; [apply (rd_writes c); by intros m []|]. intros ws. apply hoare_pure.
  intros (y & -> & -> & _).
  eapply hoare_bind; [eapply hoare_pre; [|apply post_writes_spec]; done|]. intros u. cbv beta. clear u.
  eapply (hoare_bind _ _ _ (fun _ m => xid_context.state (ctx m c) = TXN_CMMTD /\
    pub (transaction.write_set x) m)).
  { apply hoare_wr; [apply stable_quiet|]. intros m Hp. by rewrite ctx_upd_eq. }
  intros u. cbv beta. clear u. eapply hoare_bind; [|intros u; apply hoare_ret; intros m K _; exact K].
  intros m t [Hst Hp].
  pose proof (guar_recycle_updated this (fun m => xid_context.state (ctx m c) = TXN_CMMTD)
    (stable_quiet _)) as K1.
  pose proof (pub_guar _ _ guar_pstep_recycle m t Hp) as K2.
  assert (forall m m', xid_context.state (ctx m c) = TXN_CMMTD -> same_contexts m m' ->
    xid_context.state (ctx m' c) = TXN_CMMTD) as K3.
  { intros m1 m2 E Ec. unfold ctx. by rewrite Ec. }
  specialize (K1 K3 m t Hst). destruct (recycle_updated_oids this m t) as [[u [m' t']]|]; done.
Qed.

Lemma si_commit_outcome c :
  hoare (fun m => writes c m /\ (log_pre_commit this (mlog m)).1 = s) (si_commit this) (outcome c).
Proof.
  unfold si_commit. eapply hoare_bind; [apply (rd_writes c); by intros m []|].
  intros a. apply hoare_pure. intros (y & -> & _ & ->).
  eapply (hoare_bind _ _ _ (fun a m => writes c m /\ a = s)).
  { apply hoare_atomic; [apply stable_quiet|]. intros m a m' [Hm Hs] E.
    destruct (log_pre_commit this (mlog m)) as [s' l]. by simplify_eq/=. }
  intros a. apply hoare_pure. intros ->.
  eapply (hoare_bind _ _ _ (fun _ => ready c)).
  { apply hoare_wr; [apply stable_quiet|]. intros m Hm. split; [done|]. by rewrite ctx_upd_eq. }
  intros u. cbv beta. clear u. destruct (s =? 0); [by apply hoare_ret|].
  apply hoare_seq.
  { destruct PHANTOM_PROT; [|by apply hoare_ret].
    apply (guar_inv (fun m m' => m' = m)); [guar|apply stable_quiet|by intros ?? ? ->]. }
  intros ok. destruct ok; cbn [negb]; [|by apply hoare_ret]. apply finish_publishes.
Qed.

Lemma commit_outcome :
  SSN = false -> SSI = false ->
  hoare (fun m => txns m !! this = Some x /\ (log_pre_commit this (mlog m)).1 = s) (commit this)
    (outcome (transaction.xc x)).
Proof.
  intros E1 E2. unfold commit. rewrite E1, E2. cbn [orb].
  eapply hoare_pre with (fun m => writes (transaction.xc x) m /\ (log_pre_commit this (mlog m)).1 = s).
  { intros m [Hx Hs]. split; [|done]. by exists x. }
  eapply hoare_bind; [apply (rd_writes (transaction.xc x)); by intros m []|].
  intros a. apply hoare_pure. intros (y & -> & _ & ->).
  apply hoare_seq; [by apply hoare_rd; [apply stable_quiet|]|]. intros st.
  apply hoare_seq; [by apply hoare_assert|]. intros _.
  apply hoare_seq; [|intros _; apply si_commit_outcome].
  by apply hoare_wr; [apply stable_quiet|].
Qed.

End publish.

(** C10: when [commit] returns [RC_TRUE] under snapshot isolation the
    transaction is in state [TXN_CMMTD] and every version of its write set --
    except those it overwrote itself -- carries the commit stamp returned by
    the log and the bytes written, and is visible to every transaction that
    begins at or after the commit stamp. *)
Theorem si_commit_publishes `{CF : Config} `{Q : Quiet} this x s m t m' t'
    (E1 : SSN = false) (E2 : SSI = false) (Hfresh : fresh_allocations)
    (Hx : txns m !! this = Some x) (Hs : (log_pre_commit this (mlog m)).1 = s) (Hfit : fits 48 s)
    (Hrun : commit this m t = Ok (RC_TRUE, (m', t'))) :
  xid_context.state (ctx m' (transaction.xc x)) = TXN_CMMTD /\
  (forall w, w ∈ transaction.write_set x ->
     exists o, objects m' !! get_object w = Some o /\ published s o /\
       (dbtuple.pvalue (object.tuple o) <> DEFUNCT_TUPLE_MARK ->
        forall v, s <= xid_context.begin_ (ctx m' v) -> visible m' v (get_object w) = true)).
Proof.
  pose proof (commit_outcome this s x Hfresh E1 E2 m t (conj Hx Hs)) as K.
  rewrite Hrun in K. destruct (K eq_refl) as [Hst Hp]. split; [done|].
  intros w Hw. destruct (Hp w Hw) as (o & Ho & Hpo). exists o. split_and!; [done..|].
  intros Hd v Hv. destruct Hpo as [|[Hc _]]; [done|]. unfold visible. rewrite Ho, Hc.
  rewrite log_stamp_type, log_stamp_offset by done. by apply Z.leb_le.
Qed.

(** ** Examples *)

Section examples.

#[local] Instance si_config : Config := config false false SSN_READ_OPT_DISABLED.
#[local] Instance si_platform : Platform := demo_platform alone 1.
#[local] Instance si_quiet : Quiet.
Proof. done. Qed.

Lemma demo_fresh : fresh_allocations.
Proof. intros sz e m. apply top_address_fresh. Qed.

(** Transaction 1 replaces the version committed at 50; the log will give it
    stamp 116.  Transaction 2 began at 90, transaction 3 at 200. *)
Definition si_mem : mem :=
  with_object 4096 (committed_version NULL_PTR 50 0 [1; 2])
    (with_object 8192 (dirty_version (ptr 4096) (XID.make 1 1) [3])
      (with_oid 7 1 (ptr 8192)
        (with_context 1 (context 1 80 0 TXN_ACTIVE)
          (with_context 2 (context 2 90 0 TXN_ACTIVE)
            (with_context 3 (context 3 200 0 TXN_ACTIVE)
              (with_txn 1 (txn_of 1 0 [write_record (ptr 8192) 7 1] []) empty_mem)))))).

(** The addresses of a finite map, checked one by one. *)
Lemma addressed_check m :
  forallb (fun p => (0 <=? p.1) && (p.1 <? 2 ^ 48)) (map_to_list (objects m)) = true -> addressed m.
Proof.
  intros E a [o Ho]. apply elem_of_map_to_list in Ho. rewrite forallb_forall in E.
  specialize (E (a, o)). rewrite <- list_elem_of_In in E. apply E in Ho. cbn in Ho. unfold fits. lia.
Qed.

Lemma si_mem_commits : exists m' t', commit 1 si_mem O = Ok (RC_TRUE, (m', t')) /\ addressed m'.
Proof. eexists _, _. split; [vm_compute; reflexivity|]. by apply addressed_check. Qed.

Lemma si_mem_chain : chain si_mem (oid_entry si_mem 7 1) [8192; 4096].
Proof.
  apply (chain_cons si_mem (ptr 8192) (dirty_version (ptr 4096) (XID.make 1 1) [3])); [done|done|reflexivity|].
  apply (chain_cons si_mem (ptr 4096) (committed_version NULL_PTR 50 0 [1; 2])); [done|done|reflexivity|].
  by constructor.
Qed.

Lemma si_mem_settled : Forall (settled si_mem) [8192; 4096].
Proof.
  apply Forall_cons; split; [|apply Forall_singleton].
  - split; [vm_compute; split; congruence|right].
    split_and!; [reflexivity|done|vm_compute; split; congruence|reflexivity].
  - split; [vm_compute; split; congruence|by left].
Qed.

Lemma si_mem_older : older_snapshot 1 1 2 116 (txn_of 1 0 [write_record (ptr 8192) 7 1] []) si_mem.
Proof.
  split; [reflexivity|reflexivity|done|zlia|vm_compute; reflexivity|done|reflexivity|].
  intros w ->%list_elem_of_singleton. eexists. split_and!; [vm_compute; reflexivity|reflexivity..|done].
Qed.

Lemma si_commit_keeps_older_snapshots_witness :
  exists m' t', commit 1 si_mem O = Ok (RC_TRUE, (m', t')) /\
    runs (oid_get_version 7 1 2) m' (Some 4096) m'.
Proof.
  destruct si_mem_commits as (m' & t' & E & A). exists m', t'. split; [exact E|].
  destruct (si_commit_keeps_older_snapshots (CF := si_config) 1 1 2 116 (txn_of 1 0 [write_record (ptr 8192) 7 1] [])
    si_mem O RC_TRUE m' t' (conj eq_refl (conj eq_refl eq_refl)) eq_refl eq_refl si_mem_older demo_fresh A
    eq_refl E 7 1 [8192; 4096] si_mem_chain si_mem_settled ltac:(cbn; lia)) as (_ & _ & R & _). exact R.
Defined.

Lemma si_commit_publishes_witness :
  exists m' t', commit 1 si_mem O = Ok (RC_TRUE, (m', t')) /\
    xid_context.state (ctx m' 1) = TXN_CMMTD.
Proof.
  destruct si_mem_commits as (m' & t' & E & _). exists m', t'. split; [exact E|].
  destruct (si_commit_publishes (CF := si_config) 1 (txn_of 1 0 [write_record (ptr 8192) 7 1] []) 116 si_mem O m' t'
    eq_refl eq_refl demo_fresh eq_refl eq_refl ltac:(zlia) E) as [H _]. exact H.
Defined.

End examples.
