(* ===== verification/CommitTotal.v ===== *)
(** * Snapshot-isolation commit returns ([transaction::commit], [si_commit])

    From a well-formed memory [commit] finishes without an error, and its
    result depends on the log and the absent set only. *)
From stdpp Require Import base numbers list gmap.
From Stdlib Require Import ZArith Lia.
From S2P Require Import Prelude FatPtr SizeEncode Shared Program Contexts Readers Versions Txn.
From S2P Require Import Ssn Ssi Engine Scenario Snapshot.

Local Open Scope Z_scope.

(** The allocator hands out non-null addresses that fit a fat pointer. *)
Definition addressable_allocations `{PL : Platform} : Prop :=
  forall sz e m, 0 < (mm_allocate sz e m).1 < 2 ^ 48.

Section returns.
Context `{CF : Config} `{Q : Quiet} (Haddr : addressable_allocations).
Context (this xc : Z) (ws : list write_record_t).

(** The list of updated OIDs can be appended to. *)
Definition wf_oid_list (y : transaction.t) (m : mem) : Prop :=
  transaction.updated_oids_head y = NULL_PTR \/
  is_Some (objects m !! fat_ptr.offset (transaction.updated_oids_tail y)).

(** The transaction object and what it points to are in memory. *)
Definition committable (m : mem) : Prop :=
  (exists y, txns m !! this = Some y /\ transaction.write_set y = ws /\ transaction.xc y = xc /\
     wf_oid_list y m) /\
  (forall w, w ∈ ws -> is_Some (objects m !! get_object w)).

Lemma committable_objects m m' :
  txns m' = txns m -> (forall a, is_Some (objects m !! a) -> is_Some (objects m' !! a)) ->
  committable m -> committable m'.
Proof.
  intros Et Ho [(y & Hy & ? & ? & Hl) Hw]. split; [|auto]. exists y. rewrite Et. split_and!; [done..|].
  destruct Hl as [|]; [by left|right; auto].
Qed.

Lemma committable_upd_obj a g m : committable m -> committable (upd_obj a g m).
Proof.
  apply committable_objects; [done|]. intros c [o Ho]. unfold upd_obj. cbn.
  destruct (decide (a = c)) as [->|]; [rewrite lookup_alter_eq, Ho|rewrite lookup_alter_ne by done]; eauto.
Qed.

Lemma committable_upd_ctx i g m : committable m -> committable (upd_ctx i g m).
Proof. by apply committable_objects. Qed.

Lemma committable_fill ps m : committable m -> committable (fill_pdest ps m).
Proof. induction ps as [|[a p] ps IH]; simpl; [done|]. intros Hm. by apply committable_upd_obj, IH. Qed.

Lemma total_rd_committer {A} (f : transaction.t -> A) (P : mem -> Prop) :
  (forall m, P m -> committable m) ->
  total P (rd_txn this f) (fun a m => P m /\ exists y, txns m !! this = Some y /\ a = f y /\
    transaction.write_set y = ws /\ transaction.xc y = xc /\ wf_oid_list y m).
Proof.
  intros HP. apply total_rd_txn; [apply stable_quiet|]. intros m Hm.
  destruct (HP m Hm) as [(y & Hy & ? & ? & ?) _]. exists y. split; [done|]. eauto 8.
Qed.

(** ** Appending to the list of updated OIDs *)

(** Storing a new tail that is in memory. *)
Lemma committable_append m g objr p :
  committable m -> is_Some (objects m !! objr) -> fat_ptr.offset p = objr ->
  (forall y, transaction.write_set (g y) = transaction.write_set y /\
     transaction.xc (g y) = transaction.xc y /\ transaction.updated_oids_tail (g y) = p) ->
  committable (upd_txn this g m).
Proof.
  intros [(y & Hy & E1 & E2 & _) Hw] Ho Hp Hg. destruct (Hg y) as (G1 & G2 & G3). split; [|done].
  exists (g y). unfold upd_txn. cbn. rewrite lookup_alter_eq, Hy. split_and!; [done|congruence..|].
  right. rewrite G3, Hp. done.
Qed.

Lemma total_new_object sz e o :
  total committable (new_object_at sz e o)
    (fun a m => (committable m /\ is_Some (objects m !! a)) /\ 0 < a < 2 ^ 48).
Proof.
  apply total_atomic; [apply stable_quiet|]. intros m Hm. pose proof (Haddr sz e m) as Ha.
  destruct (mm_allocate sz e m) as [a u] eqn:Em. eexists _, _. split; [done|]. cbn in Ha |- *.
  split_and!; [|by rewrite lookup_insert_eq; eexists|lia..].
  eapply (committable_objects m); [done| |done]. intros c Hc. cbn.
  destruct (decide (a = c)) as [->|]; [rewrite lookup_insert_eq|rewrite lookup_insert_ne by done]; eauto.
Qed.

Lemma total_enqueue w : total committable (enqueue_recycle_oids this w) (fun _ => committable).
Proof.
  unfold enqueue_recycle_oids. destruct (default _ _) as [code sz] eqn:E.
  eapply total_bind; [apply total_new_object|]. intros objr. apply total_pure. intros Hr.
  pose proof (recycle_ptr_offset objr code sz ltac:(unfold fits; lia) E) as Eo.
  set (P := fun m => committable m /\ is_Some (objects m !! objr)).
  eapply total_bind; [apply (total_rd_committer _ P); by intros m []|]. intros head.
  destruct (fat_ptr.eqb head NULL_PTR) eqn:Eh.
  - apply total_wr_txn; [apply stable_quiet|]. intros m [[Hm Ho] (y & Hy & _)]. split; [by eexists|].
    by eapply committable_append.
  - apply total_bind with (fun tail m => P m /\ is_Some (objects m !! fat_ptr.offset tail)).
    { apply total_rd_txn; [apply stable_quiet|]. intros m [Hm (y & Hy & -> & _ & _ & Hl)]. exists y.
      split_and!; [done..|]. destruct Hl as [Hn|]; [|done]. by rewrite Hn in Eh. }
    intros tail. apply total_bind with (fun _ => P).
    + apply total_wr_obj; [apply stable_quiet|]. intros m [[Hm Ho] Ht]. split; [done|]. split.
      * by apply committable_upd_obj.
      * unfold upd_obj. cbn. destruct Ho as [o Ho]. destruct (decide (fat_ptr.offset tail = objr)) as [->|];
          [rewrite lookup_alter_eq, Ho|rewrite lookup_alter_ne by done]; eauto.
    + intros _. apply total_wr_txn; [apply stable_quiet|]. intros m [Hm Ho].
      split; [destruct Hm as [(y & Hy & _) _]; by eexists|]. by eapply committable_append.
Qed.

Lemma total_recycle : total committable (recycle_updated_oids this) (fun _ => committable).
Proof.
  unfold recycle_updated_oids, recycle.
  eapply total_bind; [by apply (total_rd_committer _ committable)|]. intros head.
  destruct (negb (fat_ptr.eqb head NULL_PTR)) eqn:Eh; [|apply total_ret; by intros m []].
  apply total_bind with (fun tail m => committable m /\ is_Some (objects m !! fat_ptr.offset tail)).
  { apply total_rd_txn; [apply stable_quiet|]. intros m [Hm (y & Hy & -> & _ & _ & Hl)]. exists y.
    split_and!; [done..|]. destruct Hl as [Hn|]; [|done]. by rewrite Hn in Eh. }
  intros tail. apply total_seq.
  { apply total_atomic; [apply stable_quiet|]. intros m [Hm Ht]. eexists _, _. split; [done|]. split; [|done].
    by apply (committable_objects m). }
  intros succ. apply total_wr_obj; [apply stable_quiet|]. intros m [Hm Ht]. split; [done|].
  by apply committable_upd_obj.
Qed.

(** ** Post-commit *)

Lemma total_post_write clsn w :
  w ∈ ws -> total committable (si_post_write this clsn w) (fun _ => committable).
Proof.
  intros Hw. assert (forall m, committable m -> exists o, objects m !! get_object w = Some o) as Ho.
  { intros m [_ H]. destruct (H w Hw) as [o Ho]. eauto. }
  unfold si_post_write.
  apply total_bind with (fun d m => committable m /\ (d = false -> exists o, objects m !! get_object w = Some o /\
    dbtuple.pvalue (object.tuple o) <> DEFUNCT_TUPLE_MARK)).
  { apply total_rd_obj; [apply stable_quiet|]. intros m Hm. destruct (Ho m Hm) as [o Eo]. exists o.
    split_and!; [done..|]. intros Hd. apply bool_decide_eq_false in Hd. eauto. }
  intros [|]; [apply total_ret; by intros m []|].
  apply total_bind with (fun _ => committable).
  { apply total_atomic; [apply stable_quiet|]. intros m [Hm Hd]. destruct (Hd eq_refl) as (o & -> & Hn).
    unfold tuple_do_write. destruct (dbtuple.pvalue (object.tuple o)) as [| |bs]; [|done|];
      (eexists _, _; split; [done|by apply committable_upd_obj]). }
  intros _. apply total_seq.
  { apply total_wr_obj; [apply stable_quiet|]. intros m Hm. split; [|by apply committable_upd_obj].
    destruct (Ho m Hm) as [o ->]. by eexists. }
  intros _. destruct enable_gc; [|by apply total_ret]. apply total_seq.
  { unfold tuple_next. apply total_seq; [|intros p; by apply total_ret].
    apply total_rd_obj; [apply stable_quiet|]. intros m Hm. destruct (Ho m Hm) as [o Eo]. eauto. }
  intros [nx|]; [apply total_enqueue|by apply total_ret].
Qed.

Lemma total_post_writes clsn :
  total committable (for_all ws (si_post_write this clsn)) (fun _ => committable).
Proof.
  unfold for_all. apply total_bind with (fun _ => committable); [|intros r; by apply total_ret].
  apply (total_for_each _ _ tt (fun _ _ => committable)); [|done].
  intros pre w suf u Es. eapply total_bind; [apply total_post_write; rewrite Es; set_solver|].
  intros v. by apply total_ret.
Qed.

(** ** The decision *)

(** Every node of the absent set still has the version that was seen. *)
Definition nodes_unchanged (ix : index_t) (absent : gmap Z Z) : bool :=
  forallb (fun r => index_node_version ix (fst r) =? snd r) (map_to_list absent).

Lemma total_check_phantom (P : mem -> Prop) ix absent :
  (forall m, P m -> exists y, txns m !! this = Some y /\ transaction.absent_set y = absent /\ mindex m = ix) ->
  total P (check_phantom this) (fun b m => P m /\ b = nodes_unchanged ix absent).
Proof.
  intros HP. unfold check_phantom.
  apply total_bind with (fun l m => P m /\ l = absent).
  { apply total_rd_txn; [apply stable_quiet|]. intros m Hm. destruct (HP m Hm) as (y & Hy & E & _). eauto. }
  intros l. apply total_pure. intros ->.
  apply total_bind with (fun r m => P m /\
    (match r with inl _ => true | inr _ => false end) = nodes_unchanged ix absent).
  { unfold nodes_unchanged. set (ok := fun r : Z * Z => index_node_version ix (fst r) =? snd r).
    apply total_pre with (fun m => P m /\ forallb ok [] = true); [done|].
    apply (total_for_each _ _ tt (fun done _ m => P m /\ forallb ok done = true)).
    - intros pre r suf u E. apply total_bind with (fun v m => (P m /\ forallb ok pre = true) /\
        v = index_node_version ix (fst r)).
      { apply total_rd; [apply stable_quiet|]. intros m [Hm Hd]. destruct (HP m Hm) as (y & _ & _ & <-). done. }
      intros v. apply total_pure. intros ->. apply total_ret. intros m [Hm Hd].
      rewrite E, !forallb_app, Hd. cbn. fold (ok r). by destruct (ok r).
    - intros u m [Hm ->]. done. }
  intros r. apply total_ret. by intros m [? <-].
Qed.

(** What [commit] returns, given the log's commit stamp. *)
Definition commit_result (s : Z) (ix : index_t) (absent : gmap Z Z) : Z :=
  if s =? 0 then RC_ABORT_INTERNAL
  else if PHANTOM_PROT && negb (nodes_unchanged ix absent) then RC_ABORT_PHANTOM
  else RC_TRUE.

Lemma total_finish clsn :
  total committable
    (let* ws := rd_txn this transaction.write_set in
     for_all ws (si_post_write this clsn) ;;;
     wr_ctx xc (xid_context.set_state TXN_CMMTD) ;;;
     recycle_updated_oids this ;;;
     ret RC_TRUE) (fun rc _ => rc = RC_TRUE).
Proof.
  eapply total_bind; [by apply (total_rd_committer _ committable)|]. intros l.
  eapply total_pre with (fun m => committable m /\ l = ws).
  { by intros m (Hm & y & _ & -> & -> & _). }
  apply total_pure. intros ->. eapply total_bind; [apply total_post_writes|]. intros u.
  apply total_seq.
  { apply total_wr; [apply stable_quiet|]. intros m Hm. by apply committable_upd_ctx. }
  intros v. eapply total_bind; [apply total_recycle|]. intros z. by apply total_ret.
Qed.

Lemma total_si_commit s ix absent :
  total (fun m => committable m /\ (log_pre_commit this (mlog m)).1 = s /\
           (exists y, txns m !! this = Some y /\ transaction.absent_set y = absent) /\ mindex m = ix)
    (si_commit this) (fun rc _ => rc = commit_result s ix absent).
Proof.
  set (P := fun m => committable m /\
    (exists y, txns m !! this = Some y /\ transaction.absent_set y = absent) /\ mindex m = ix).
  apply total_pre with (fun m => P m /\ (log_pre_commit this (mlog m)).1 = s).
  { by intros m (? & ? & ? & ?). }
  unfold si_commit. eapply total_bind; [apply (total_rd_committer _ (fun m => P m /\ (log_pre_commit this (mlog m)).1 = s)); by intros m [[] ]|].
  intros c. apply total_pre with (fun m => (P m /\ (log_pre_commit this (mlog m)).1 = s) /\ c = xc).
  { by intros m (Hm & y & _ & -> & _ & -> & _). }
  apply total_pure. intros ->.
  apply total_bind with (fun s' m => P m /\ s' = s).
  { apply total_atomic; [apply stable_quiet|]. intros m [(Hm & Ha & Hi) Hs].
    destruct (log_pre_commit this (mlog m)) as [s' l]. eexists _, _. split; [done|]. split; [|done].
    split_and!; [|done|done]. by apply (committable_objects m). }
  intros s'. apply total_pure. intros ->. apply total_seq.
  { apply total_wr; [apply stable_quiet|]. intros m (Hm & Ha & Hi). split_and!; [by apply committable_upd_ctx|done|done]. }
  intros _. unfold commit_result. destruct (s =? 0); [by apply total_ret|].
  apply total_bind with (fun ok m => P m /\ ok = negb (PHANTOM_PROT && negb (nodes_unchanged ix absent))).
  { destruct PHANTOM_PROT; [|by apply total_ret]. eapply total_post; [apply (total_check_phantom P ix absent)|].
    - intros m (_ & (y & Hy & E) & Hi). eauto.
    - intros b m [Hm ->]. cbn [andb]. by rewrite negb_involutive. }
  intros ok. apply total_pure. intros ->. rewrite negb_involutive.
  destruct (PHANTOM_PROT && _); [by apply total_ret|].
  apply total_pre with committable; [by intros m []|]. apply total_seq.
  { apply total_wr; [apply stable_quiet|]. intros m Hm. destruct (log_commit this (mlog m)) as [l ps].
    apply committable_fill. by apply (committable_objects m). }
  intros _. apply total_seq; [by apply total_rd; [apply stable_quiet|]|]. intros clsn. apply total_finish.
Qed.

End returns.

(** C28: under snapshot isolation [commit] of an active transaction, with its
    write set in memory, always finishes: with [RC_ABORT_INTERNAL] when the
    log gives no commit stamp, with [RC_ABORT_PHANTOM] when phantom protection
    is on and a node of the absent set changed, and with [RC_TRUE] otherwise. *)
Theorem si_commit_returns `{CF : Config} `{Q : Quiet} this x m
    (E1 : SSN = false) (E2 : SSI = false) (Haddr : addressable_allocations)
    (Hx : txns m !! this = Some x) (Hlist : wf_oid_list x m)
    (Hws : forall w, w ∈ transaction.write_set x -> is_Some (objects m !! get_object w))
    (Hactive : xid_context.state (ctx m (transaction.xc x)) = TXN_ACTIVE) :
  total (eq m) (commit this) (fun rc _ =>
    rc = commit_result (log_pre_commit this (mlog m)).1 (mindex m) (transaction.absent_set x)).
Proof.
  unfold commit. rewrite E1, E2. cbn [orb].
  assert (committable this (transaction.xc x) (transaction.write_set x) m) as Hc.
  { split; [|done]. by exists x. }
  apply total_bind with (fun c m' => m' = m /\ c = transaction.xc x).
  { apply total_rd_txn; [apply stable_quiet|]. intros ? <-. eauto. }
  intros c. apply total_pure. intros ->.
  apply total_bind with (fun st m' => m' = m /\ st = TXN_ACTIVE).
  { apply total_rd; [apply stable_quiet|]. intros ? ->. done. }
  intros st. apply total_pure. intros ->. apply total_seq; [by apply total_ret|]. intros _.
  eapply total_bind; [|intros u; by apply (total_si_commit Haddr this (transaction.xc x) (transaction.write_set x))].
  apply total_wr; [apply stable_quiet|]. intros ? ->. split_and!; [by apply committable_upd_ctx|done|eauto|done].
Qed.

(** ** Examples *)

Section examples.

#[local] Instance si_config : Config := config false false SSN_READ_OPT_DISABLED.
(** A bump allocator confined to 47-bit addresses. *)
#[local] Instance si_platform : Platform := {|
  interfere := alone; fuel := 40;
  mm_allocate _ _ m := (top_address m mod 2 ^ 47 + 1, tls_unlinked_objects m);
  tls_entry := 1; tls_index := 0; xid_new_epoch _ _ := true |}.
#[local] Instance si_quiet : Quiet.
Proof. done. Qed.

Definition commit_txn : transaction.t :=
  transaction.set_absent_set {[ 1 := 0 ]} (txn_of 1 0 [write_record (ptr 8192) 7 1] []).

(** Transaction 1 updated a record and saw node 1 at version 0, which it still
    is in the first memory and no longer in the second. *)
Definition commit_mem : mem :=
  with_object 4096 (committed_version NULL_PTR 50 0 [1; 2])
    (with_object 8192 (dirty_version (ptr 4096) (XID.make 1 1) [3])
      (with_oid 7 1 (ptr 8192)
        (with_context 1 (context 1 80 0 TXN_ACTIVE) (with_txn 1 commit_txn empty_mem)))).
Definition phantom_mem : mem := set_mindex [(7, [4], 4)] commit_mem.

Lemma si_commit_returns_witness :
  (exists m' t', commit 1 commit_mem O = Ok (RC_TRUE, (m', t'))) /\
  (exists m' t', commit 1 phantom_mem O = Ok (RC_ABORT_PHANTOM, (m', t'))).
Proof.
  assert (addressable_allocations) as Ha.
  { intros sz e m. cbn. pose proof (Z.mod_pos_bound (top_address m) (2 ^ 47) ltac:(lia)). lia. }
  split.
  - destruct (si_commit_returns (CF := si_config) 1 commit_txn commit_mem eq_refl eq_refl Ha eq_refl
      (or_introl eq_refl)) with commit_mem O as (rc & m' & t' & E & ->); [|done|done|].
    + intros w ->%list_elem_of_singleton. by eexists.
    + exists m', t'. exact E.
  - destruct (si_commit_returns (CF := si_config) 1 commit_txn phantom_mem eq_refl eq_refl Ha eq_refl
      (or_introl eq_refl)) with phantom_mem O as (rc & m' & t' & E & ->); [|done|done|].
    + intros w ->%list_elem_of_singleton. by eexists.
    + exists m', t'. exact E.
Defined.

End examples.
