(* ===== verification/SsnSafety.v ===== *)
(** * What a committed SSN transaction is guaranteed

    The exclusion-window property of [parallel_ssn_commit] under arbitrary
    interference by other threads, within what they are allowed to do to a
    transaction that is not theirs ([SsnRely]). *)
From stdpp Require Import base numbers list gmap.
From Stdlib Require Import ZArith Lia.
From S2P Require Import Prelude FatPtr SizeEncode Shared Program Contexts Readers Versions Txn Ssn Scenario.

Local Open Scope Z_scope.

(** The successor stamp without the mark of a finalized stamp. *)
Definition pi_stamp (c : xid_context.t) : Z :=
  Z.land (xid_context.sstamp c) (Z.lnot sstamp_final_mark).

Section safety.
Context `{CF : Config} `{PL : Platform}.

(** [w] replaces the version at [v], which has access stamp [xs]. *)
Definition overwrites (m : mem) (w : write_record_t) (v xs : Z) : Prop :=
  exists o ov, objects m !! get_object w = Some o /\
    dbtuple.pvalue (object.tuple o) <> DEFUNCT_TUPLE_MARK /\
    fat_ptr.offset (object._next o) = v /\ v <> 0 /\
    objects m !! v = Some ov /\ dbtuple.xstamp (object.tuple ov) = xs.

(** What other threads leave alone while transaction [this] commits: its
    transaction object; its context, except that an updater may still change
    the successor stamp of a read-mostly transaction that has not finalized
    it; the link and value of its own uncommitted versions; and the versions
    it overwrites, whose access stamps only grow. *)
Record SsnRely (this : Z) (x : transaction.t) : Prop := {
  rely_txn t m : txns m !! this = Some x -> txns (interfere t m) !! this = Some x;
  rely_pstamp t m :
    xid_context.pstamp (ctx (interfere t m) (transaction.xc x)) =
    xid_context.pstamp (ctx m (transaction.xc x));
  rely_state t m :
    xid_context.state (ctx (interfere t m) (transaction.xc x)) =
    xid_context.state (ctx m (transaction.xc x));
  rely_sstamp t m :
    ssn_read_opt_enabled && is_read_mostly x = false \/
    Z.land (xid_context.sstamp (ctx m (transaction.xc x))) sstamp_final_mark <> 0 ->
    xid_context.sstamp (ctx (interfere t m) (transaction.xc x)) =
    xid_context.sstamp (ctx m (transaction.xc x));
  rely_versions t m w v xs :
    w ∈ transaction.write_set x -> overwrites m w v xs ->
    exists xs', xs <= xs' /\ overwrites (interfere t m) w v xs' }.

Section commit.
Context (this : Z) (x : transaction.t) (R : SsnRely this x).
Let xc := transaction.xc x.

(** What the protocol itself does to memory before it may commit. *)
Definition pre_step (m m' : mem) : Prop :=
  txns m' = txns m /\
  xid_context.pstamp (ctx m xc) <= xid_context.pstamp (ctx m' xc) /\
  (forall w v xs, overwrites m w v xs -> overwrites m' w v xs).

Lemma pre_step_sstamp i s m : pre_step m (upd_ctx i (xid_context.set_sstamp s) m).
Proof. split_and!; [done| |done]. by rewrite (ctx_upd_field xid_context.pstamp). Qed.

(** Changing a tuple field other than value and access stamp. *)
Lemma overwrites_upd a g m w v xs :
  (forall y, dbtuple.pvalue (g y) = dbtuple.pvalue y) ->
  (forall y, dbtuple.xstamp (g y) = dbtuple.xstamp y) ->
  overwrites m w v xs -> overwrites (upd_obj a (upd_tuple g) m) w v xs.
Proof.
  intros Hp Hx (o & ov & Ho & Hd & Hn & Hv & Hov & Hxs).
  assert (forall b ob, objects m !! b = Some ob ->
    exists ob', objects (upd_obj a (upd_tuple g) m) !! b = Some ob' /\
      object._next ob' = object._next ob /\
      dbtuple.pvalue (object.tuple ob') = dbtuple.pvalue (object.tuple ob) /\
      dbtuple.xstamp (object.tuple ob') = dbtuple.xstamp (object.tuple ob)) as K.
  { intros b ob Hb. unfold upd_obj. cbn. destruct (decide (a = b)) as [->|].
    - rewrite lookup_alter_eq, Hb. eexists. split; [done|]. cbn. by rewrite Hp, Hx.
    - rewrite lookup_alter_ne by done. eauto. }
  destruct (K _ _ Ho) as (o' & Ho' & En & Ep & _), (K _ _ Hov) as (ov' & Hov' & _ & _ & Ex).
  exists o', ov'. rewrite Ep, En, Ex. done.
Qed.

Lemma pre_step_preader a g m :
  pre_step m (upd_obj a (upd_tuple (fun y => dbtuple.set_preader (g y) y)) m).
Proof. split_and!; [done..|]. intros. by apply overwrites_upd. Qed.

Lemma guar_cas_sstamp i old new : guar pre_step (cas_sstamp i old new).
Proof.
  apply guar_atomic. intros m a m' E. cbv zeta in E.
  destruct (xid_context.sstamp (ctx m i) =? old); simplify_eq; [right|by left].
  apply pre_step_sstamp.
Qed.

Lemma guar_set_sstamp i s : guar pre_step (set_sstamp i s).
Proof.
  unfold set_sstamp. guar; [apply guar_cas_sstamp|apply pre_step_sstamp].
Qed.

(** The stamp is read and written back in two accesses; nobody else writes it
    in between. *)
Lemma set_pstamp_spec p (P : mem -> Prop) :
  stable P -> (forall m m', P m -> pre_step m m' -> P m') ->
  hoare P (set_pstamp xc p) (fun _ m => P m /\ p <= xid_context.pstamp (ctx m xc)).
Proof.
  intros Hs HP. unfold set_pstamp.
  apply hoare_bind with (fun old m => P m /\ xid_context.pstamp (ctx m xc) = old).
  { by apply hoare_rd. }
  intros old. apply hoare_wr.
  { intros t m [Hm E]. split; [by apply Hs|]. by rewrite (rely_pstamp _ _ R). }
  intros m [Hm <-]. rewrite ctx_upd_eq. cbn. split; [|lia].
  eapply HP; [done|]. split_and!; [done| |done]. rewrite ctx_upd_eq. cbn. lia.
Qed.

Lemma guar_set_pstamp p : guar pre_step (set_pstamp xc p).
Proof.
  intros P Hs HP. eapply hoare_post; [by apply set_pstamp_spec|]. by intros _ m [].
Qed.

Lemma guar_ssn_check G : guar G (ssn_check xc).
Proof. unfold ssn_check. guar. Qed.

#[local] Hint Resolve guar_set_sstamp guar_set_pstamp guar_ssn_check : guar.

Lemma guar_raise_pstamp p : guar pre_step (raise_pstamp xc p).
Proof. unfold raise_pstamp. guar. Qed.

Lemma guar_marked_old G v : guar G (marked_old v).
Proof. unfold marked_old. guar. Qed.

#[local] Hint Resolve guar_raise_pstamp guar_marked_old : guar.

Lemma guar_init_sstamp cstamp : guar pre_step (ssn_init_sstamp xc cstamp).
Proof. unfold ssn_init_sstamp. guar. apply pre_step_sstamp. Qed.

Lemma guar_commit_read cstamp r : guar pre_step (ssn_commit_read xc cstamp r).
Proof. unfold ssn_commit_read, successor_end. guar. Qed.

Lemma guar_context_change cstamp v i : guar pre_step (ssn_context_change xc cstamp v i).
Proof. unfold ssn_context_change. guar. Qed.

Lemma guar_later_reader cstamp v i rx c e :
  guar pre_step (ssn_later_reader xc cstamp v i rx c e).
Proof. unfold ssn_later_reader. guar. Qed.

Lemma guar_earlier_reader cstamp v i rx c e :
  guar pre_step (ssn_earlier_reader xc cstamp v i rx c e).
Proof. unfold ssn_earlier_reader. guar. Qed.

#[local] Hint Resolve guar_context_change guar_later_reader guar_earlier_reader : guar.

Lemma guar_commit_reader cstamp v i : guar pre_step (ssn_commit_reader xc cstamp v i).
Proof. unfold ssn_commit_reader, ssn_reader_end. guar. Qed.

Lemma guar_lockout v : guar pre_step (lockout_read_mostly_tx v).
Proof. unfold lockout_read_mostly_tx, xor_preader. guar. apply pre_step_preader. Qed.

#[local] Hint Resolve guar_commit_reader guar_lockout : guar.

(** Every early exit of the protocol is an abort. *)
Definition aborting (r : option Z) : Prop :=
  match r with Some rc => rc_is_abort rc = true | None => True end.

Lemma yields_ssn_check i : yields aborting (ssn_check i).
Proof. unfold ssn_check. yields. Qed.

Lemma yields_raise_pstamp i p : yields aborting (raise_pstamp i p).
Proof. unfold raise_pstamp. apply yields_seq. intros _. apply yields_ssn_check. Qed.

#[local] Hint Resolve yields_ssn_check yields_raise_pstamp : yields.

Lemma yields_commit_read cstamp r : yields aborting (ssn_commit_read xc cstamp r).
Proof. unfold ssn_commit_read. yields; try done. Qed.

Lemma yields_commit_reader cstamp v i : yields aborting (ssn_commit_reader xc cstamp v i).
Proof.
  unfold ssn_commit_reader, ssn_context_change, ssn_later_reader, ssn_earlier_reader.
  yields; done.
Qed.

#[local] Hint Resolve yields_commit_reader : yields.

Lemma yields_commit_write cstamp w : yields aborting (ssn_commit_write xc cstamp w).
Proof.
  unfold ssn_commit_write. apply yields_seq. intros [|]; [by apply yields_ret|].
  apply yields_seq. intros [ov|]; [|by apply yields_ret].
  do 2 (apply yields_seq; intros ?). apply (yields_bind aborting); [yields; done|].
  intros [rc|] Hr; [by apply yields_ret|yields].
Qed.

(** ** The invariant of the pre-commit phase *)

Context (m0 : mem).

(** [done] are the writes whose overwritten versions are accounted for. *)
Definition pre_inv (done : list write_record_t) (m : mem) : Prop :=
  txns m !! this = Some x /\
  (forall w v xs, w ∈ transaction.write_set x -> overwrites m0 w v xs ->
     exists xs', xs <= xs' /\ overwrites m w v xs') /\
  (forall w v xs, w ∈ done -> overwrites m0 w v xs -> xs <= xid_context.pstamp (ctx m xc)).

Lemma pre_inv_stable done : stable (pre_inv done).
Proof.
  intros t m (Ht & Ho & Hp). split_and!.
  - by apply (rely_txn _ _ R).
  - intros w v xs Hw Hov. destruct (Ho w v xs Hw Hov) as (xs1 & Hxs & Hov1).
    destruct (rely_versions _ _ R t m w v xs1 Hw Hov1) as (xs2 & ? & ?).
    exists xs2. split; [lia|done].
  - intros w v xs Hw Hov. rewrite (rely_pstamp _ _ R). by eapply Hp.
Qed.

Lemma pre_inv_step done m m' : pre_inv done m -> pre_step m m' -> pre_inv done m'.
Proof.
  intros (Ht & Ho & Hp) (Et & Ep & Eo). split_and!.
  - by rewrite Et.
  - intros w v xs Hw Hov. destruct (Ho w v xs Hw Hov) as (xs1 & ? & ?). eauto.
  - intros w v xs Hw Hov. specialize (Hp w v xs Hw Hov). lia.
Qed.

Lemma pre_inv_guar {A} done (c : M A) :
  guar pre_step c -> hoare (pre_inv done) c (fun _ => pre_inv done).
Proof. intros H. apply (guar_inv pre_step); [done|apply pre_inv_stable|apply pre_inv_step]. Qed.

(** The version [w] overwrites, if any, is accounted for. *)
Definition accounted (w : write_record_t) (m : mem) : Prop :=
  forall v xs, overwrites m0 w v xs -> xs <= xid_context.pstamp (ctx m xc).

Lemma pre_inv_more done w m : pre_inv done m -> accounted w m -> pre_inv (done ++ [w]) m.
Proof.
  intros (Ht & Ho & Hp) Hw. split_and!; [done..|]. intros w' v xs Hin Hov.
  apply elem_of_app in Hin as [Hin | ->%list_elem_of_singleton]; eauto.
Qed.

Lemma is_defunct_spec done w :
  w ∈ transaction.write_set x ->
  hoare (pre_inv done) (is_defunct (get_object w))
    (fun d m => pre_inv done m /\ (d = true -> forall v xs, ~ overwrites m0 w v xs)).
Proof.
  intros Hw. apply hoare_atomic; [apply pre_inv_stable|]. intros m d m' Hm E.
  destruct (objects m !! get_object w) as [o|] eqn:Eo; simplify_eq/=.
  split; [done|]. intros Hd v xs Hov. apply bool_decide_eq_true in Hd.
  destruct Hm as (_ & Ho & _). destruct (Ho w v xs Hw Hov) as (? & _ & o' & ov & Ho' & Hnd & _).
  congruence.
Qed.

Lemma tuple_next_spec done w :
  w ∈ transaction.write_set x ->
  hoare (pre_inv done) (tuple_next (get_object w))
    (fun n m => pre_inv done m /\ (forall v xs, overwrites m0 w v xs -> n = Some v)).
Proof.
  intros Hw. unfold tuple_next.
  apply hoare_bind with (fun p m => pre_inv done m /\
    (forall v xs, overwrites m0 w v xs -> fat_ptr.offset p = v /\ v <> 0)).
  - apply hoare_atomic; [apply pre_inv_stable|]. intros m p m' Hm E.
    destruct (objects m !! get_object w) as [o|] eqn:Eo; simplify_eq/=.
    split; [done|]. intros v xs Hov. destruct Hm as (_ & Ho & _).
    destruct (Ho w v xs Hw Hov) as (? & _ & o' & ov & Ho' & _ & En & Hv & _).
    assert (o' = o) as -> by congruence. done.
  - intros p. apply hoare_ret. intros m [Hm Hp]. split; [done|]. intros v xs Hov.
    destruct (Hp v xs Hov) as [-> Hv]. by apply Z.eqb_neq in Hv as ->.
Qed.

Lemma read_xstamp_spec done w ov :
  w ∈ transaction.write_set x ->
  (forall v xs, overwrites m0 w v xs -> v = ov) ->
  hoare (pre_inv done) (rd_tuple ov dbtuple.xstamp)
    (fun xs m => pre_inv done m /\ (forall v xs0, overwrites m0 w v xs0 -> xs0 <= xs)).
Proof.
  intros Hw Hv. apply hoare_atomic; [apply pre_inv_stable|]. intros m xs m' Hm E.
  destruct (objects m !! ov) as [o|] eqn:Eo; simplify_eq/=.
  split; [done|]. intros v xs0 Hov. destruct Hm as (_ & Ho & _).
  destruct (Ho w v xs0 Hw Hov) as (xs1 & Hle & o' & o1 & _ & _ & _ & _ & Ho1 & <-).
  rewrite (Hv v xs0 Hov) in Ho1. by simplify_eq.
Qed.

(** Handling one write either aborts or accounts for what it overwrites. *)
Lemma commit_write_spec done cstamp w :
  w ∈ transaction.write_set x ->
  hoare (pre_inv done) (ssn_commit_write xc cstamp w)
    (fun r m => pre_inv done m /\ (r = None -> accounted w m)).
Proof.
  intros Hw. unfold ssn_commit_write.
  eapply hoare_bind; [by apply is_defunct_spec|]. intros d. apply hoare_pure. intros Hd.
  destruct d.
  { apply hoare_ret. intros m Hm. split; [done|]. intros _ v xs Hov. by destruct (Hd eq_refl v xs). }
  eapply hoare_bind; [by apply tuple_next_spec|]. intros n. apply hoare_pure. intros Hn.
  destruct n as [ov|].
  2:{ apply hoare_ret. intros m Hm. split; [done|]. intros _ v xs Hov. by specialize (Hn v xs Hov). }
  apply hoare_seq; [apply pre_inv_guar; guar|]. intros _.
  apply hoare_seq; [apply pre_inv_guar; guar|]. intros it.
  apply hoare_seq; [apply pre_inv_guar; guar|]. intros [rc|]; [by apply hoare_ret|].
  eapply hoare_bind; [apply (read_xstamp_spec done w ov Hw)|].
  { intros v xs Hov. specialize (Hn v xs Hov). congruence. }
  intros xs. apply hoare_pure. intros Hxs. unfold raise_pstamp.
  eapply hoare_bind; [apply set_pstamp_spec; [apply pre_inv_stable|apply pre_inv_step]|].
  intros u. cbv beta. clear u. apply (hoare_post _ _ _ (fun _ m => pre_inv done m /\ xs <= xid_context.pstamp (ctx m xc))).
  - apply (guar_inv pre_step); [apply guar_ssn_check| |].
    + intros t m [Hm Hle]. split; [by apply pre_inv_stable|]. by rewrite (rely_pstamp _ _ R).
    + intros m m' [Hm Hle] Hst. split; [by eapply pre_inv_step|]. destruct Hst as (_ & ? & _). lia.
  - intros r m [Hm Hle]. split; [done|]. intros _ v xs0 Hov. specialize (Hxs v xs0 Hov). lia.
Qed.

Lemma commit_writes_spec cstamp :
  hoare (pre_inv []) (until_abort (transaction.write_set x) (ssn_commit_write xc cstamp))
    (fun r m => aborting r /\ (r = None -> pre_inv (transaction.write_set x) m)).
Proof.
  unfold until_abort. eapply hoare_bind.
  - apply (hoare_for_each _ _ _ (fun done _ => pre_inv done)
      (fun r m => match r with
                  | inl _ => pre_inv (transaction.write_set x) m
                  | inr rc => rc_is_abort rc = true
                  end)); [|done].
    intros pre w suf u E. eapply hoare_bind.
    + apply hoare_yields; [apply (commit_write_spec pre cstamp w)|apply yields_commit_write].
      rewrite E. set_solver.
    + intros [rc|]; apply hoare_ret; intros m [[Hm Ha] Hr]; [done|].
      by apply pre_inv_more; [|apply Ha].
  - intros [u|rc]; apply hoare_ret; intros m Hm; split; [done..|exact Hm|done].
Qed.

Lemma commit_reads_spec cstamp rs :
  hoare (pre_inv []) (until_abort rs (ssn_commit_read xc cstamp))
    (fun r m => pre_inv [] m /\ aborting r).
Proof.
  unfold until_abort. eapply hoare_bind.
  - apply (hoare_for_each _ _ _ (fun _ _ => pre_inv [])
      (fun r m => pre_inv [] m /\ match r with inl _ => True | inr rc => rc_is_abort rc = true end));
      [|done].
    intros pre r suf u E. eapply hoare_bind.
    + apply hoare_yields; [apply pre_inv_guar, guar_commit_read|apply yields_commit_read].
    + intros [rc|]; apply hoare_ret; by intros m [Hm Hr].
  - intros [u|rc]; apply hoare_ret; intros m Hm; destruct Hm; done.
Qed.

(** ** The final check and post-commit *)

(** Nobody can change the successor stamp any more. *)
Definition frozen (m : mem) : Prop :=
  ssn_read_opt_enabled && is_read_mostly x = false \/
  Z.land (xid_context.sstamp (ctx m xc)) sstamp_final_mark <> 0.

Definition all_accounted (m : mem) : Prop :=
  forall w v xs, w ∈ transaction.write_set x -> overwrites m0 w v xs ->
    xs <= xid_context.pstamp (ctx m xc).

(** Both stamps as they are at the final check. *)
Definition stamps (ps ss : Z) (m : mem) : Prop :=
  xid_context.pstamp (ctx m xc) = ps /\ xid_context.sstamp (ctx m xc) = ss /\
  all_accounted m /\ frozen m.

Lemma stamps_stable ps ss : stable (stamps ps ss).
Proof.
  intros t m (Hp & Hs & Ha & Hf).
  assert (xid_context.sstamp (ctx (interfere t m) xc) = ss) as Es.
  { rewrite <- Hs. by apply (rely_sstamp _ _ R). }
  split_and!; [by rewrite (rely_pstamp _ _ R)|done| |].
  - intros w v xs. rewrite (rely_pstamp _ _ R). apply Ha.
  - destruct Hf as [|Hf]; [by left|right]. by rewrite Es, <- Hs.
Qed.

Lemma stamps_step ps ss m m' : stamps ps ss m -> same_contexts m m' -> stamps ps ss m'.
Proof.
  intros (Hp & Hs & Ha & Hf) E. unfold stamps, all_accounted, frozen, ctx. rewrite E. done.
Qed.

Lemma stamps_guar {A} ps ss (c : M A) :
  guar same_contexts c -> hoare (stamps ps ss) c (fun _ => stamps ps ss).
Proof. intros H. apply (guar_inv same_contexts); [done|apply stamps_stable|apply stamps_step]. Qed.

Lemma guar_post_write cstamp my clsn w : guar same_contexts (ssn_post_write this cstamp my clsn w).
Proof. unfold ssn_post_write. guar; done. Qed.

Lemma guar_post_read xid cstamp r : guar same_contexts (ssn_post_read xid cstamp r).
Proof. unfold ssn_post_read, spin_on_overwriter. guar. Qed.

#[local] Hint Resolve guar_post_write guar_post_read : guar.

Lemma land_nonfinal s : Z.land s sstamp_final_mark = 0 -> Z.land s (Z.lnot sstamp_final_mark) = s.
Proof.
  intros H. rewrite <- Z.ldiff_land. apply Z.bits_inj'. intros i Hi.
  rewrite Z.ldiff_spec. apply (f_equal (fun z => Z.testbit z i)) in H.
  rewrite Z.land_spec, Z.bits_0 in H. by destruct (Z.testbit s i), (Z.testbit sstamp_final_mark i).
Qed.

(** From the commit decision on, the stamps stay what they are and the
    transaction ends up committed with a non-zero successor stamp. *)
Lemma ssn_finish_spec cstamp ps ss :
  hoare (stamps ps ss) (ssn_finish this xc cstamp (is_read_mostly x))
    (fun _ m => stamps ps ss m /\ xid_context.state (ctx m xc) = TXN_CMMTD /\
                Z.land ss (Z.lnot sstamp_final_mark) <> 0).
Proof.
  unfold ssn_finish, serial_stamp_last_committed_lsn.
  apply hoare_seq; [apply stamps_guar; guar|]. intros _.
  apply hoare_seq; [apply stamps_guar; guar; done|]. intros _.
  eapply hoare_bind with (fun my m => stamps ps ss m /\
    (negb (my =? 0) && (Z.land my sstamp_final_mark =? 0) = true ->
     Z.land ss (Z.lnot sstamp_final_mark) <> 0)).
  { apply hoare_rd; [apply stamps_stable|]. intros m Hm. split; [done|].
    destruct Hm as (_ & -> & _). rewrite andb_true_iff, negb_true_iff, Z.eqb_neq, Z.eqb_eq.
    destruct (_ && _); [tauto|]. intros [H1 H2]. by rewrite land_nonfinal. }
  intros my. apply hoare_pure. intros Hmy.
  eapply hoare_bind with (fun _ m => stamps ps ss m /\ Z.land ss (Z.lnot sstamp_final_mark) <> 0).
  { apply hoare_assert. auto. }
  intros u. cbv beta. clear u. apply hoare_pure. intros Hss.
  apply hoare_seq; [apply stamps_guar; guar|]. intros clsn.
  apply hoare_seq; [apply stamps_guar; guar|]. intros ws.
  apply hoare_seq; [apply stamps_guar; guar|]. intros _.
  apply hoare_bind with (fun _ m => stamps ps ss m /\ xid_context.state (ctx m xc) = TXN_CMMTD).
  { apply hoare_wr; [apply stamps_stable|]. intros m (Hp & Hs & Ha & Hf).
    unfold stamps, all_accounted, frozen. by rewrite !ctx_upd_eq. }
  intros _. eapply hoare_post; [apply (guar_inv same_contexts)|].
  - guar.
  - intros t m [Hm Hst]. split; [by apply stamps_stable|]. by rewrite (rely_state _ _ R).
  - intros m m' [Hm Hst] E. split; [by eapply stamps_step|]. unfold ctx. by rewrite E.
  - intros rc m [Hm Hst]. done.
Qed.

Lemma check_spec ps ss :
  hoare (stamps ps ss) (ssn_check_exclusion xc)
    (fun ok m => stamps ps ss m /\
       (ok = true -> Z.land ss (Z.lnot sstamp_final_mark) = 0 \/
                     ps < Z.land ss (Z.lnot sstamp_final_mark))).
Proof.
  unfold ssn_check_exclusion.
  apply hoare_bind with (fun a m => stamps ps ss m /\ a = Z.land ss (Z.lnot sstamp_final_mark)).
  { apply hoare_rd; [apply stamps_stable|]. intros m Hm. split; [done|].
    by destruct Hm as (_ & -> & _). }
  intros a. apply hoare_pure. intros ->.
  apply hoare_bind with (fun a m => stamps ps ss m /\ a = ps).
  { apply hoare_rd; [apply stamps_stable|]. intros m Hm. split; [done|]. by destruct Hm as (-> & _). }
  intros a. apply hoare_pure. intros ->. apply hoare_ret. intros m Hm. split; [done|].
  destruct (Z.eqb_spec (Z.land ss (Z.lnot sstamp_final_mark)) 0); [by left|].
  cbn [negb andb]. rewrite negb_true_iff, Z.leb_gt. by right.
Qed.

Lemma final_mark_set s : Z.land (Z.lor s sstamp_final_mark) sstamp_final_mark <> 0.
Proof. rewrite Z.land_lor_distr_l, Z.land_diag. intros H. by apply Z.lor_eq_0_iff in H as [_ H]. Qed.

Lemma finalize_spec :
  hoare (pre_inv (transaction.write_set x))
    (if ssn_read_opt_enabled && is_read_mostly x then finalize_sstamp xc else ret tt)
    (fun _ m => exists p, stamps (fst p) (snd p) m).
Proof.
  destruct (ssn_read_opt_enabled && is_read_mostly x) eqn:E.
  - apply hoare_wr; [apply pre_inv_stable|]. intros m (_ & _ & Hp).
    eexists (_, _). split_and!; [done..| |].
    + intros w v xs Hw Hov. rewrite ctx_upd_eq. cbn. by eapply Hp.
    + right. rewrite ctx_upd_eq. cbn. apply final_mark_set.
  - apply hoare_ret. intros m (_ & _ & Hp). eexists (_, _). split_and!; [done..|].
    by left.
Qed.

Lemma rd_txn_spec {A} done (f : transaction.t -> A) :
  hoare (pre_inv done) (rd_txn this f) (fun a m => pre_inv done m /\ a = f x).
Proof.
  apply hoare_atomic; [apply pre_inv_stable|]. intros m a m' Hm E.
  destruct Hm as (Ht & Hm). rewrite Ht in E. by simplify_eq.
Qed.

(** The outcome of the whole protocol. *)
Definition committed (rc : Z) (m : mem) : Prop :=
  rc = RC_TRUE ->
  pi_stamp (ctx m xc) <> 0 /\ xid_context.pstamp (ctx m xc) < pi_stamp (ctx m xc) /\
  xid_context.state (ctx m xc) = TXN_CMMTD /\ all_accounted m.

Lemma abort_not_committed rc m : rc_is_abort rc = true -> committed rc m.
Proof. by intros H ->. Qed.

Lemma decide_spec cstamp :
  hoare (fun m => exists p, stamps (fst p) (snd p) m)
    (let* ok := ssn_check_exclusion xc in
     if negb ok then ret RC_ABORT_SERIAL
     else
       let* ok := if PHANTOM_PROT then check_phantom this else ret true in
       if negb ok then ret RC_ABORT_PHANTOM
       else ssn_finish this xc cstamp (is_read_mostly x)) committed.
Proof.
  apply hoare_ex. intros [ps ss]. eapply hoare_bind; [apply check_spec|]. intros ok.
  apply hoare_pure. intros Hok. cbn [fst snd].
  destruct ok; cbn [negb]; [|apply hoare_ret; intros; by apply abort_not_committed].
  apply hoare_seq; [apply stamps_guar; guar|]. intros ok.
  destruct ok; cbn [negb]; [|apply hoare_ret; intros; by apply abort_not_committed].
  eapply hoare_post; [apply ssn_finish_spec|]. intros rc m ((Hp & Hs & Ha & _) & Hst & Hne) _.
  unfold pi_stamp. rewrite Hs, Hp. destruct (Hok eq_refl); [done|]. done.
Qed.

Lemma commit_spec : hoare (pre_inv []) (parallel_ssn_commit this) committed.
Proof.
  unfold parallel_ssn_commit.
  eapply hoare_bind; [apply rd_txn_spec|]. intros c. apply hoare_pure. intros ->. fold xc.
  apply hoare_seq; [apply pre_inv_guar; guar|]. intros cstamp.
  eapply hoare_bind; [apply rd_txn_spec|]. intros rm. apply hoare_pure. intros ->.
  apply hoare_seq; [apply pre_inv_guar, guar_init_sstamp|]. intros _.
  eapply hoare_bind; [apply rd_txn_spec|]. intros rs. apply hoare_pure. intros ->.
  eapply hoare_bind; [apply commit_reads_spec|]. intros r. apply hoare_pure. intros Hr.
  destruct r as [rc|]; [apply hoare_ret; intros; by apply abort_not_committed|].
  eapply hoare_bind; [apply rd_txn_spec|]. intros ws. apply hoare_pure. intros ->.
  eapply hoare_bind; [apply commit_writes_spec|]. intros [rc|].
  { apply hoare_ret. intros m [Ha _]. by apply abort_not_committed. }
  eapply hoare_pre with (pre_inv (transaction.write_set x)); [intros m [_ H]; by apply H|].
  eapply hoare_bind; [apply finalize_spec|]. intros u. apply decide_spec.
Qed.

End commit.

(** C1: SSN exclusion window.  Whatever the other threads do within [SsnRely],
    if [parallel_ssn_commit] returns [RC_TRUE] then the transaction is in
    state [TXN_CMMTD] with a non-zero successor stamp, its predecessor stamp
    is strictly below its successor stamp, and the predecessor stamp is at
    least the access stamp every version it overwrites had when the protocol
    started, so a reader of an overwritten version that had stamped it is
    ordered before the transaction. *)
Theorem ssn_commit_window this x m t rc m' t'
    (Hx : txns m !! this = Some x) (R : SsnRely this x)
    (Hrun : parallel_ssn_commit this m t = Ok (rc, (m', t'))) (Hrc : rc = RC_TRUE) :
  let c := ctx m' (transaction.xc x) in
  xid_context.state c = TXN_CMMTD /\ pi_stamp c <> 0 /\
  xid_context.pstamp c < pi_stamp c /\
  (forall w v xs, w ∈ transaction.write_set x -> overwrites m w v xs -> xs <= xid_context.pstamp c).
Proof.
  pose proof (commit_spec this x R m m t) as H. rewrite Hrun in H.
  destruct H as (? & ? & ? & Ha); [|done|split_and!; [done..|exact Ha]].
  split_and!; [done| |set_solver]. intros w v xs _ Hov. exists xs. split; [lia|done].
Qed.

End safety.

(** ** Examples *)

Section examples.

#[local] Instance ssn_config : Config := config true false SSN_READ_OPT_DISABLED.
#[local] Instance ssn_platform : Platform := demo_platform alone 1.

Lemma alone_ssn_rely this x : SsnRely this x.
Proof. split; try done. intros t m w v xs _ H. exists xs. split; [lia|done]. Qed.

(** Transaction 1, committing at 100, replaces the version at 4096 (committed
    at 50, read by a transaction that committed at 60). *)
Definition overwrite_mem : mem :=
  with_object 4096 (committed_version NULL_PTR 50 60 [1; 2])
    (with_object 8192 (dirty_version (ptr 4096) (XID.make 1 1) [3])
      (with_context 1 (context 1 80 100 TXN_COMMITTING)
        (with_txn 1 (txn_of 1 0 [write_record (ptr 8192) 7 1] []) empty_mem))).

Lemma overwrite_commits :
  exists m' t', parallel_ssn_commit 1 overwrite_mem O = Ok (RC_TRUE, (m', t')).
Proof. eexists _, _. vm_compute. reflexivity. Qed.

Lemma ssn_commit_window_witness :
  exists m' t', parallel_ssn_commit 1 overwrite_mem O = Ok (RC_TRUE, (m', t')) /\
    60 <= xid_context.pstamp (ctx m' 1).
Proof.
  destruct overwrite_commits as (m' & t' & E). exists m', t'. split; [exact E|].
  destruct (ssn_commit_window 1 (txn_of 1 0 [write_record (ptr 8192) 7 1] []) overwrite_mem O
              RC_TRUE m' t' eq_refl (alone_ssn_rely _ _) E eq_refl) as (_ & _ & _ & H).
  apply (H (write_record (ptr 8192) 7 1) 4096); [by apply list_elem_of_singleton|].
  eexists _, _. split_and!; [vm_compute; reflexivity|done|done|done|vm_compute; reflexivity|done].
Defined.

End examples.
