(* ===== verification/Divergences.v ===== *)
(** * Executions in which the code departs from its own intent

    Small runs of the definitions, each ending in a state that a comment or
    the protocol the code implements rules out. *)
From stdpp Require Import base numbers list gmap.
From Stdlib Require Import ZArith Lia.
From S2P Require Import Prelude FatPtr SizeEncode Shared Program Contexts Readers Versions Txn.
From S2P Require Import Ssn Ssi Engine Scenario.

Local Open Scope Z_scope.

(** Interference that does [g] before the [n]-th access and nothing else. *)
Definition once (n : nat) (g : mem -> mem) : nat -> mem -> mem :=
  fun t m => if Nat.eqb t n then g m else m.

(** What a run leaves, without its clock. *)
Definition outcome {A B} (r : res (A * (mem * nat))) (f : A -> mem -> B) : res B :=
  match r with Ok (a, (m, _)) => Ok (f a m) | Throw e => Throw e end.

Definition ssn_build : Config := config true false SSN_READ_OPT_DISABLED.
Definition ssn_read_opt_build : Config := config true false 0.
Definition ssi_build : Config := config false true SSN_READ_OPT_DISABLED.
Definition si_build : Config := config false false SSN_READ_OPT_DISABLED.

Definition overwritten_at (s : Z) (o : object.t) : object.t :=
  upd_tuple (dbtuple.set_sstamp (log_stamp s)) o.

(** ** The successor stamp goes up ([xid_context::set_sstamp])

    Transaction 1 read the versions at 4096 and 4608, overwritten since with
    successor stamps 5 and 9, and overwrites a version with access stamp 7.
    Its smallest successor stamp is below its predecessor stamp, yet it
    commits: the second store of a successor stamp replaced 5 by 9. *)
Definition two_successors : mem :=
  with_object 4096 (overwritten_at 5 (committed_version NULL_PTR 2 2 [1]))
   (with_object 4608 (overwritten_at 9 (committed_version NULL_PTR 2 2 [1]))
    (with_object 5120 (committed_version NULL_PTR 2 7 [1])
     (with_object 8192 (dirty_version (ptr 5120) (XID.make 1 1) [3])
      (with_context 1 (context 1 4 100 TXN_COMMITTING)
       (with_txn 1 (txn_of 1 0 [write_record (ptr 8192) 7 1] [4096; 4608]) empty_mem))))).

Example sstamp_not_minimum :
  outcome (@parallel_ssn_commit ssn_build _ (demo_platform alone 1) 1 two_successors O)
    (fun rc m => (rc, xid_context.pstamp (ctx m 1), xid_context.sstamp (ctx m 1)))
  = Ok (RC_TRUE, 7, 9).
Proof. vm_compute. reflexivity. Qed.

(** ** A finalized stamp of the overwriter ([parallel_ssn_commit], reads)

    With read optimisation, transaction 2 is read-mostly, overwrote 4096 and
    is in pre-commit with stamp 40; it finishes while transaction 1 waits for
    it.  Its successor stamp carries the final mark, which [set_sstamp]
    rejects with [ALWAYS_ASSERT]. *)
Definition read_mostly_overwriter : mem :=
  with_object 4096 (upd_tuple (dbtuple.set_sstamp (XID.to_ptr (XID.make 1 2)))
                      (committed_version NULL_PTR 2 2 [1]))
   (with_context 1 (context 1 4 100 TXN_COMMITTING)
    (with_context 2 (xid_context.set_sstamp (Z.lor 40 sstamp_final_mark)
                       (context 2 4 40 TXN_COMMITTING))
     (with_txn 1 (txn_of 1 0 [] [4096])
      (with_txn 2 (txn_of 2 TXN_FLAG_READ_MOSTLY [] []) empty_mem)))).

Definition overwriter_finishes (m : mem) : mem :=
  upd_ctx 2 (xid_context.set_state TXN_CMMTD)
    (upd_obj 4096 (upd_tuple (dbtuple.set_sstamp (log_stamp 40))) m).

Example finalized_sstamp_asserts :
  @parallel_ssn_commit ssn_read_opt_build _ (demo_platform (once 16 overwriter_finishes) 1) 1
    read_mostly_overwriter O = Throw assertion_failure.
Proof. vm_compute. reflexivity. Qed.

(** ** First updater does not win ([oid_put_update])

    The head at 8192 belongs to transaction 2.  Transaction 1, whose snapshot
    is at 80, reads its [_clsn] as an XID; transaction 2 then commits at 90.
    Transaction 1 sees state [TXN_CMMTD] and installs its update without
    comparing 90 with its snapshot, so the update of 2 is overwritten by a
    transaction that never saw it. *)
Definition concurrent_update : mem :=
  with_oid 7 1 (ptr 8192)
   (with_object 4096 (committed_version NULL_PTR 50 50 [1])
    (with_object 8192 (dirty_version (ptr 4096) (XID.make 1 2) [2])
     (with_context 1 (context 1 80 0 TXN_ACTIVE)
      (with_context 2 (context 2 70 90 TXN_COMMITTING) empty_mem)))).

Definition holder_commits (m : mem) : mem :=
  upd_ctx 2 (xid_context.set_state TXN_CMMTD) (upd_obj 8192 (object.set__clsn (log_stamp 90)) m).

Example update_after_newer_commit :
  outcome (@oid_put_update si_build _ (demo_platform (once 4 holder_commits) 1) 7 1 (VARSTR [3]) 1
             concurrent_update O)
    (fun r m => (fat_ptr.eqb (fst r) (ptr 8192), fat_ptr.eqb (oid_entry m 7 1) (snd r),
                 fat_ptr.offset (default NULL_PTR (object._clsn <$> objects m !! 8192))))
  = Ok (true, true, 90).
Proof. vm_compute. reflexivity. Qed.

(** Had transaction 2 committed one access earlier, the update is refused. *)
Example update_after_newer_commit_refused :
  outcome (@oid_put_update si_build _ (demo_platform (once 3 holder_commits) 1) 7 1 (VARSTR [3]) 1
             concurrent_update O)
    (fun r _ => fat_ptr.eqb (fst r) NULL_PTR) = Ok true.
Proof. vm_compute. reflexivity. Qed.

(** ** An aborted update that stays ([do_tree_put], SSI)

    Transaction 1 has [ct3] 10 below the safe snapshot 20 it started with.
    Its update is refused after the new version was linked in; the version is
    in nobody's write set, so the abort leaves it, and once the XID is freed a
    reader restarts at the head of the chain again and again. *)
Definition pivot_below_safesnap : mem :=
  set_mindex [(7, [1], 1)]
   (with_oid 7 1 (ptr 4096)
    (with_object 4096 (committed_version NULL_PTR 5 5 [1])
     (with_context 1 (xid_context.set_ct3 10 (xid_context.set_last_safesnap 20
                        (context 1 80 0 TXN_ACTIVE)))
      (with_context 2 (context 2 90 0 TXN_ACTIVE)
       (with_txn 1 (txn_of 1 0 [] [])
        (with_txn 2 (txn_of 2 0 [] []) empty_mem)))))).

Section leftover.
#[local] Instance leftover_config : Config := ssi_build.
#[local] Instance leftover_platform : Platform := demo_platform alone 1.

(** The failed put, the abort it leads to and the end of the transaction. *)
Definition failed_put : M Z :=
  let* rc := do_tree_put 1 7 3 [1] (VARSTR [9]) false in
  abort_impl 1 ;;; transaction_end 1 ;;; ret rc.

Example aborted_put_stays_head :
  outcome (failed_put pivot_below_safesnap O)
    (fun rc m => (rc, fat_ptr.eqb (oid_entry m 7 1) (ptr 4096))) = Ok (RC_ABORT_SERIAL, false).
Proof. vm_compute. reflexivity. Qed.

Example aborted_put_blocks_readers :
  (failed_put ;;; oid_get_version 7 1 2) pivot_below_safesnap O = Throw Spinning.
Proof. vm_compute. reflexivity. Qed.
End leftover.

(** ** Two threads with one readers bit ([assign_reader_bitmap_entry])

    Threads 0, 1 and 2 hold bits 0, 1 and 2; thread 1 leaves and a new thread
    takes [bits + 1 = 6]: bit 1 together with bit 2, which is thread 2's.
    When it leaves in turn, thread 2's bit goes with it. *)
Section reader_bits.
#[local] Instance readers_platform : Platform := demo_platform alone 1.

Definition bits_5 : mem := set_rlist_bitmap [5; 0; 0; 0] empty_mem.

Example reader_entry_not_single :
  outcome (assign_reader_bitmap_entry (0, 0) bits_5 O) (fun e m => (e, rlist_bitmap m))
  = Ok (6, 0, [7; 0; 0; 0]).
Proof. vm_compute. reflexivity. Qed.

Example reader_entry_release_takes_other :
  outcome ((let* e := assign_reader_bitmap_entry (0, 0) in deassign_reader_bitmap_entry e) bits_5 O)
    (fun _ m => rlist_bitmap m) = Ok [1; 0; 0; 0].
Proof. vm_compute. reflexivity. Qed.
End reader_bits.

(** ** An invisible version leaves no trace ([oid_check_phantom], SSN)

    The successor stamp of a transaction that has none yet is 0, and the
    minimum with 0 is 0: the comment promises that the stamp records the
    invisible version's commit stamp. *)
Example phantom_sstamp_stays_zero :
  outcome (@oid_check_phantom ssn_build _ (demo_platform alone 1) 1 90
             (with_context 1 (context 1 80 0 TXN_ACTIVE) (with_txn 1 (txn_of 1 0 [] []) empty_mem)) O)
    (fun _ m => xid_context.sstamp (ctx m 1)) = Ok 0.
Proof. vm_compute. reflexivity. Qed.

(** ** A context lost between two threads ([xid_alloc], [std::swap])

    A thread takes the word of 64 free contexts by a read and a write; if
    another thread frees context 3 of epoch 0 in between, the bit it sets is
    overwritten and the context is never handed out again. *)
Section lost_context.
#[local] Instance swap_config : Config := si_build.

Definition one_free_word : mem :=
  set_xid_cur_epoch 0 (set_xid_bitmaps (<[(0, 0) := 1]> ∅) (set_xid_widx (<[0 := 0]> ∅) empty_mem)).

Definition free_context_3 (m : mem) : mem :=
  set_xid_bitmaps (<[(0, 0) := Z.lor (xid_word m 0 0) 8]> (xid_bitmaps m)) m.

Definition words_after (n : nat) : res (Z * Z) :=
  let PL := demo_platform (once n free_context_3) 1 in
  outcome (xid_refill one_free_word O) (fun _ m => (thread_data.bitmap (xid_tls m), xid_word m 0 0)).

(** Freed just before the swap, the context is taken; freed just after, it
    stays in the shared word; freed during it, it is in neither. *)
Example context_lost_in_swap :
  (words_after 7, words_after 8, words_after 9) = (Ok (9, 0), Ok (1, 0), Ok (1, 0)) /\
  words_after 10 = Ok (1, 8).
Proof. vm_compute. split; reflexivity. Qed.
End lost_context.
