(* ===== verification/Varint.v ===== *)
(** * Variable-length integers ([varint.h])

    A [uint32_t] in one to five bytes, seven bits a byte, lowest first; all
    bytes but the last have their top bit set.  A buffer is the list of bytes
    from a pointer on, and what remains of it is the pointer returned. *)
From stdpp Require Import base numbers list.
From Stdlib Require Import ZArith Lia.
From S2P Require Import Prelude.

Local Open Scope Z_scope.

(** [*p++]. *)
Definition get (p : list Z) : res (Z * list Z) :=
  match p with [] => Throw bad_address | b :: p' => Ok (b, p') end.

(* src: varint.h:8-27 read_uvint32_slow *)
Definition read_uvint32_slow (buf : list Z) : res (Z * list Z) :=
  '(b, p) ← get buf; let result := Z.land b 0x7F in if b <? 0x80 then Ok (result, p) else
  '(b, p) ← get p; let result := Z.lor result (u32 (Z.shiftl (Z.land b 0x7F) 7)) in
  if b <? 0x80 then Ok (result, p) else
  '(b, p) ← get p; let result := Z.lor result (u32 (Z.shiftl (Z.land b 0x7F) 14)) in
  if b <? 0x80 then Ok (result, p) else
  '(b, p) ← get p; let result := Z.lor result (u32 (Z.shiftl (Z.land b 0x7F) 21)) in
  if b <? 0x80 then Ok (result, p) else
  '(b, p) ← get p; let result := Z.lor result (u32 (Z.shiftl b 28)) in
  if b <? 0x80 then Ok (result, p) else
  Throw assertion_failure.

(* src: varint.h:35-43 read_uvint32 *)
Definition read_uvint32 (buf : list Z) : res (Z * list Z) :=
  '(b, p) ← get buf;
  if b <? 0x80 then Ok (b, p) else read_uvint32_slow buf.

(** [None] is [nullptr]; [nbytes] counts down as a [size_t]. *)
(* src: varint.h:45-68 failsafe_read_uvint32_slow *)
Definition failsafe_read_uvint32_slow (buf : list Z) (nbytes : Z) : res (option (Z * list Z)) :=
  if nbytes =? 0 then Ok None else let nbytes := u64 (nbytes - 1) in
  '(b, p) ← get buf; let result := Z.land b 0x7F in if b <? 0x80 then Ok (Some (result, p)) else
  if nbytes =? 0 then Ok None else let nbytes := u64 (nbytes - 1) in
  '(b, p) ← get p; let result := Z.lor result (u32 (Z.shiftl (Z.land b 0x7F) 7)) in
  if b <? 0x80 then Ok (Some (result, p)) else
  if nbytes =? 0 then Ok None else let nbytes := u64 (nbytes - 1) in
  '(b, p) ← get p; let result := Z.lor result (u32 (Z.shiftl (Z.land b 0x7F) 14)) in
  if b <? 0x80 then Ok (Some (result, p)) else
  if nbytes =? 0 then Ok None else let nbytes := u64 (nbytes - 1) in
  '(b, p) ← get p; let result := Z.lor result (u32 (Z.shiftl (Z.land b 0x7F) 21)) in
  if b <? 0x80 then Ok (Some (result, p)) else
  if nbytes =? 0 then Ok None else let nbytes := u64 (nbytes - 1) in
  '(b, p) ← get p; let result := Z.lor result (u32 (Z.shiftl b 28)) in
  Ok (Some (result, p)).

(* src: varint.h:70-82 failsafe_read_uvint32 *)
Definition failsafe_read_uvint32 (stream : list Z) (nbytes : Z) : res (option (Z * list Z)) :=
  if nbytes =? 0 then Ok None
  else
    '(ch, p) ← get stream;
    if ch <? 0x80 then Ok (Some (ch, p)) else failsafe_read_uvint32_slow stream nbytes.

(** [rawv[i] = stream[i]], or just [stream[i]] when [rawv] is null; the byte
    and the new contents of [rawv]. *)
Definition copy_byte (stream : list Z) (rawv : option (list Z)) (i : nat) : res (Z * option (list Z)) :=
  match stream !! i with
  | None => Throw bad_address
  | Some b =>
      match rawv with
      | None => Ok (b, None)
      | Some r => if bool_decide (i < length r)%nat then Ok (b, Some (<[i := b]> r)) else Throw bad_address
      end
  end.

(* src: varint.h:84-102 skip_uvint32 *)
Definition skip_uvint32 (stream : list Z) (rawv : option (list Z)) : res (Z * option (list Z)) :=
  '(b, rawv) ← copy_byte stream rawv 0; if b <? 0x80 then Ok (1, rawv) else
  '(b, rawv) ← copy_byte stream rawv 1; if b <? 0x80 then Ok (2, rawv) else
  '(b, rawv) ← copy_byte stream rawv 2; if b <? 0x80 then Ok (3, rawv) else
  '(b, rawv) ← copy_byte stream rawv 3; if b <? 0x80 then Ok (4, rawv) else
  '(b, rawv) ← copy_byte stream rawv 4; if b <? 0x80 then Ok (5, rawv) else
  Throw assertion_failure.

(** The result 0 is failure. *)
(* src: varint.h:104-132 failsafe_skip_uvint32 *)
Definition failsafe_skip_uvint32 (stream : list Z) (nbytes : Z) (rawv : option (list Z))
    : res (Z * option (list Z)) :=
  if nbytes =? 0 then Ok (0, rawv) else let nbytes := u64 (nbytes - 1) in
  '(b, rawv) ← copy_byte stream rawv 0; if b <? 0x80 then Ok (1, rawv) else
  if nbytes =? 0 then Ok (0, rawv) else let nbytes := u64 (nbytes - 1) in
  '(b, rawv) ← copy_byte stream rawv 1; if b <? 0x80 then Ok (2, rawv) else
  if nbytes =? 0 then Ok (0, rawv) else let nbytes := u64 (nbytes - 1) in
  '(b, rawv) ← copy_byte stream rawv 2; if b <? 0x80 then Ok (3, rawv) else
  if nbytes =? 0 then Ok (0, rawv) else let nbytes := u64 (nbytes - 1) in
  '(b, rawv) ← copy_byte stream rawv 3; if b <? 0x80 then Ok (4, rawv) else
  if nbytes =? 0 then Ok (0, rawv) else let nbytes := u64 (nbytes - 1) in
  '(b, rawv) ← copy_byte stream rawv 4; if b <? 0x80 then Ok (5, rawv) else
  Throw assertion_failure.

(** The bytes written; [None] if [n] turns of the loop are not enough. *)
(* src: varint.h:141-145 write_uvint32 *)
Fixpoint write_loop (n : nat) (value : Z) : option (list Z) :=
  if 0x7F <? value then
    match n with
    | O => None
    | S n => cons (Z.lor (Z.land (u8 value) 0x7F) 0x80) <$> write_loop n (Z.shiftr value 7)
    end
  else Some [Z.land (u8 value) 0x7F].

(** A 32-bit value shifted right four times by 7 is below 16. *)
(* src: varint.h:138-147 write_uvint32 *)
Definition write_uvint32 (value : Z) : option (list Z) := write_loop 4 value.

(* src: varint.h:149-157 size_uvint32 *)
Definition size_uvint32 (value : Z) : Z :=
  if value <=? 0x7F then 1
  else if value <=? Z.lor (Z.shiftl 0x7F 7) 0x7F then 2
  else if value <=? Z.lor (Z.lor (Z.shiftl 0x7F 14) (Z.shiftl 0x7F 7)) 0x7F then 3
  else if value <=? Z.lor (Z.lor (Z.lor (Z.shiftl 0x7F 21) (Z.shiftl 0x7F 14)) (Z.shiftl 0x7F 7)) 0x7F then 4
  else 5.

(** ** What the bytes mean *)

(** All bytes but the last have the top bit. *)
Fixpoint wf_varint (bs : list Z) : Prop :=
  match bs with
  | [] => False
  | [b] => 0 <= b < 128
  | b :: bs => 128 <= b < 256 /\ wf_varint bs
  end.

Fixpoint varint_value (bs : list Z) : Z :=
  match bs with [] => 0 | b :: bs => b mod 128 + 128 * varint_value bs end.

Lemma wf_varint_cons b b' bs : wf_varint (b :: b' :: bs) <-> 128 <= b < 256 /\ wf_varint (b' :: bs).
Proof. done. Qed.

Lemma varint_value_nonneg bs : 0 <= varint_value bs.
Proof. induction bs as [|b bs IH]; simpl; [lia|]. pose proof (Z.mod_pos_bound b 128). lia. Qed.

Lemma land_7f x : Z.land x 0x7F = x mod 128.
Proof. exact (land_mask x 7 ltac:(lia)). Qed.

Lemma lor_digit r b k : 0 <= k -> fits k r -> 0 <= b -> fits 32 (b * 2 ^ k) ->
  Z.lor r (u32 (Z.shiftl b k)) = r + b * 2 ^ k.
Proof.
  intros Hk Hr Hb Hf. rewrite Z.shiftl_mul_pow2, (wrap_small 32) by done.
  rewrite Z.lor_comm, lor_low by done. lia.
Qed.

(** ** Writing *)

Lemma write_loop_spec n : forall v, 0 <= v < 2 ^ (7 * Z.of_nat n + 7) ->
  exists bs, write_loop n v = Some bs /\ wf_varint bs /\ varint_value bs = v /\ (length bs <= S n)%nat.
Proof.
  induction n as [|n IH]; intros v Hv; cbn [write_loop];
    (destruct (Z.ltb_spec 0x7F v) as [Hgt|Hle];
      [|eexists; split; [done|]; simpl; rewrite land_7f, (wrap_small 8), !Z.mod_small by (unfold fits; lia);
        split_and!; lia]).
  - cbn in Hv. lia.
  - assert (0 <= v / 128 < 2 ^ (7 * Z.of_nat n + 7)) as Hd.
    { split; [apply Z.div_pos; lia|]. apply Z.div_lt_upper_bound; [lia|].
      replace (7 * Z.of_nat (S n) + 7) with (7 + (7 * Z.of_nat n + 7)) in Hv by lia.
      rewrite Z.pow_add_r in Hv by lia. lia. }
    rewrite Z.shiftr_div_pow2 by lia. change (2 ^ 7) with 128.
    destruct (IH (v / 128) Hd) as (bs & -> & Hwf & Hval & Hlen). cbn.
    eexists. split; [done|]. rewrite land_7f. unfold wrap. change (2 ^ 8) with (128 * 2).
    rewrite Z.mod_mod_divide by (by exists 2).
    assert (Z.lor (v mod 128) 128 = v mod 128 + 128) as ->.
    { pose proof (Z.mod_pos_bound v 128). rewrite Z.lor_comm, (Z.add_comm _ 128).
      apply (lor_low 1 (v mod 128) 7); unfold fits; lia. }
    pose proof (Z.mod_pos_bound v 128 ltac:(lia)) as Hm. pose proof (Z.div_mod v 128 ltac:(lia)) as Hdm.
    split_and!.
    + destruct bs as [|b' bs]; [done|]. apply wf_varint_cons. split; [lia|done].
    + cbn. rewrite Hval. replace (v mod 128 + 128) with (v mod 128 + 1 * 128) by lia.
      rewrite Z.mod_add, Z.mod_small by lia. lia.
    + cbn. lia.
Qed.

Lemma write_spec v : fits 32 v ->
  exists bs, write_uvint32 v = Some bs /\ wf_varint bs /\ varint_value bs = v /\ (length bs <= 5)%nat.
Proof. intros [Hl Hh]. apply write_loop_spec. split; [done|]. etransitivity; [exact Hh|done]. Qed.

Lemma write_loop_nonempty n v : write_loop n v <> Some [].
Proof. destruct n; cbn; destruct (_ <? v); try done. by destruct (write_loop _ _). Qed.

(** The encoding is as short as possible. *)
Lemma write_loop_length n : forall v bs, 0 <= v -> write_loop n v = Some bs ->
  v < 128 ^ Z.of_nat (length bs) /\ (length bs = 1%nat \/ 128 ^ (Z.of_nat (length bs) - 1) <= v).
Proof.
  induction n as [|n IH]; intros v bs Hv; cbn; destruct (Z.ltb_spec 0x7F v) as [Hgt|Hle]; intros H; simplify_eq/=.
  - split; [lia|by left].
  - destruct (write_loop n (Z.shiftr v 7)) as [bs'|] eqn:E; simplify_eq/=.
    rewrite Z.shiftr_div_pow2 in E by lia. change (2 ^ 7) with 128 in E.
    destruct (IH (v / 128) bs') as [Hu Hl]; [apply Z.div_pos; lia|done|].
    pose proof (Z.div_mod v 128 ltac:(lia)). pose proof (Z.mod_pos_bound v 128 ltac:(lia)).
    rewrite Nat2Z.inj_succ. unfold Z.succ. rewrite Z.add_simpl_r, Z.pow_add_r by lia. change (128 ^ 1) with 128.
    split; [lia|right]. destruct Hl as [->|Hl]; [change (128 ^ Z.of_nat 1) with 128; lia|].
    replace (Z.of_nat (length bs')) with (Z.of_nat (length bs') - 1 + 1) by lia.
    destruct bs'; [by apply write_loop_nonempty in E|]. rewrite Z.pow_add_r by (cbn [length]; lia). change (128 ^ 1) with 128. lia.
  - split; [lia|by left].
Qed.

Lemma write_length v bs : 0 <= v -> write_uvint32 v = Some bs -> (length bs <= 5)%nat ->
  Z.of_nat (length bs) = size_uvint32 v.
Proof.
  intros Hv H Hn. destruct (write_loop_length _ _ _ Hv H) as [Hu Hl].
  assert (length bs <> 0)%nat as H0 by (intros ->%nil_length_inv; by apply write_loop_nonempty in H).
  unfold size_uvint32. change (Z.lor (127 ≪ 7) 127) with (128 ^ 2 - 1).
  change (Z.lor (Z.lor (127 ≪ 14) (127 ≪ 7)) 127) with (128 ^ 3 - 1).
  change (Z.lor (Z.lor (Z.lor (127 ≪ 21) (127 ≪ 14)) (127 ≪ 7)) 127) with (128 ^ 4 - 1).
  destruct (length bs) as [|[|[|[|[|[|k]]]]]]; try lia; unfold Z.of_nat, Z.sub in Hu, Hl |- *;
    cbn [Pos.of_succ_nat Pos.succ Z.add Z.opp Z.pos_sub Z.pred_double] in Hu, Hl |- *; repeat case_match; lia.
Qed.

(** ** Reading *)

Lemma read_slow_spec bs rest :
  wf_varint bs -> (length bs <= 5)%nat -> varint_value bs < 2 ^ 32 ->
  read_uvint32_slow (bs ++ rest) = Ok (varint_value bs, rest).
Proof.
  intros Hwf Hlen Hv. unfold read_uvint32_slow.
  destruct bs as [|b0 [|b1 [|b2 [|b3 [|b4 [|b5 bs]]]]]]; cbn [wf_varint] in Hwf; try (cbn in Hlen; lia);
    cbn [app get mbind res_bind varint_value] in *; rewrite !land_7f.
  all: repeat match goal with
    | H : 128 <= ?b < 256 /\ _ |- _ => destruct H
    | H : 128 <= ?b < 256 |- context [?b <? 128] => rewrite (proj2 (Z.ltb_ge b 128)) by lia
    | H : 0 <= ?b < 128 |- context [?b <? 128] => rewrite (proj2 (Z.ltb_lt b 128)) by lia
    end.
  all: repeat match goal with
    | H : 0 <= ?b < 128 |- context [?b mod 128] => rewrite (Z.mod_small b 128) in * by lia
    | |- context [?b mod 128] =>
        let d := fresh "d" in pose proof (Z.mod_pos_bound b 128 ltac:(lia)); set (d := b mod 128) in *; clearbody d
    | |- context [Z.lor ?r (u32 (Z.shiftl ?b ?k))] =>
        lazymatch r with context [Z.lor] => fail | _ => rewrite (lor_digit r b k) by (unfold fits; lia) end
    end; do 2 f_equal; lia.
Qed.

Lemma read_spec bs rest :
  wf_varint bs -> (length bs <= 5)%nat -> varint_value bs < 2 ^ 32 ->
  read_uvint32 (bs ++ rest) = Ok (varint_value bs, rest).
Proof.
  intros Hwf Hlen Hv. pose proof (read_slow_spec bs rest Hwf Hlen Hv) as Hr. unfold read_uvint32.
  destruct bs as [|b [|b' bs]]; [done| |].
  - cbn in Hwf |- *. rewrite (proj2 (Z.ltb_lt b 128)), Z.mod_small by lia. do 2 f_equal. lia.
  - apply wf_varint_cons in Hwf as [Hb _]. cbn [app get mbind res_bind].
    rewrite (proj2 (Z.ltb_ge b 128)) by lia. exact Hr.
Qed.

(** ** The checking variants *)

Lemma dec_small n : 0 < n -> fits 64 n -> u64 (n - 1) = n - 1.
Proof. intros H1 [H2 H3]. apply wrap_small. unfold fits. lia. Qed.

(** The number of bytes read. *)
Definition consumed (buf p : list Z) : Z := Z.of_nat (length buf) - Z.of_nat (length p).

(** One more byte of a scan: both the reader and the checking reader look at
    the same bytes, and the latter stops when its count is used up. *)
Lemma failsafe_slow_agrees buf n v p :
  fits 64 n -> read_uvint32_slow buf = Ok (v, p) ->
  failsafe_read_uvint32_slow buf n = Ok (if consumed buf p <=? n then Some (v, p) else None).
Proof.
  unfold fits. intros Hn. unfold read_uvint32_slow, failsafe_read_uvint32_slow, consumed.
  destruct buf as [|b0 [|b1 [|b2 [|b3 [|b4 buf]]]]]; cbv zeta; cbn [get mbind res_bind]; try done.
  all: repeat match goal with
    | |- context [if ?b <? 128 then _ else _] => destruct (b <? 128); cbn [get mbind res_bind]; try done
    end; intros [= <- <-]; cbn [length].
  all: repeat match goal with
    | |- context [if ?n =? 0 then _ else _] =>
        destruct (Z.eqb_spec n 0); [rewrite (proj2 (Z.leb_gt _ _)) by lia; done|];
        try rewrite (dec_small n) in * by (unfold fits in *; lia)
    end; rewrite (proj2 (Z.leb_le _ _)) by lia; done.
Qed.

Lemma failsafe_agrees buf n v p :
  fits 64 n -> read_uvint32 buf = Ok (v, p) ->
  failsafe_read_uvint32 buf n = Ok (if consumed buf p <=? n then Some (v, p) else None).
Proof.
  intros Hn. unfold read_uvint32, failsafe_read_uvint32. destruct buf as [|b buf]; [done|].
  cbn [get mbind res_bind]. destruct (b <? 128) eqn:Eb.
  - intros [= <- <-]. unfold consumed, fits in *. cbn [length]. destruct (Z.eqb_spec n 0) as [->|].
    + rewrite (proj2 (Z.leb_gt _ _)) by lia. done.
    + rewrite (proj2 (Z.leb_le _ _)) by lia. done.
  - intros H. rewrite (failsafe_slow_agrees _ n v p Hn H). destruct (Z.eqb_spec n 0) as [->|]; [|done].
    pose proof (failsafe_slow_agrees _ 0 v p Hn H) as H0. cbn in H0. by rewrite <- H0.
Qed.

(** The copy of the bytes read in [rawv]. *)
Definition copied (buf : list Z) (k : Z) (rawv : option (list Z)) : option (list Z) :=
  (fun r => take (Z.to_nat k) buf ++ drop (Z.to_nat k) r) <$> rawv.

Definition roomy (rawv : option (list Z)) : Prop := forall r, rawv = Some r -> (5 <= length r)%nat.

Lemma roomy_cases rawv :
  roomy rawv -> rawv = None \/ exists r0 r1 r2 r3 r4 r, rawv = Some (r0 :: r1 :: r2 :: r3 :: r4 :: r).
Proof.
  intros H. destruct rawv as [r|]; [right|by left]. specialize (H r eq_refl).
  destruct r as [|r0 [|r1 [|r2 [|r3 [|r4 r]]]]]; cbn in H; try lia. by exists r0, r1, r2, r3, r4, r.
Qed.

(** The fast path only skips the masking of a byte that needs none. *)
Lemma read_consumes buf v p : read_uvint32 buf = Ok (v, p) -> exists v', read_uvint32_slow buf = Ok (v', p).
Proof.
  unfold read_uvint32, read_uvint32_slow. destruct buf as [|b buf]; [done|]. cbn [get mbind res_bind].
  destruct (b <? 128); [intros [= <- <-]|]; eauto.
Qed.

Lemma copy_byte_ok stream rawv i b :
  stream !! i = Some b -> match rawv with Some r => (i < length r)%nat | None => True end ->
  copy_byte stream rawv i = Ok (b, (fun r => <[i := b]> r) <$> rawv).
Proof. intros E Hr. unfold copy_byte. rewrite E. destruct rawv; [|done]. by rewrite bool_decide_true. Qed.

(** Runs a skip on a buffer of known length, using what is known of its bytes. *)
Ltac run_skip :=
  repeat (first
    [ erewrite copy_byte_ok by (first [reflexivity | exact I | cbn; lia])
    | match goal with H : (?b <? 128) = _ |- context [?b <? 128] => rewrite H end ];
    cbn [fmap option_fmap option_map insert list_insert mbind res_bind]).

Lemma skip_agrees buf rawv v p :
  read_uvint32 buf = Ok (v, p) -> roomy rawv ->
  skip_uvint32 buf rawv = Ok (consumed buf p, copied buf (consumed buf p) rawv).
Proof.
  intros [v' H]%read_consumes Hr. revert H. unfold read_uvint32_slow, skip_uvint32, consumed.
  destruct (roomy_cases _ Hr) as [->|(r0 & r1 & r2 & r3 & r4 & r & ->)];
  destruct buf as [|b0 [|b1 [|b2 [|b3 [|b4 buf]]]]]; cbn [get mbind res_bind]; try done.
  all: repeat match goal with
    | |- context [if ?b <? 128 then _ else _] => destruct (b <? 128) eqn:?; cbn [get mbind res_bind]; try done
    end; intros [= <- <-].
  all: run_skip; cbn [length]; match goal with |- Ok (?k, _) = Ok (?e, _) => replace e with k by lia end; reflexivity.
Qed.

Lemma failsafe_skip_agrees buf n rawv v p :
  fits 64 n -> read_uvint32 buf = Ok (v, p) -> roomy rawv ->
  if consumed buf p <=? n
  then failsafe_skip_uvint32 buf n rawv = Ok (consumed buf p, copied buf (consumed buf p) rawv)
  else exists r, failsafe_skip_uvint32 buf n rawv = Ok (0, r).
Proof.
  unfold fits. intros Hn H Hr. pose proof (skip_agrees _ _ _ _ H Hr) as Hs. revert Hs.
  apply read_consumes in H as [v' H]. revert H. unfold read_uvint32_slow, skip_uvint32, failsafe_skip_uvint32, consumed.
  destruct (roomy_cases _ Hr) as [->|(r0 & r1 & r2 & r3 & r4 & r & ->)];
  destruct buf as [|b0 [|b1 [|b2 [|b3 [|b4 buf]]]]]; cbv zeta; cbn [get mbind res_bind]; try done.
  all: repeat match goal with
    | |- context [if ?b <? 128 then Ok (Z.land _ _, _) else _] =>
        destruct (b <? 128) eqn:?; cbn [get mbind res_bind]; try done
    | |- context [if ?b <? 128 then Ok (Z.lor _ _, _) else _] =>
        destruct (b <? 128) eqn:?; cbn [get mbind res_bind]; try done
    end; intros [= <- <-]; cbn [length].
  all: run_skip; intros Hs.
  all: repeat (match goal with
    | |- context [if ?n =? 0 then _ else _] =>
        destruct (Z.eqb_spec n 0); [rewrite (proj2 (Z.leb_gt _ _)) by lia; by eexists|];
        try rewrite (dec_small n) in * by (unfold fits in *; lia)
    end; run_skip).
  all: rewrite (proj2 (Z.leb_le _ _)) by lia; exact Hs.
Qed.

(** C32: every 32-bit value is written, in as many bytes as
    [size_uvint32] says (between one and five), and reading those bytes gives
    the value back and leaves what follows them; the checking reader does the
    same if its count covers the encoding and fails if it does not. *)
Theorem varint_roundtrip v (Hv : fits 32 v) :
  exists bs, write_uvint32 v = Some bs /\ Z.of_nat (length bs) = size_uvint32 v /\ 1 <= size_uvint32 v <= 5 /\
    forall rest, read_uvint32 (bs ++ rest) = Ok (v, rest) /\
      forall n, fits 64 n ->
        failsafe_read_uvint32 (bs ++ rest) n = Ok (if size_uvint32 v <=? n then Some (v, rest) else None).
Proof.
  destruct (write_spec v Hv) as (bs & Hw & Hwf & Hval & Hlen). exists bs.
  pose proof (write_length v bs (proj1 Hv) Hw Hlen) as Hsz.
  split_and!; [done..|unfold size_uvint32; repeat case_match; lia| |].
  - unfold size_uvint32. repeat case_match; lia.
  - intros rest. assert (read_uvint32 (bs ++ rest) = Ok (v, rest)) as Hr.
    { rewrite read_spec, Hval; [done..|]. rewrite Hval. apply Hv. }
    split; [done|]. intros n Hn. rewrite (failsafe_agrees _ n v rest Hn Hr). unfold consumed.
    rewrite length_app, <- Hsz. by replace (Z.of_nat (length bs + length rest) - Z.of_nat (length rest)) with (Z.of_nat (length bs)) by lia.
Qed.

Lemma varint_roundtrip_witness :
  exists bs, write_uvint32 300 = Some bs /\ Z.of_nat (length bs) = 2 /\ read_uvint32 (bs ++ [7]) = Ok (300, [7]) /\
    failsafe_read_uvint32 (bs ++ [7]) 1 = Ok None.
Proof.
  destruct (varint_roundtrip 300) as (bs & Hw & Hs & _ & Hr); [vm_compute; split; congruence|].
  exists bs. split; [exact Hw|]. split; [exact Hs|]. destruct (Hr [7]) as [H1 H2]. split; [exact H1|].
  rewrite H2; [reflexivity|vm_compute; split; congruence].
Defined.

(** ** Buffers that end where the count ends *)

Lemma read_app bs rest v p : read_uvint32 bs = Ok (v, p) -> read_uvint32 (bs ++ rest) = Ok (v, p ++ rest).
Proof.
  unfold read_uvint32, read_uvint32_slow.
  destruct bs as [|b0 [|b1 [|b2 [|b3 [|b4 bs]]]]]; cbn [get mbind res_bind app]; try done.
  all: repeat match goal with |- context [if ?b <? 128 then _ else _] => destruct (b <? 128); cbn [get mbind res_bind]; try done end.
  all: by intros [= <- <-].
Qed.

(** The bytes run out in the middle of an encoding: the checking variants stop
    there. *)
Lemma failsafe_short bs rest rawv :
  fits 64 (Z.of_nat (length bs)) -> roomy rawv -> read_uvint32 bs = Throw bad_address ->
  failsafe_read_uvint32 (bs ++ rest) (Z.of_nat (length bs)) = Ok None /\
  exists r, failsafe_skip_uvint32 (bs ++ rest) (Z.of_nat (length bs)) rawv = Ok (0, r).
Proof.
  unfold fits. intros Hn Hr. unfold read_uvint32, read_uvint32_slow, failsafe_read_uvint32, failsafe_read_uvint32_slow, failsafe_skip_uvint32.
  destruct (roomy_cases _ Hr) as [->|(r0 & r1 & r2 & r3 & r4 & r & ->)];
  destruct bs as [|b0 [|b1 [|b2 [|b3 [|b4 bs]]]]]; cbv zeta; cbn [get mbind res_bind app length]; try (intros; split; [done|by eexists]).
  all: repeat match goal with |- context [if ?b <? 128 then _ else _] => destruct (b <? 128) eqn:?; cbn [get mbind res_bind]; try done end.
  all: intros _; vm_compute (u64 _).
  all: split; [reflexivity|]; run_skip; by eexists.
Qed.

(** Five bytes that go on: no encoding. *)
Lemma failsafe_long bs rest rawv :
  fits 64 (Z.of_nat (length bs)) -> roomy rawv -> read_uvint32 bs = Throw assertion_failure ->
  (exists x, failsafe_read_uvint32 (bs ++ rest) (Z.of_nat (length bs)) = Ok x) /\
  failsafe_skip_uvint32 (bs ++ rest) (Z.of_nat (length bs)) rawv = Throw assertion_failure.
Proof.
  unfold fits. intros Hn Hr. unfold read_uvint32, read_uvint32_slow, failsafe_read_uvint32, failsafe_read_uvint32_slow, failsafe_skip_uvint32.
  destruct bs as [|b0 [|b1 [|b2 [|b3 [|b4 bs]]]]]; cbv zeta; cbn [get mbind res_bind app]; try done.
  all: repeat match goal with |- context [if ?b <? 128 then _ else _] => destruct (b <? 128) eqn:?; cbn [get mbind res_bind]; try done end.
  intros _. set (n := Z.of_nat (length _)) in *. assert (5 <= n) as H5 by (subst n; cbn [length]; lia). clearbody n.
  destruct (roomy_cases _ Hr) as [->|(r0 & r1 & r2 & r3 & r4 & r & ->)].
  all: repeat match goal with
    | |- context [if ?n =? 0 then _ else _] => destruct (Z.eqb_spec n 0); [lia|]; try rewrite (dec_small n) in * by (unfold fits; lia)
    end; split; [by eexists|]; run_skip.
  all: repeat match goal with
    | |- context [if ?n =? 0 then _ else _] => destruct (Z.eqb_spec n 0); [lia|]; try rewrite (dec_small n) in * by (unfold fits; lia); run_skip
    end; done.
Qed.



(** A fifth byte with its top bit set is not an encoding: [read_uvint32]
    refuses it, the checking reader accepts it. *)
Example failsafe_accepts_long :
  read_uvint32 [128; 128; 128; 128; 129; 5] = Throw assertion_failure /\
  failsafe_read_uvint32 [128; 128; 128; 128; 129; 5] 6 = Ok (Some (268435456, [5])).
Proof. split; reflexivity. Qed.
