(* ===== verification/Adler.v ===== *)
(** * Adler-32 checksums ([dbcore/adler.h], [dbcore/adler.cpp])

    The scalar loop, the SSSE3 version with its 16- and 32-bit vector lanes,
    and the combination of two checksums.  A pointer to data together with the
    number of bytes left is the list of those bytes. *)
From stdpp Require Import base numbers list.
From Stdlib Require Import ZArith Lia.
From S2P Require Import Prelude.

Local Open Scope Z_scope.

(* src: dbcore/adler.h:35-35 ADLER32_CSUM_INIT *)
Definition ADLER32_CSUM_INIT : Z := 1.
(* src: dbcore/adler.cpp:44-44 MOD_ADLER *)
Definition MOD_ADLER : Z := 65521.

(** What happens to the bytes besides being summed. *)
Inductive op := nop_op | memcpy_op.

(** [dst] is what has been written to the destination. *)
(* src: dbcore/adler.cpp:19-41 adler32_nop_op, adler32_memcpy_op *)
Definition op_call (o : op) (data dst : list Z) : list Z :=
  match o with nop_op => dst | memcpy_op => dst ++ data end.

(* src: dbcore/adler.cpp:26-34 adler32_memcpy_op::adler32_memcpy_op *)
Definition adler32_memcpy_op (dest src : Z) : res op :=
  if negb (Z.land 0xf dest =? Z.land 0xf src) then Throw illegal_argument else Ok memcpy_op.

(** The sums and the copy. *)
Record sums := mk_sums { sum_a : Z; sum_b : Z; copy : list Z }.

(* src: dbcore/adler.cpp:47-54 adler32_single *)
Definition adler32_single (o : op) (s : sums) (d : Z) : sums :=
  let a := u64 (sum_a s + d) in
  mk_sums a (u64 (sum_b s + a)) (op_call o [d] (copy s)).

(* src: dbcore/adler.cpp:56-67 adler32_finish *)
Definition adler32_finish (o : op) (s : sums) (data : list Z) : Z * list Z :=
  let s := foldl (adler32_single o) s data in
  let a := sum_a s mod MOD_ADLER in
  let b := sum_b s mod MOD_ADLER in
  (u32 (Z.lor (u64 (Z.shiftl b 16)) a), copy s).

(* src: dbcore/adler.cpp:69-84 adler32_merge *)
Definition adler32_merge (left right right_size : Z) : Z :=
  let a := Z.land left 0xffff in
  let b := Z.shiftr left 16 in
  let d1 := Z.land right 0xffff in
  let d2 := Z.shiftr right 16 in
  let a := u64 (a + u64 (MOD_ADLER - 1)) in
  let b := u64 (b + u64 (u64 (right_size * a) + d2)) in
  let a := u64 (a + d1) in
  fst (adler32_finish nop_op (mk_sums a b []) []).

Definition start (sofar : Z) : sums := mk_sums (Z.land sofar 0xffff) (Z.shiftr sofar 16) [].

(* src: dbcore/adler.cpp:86-91 adler32_vanilla *)
Definition adler32_vanilla_op (o : op) (data : list Z) (sofar : Z) : Z * list Z :=
  adler32_finish o (start sofar) data.

(* src: dbcore/adler.cpp:93-98 adler32_vanilla *)
Definition adler32_vanilla (data : list Z) (sofar : Z) : Z := fst (adler32_vanilla_op nop_op data sofar).

(* src: dbcore/adler.cpp:100-105 adler32_memcpy_vanilla *)
Definition adler32_memcpy_vanilla (dest src : Z) (data : list Z) (sofar : Z) : res (Z * list Z) :=
  o ← adler32_memcpy_op dest src; Ok (adler32_vanilla_op o data sofar).

(** ** Vector instructions

    A vector is the list of its lanes as signed numbers; bytes are unsigned.
    Lane arithmetic wraps around. *)

Definition sat16 (x : Z) : Z := Z.max (-32768) (Z.min 32767 x).
Definition add16 (x y : list Z) : list Z := zip_with (fun a b => sext 16 (a + b)) x y.
Definition add32 (x y : list Z) : list Z := zip_with (fun a b => sext 32 (a + b)) x y.

Fixpoint pairwise (f : Z -> Z -> Z) (l : list Z) : list Z :=
  match l with a :: b :: l => f a b :: pairwise f l | _ => [] end.

(** [__builtin_ia32_pmaddubsw128]: unsigned times signed bytes, neighbours
    added with saturation. *)
Definition pmaddubsw (x c : list Z) : list Z := pairwise (fun a b => sat16 (a + b)) (zip_with Z.mul x c).
(** [__builtin_ia32_pmaddwd128]. *)
Definition pmaddwd (x c : list Z) : list Z := pairwise (fun a b => sext 32 (a + b)) (zip_with Z.mul x c).
(** [__builtin_ia32_punpcklwd128(x, ZERO)], [__builtin_ia32_punpckhwd128(x,
    ZERO)] read as 32-bit lanes: the low and the high half, zero-extended. *)
Definition punpcklwd (x : list Z) : list Z := u16 <$> take 4 x.
Definition punpckhwd (x : list Z) : list Z := u16 <$> drop 4 x.
(** [__builtin_ia32_phaddd128]. *)
Definition phaddd (x y : list Z) : list Z := pairwise (fun a b => sext 32 (a + b)) (x ++ y).

Definition DZERO : list Z := [0; 0; 0; 0].
Definition ZERO : list Z := [0; 0; 0; 0; 0; 0; 0; 0].
Definition C2 : list Z := [16; 15; 14; 13; 12; 11; 10; 9; 8; 7; 6; 5; 4; 3; 2; 1].
Definition BONE : list Z := replicate 16 1.
Definition B16 : list Z := replicate 16 16.
Definition ONE : list Z := [1; 1; 1; 1; 1; 1; 1; 1].

(** The vector accumulators and the copy. *)
Record vsums := mk_vsums { va : list Z; vb : list Z; vcopy : list Z }.

(** [bx[k]]. *)
Definition lane16 (bx : list Z) (k : nat) : list Z := take 16 (drop (16 * k) bx).

(* src: dbcore/adler.cpp:112-239 adler32_sse_chunk4_fast *)
Definition adler32_sse_chunk4_fast (o : op) (v : vsums) (bx : list Z) : vsums :=
  let s2y := ZERO in
  let s1 := pmaddubsw (lane16 bx 0) B16 in
  let s2x := pmaddubsw (lane16 bx 0) C2 in
  let dst := op_call o (lane16 bx 0) (vcopy v) in
  let s2y := add16 s2y s1 in
  let s1 := add16 s1 (pmaddubsw (lane16 bx 1) B16) in
  let s2x := add16 s2x (pmaddubsw (lane16 bx 1) C2) in
  let dst := op_call o (lane16 bx 1) dst in
  let s2y := add16 s2y s1 in
  let s1 := add16 s1 (pmaddubsw (lane16 bx 2) B16) in
  let s2x := add16 s2x (pmaddubsw (lane16 bx 2) C2) in
  let dst := op_call o (lane16 bx 2) dst in
  let s2y := add16 s2y s1 in
  let s1 := add16 s1 (pmaddubsw (lane16 bx 3) B16) in
  let s2x := add16 s2x (pmaddubsw (lane16 bx 3) C2) in
  let dst := op_call o (lane16 bx 3) dst in
  let s1 := (fun x => Z.shiftr x 4) <$> s1 in
  let d1 := pmaddwd s1 ONE in
  let d2 := pmaddwd s2x ONE in
  let d2 := add32 d2 (punpcklwd s2y) in
  let d2 := add32 d2 (punpckhwd s2y) in
  mk_vsums (add32 (va v) d1) (add32 (vb v) (add32 ((fun x => sext 32 (64 * x)) <$> va v) d2)) dst.

(* src: dbcore/adler.cpp:241-261 adler32_sse_chunk1_fast *)
Definition adler32_sse_chunk1_fast (o : op) (v : vsums) (bx : list Z) : vsums :=
  let s1 := pmaddubsw (lane16 bx 0) BONE in
  let s2 := pmaddubsw (lane16 bx 0) C2 in
  let dst := op_call o (lane16 bx 0) (vcopy v) in
  let d1 := pmaddwd s1 ONE in
  let d2 := pmaddwd s2 ONE in
  mk_vsums (add32 (va v) d1) (add32 (vb v) (add32 ((fun x => sext 32 (16 * x)) <$> va v) d2)) dst.

(* src: dbcore/adler.cpp:263-275 adler32_sse_reduce *)
Definition adler32_sse_reduce (s : sums) (va vb : list Z) (k : Z) : sums :=
  let va := phaddd va vb in
  let va := phaddd va va in
  let b := u64 (sum_b s + u64 (u64 (k * sum_a s) + nth 1 va 0)) in
  let a := u64 (sum_a s + nth 0 va 0) in
  mk_sums (u32 a mod MOD_ADLER) (u32 b mod MOD_ADLER) (copy s).

(* src: dbcore/adler.cpp:278-290 adler32_finish_sse *)
Definition adler32_finish_sse (o : op) (s : sums) (data : list Z) : Z * list Z :=
  let s := foldl (adler32_single o) s data in
  let b := u32 (sum_b s) mod MOD_ADLER in
  let a := u32 (sum_a s) mod MOD_ADLER in
  (u32 (Z.lor (u64 (Z.shiftl b 16)) a), copy s).

(** ** The vectorized loop *)

(** Single bytes up to the next 16-byte boundary; [addr] is the address of the
    first byte of [data].  Reading past the end would be a wild read. *)
(* src: dbcore/adler.cpp:302-303 adler32_sse *)
Fixpoint align_loop (n : nat) (o : op) (addr : Z) (s : sums) (data : list Z) : res (sums * list Z) :=
  if Z.land addr 0xf =? 0 then Ok (s, data)
  else
    match n, data with
    | O, _ => Throw Spinning
    | _, [] => Throw bad_address
    | S n, d :: data => align_loop n o (addr + 1) (adler32_single o s d) data
    end.

Definition nstep : nat := 16.
Definition blocksize : nat := 64 * nstep.

(** One block: [nstep] chunks of 64 bytes, then the reduction. *)
(* src: dbcore/adler.cpp:324-329 adler32_sse *)
Definition block (o : op) (s : sums) (data : list Z) : sums :=
  let v := foldl (fun v j => adler32_sse_chunk4_fast o v (drop (64 * j) data))
             (mk_vsums DZERO DZERO (copy s)) (seq 0 nstep) in
  adler32_sse_reduce (mk_sums (sum_a s) (sum_b s) (vcopy v)) (va v) (vb v) (Z.of_nat blocksize).

(* src: dbcore/adler.cpp:323-330 adler32_sse *)
Fixpoint block_loop (n : nat) (o : op) (s : sums) (data : list Z) : res (sums * list Z) :=
  if bool_decide (blocksize <= length data)%nat then
    match n with
    | O => Throw Spinning
    | S n => block_loop n o (block o s data) (drop blocksize data)
    end
  else Ok (s, data).

(* src: dbcore/adler.cpp:334-335 adler32_sse *)
Fixpoint chunk_loop (n : nat) (o : op) (v : vsums) (data : list Z) : res (vsums * list Z) :=
  if bool_decide (16 <= length data)%nat then
    match n with
    | O => Throw Spinning
    | S n => chunk_loop n o (adler32_sse_chunk1_fast o v data) (drop 16 data)
    end
  else Ok (v, data).

(* src: dbcore/adler.cpp:292-344 adler32_sse *)
Definition adler32_sse_op (o : op) (addr : Z) (data : list Z) (sofar : Z) : res (Z * list Z) :=
  let s := start sofar in
  if bool_decide (length data < 16)%nat then Ok (adler32_finish_sse o s data)
  else
    '(s, data) ← align_loop 15 o addr s data;
    '(s, data) ← block_loop (length data) o s data;
    let k := Z.of_nat (length data) / 16 in
    '(v, data) ← chunk_loop (length data) o (mk_vsums DZERO DZERO (copy s)) data;
    let s := adler32_sse_reduce (mk_sums (sum_a s) (sum_b s) (vcopy v)) (va v) (vb v) (16 * k) in
    Ok (adler32_finish_sse o s data).

(* src: dbcore/adler.cpp:346-351 adler32_sse *)
Definition adler32_sse (addr : Z) (data : list Z) (sofar : Z) : res Z :=
  r ← adler32_sse_op nop_op addr data sofar; Ok (fst r).

(* src: dbcore/adler.cpp:352-357 adler32_memcpy_sse *)
Definition adler32_memcpy_sse (dest src : Z) (data : list Z) (sofar : Z) : res (Z * list Z) :=
  o ← adler32_memcpy_op dest src; adler32_sse_op o src data sofar.

(* src: dbcore/adler.cpp:360-364 adler32 *)
Definition adler32 (addr : Z) (data : list Z) (sofar : Z) : res Z := adler32_sse addr data sofar.
(* src: dbcore/adler.cpp:365-369 adler32_memcpy *)
Definition adler32_memcpy (dest src : Z) (data : list Z) (sofar : Z) : res (Z * list Z) :=
  adler32_memcpy_sse dest src data sofar.

(** ** The sums without machine arithmetic *)

Definition bytes (l : list Z) : Prop := Forall (fun d => 0 <= d < 256) l.
Definition len (l : list Z) : Z := Z.of_nat (length l).
Fixpoint asum (l : list Z) : Z := match l with [] => 0 | d :: l => d + asum l end.
(** Every byte counts as often as it has been part of [a]. *)
Fixpoint wsum (l : list Z) : Z := match l with [] => 0 | d :: l => (len l + 1) * d + wsum l end.

Lemma len_cons d l : len (d :: l) = len l + 1.
Proof. unfold len. cbn [length]. lia. Qed.

Lemma len_app l1 l2 : len (l1 ++ l2) = len l1 + len l2.
Proof. unfold len. rewrite length_app. lia. Qed.

Lemma len_nonneg l : 0 <= len l.
Proof. unfold len. lia. Qed.

Lemma asum_app l1 l2 : asum (l1 ++ l2) = asum l1 + asum l2.
Proof. induction l1 as [|d l1 IH]; cbn; lia. Qed.

Lemma wsum_app l1 l2 : wsum (l1 ++ l2) = wsum l1 + len l2 * asum l1 + wsum l2.
Proof. induction l1 as [|d l1 IH]; cbn [app wsum asum]; [lia|]. rewrite len_app, IH. lia. Qed.

Lemma asum_bound l : bytes l -> 0 <= asum l <= 255 * len l.
Proof.
  induction 1 as [|d l Hd Hl IH]; [done|]. rewrite len_cons. cbn. lia.
Qed.

Lemma wsum_bound l : bytes l -> 0 <= wsum l /\ 2 * wsum l <= 255 * len l * (len l + 1).
Proof.
  induction 1 as [|d l Hd Hl IH]; [done|]. rewrite len_cons. cbn [wsum]. pose proof (len_nonneg l). nia.
Qed.

Lemma foldl_single o l : forall s, bytes l -> 0 <= sum_a s -> 0 <= sum_b s ->
  sum_a s + 255 * len l < 2 ^ 64 -> sum_b s + len l * sum_a s + 255 * len l * (len l + 1) < 2 ^ 64 ->
  foldl (adler32_single o) s l
  = mk_sums (sum_a s + asum l) (sum_b s + len l * sum_a s + wsum l) (op_call o l (copy s)).
Proof.
  induction l as [|d l IH]; intros s Hb Ha0 Hb0 Ha1 Hb1.
  - destruct s as [a b c]. cbn. rewrite !Z.add_0_r. destruct o; [done|]. cbn. by rewrite app_nil_r.
  - apply Forall_cons in Hb as [Hd Hb]. rewrite len_cons in *. pose proof (len_nonneg l) as Hl.
    cbn [foldl asum wsum]. unfold adler32_single at 2.
    rewrite (wrap_small 64 (sum_a s + d)) by (unfold fits; nia).
    rewrite (wrap_small 64 (sum_b s + (sum_a s + d))) by (unfold fits; nia).
    rewrite IH; cbn [sum_a sum_b copy]; [|done|nia..].
    f_equal; [lia..|]. destruct o; [done|]. cbn. by rewrite <- app_assoc.
Qed.

(** ** Vector chunks *)

Definition byte (x : Z) : Prop := 0 <= x < 256.

Lemma wrap_sext w x : 0 < w -> wrap w (sext w x) = wrap w x.
Proof.
  intros Hw. pose proof (Z.pow_pos_nonneg 2 w ltac:(lia) ltac:(lia)). unfold sext, wrap.
  destruct (_ <? _); [apply Z.mod_mod; lia|].
  replace (x mod 2 ^ w - 2 ^ w) with (x mod 2 ^ w + (-1) * 2 ^ w) by lia.
  rewrite Z.mod_add, Z.mod_mod by lia. done.
Qed.

Lemma sat16_small x : -32768 <= x <= 32767 -> sat16 x = x.
Proof. unfold sat16. lia. Qed.

(** Removes wrap-around that cannot happen, from the inside out. *)
Ltac no_wrap w :=
  repeat match goal with
  | |- context [sext w ?x] =>
      lazymatch x with
      | context [sext] => fail
      | _ => rewrite (sext_small w x) by
          (let k := eval cbv in (2 ^ (w - 1)) in change (2 ^ (w - 1)) with k; lia)
      end
  end.

(** One 16-bit lane of the three accumulators of [adler32_sse_chunk4_fast]:
    [x]i, [y]i are its bytes of [bx[i]]. *)
Section lanes.
Context (x0 y0 x1 y1 x2 y2 x3 y3 : Z).
Context (Hx0 : byte x0) (Hy0 : byte y0) (Hx1 : byte x1) (Hy1 : byte y1).
Context (Hx2 : byte x2) (Hy2 : byte y2) (Hx3 : byte x3) (Hy3 : byte y3).

Ltac no_overflow := unfold byte in *; rewrite ?sat16_small by lia; no_wrap 16.

Lemma lane_s1 :
  Z.shiftr (sext 16 (sext 16 (sext 16 (sat16 (x0 * 16 + y0 * 16) + sat16 (x1 * 16 + y1 * 16))
    + sat16 (x2 * 16 + y2 * 16)) + sat16 (x3 * 16 + y3 * 16))) 4
  = x0 + y0 + (x1 + y1) + (x2 + y2) + (x3 + y3).
Proof.
  no_overflow. rewrite Z.shiftr_div_pow2 by lia. change (2 ^ 4) with 16.
  rewrite <- (Z.div_mul (x0 + y0 + (x1 + y1) + (x2 + y2) + (x3 + y3)) 16) by lia. f_equal. lia.
Qed.

Lemma lane_s2x c d : 0 <= c <= 16 -> 0 <= d <= 16 -> c + d <= 31 ->
  sext 16 (sext 16 (sext 16 (sat16 (x0 * c + y0 * d) + sat16 (x1 * c + y1 * d))
    + sat16 (x2 * c + y2 * d)) + sat16 (x3 * c + y3 * d))
  = (x0 + x1 + x2 + x3) * c + (y0 + y1 + y2 + y3) * d.
Proof.
  intros Hc Hd Hcd. assert (forall x y, byte x -> byte y -> 0 <= x * c + y * d <= 7905) as B by (unfold byte; nia).
  pose proof (B _ _ Hx0 Hy0). pose proof (B _ _ Hx1 Hy1). pose proof (B _ _ Hx2 Hy2). pose proof (B _ _ Hx3 Hy3).
  no_overflow. lia.
Qed.

Lemma lane_s2y :
  u16 (sext 16 (sext 16 (sext 16 (0 + sat16 (x0 * 16 + y0 * 16))
    + sext 16 (sat16 (x0 * 16 + y0 * 16) + sat16 (x1 * 16 + y1 * 16)))
    + sext 16 (sext 16 (sat16 (x0 * 16 + y0 * 16) + sat16 (x1 * 16 + y1 * 16)) + sat16 (x2 * 16 + y2 * 16))))
  = 16 * (3 * (x0 + y0) + 2 * (x1 + y1) + (x2 + y2)).
Proof.
  rewrite wrap_sext by lia. no_overflow. rewrite wrap_small by (unfold fits; lia). lia.
Qed.

End lanes.

(** The bytes of one [v16qi]. *)
Lemma bytes16 l : bytes l -> length l = 16%nat ->
  exists x0 x1 x2 x3 x4 x5 x6 x7 x8 x9 xa xb xc xd xe xf,
    l = [x0; x1; x2; x3; x4; x5; x6; x7; x8; x9; xa; xb; xc; xd; xe; xf] /\
    (byte x0 /\ byte x1 /\ byte x2 /\ byte x3 /\ byte x4 /\ byte x5 /\ byte x6 /\ byte x7) /\
    (byte x8 /\ byte x9 /\ byte xa /\ byte xb /\ byte xc /\ byte xd /\ byte xe /\ byte xf).
Proof.
  intros Hb Hl. unfold bytes in Hb. do 16 (destruct l as [|? l]; [done|]). destruct l; [|done].
  repeat (apply Forall_cons in Hb; destruct Hb as [? Hb]). do 16 eexists. split; [done|]. unfold byte. tauto.
Qed.

Lemma lane16_eq l1 l2 l3 k : length l1 = (16 * k)%nat -> length l2 = 16%nat -> lane16 (l1 ++ l2 ++ l3) k = l2.
Proof. intros H1 H2. unfold lane16. rewrite <- H1, drop_app_length. by rewrite <- H2, take_app_length. Qed.

(** The vector sums after [n] chunks, which consisted of the bytes [l]. *)
Record vgood (o : op) (A B : Z) (c l : list Z) (v : vsums) : Prop := {
  vg_alen : length (va v) = 4%nat;
  vg_blen : length (vb v) = 4%nat;
  vg_a : Forall (fun x => 0 <= x <= A) (va v);
  vg_b : Forall (fun x => 0 <= x <= B) (vb v);
  vg_asum : asum (va v) = asum l;
  vg_wsum : asum (vb v) = wsum l;
  vg_copy : vcopy v = op_call o l c }.

Lemma len4 (l : list Z) : length l = 4%nat -> exists a b c d, l = [a; b; c; d].
Proof. do 4 (destruct l as [|? l]; [done|]). destruct l; [by eauto|done]. Qed.

(** The three vectors of [adler32_sse_chunk4_fast], lane by lane. *)
Section chunk4.
Context (o : op) (l0 l1 l2 l3 rest : list Z).
Context (Hb0 : bytes l0) (Hb1 : bytes l1) (Hb2 : bytes l2) (Hb3 : bytes l3).
Context (H0 : length l0 = 16%nat) (H1 : length l1 = 16%nat) (H2 : length l2 = 16%nat) (H3 : length l3 = 16%nat).
Let bx := l0 ++ l1 ++ l2 ++ l3 ++ rest.
Let l := l0 ++ l1 ++ l2 ++ l3.

Definition s1_final : list Z :=
  (fun x => Z.shiftr x 4) <$>
  add16 (add16 (add16 (pmaddubsw l0 B16) (pmaddubsw l1 B16)) (pmaddubsw l2 B16)) (pmaddubsw l3 B16).
Definition s2x_final : list Z :=
  add16 (add16 (add16 (pmaddubsw l0 C2) (pmaddubsw l1 C2)) (pmaddubsw l2 C2)) (pmaddubsw l3 C2).
Definition s2y_final : list Z :=
  add16 (add16 (add16 ZERO (pmaddubsw l0 B16)) (add16 (pmaddubsw l0 B16) (pmaddubsw l1 B16)))
    (add16 (add16 (pmaddubsw l0 B16) (pmaddubsw l1 B16)) (pmaddubsw l2 B16)).

Lemma chunk4_vectors v :
  adler32_sse_chunk4_fast o v bx =
  mk_vsums (add32 (va v) (pmaddwd s1_final ONE))
    (add32 (vb v) (add32 ((fun x => sext 32 (64 * x)) <$> va v)
      (add32 (add32 (pmaddwd s2x_final ONE) (punpcklwd s2y_final)) (punpckhwd s2y_final))))
    (op_call o l (vcopy v)).
Proof.
  unfold adler32_sse_chunk4_fast. cbv zeta.
  assert (lane16 bx 0 = l0) as -> by (by apply (lane16_eq [] l0)).
  assert (lane16 bx 1 = l1) as -> by (by apply (lane16_eq l0 l1)).
  assert (lane16 bx 2 = l2) as ->.
  { unfold bx. rewrite app_assoc. apply (lane16_eq (l0 ++ l1) l2); [rewrite length_app|]; lia. }
  assert (lane16 bx 3 = l3) as ->.
  { unfold bx. rewrite !app_assoc, <- (app_assoc _ l3). apply (lane16_eq ((l0 ++ l1) ++ l2) l3); [rewrite !length_app|]; lia. }
  unfold s1_final, s2x_final, s2y_final. f_equal. destruct o; [done|]. unfold l. cbn. by rewrite !app_assoc.
Qed.

Lemma chunk4_lanes :
  exists d0 d1 d2 d3 e0 e1 e2 e3,
    pmaddwd s1_final ONE = [d0; d1; d2; d3] /\
    add32 (add32 (pmaddwd s2x_final ONE) (punpcklwd s2y_final)) (punpckhwd s2y_final) = [e0; e1; e2; e3] /\
    Forall (fun x => 0 <= x <= 4080) [d0; d1; d2; d3] /\ Forall (fun x => 0 <= x <= 161160) [e0; e1; e2; e3] /\
    d0 + d1 + d2 + d3 = asum l /\ e0 + e1 + e2 + e3 = wsum l.
Proof.
  destruct (bytes16 l0 Hb0 H0) as (x0 & x1 & x2 & x3 & x4 & x5 & x6 & x7 & x8 & x9 & xa & xb & xc & xd & xe & xf & E0 & Hx & Hx').
  destruct (bytes16 l1 Hb1 H1) as (y0 & y1 & y2 & y3 & y4 & y5 & y6 & y7 & y8 & y9 & ya & yb & yc & yd & ye & yf & E1 & Hy & Hy').
  destruct (bytes16 l2 Hb2 H2) as (z0 & z1 & z2 & z3 & z4 & z5 & z6 & z7 & z8 & z9 & za & zb & zc & zd & ze & zf & E2 & Hz & Hz').
  destruct (bytes16 l3 Hb3 H3) as (w0 & w1 & w2 & w3 & w4 & w5 & w6 & w7 & w8 & w9 & wa & wb & wc & wd & we & wf & E3 & Hw & Hw').
  destruct_and! Hx. destruct_and! Hx'. destruct_and! Hy. destruct_and! Hy'.
  destruct_and! Hz. destruct_and! Hz'. destruct_and! Hw. destruct_and! Hw'.
  unfold l, s1_final, s2x_final, s2y_final. rewrite E0, E1, E2, E3.
  unfold pmaddubsw, add16, add32, pmaddwd, punpcklwd, punpckhwd, B16, C2, ONE, ZERO.
  cbn [replicate zip_with pairwise fmap list_fmap take drop app asum].
  rewrite !lane_s1 by done. rewrite !lane_s2x by (done || lia). rewrite !lane_s2y by done.
  unfold byte in *.
  no_wrap 32.
  do 8 eexists. split; [reflexivity|]. split; [reflexivity|].
  split; [do 4 (apply Forall_cons; split; [lia|]); done|].
  split; [do 4 (apply Forall_cons; split; [lia|]); done|]. split; [lia|].
  cbn [wsum len length]. unfold len. cbn [length Z.of_nat Pos.of_succ_nat Pos.succ Z.add Pos.add]. lia.
Qed.

End chunk4.

Lemma op_call_app o l1 l2 c : op_call o (l1 ++ l2) c = op_call o l2 (op_call o l1 c).
Proof. destruct o; [done|]. cbn. apply app_assoc. Qed.

Lemma split_at n (bx : list Z) : bytes bx -> (n <= length bx)%nat ->
  exists l rest, bx = l ++ rest /\ length l = n /\ bytes l /\ bytes rest.
Proof.
  intros Hb Hl. exists (take n bx), (drop n bx). split_and!; [by rewrite take_drop|rewrite length_take; lia| |].
  - by apply Forall_take.
  - by apply Forall_drop.
Qed.

(** Adding the lanes of one chunk of [k] bytes to the accumulators. *)
Lemma vgood_step o A B c l l' v k d e D E :
  vgood o A B c l v -> len l' = k -> 0 <= k <= 64 ->
  (exists d0 d1 d2 d3 e0 e1 e2 e3, d = [d0; d1; d2; d3] /\ e = [e0; e1; e2; e3] /\
    Forall (fun x => 0 <= x <= D) d /\ Forall (fun x => 0 <= x <= E) e /\
    d0 + d1 + d2 + d3 = asum l' /\ e0 + e1 + e2 + e3 = wsum l') ->
  0 <= A <= 70000 -> 0 <= B <= 1000000000 -> 0 <= D <= 5000 -> 0 <= E <= 200000 ->
  vgood o (A + D) (B + k * A + E) c (l ++ l')
    (mk_vsums (add32 (va v) d) (add32 (vb v) (add32 ((fun x => sext 32 (k * x)) <$> va v) e)) (op_call o l' (vcopy v))).
Proof.
  intros [La Lb Ha Hb Sa Sb Hc] Hk Hk64 (d0 & d1 & d2 & d3 & e0 & e1 & e2 & e3 & -> & -> & Hd & He & Sd & Se) HA HB HD HE.
  destruct (len4 _ La) as (a0 & a1 & a2 & a3 & Ea). destruct (len4 _ Lb) as (b0 & b1 & b2 & b3 & Eb).
  rewrite Ea in *. rewrite Eb in *. rewrite !Forall_cons in Ha, Hb, Hd, He. destruct_and! Ha. destruct_and! Hb.
  destruct_and! Hd. destruct_and! He. cbn [asum] in Sa, Sb.
  unfold add32. cbn [zip_with fmap list_fmap].
  assert (forall a, 0 <= a <= A -> 0 <= k * a <= k * A) as Hmul by (intros; nia).
  pose proof (Hmul a0 ltac:(lia)). pose proof (Hmul a1 ltac:(lia)). pose proof (Hmul a2 ltac:(lia)).
  pose proof (Hmul a3 ltac:(lia)). assert (k * A <= 64 * 70000) by nia. no_wrap 32.
  split; cbn [va vb vcopy length]; [done|done|..].
  - do 4 (apply Forall_cons; split; [lia|]). done.
  - do 4 (apply Forall_cons; split; [lia|]). done.
  - rewrite asum_app. cbn [asum]. lia.
  - rewrite wsum_app, Hk. cbn [asum]. rewrite <- Sa, <- Sb, <- Se. lia.
  - by rewrite op_call_app, Hc.
Qed.

Lemma chunk4_step o A B c l v l' rest :
  vgood o A B c l v -> bytes l' -> length l' = 64%nat -> 0 <= A <= 70000 -> 0 <= B <= 1000000000 ->
  vgood o (A + 4080) (B + 64 * A + 161160) c (l ++ l') (adler32_sse_chunk4_fast o v (l' ++ rest)).
Proof.
  intros Hv Hb Hl HA HB.
  destruct (split_at 16 l' Hb ltac:(lia)) as (l0 & r0 & -> & H0 & Hb0 & Hr0). rewrite length_app in Hl.
  destruct (split_at 16 r0 Hr0 ltac:(lia)) as (l1 & r1 & -> & H1 & Hb1 & Hr1). rewrite length_app in Hl.
  destruct (split_at 16 r1 Hr1 ltac:(lia)) as (l2 & l3 & -> & H2 & Hb2 & Hb3). rewrite length_app in Hl.
  rewrite <- !app_assoc, chunk4_vectors by (done || lia). eapply vgood_step; [exact Hv| |lia| |lia..].
  - rewrite !len_app. unfold len. lia.
  - destruct (chunk4_lanes l0 l1 l2 l3) as (d0 & d1 & d2 & d3 & e0 & e1 & e2 & e3 & -> & -> & ?); [done..|lia|].
    do 8 eexists. split; [reflexivity|]. split; [reflexivity|]. done.
Qed.

Lemma chunk1_step o A B c l v l' rest :
  vgood o A B c l v -> bytes l' -> length l' = 16%nat -> 0 <= A <= 70000 -> 0 <= B <= 1000000000 ->
  vgood o (A + 1020) (B + 16 * A + 15810) c (l ++ l') (adler32_sse_chunk1_fast o v (l' ++ rest)).
Proof.
  intros Hv Hb Hl HA HB. unfold adler32_sse_chunk1_fast. cbv zeta.
  assert (lane16 (l' ++ rest) 0 = l') as -> by (by apply (lane16_eq [] l')).
  eapply vgood_step; [exact Hv|unfold len; lia|lia| |lia..].
  destruct (bytes16 l' Hb Hl) as (x0 & x1 & x2 & x3 & x4 & x5 & x6 & x7 & x8 & x9 & xa & xb & xc & xd & xe & xf & -> & Hx & Hx').
  destruct_and! Hx. destruct_and! Hx'. unfold byte in *.
  unfold pmaddubsw, pmaddwd, BONE, C2, ONE. cbn [replicate zip_with pairwise asum].
  rewrite !sat16_small by lia. no_wrap 32.
  do 8 eexists. split; [reflexivity|]. split; [reflexivity|].
  split; [do 4 (apply Forall_cons; split; [lia|]); done|].
  split; [do 4 (apply Forall_cons; split; [lia|]); done|]. split; [lia|].
  cbn [wsum]. unfold len. cbn [length Z.of_nat Pos.of_succ_nat Pos.succ Z.add Pos.add]. lia.
Qed.

Lemma vgood_start o c : vgood o 0 0 c [] (mk_vsums DZERO DZERO c).
Proof.
  split; cbn; [done..| | |done|done|destruct o; [done|cbn; by rewrite app_nil_r]];
    do 4 (apply Forall_cons; split; [lia|]); done.
Qed.

(** ** Reductions *)

Definition congr (x y : Z) : Prop := x mod MOD_ADLER = y mod MOD_ADLER.

Lemma congr_add x x' y y' : congr x x' -> congr y y' -> congr (x + y) (x' + y').
Proof. unfold congr, MOD_ADLER. intros E1 E2. rewrite Z.add_mod, E1, E2, <- Z.add_mod by lia. done. Qed.

Lemma congr_mul k x x' : congr x x' -> congr (k * x) (k * x').
Proof. unfold congr, MOD_ADLER. intros E. rewrite Z.mul_mod, E, <- Z.mul_mod by lia. done. Qed.

Lemma congr_mod x : congr (x mod MOD_ADLER) x.
Proof. unfold congr, MOD_ADLER. apply Z.mod_mod. lia. Qed.

(** [s] is, modulo 65521, what the bytes [l] make of the sums [a], [b]. *)
Record good (o : op) (a b : Z) (l : list Z) (s : sums) : Prop := {
  g_a : congr (sum_a s) (a + asum l);
  g_b : congr (sum_b s) (b + len l * a + wsum l);
  g_copy : copy s = op_call o l [] }.

Lemma good_more o a b l l' s a' b' :
  good o a b l s -> congr a' (sum_a s + asum l') -> congr b' (sum_b s + len l' * sum_a s + wsum l') ->
  good o a b (l ++ l') (mk_sums a' b' (op_call o l' (copy s))).
Proof.
  intros [Ga Gb Gc] Ha Hb. split; cbn [sum_a sum_b copy].
  - unfold congr in *. rewrite Ha. rewrite asum_app, Z.add_assoc. by apply congr_add.
  - unfold congr in *. rewrite Hb. rewrite len_app, wsum_app.
    replace (b + (len l + len l') * a + (wsum l + len l' * asum l + wsum l'))
      with (b + len l * a + wsum l + len l' * (a + asum l) + wsum l') by lia.
    apply congr_add; [|done]. apply congr_add; [done|by apply congr_mul].
  - by rewrite op_call_app, Gc.
Qed.

Lemma phaddd_sums B x y :
  length x = 4%nat -> length y = 4%nat -> B <= 100000000 ->
  Forall (fun a => 0 <= a <= B) x -> Forall (fun a => 0 <= a <= B) y ->
  nth 0 (phaddd (phaddd x y) (phaddd x y)) 0 = asum x /\ nth 1 (phaddd (phaddd x y) (phaddd x y)) 0 = asum y.
Proof.
  intros Lx Ly HB Hx Hy. destruct (len4 _ Lx) as (a0 & a1 & a2 & a3 & ->). destruct (len4 _ Ly) as (b0 & b1 & b2 & b3 & ->).
  rewrite !Forall_cons in Hx, Hy. destruct_and! Hx. destruct_and! Hy. unfold phaddd. cbn [pairwise app nth asum].
  no_wrap 32. lia.
Qed.

Lemma reduce_spec o A B s l v k :
  vgood o A B (copy s) l v -> k = len l -> 0 <= k <= 1024 -> A <= B -> B <= 100000000 ->
  0 <= sum_a s <= 70000 -> 0 <= sum_b s <= 2000000 -> bytes l ->
  exists a b, adler32_sse_reduce (mk_sums (sum_a s) (sum_b s) (vcopy v)) (va v) (vb v) k
    = mk_sums a b (op_call o l (copy s)) /\
    0 <= a < MOD_ADLER /\ 0 <= b < MOD_ADLER /\
    congr a (sum_a s + asum l) /\ congr b (sum_b s + len l * sum_a s + wsum l).
Proof.
  intros [La Lb Ha Hb Sa Sb Hc] -> Hk HA HB Hsa Hsb Hl.
  assert (Forall (fun a => 0 <= a <= B) (va v)) as Ha' by (eapply Forall_impl; [exact Ha|cbn; lia]).
  destruct (phaddd_sums B (va v) (vb v) La Lb HB Ha' Hb) as [E1 E2].
  unfold adler32_sse_reduce. cbv zeta. rewrite E1, E2, Sa, Sb, Hc. cbn [sum_a sum_b copy].
  pose proof (wsum_bound l Hl) as [W1 W2]. pose proof (asum_bound l Hl) as [B1 B2].
  assert (255 * len l * (len l + 1) <= 255 * 1024 * 1025) by nia. assert (0 <= len l * sum_a s <= 1024 * 70000) by nia.
  rewrite (wrap_small 64 (len l * sum_a s)) by (unfold fits; lia).
  rewrite (wrap_small 64 (_ + wsum l)) by (unfold fits; lia).
  rewrite !(wrap_small 64), !(wrap_small 32) by (unfold fits; lia).
  do 2 eexists. split; [reflexivity|]. unfold MOD_ADLER at 2 4.
  split; [apply Z.mod_pos_bound; unfold MOD_ADLER; lia|]. split; [apply Z.mod_pos_bound; unfold MOD_ADLER; lia|].
  split; unfold congr; rewrite congr_mod; f_equal; lia.
Qed.

(** ** The checksum, byte by byte *)

(** The definition of Adler-32 (RFC 1950): both sums modulo 65521 after every
    byte. *)
Definition adler_byte (ab : Z * Z) (d : Z) : Z * Z :=
  let a := (fst ab + d) mod MOD_ADLER in (a, (snd ab + a) mod MOD_ADLER).
Definition adler_ref (data : list Z) (sofar : Z) : Z :=
  let ab := foldl adler_byte (sofar mod 65536 mod MOD_ADLER, sofar / 65536 mod MOD_ADLER) data in
  snd ab * 65536 + fst ab.

Lemma adler_bytes data : forall a b,
  foldl adler_byte (a mod MOD_ADLER, b mod MOD_ADLER) data
  = ((a + asum data) mod MOD_ADLER, (b + len data * a + wsum data) mod MOD_ADLER).
Proof.
  induction data as [|d l IH]; intros a b.
  - cbn [foldl asum wsum]. change (len []) with 0. by rewrite Z.mul_0_l, !Z.add_0_r.
  - cbn [foldl]. unfold adler_byte at 2. cbn [fst snd].
    assert ((a mod MOD_ADLER + d) mod MOD_ADLER = (a + d) mod MOD_ADLER) as ->.
    { apply congr_add; [apply congr_mod|done]. }
    assert ((b mod MOD_ADLER + (a + d) mod MOD_ADLER) mod MOD_ADLER = (b + (a + d)) mod MOD_ADLER) as ->.
    { apply congr_add; apply congr_mod. }
    rewrite IH, len_cons. cbn [asum wsum]. f_equal; f_equal; lia.
Qed.

Lemma adler_ref_eq data sofar :
  adler_ref data sofar = (sofar / 65536 + len data * (sofar mod 65536) + wsum data) mod MOD_ADLER * 65536
    + (sofar mod 65536 + asum data) mod MOD_ADLER.
Proof. unfold adler_ref. rewrite adler_bytes. done. Qed.

Lemma pack_spec a b :
  0 <= a < 65536 -> 0 <= b < 65536 -> u32 (Z.lor (u64 (Z.shiftl b 16)) a) = b * 65536 + a.
Proof.
  intros Ha Hb. rewrite Z.shiftl_mul_pow2 by lia. rewrite (wrap_small 64) by (unfold fits; lia).
  rewrite lor_low by (unfold fits; lia). apply wrap_small. unfold fits. lia.
Qed.

Lemma start_spec sofar : fits 32 sofar ->
  start sofar = mk_sums (sofar mod 65536) (sofar / 65536) [] /\
  0 <= sofar mod 65536 < 65536 /\ 0 <= sofar / 65536 < 65536.
Proof.
  intros [Hl Hh]. unfold start. change 0xffff with (2 ^ 16 - 1). rewrite (land_mask sofar 16), Z.shiftr_div_pow2 by lia.
  split; [done|]. split; [apply Z.mod_pos_bound; lia|]. split; [apply Z.div_pos; lia|].
  apply Z.div_lt_upper_bound; lia.
Qed.

Lemma mod_adler_range x : 0 <= x mod MOD_ADLER < 65536.
Proof. pose proof (Z.mod_pos_bound x MOD_ADLER ltac:(done)). unfold MOD_ADLER in *. lia. Qed.

(** ** The scalar loop *)

Lemma vanilla_spec o data sofar :
  fits 32 sofar -> bytes data -> len data <= 2 ^ 27 ->
  adler32_vanilla_op o data sofar = (adler_ref data sofar, op_call o data []).
Proof.
  intros Hs Hb Hl. destruct (start_spec sofar Hs) as (Es & Ha & Hb0). pose proof (len_nonneg data).
  unfold adler32_vanilla_op, adler32_finish. rewrite Es, foldl_single; cbn [sum_a sum_b copy]; [|done|lia|lia|lia|nia].
  rewrite pack_spec, adler_ref_eq by apply mod_adler_range. done.
Qed.

(** ** The vectorized loop *)

Lemma align_loop_spec o n : forall addr s data,
  addr mod 16 = 0 \/ 16 - addr mod 16 <= Z.of_nat n /\ 16 - addr mod 16 <= len data ->
  exists l rest, data = l ++ rest /\ (length l <= n)%nat /\
    align_loop n o addr s data = Ok (foldl (adler32_single o) s l, rest).
Proof.
  induction n as [|n IH]; intros addr s data H; cbn [align_loop]; change 0xf with (2 ^ 4 - 1);
    rewrite (land_mask addr 4) by lia; change (2 ^ 4) with 16; destruct (Z.eqb_spec (addr mod 16) 0) as [E|E];
    try (exists [], data; split_and!; [done|cbn; lia|done]).
  - pose proof (Z.mod_pos_bound addr 16 ltac:(lia)). lia.
  - destruct H as [H|[H1 H2]]; [done|]. pose proof (Z.mod_pos_bound addr 16 ltac:(lia)).
    destruct data as [|d data]; [unfold len in H2; cbn in H2; lia|]. rewrite len_cons in H2.
    destruct (IH (addr + 1) (adler32_single o s d) data) as (l & rest & -> & Hl & ->).
    { destruct (Z.eq_dec (addr mod 16) 15) as [E15|].
      - left. rewrite Z.add_mod, E15 by lia. done.
      - right. rewrite Z.add_mod, (Z.mod_small 1), (Z.mod_small (_ + _)) by lia. lia. }
    exists (d :: l), rest. split_and!; [done|cbn; lia|done].
Qed.

Lemma vgood_mono o A B A' B' c l v : A <= A' -> B <= B' -> vgood o A B c l v -> vgood o A' B' c l v.
Proof.
  intros HA HB [La Lb Ha Hb Sa Sb Hc].
  split; try done; (eapply Forall_impl; [eassumption|cbn; lia]).
Qed.

Lemma take_step n k (data : list Z) : take (k * S n) data = take (k * n) data ++ take k (drop (k * n) data).
Proof. rewrite take_take_drop. f_equal. lia. Qed.

(** [n] chunks of 64 bytes. *)
Lemma chunks4_spec o c data n :
  bytes data -> (64 * n <= length data)%nat -> (n <= nstep)%nat ->
  vgood o (4080 * Z.of_nat n) (4400000 * Z.of_nat n) c (take (64 * n) data)
    (foldl (fun v j => adler32_sse_chunk4_fast o v (drop (64 * j) data)) (mk_vsums DZERO DZERO c) (seq 0 n)).
Proof.
  intros Hb. unfold nstep. induction n as [|n IH]; intros Hl Hn; [apply vgood_start|].
  rewrite seq_S, foldl_app, take_step. cbn [foldl Nat.add].
  rewrite <- (take_drop 64 (drop (64 * n) data)) at 2.
  eapply vgood_mono; [..|apply chunk4_step; [apply IH; lia|by apply Forall_take, Forall_drop|..]]; try lia.
  rewrite length_take, length_drop. lia.
Qed.

(** The sums never leave the range in which a block cannot overflow. *)
Definition small (s : sums) : Prop := 0 <= sum_a s <= 70000 /\ 0 <= sum_b s <= 2000000.

Lemma block_spec o a b l0 s data :
  good o a b l0 s -> small s -> bytes data -> (blocksize <= length data)%nat ->
  good o a b (l0 ++ take blocksize data) (block o s data) /\ small (block o s data).
Proof.
  intros Hg [Ha Hb] Hd Hl. unfold block. cbv zeta.
  pose proof (chunks4_spec o (copy s) data nstep Hd Hl (le_n _)) as Hv. set (v := foldl _ _ _) in *. clearbody v.
  assert (bytes (take blocksize data)) as Hbl by (by apply Forall_take).
  assert (len (take blocksize data) = 1024) as Elen by (unfold len; rewrite length_take; unfold blocksize, nstep in *; lia).
  destruct (reduce_spec o _ _ s (take blocksize data) v (Z.of_nat blocksize) Hv) as (a' & b' & -> & Ra & Rb & Ca & Cb);
    [by rewrite Elen|unfold blocksize, nstep; lia..|done|done|done|].
  split; [by apply good_more|]. unfold small, MOD_ADLER in *. cbn. lia.
Qed.

Lemma block_loop_spec o a b n : forall l0 s data,
  good o a b l0 s -> small s -> bytes data -> (length data <= n)%nat ->
  exists s' l rest, block_loop n o s data = Ok (s', rest) /\ data = l ++ rest /\
    good o a b (l0 ++ l) s' /\ small s' /\ bytes rest /\ (length rest < blocksize)%nat.
Proof.
  induction n as [|n IH]; intros l0 s data Hg Hs Hd Hn; cbn [block_loop];
    case_bool_decide as Hc; [unfold blocksize, nstep in *; lia| | |].
  1,3: exists s, [], data; rewrite app_nil_r; split_and!; [done..|lia].
  destruct (block_spec o a b l0 s data Hg Hs Hd Hc) as [Hg' Hs'].
  destruct (IH _ _ (drop blocksize data) Hg' Hs') as (s' & l & rest & -> & E & ? & ? & ? & ?).
  - by apply Forall_drop.
  - rewrite length_drop. unfold blocksize, nstep in *. lia.
  - exists s', (take blocksize data ++ l), rest. rewrite <- (take_drop blocksize data) at 1. rewrite E, !app_assoc. done.
Qed.

(** Single chunks of 16 bytes; [k] have been done. *)
Lemma chunk_loop_spec o c n : forall k l0 v data,
  vgood o (1020 * k) (1100000 * k) c l0 v -> 0 <= k -> 16 * k + len data < 1024 -> bytes data -> (length data <= n)%nat ->
  exists v' l rest, chunk_loop n o v data = Ok (v', rest) /\ data = l ++ rest /\ len l = len data / 16 * 16 /\
    vgood o 70000 80000000 c (l0 ++ l) v' /\ bytes rest /\ (length rest < 16)%nat.
Proof.
  induction n as [|n IH]; intros k l0 v data Hv Hk Hl Hd Hn; cbn [chunk_loop];
    case_bool_decide as Hc; [lia| | |].
  1,3: exists v, [], data; rewrite app_nil_r; split_and!; [done|done| |eapply vgood_mono; [..|exact Hv]; unfold len in *; lia|done|lia];
    change (len []) with 0; rewrite (Z.div_small (len data)) by (unfold len in *; lia); done.
  assert (len (take 16 data) = 16 /\ len data = 16 + len (drop 16 data)) as [E1 E2].
  { unfold len. rewrite length_take, length_drop. lia. }
  assert (adler32_sse_chunk1_fast o v data = adler32_sse_chunk1_fast o v (take 16 data ++ drop 16 data)) as ->
    by (by rewrite take_drop).
  pose proof (len_nonneg (drop 16 data)).
  destruct (IH (k + 1) (l0 ++ take 16 data) (adler32_sse_chunk1_fast o v (take 16 data ++ drop 16 data)) (drop 16 data))
    as (v' & l & rest & -> & E & El & ? & ? & ?).
  - eapply vgood_mono; [..|apply chunk1_step; [exact Hv|by apply Forall_take|unfold len in *; lia|..]]; lia.
  - lia.
  - lia.
  - by apply Forall_drop.
  - rewrite length_drop. lia.
  - exists v', (take 16 data ++ l), rest. split; [done|]. split; [|split; [|rewrite app_assoc; done]].
    + rewrite <- (take_drop 16 data) at 1. by rewrite E, app_assoc.
    + rewrite len_app, E1, E2, El. replace (16 + len (drop 16 data)) with (len (drop 16 data) + 1 * 16) by lia.
      rewrite Z.div_add by lia. lia.
Qed.

Lemma finish_sse_spec o a b l0 s data :
  good o a b l0 s -> small s -> bytes data -> len data <= 16 ->
  adler32_finish_sse o s data =
  ((b + len (l0 ++ data) * a + wsum (l0 ++ data)) mod MOD_ADLER * 65536 + (a + asum (l0 ++ data)) mod MOD_ADLER,
   op_call o (l0 ++ data) []).
Proof.
  intros Hg [Ha Hb] Hd Hl. pose proof (len_nonneg data). unfold adler32_finish_sse. cbv zeta.
  rewrite foldl_single by (done || lia || nia). cbn [sum_a sum_b copy].
  pose proof (wsum_bound data Hd) as [W1 W2]. pose proof (asum_bound data Hd).
  assert (255 * len data * (len data + 1) <= 255 * 16 * 17) by nia. assert (0 <= len data * sum_a s <= 16 * 70000) by nia.
  rewrite !(wrap_small 32 (_ + _)) by (unfold fits; lia). rewrite pack_spec by apply mod_adler_range.
  destruct (good_more o a b l0 data s _ _ Hg eq_refl eq_refl) as [Ca Cb Cc]. cbn [sum_a sum_b copy] in *.
  by rewrite Ca, Cb, Cc.
Qed.

Lemma sse_spec o addr data sofar :
  fits 32 sofar -> bytes data -> adler32_sse_op o addr data sofar = Ok (adler_ref data sofar, op_call o data []).
Proof.
  intros Hs Hd. destruct (start_spec sofar Hs) as (Es & Ha & Hb). unfold adler32_sse_op. cbv zeta. rewrite Es, adler_ref_eq.
  set (a := sofar mod 65536) in *. set (b := sofar / 65536) in *. set (s0 := mk_sums a b []).
  assert (good o a b [] s0) as Hg0.
  { split; [unfold congr; cbn; f_equal; lia|unfold congr, len; cbn; f_equal; lia|by destruct o]. }
  case_bool_decide as Hc.
  { by rewrite (finish_sse_spec o a b [] s0) by (done || (unfold len, small; cbn; lia)). }
  destruct (align_loop_spec o 15 addr s0 data) as (l1 & d1 & -> & Hl1 & ->).
  { destruct (Z.eq_dec (addr mod 16) 0); [by left|right]. pose proof (Z.mod_pos_bound addr 16 ltac:(lia)). unfold len. lia. }
  apply Forall_app in Hd as [Hd1 Hd]. assert (0 <= len l1 <= 15) as Hll by (unfold len; lia).
  rewrite foldl_single by (done || (cbn; nia)). subst s0. cbn [mbind res_bind sum_a sum_b copy].
  pose proof (good_more o a b [] l1 _ _ _ Hg0 eq_refl eq_refl) as Hg1. cbn [app sum_a sum_b copy] in Hg1.
  pose proof (wsum_bound l1 Hd1) as [W1 W2]. pose proof (asum_bound l1 Hd1).
  destruct (block_loop_spec o a b (length d1) l1 _ d1 Hg1) as (s2 & l2 & d2 & -> & -> & Hg2 & Hs2 & Hd2 & Hl2);
    [split; cbn; nia|done|done|]. cbn [mbind res_bind]. fold (len d2).
  destruct (chunk_loop_spec o (copy s2) (length d2) 0 [] _ d2 (vgood_start o (copy s2)))
    as (v & l3 & d3 & -> & -> & Hl3 & Hv & Hd3 & Hlt); [lia|unfold len, blocksize, nstep in *; lia|done|done|].
  cbn [mbind res_bind app] in *. apply Forall_app in Hd2 as [Hd2 _].
  destruct (reduce_spec o _ _ s2 l3 v (16 * (len (l3 ++ d3) / 16)) Hv) as (a' & b' & -> & Ra & Rb & Ca & Cb);
    [lia|rewrite len_app in *; unfold len, blocksize, nstep in *; rewrite length_app in *; lia|lia|lia|apply Hs2|apply Hs2|done|].
  pose proof (good_more _ _ _ _ _ _ _ _ Hg2 Ca Cb) as Hg3.
  rewrite (finish_sse_spec o a b _ _ d3 Hg3) by (done || (unfold len, small, MOD_ADLER in *; cbn; lia)).
  by rewrite <- !app_assoc.
Qed.

Lemma adler32_ok addr data sofar :
  fits 32 sofar -> bytes data -> adler32 addr data sofar = Ok (adler_ref data sofar).
Proof. intros. unfold adler32, adler32_sse. by rewrite sse_spec. Qed.

Lemma memcpy_ok dest src data sofar :
  fits 32 sofar -> bytes data -> dest mod 16 = src mod 16 ->
  adler32_memcpy dest src data sofar = Ok (adler_ref data sofar, data).
Proof.
  intros Hs Hd E. unfold adler32_memcpy, adler32_memcpy_sse, adler32_memcpy_op. rewrite !(Z.land_comm 0xf).
  change 0xf with (2 ^ 4 - 1). rewrite !land_mask by lia. change (2 ^ 4) with 16. rewrite E, Z.eqb_refl.
  cbn [negb mbind res_bind]. by rewrite sse_spec.
Qed.

(** ** The interface *)

(** C27: at any alignment and for data of any length, the
    vectorized checksum is the Adler-32 checksum as defined byte by byte, so
    it agrees with the scalar loop wherever that one does not overflow;
    [adler32_memcpy] copies all the data as well, and throws exactly when the
    two buffers are aligned differently. *)
Theorem adler32_correct addr dest data sofar (Hs : fits 32 sofar) (Hd : bytes data) :
  adler32 addr data sofar = Ok (adler_ref data sofar) /\
  (len data <= 2 ^ 27 -> adler32_vanilla data sofar = adler_ref data sofar) /\
  adler32_memcpy dest addr data sofar =
    (if dest mod 16 =? addr mod 16 then Ok (adler_ref data sofar, data) else Throw illegal_argument).
Proof.
  split; [unfold adler32, adler32_sse; by rewrite sse_spec|].
  split; [intros Hl; unfold adler32_vanilla; by rewrite vanilla_spec|].
  unfold adler32_memcpy, adler32_memcpy_sse, adler32_memcpy_op. rewrite !(Z.land_comm 0xf).
  change 0xf with (2 ^ 4 - 1). rewrite !land_mask by lia. change (2 ^ 4) with 16.
  destruct (_ =? _); [|done]. cbn [negb mbind res_bind]. by rewrite sse_spec.
Qed.

Lemma adler32_correct_witness :
  adler32 4099 (seqZ 0 40) 1 = Ok 701235981 /\ adler32_memcpy 16 0 (seqZ 0 40) 1 = Ok (701235981, seqZ 0 40) /\
  adler32_memcpy 1 0 (seqZ 0 40) 1 = Throw illegal_argument.
Proof.
  assert (bytes (seqZ 0 40)) as Hb by (apply Forall_forall; intros x Hx%elem_of_seqZ; lia).
  destruct (adler32_correct 4099 0 (seqZ 0 40) 1) as (H1 & _); [vm_compute; split; congruence|exact Hb|].
  destruct (adler32_correct 0 16 (seqZ 0 40) 1) as (_ & _ & H2); [vm_compute; split; congruence|exact Hb|].
  destruct (adler32_correct 0 1 (seqZ 0 40) 1) as (_ & _ & H3); [vm_compute; split; congruence|exact Hb|].
  split; [exact H1|]. split; [exact H2|exact H3].
Defined.

Lemma adler_ref_parts data sofar : fits 32 sofar ->
  adler_ref data sofar mod 65536 = (sofar mod 65536 + asum data) mod MOD_ADLER /\
  adler_ref data sofar / 65536 = (sofar / 65536 + len data * (sofar mod 65536) + wsum data) mod MOD_ADLER.
Proof.
  intros Hs. rewrite adler_ref_eq.
  set (y := (_ + _ * _ + _) mod MOD_ADLER). set (x := (_ + asum data) mod MOD_ADLER).
  assert (0 <= x < 65536) by apply mod_adler_range. rewrite Z.add_comm, Z.mod_add, Z.div_add by lia.
  rewrite Z.mod_small, Z.div_small by lia. done.
Qed.

Lemma adler_ref_fits data sofar : fits 32 (adler_ref data sofar).
Proof.
  rewrite adler_ref_eq. pose proof (mod_adler_range (sofar / 65536 + len data * (sofar mod 65536) + wsum data)).
  pose proof (mod_adler_range (sofar mod 65536 + asum data)). unfold fits. lia.
Qed.

Lemma adler_ref_app d1 d2 sofar : fits 32 sofar -> adler_ref (d1 ++ d2) sofar = adler_ref d2 (adler_ref d1 sofar).
Proof.
  intros Hs. rewrite (adler_ref_eq d2). destruct (adler_ref_parts d1 sofar Hs) as [-> ->].
  rewrite adler_ref_eq, asum_app, wsum_app, len_app. f_equal; [f_equal|].
  - symmetry. eapply eq_trans.
    + apply congr_add; [apply congr_add; [apply congr_mod|apply congr_mul, congr_mod]|reflexivity].
    + f_equal. lia.
  - symmetry. eapply eq_trans; [apply congr_add; [apply congr_mod|reflexivity]|]. f_equal. lia.
Qed.

Lemma merge_spec left right sofar :
  fits 32 sofar -> bytes right -> len right < 2 ^ 40 ->
  adler32_merge (adler_ref left sofar) (adler_ref right ADLER32_CSUM_INIT) (len right)
  = adler_ref (left ++ right) sofar.
Proof.
  intros Hs Hb Hlen.
  unfold adler32_merge. cbv zeta. change 0xffff with (2 ^ 16 - 1).
  rewrite !land_mask, !Z.shiftr_div_pow2 by lia. change (2 ^ 16) with 65536.
  destruct (adler_ref_parts left sofar Hs) as [Ea Eb].
  destruct (adler_ref_parts right ADLER32_CSUM_INIT) as [Ec Ed]; [unfold fits, ADLER32_CSUM_INIT; lia|].
  change (ADLER32_CSUM_INIT mod 65536) with 1 in Ec, Ed. change (ADLER32_CSUM_INIT / 65536) with 0 in Ed.
  rewrite Ea, Eb, Ec, Ed. rewrite (adler_ref_eq (left ++ right)), asum_app, wsum_app, len_app.
  set (a0 := sofar mod 65536). set (b0 := sofar / 65536).
  pose proof (mod_adler_range (a0 + asum left)) as R1. pose proof (mod_adler_range (b0 + len left * a0 + wsum left)) as R2.
  pose proof (mod_adler_range (1 + asum right)) as R3. pose proof (mod_adler_range (0 + len right * 1 + wsum right)) as R4.
  pose proof (len_nonneg right). change (u64 (MOD_ADLER - 1)) with (MOD_ADLER - 1).
  assert (0 <= len right * ((a0 + asum left) mod MOD_ADLER + (MOD_ADLER - 1)) < 2 ^ 58) by (unfold MOD_ADLER in *; nia).
  rewrite (wrap_small 64 (_ mod MOD_ADLER + (MOD_ADLER - 1))) by (unfold fits, MOD_ADLER in *; lia).
  rewrite (wrap_small 64 (len right * _)) by (unfold fits; lia).
  rewrite (wrap_small 64 (len right * _ + _)) by (unfold fits; lia).
  rewrite !(wrap_small 64) by (unfold fits, MOD_ADLER in *; lia).
  unfold adler32_finish. cbn [foldl sum_a sum_b fst]. rewrite pack_spec by apply mod_adler_range.
  f_equal; [f_equal|].
  - etransitivity.
    + apply congr_add; [apply congr_mod|]. apply congr_add; [|apply congr_mod]. apply congr_mul.
      apply congr_add; [apply congr_mod|reflexivity].
    + rewrite <- (Z.mod_add (b0 + (len left + len right) * a0 + _) (len right)) by (unfold MOD_ADLER; lia).
      unfold MOD_ADLER. f_equal. lia.
  - etransitivity; [apply congr_add; [apply congr_add; [apply congr_mod|reflexivity]|apply congr_mod]|].
    rewrite <- (Z.mod_add (a0 + (asum left + asum right)) 1) by (unfold MOD_ADLER; lia). unfold MOD_ADLER. f_equal. lia.
Qed.

(** C35: checksums compose, as the header promises: the
    checksum of a concatenation is obtained by continuing from the checksum of
    the left part, and also by merging the two parts' independently computed
    checksums with the length of the right one. *)
Theorem adler32_merge_correct left right sofar
    (Hs : fits 32 sofar) (Hb : bytes right) (Hlen : len right < 2 ^ 40) :
  adler_ref (left ++ right) sofar = adler_ref right (adler_ref left sofar) /\
  adler32_merge (adler_ref left sofar) (adler_ref right ADLER32_CSUM_INIT) (len right)
  = adler_ref (left ++ right) sofar.
Proof. split; [by apply adler_ref_app|by apply merge_spec]. Qed.

Lemma adler32_merge_correct_witness :
  adler32_merge (adler_ref [1; 2; 3] 1) (adler_ref [200; 250] 1) 2 = adler_ref [1; 2; 3; 200; 250] 1.
Proof.
  destruct (adler32_merge_correct [1; 2; 3] [200; 250] 1) as [_ H];
    [vm_compute; split; congruence|do 2 (apply Forall_cons; split; [lia|]); apply Forall_nil; exact I|vm_compute; reflexivity|].
  exact H.
Defined.
