(* ===== verification/Epoch.v ===== *)
(** * The epoch manager ([dbcore/epoch.h], [dbcore/epoch.cpp])

    Threads enter and leave epochs without taking a lock; opening epoch N+1
    closes N and makes N-1 reclaimable once the threads that are still in it
    have left.  Every access of shared memory is one step of the machine, so
    that the calls of different threads interleave as finely as they can. *)
From stdpp Require Import base numbers list gmap.
From Stdlib Require Import ZArith Lia.
From S2P Require Import Prelude.

Local Open Scope Z_scope.

(** Epoch numbers count up from 1, stragglers are counted per thread; both stay
    below 2^64 and are plain numbers here. *)

(* src: dbcore/epoch.cpp:54-60 epoch_mgr::thread_state *)
Record thread_state := mk_ts {
  ts_begin : Z;
  ts_end : Z;
  straggler : bool;
  initialized : bool;
  ts_cookie : Z }.

(** What [epoch_ended] returned for an epoch; 0 is [NULL].  The epoch is kept
    with it for the theorems. *)
Record cookie := mk_cookie { ck_epoch : Z; ck_ptr : Z }.
Definition null_cookie : cookie := mk_cookie 0 0.

(* src: dbcore/epoch.cpp:80-89 epoch_mgr::private_state *)
Record private_state := mk_ps {
  ps_begin : Z;
  ps_end : Z;
  ready_for_safe_point : bool;
  nstragglers : Z;
  threads : list Z;
  cooling_cookie : cookie;
  cold_cookie : cookie }.

Definition initial_state : private_state := mk_ps 1 1 true 0 [] null_cookie null_cookie.

(** Who called [thread_exit], [straggler_check], [straggler_ended] or
    [global_quiesce]. *)
Inductive caller := InEnter | InExit | InQuiesce | InFini | InNew.

(** Where a thread is.  [Running] is between calls. *)
Inductive pc :=
| Running
| EnterRead | EnterEnd (tmp : Z) | EnterBegin (tmp : Z) | EnterCheck (tmp : Z) | EnterBail (tmp2 : Z) (check : bool)
| CheckEnd (k : caller) (tmp : Z) | CheckLock (k : caller) | CheckUnlock (k : caller)
| CheckFlag (k : caller) | CheckClear (k : caller) | Ended (k : caller)
| GqRead (k : caller) | GqClear (k : caller) (c : cookie) | GqCall (k : caller) (c : cookie) | GqReady (k : caller)
| QFlag | QClear | QEnd | QRead | QBegin (v : Z)
| ExitRead (k : caller) | ExitEnd (k : caller) (tmp : Z) | ExitTest (k : caller)
| NewLock | NewTest | NewFail | NewBegin | NewReady (N : Z)
| NewScan (N : Z) (todo : list Z) (c : cookie) (found : list Z)
| NewScanEnd (N : Z) (t b : Z) (todo : list Z) (c : cookie) (found : list Z)
| NewCold (N : Z) (c : cookie) (found : list Z) | NewCooling (N : Z) (c : cookie) (found : list Z)
| NewCount (N : Z) (found : list Z) | NewFlag (N : Z) (todo : list Z)
| NewFinish (N : Z) (direct : bool) | NewUnlock (direct : bool)
| InitLock | InitInsert
| FiniLock | FiniErase | FiniCheck | FiniEnd (N : Z) | FiniBegin (N : Z)
| FiniSwap (active : cookie) | FiniUnlock (active cooling : cookie)
| FiniCooling (active cooling : cookie) | FiniActive (active : cookie).

Record world := mk_world {
  started : bool;
  st : private_state;
  mutex : option Z;
  tls : gmap Z thread_state;
  pcs : gmap Z pc }.

(** Calls of [epoch_reclaimed]. *)
Inductive event := Reclaimed (epoch : Z).

Definition fresh_tls : thread_state := mk_ts 0 0 false false 0.
Definition own (w : world) (t : Z) : thread_state := default fresh_tls (tls w !! t).
Definition at_pc (w : world) (t : Z) : pc := default Running (pcs w !! t).

Definition set_st (f : private_state -> private_state) (w : world) : world :=
  mk_world (started w) (f (st w)) (mutex w) (tls w) (pcs w).
Definition set_mutex (o : option Z) (w : world) : world := mk_world (started w) (st w) o (tls w) (pcs w).
Definition set_own (t : Z) (f : thread_state -> thread_state) (w : world) : world :=
  mk_world (started w) (st w) (mutex w) (<[t := f (own w t)]> (tls w)) (pcs w).
Definition goto (t : Z) (p : pc) (w : world) : world :=
  mk_world (started w) (st w) (mutex w) (tls w) (<[t := p]> (pcs w)).
Definition set_started (w : world) : world := mk_world true (st w) (mutex w) (tls w) (pcs w).

Definition with_begin (v : Z) (s : thread_state) := mk_ts v (ts_end s) (straggler s) (initialized s) (ts_cookie s).
Definition with_end (v : Z) (s : thread_state) := mk_ts (ts_begin s) v (straggler s) (initialized s) (ts_cookie s).
Definition with_straggler (v : bool) (s : thread_state) := mk_ts (ts_begin s) (ts_end s) v (initialized s) (ts_cookie s).
Definition with_init (v : bool) (c : Z) (s : thread_state) := mk_ts (ts_begin s) (ts_end s) (straggler s) v c.

Definition ps_with_begin v s :=
  mk_ps v (ps_end s) (ready_for_safe_point s) (nstragglers s) (threads s) (cooling_cookie s) (cold_cookie s).
Definition ps_with_end v s :=
  mk_ps (ps_begin s) v (ready_for_safe_point s) (nstragglers s) (threads s) (cooling_cookie s) (cold_cookie s).
Definition ps_with_ready v s :=
  mk_ps (ps_begin s) (ps_end s) v (nstragglers s) (threads s) (cooling_cookie s) (cold_cookie s).
Definition ps_with_nstragglers v s :=
  mk_ps (ps_begin s) (ps_end s) (ready_for_safe_point s) v (threads s) (cooling_cookie s) (cold_cookie s).
Definition ps_with_threads v s :=
  mk_ps (ps_begin s) (ps_end s) (ready_for_safe_point s) (nstragglers s) v (cooling_cookie s) (cold_cookie s).
Definition ps_with_cooling v s :=
  mk_ps (ps_begin s) (ps_end s) (ready_for_safe_point s) (nstragglers s) (threads s) v (cold_cookie s).
Definition ps_with_cold v s :=
  mk_ps (ps_begin s) (ps_end s) (ready_for_safe_point s) (nstragglers s) (threads s) (cooling_cookie s) v.

(** [std::map<pthread_t, thread_state*>]: in the order of the keys. *)
Fixpoint map_insert (t : Z) (l : list Z) : list Z :=
  match l with
  | [] => [t]
  | u :: l' => if t <? u then t :: l else if t =? u then l else u :: map_insert t l'
  end.
Definition map_erase (t : Z) (l : list Z) : list Z := filter (fun u => u <> t) l.

(** The client's callbacks. *)
Class Callbacks := {
  cb_thread_registered : Z -> Z;
  cb_epoch_ended : Z -> Z;
  cb_epoch_ended_thread : Z -> Z -> Z }.

Section machine.
Context `{CB : Callbacks}.

(* src: dbcore/epoch.cpp:439-444 epoch_mgr::thread_is_active *)
Definition thread_is_active (s : thread_state) : bool := ts_end s <? ts_begin s.

(** Where the caller goes on. *)
Definition resume (k : caller) : pc :=
  match k with InEnter => EnterRead | InFini => FiniLock | _ => Running end.

Definition reclaim (c : cookie) : list event := if ck_ptr c =? 0 then [] else [Reclaimed (ck_epoch c)].

(* src: dbcore/epoch.cpp:158-162 epoch_mgr::get_cur_epoch *)
Definition get_cur_epoch (w : world) : Z := ps_begin (st w).
(* src: dbcore/epoch.cpp:245-249 epoch_mgr::new_epoch_possible *)
Definition new_epoch_possible (w : world) : bool := ready_for_safe_point (st w).
(* src: dbcore/epoch.cpp:350-354 epoch_mgr::thread_initialized *)
Definition thread_initialized (w : world) (t : Z) : bool := initialized (own w t).

(** One step of thread [t]; [None] when it has to wait. *)
Definition step_result : Type := option (world * list event).
Definition next (t : Z) (p : pc) (w : world) : step_result := Some (goto t p w, []).

(* src: dbcore/epoch.cpp:356-437 epoch_mgr::thread_enter *)
Definition enter_step (t : Z) (w : world) (p : pc) : step_result :=
  match p with
  | EnterRead => next t (EnterEnd (ps_begin (st w))) w
  | EnterEnd tmp => next t (EnterBegin tmp) (set_own t (with_end 0) w)
  | EnterBegin tmp => next t (EnterCheck tmp) (set_own t (with_begin tmp) w)
  | EnterCheck tmp =>
      let tmp2 := ps_begin (st w) in
      if (tmp2 - tmp =? 0) || (tmp2 - tmp =? 1) then next t Running w
      else next t (EnterBail tmp2 (tmp2 - tmp =? 2)) w
  | EnterBail tmp2 check =>
      next t (if check then CheckEnd InEnter tmp2 else EnterRead) (set_own t (with_end tmp2) w)
  | _ => None
  end.

(* src: dbcore/epoch.cpp:138-156 straggler_check *)
Definition check_step (t : Z) (w : world) (p : pc) : step_result :=
  match p with
  | CheckEnd k tmp => next t (if ps_end (st w) <? tmp then CheckLock k else CheckFlag k) w
  | CheckLock k => match mutex w with None => next t (CheckUnlock k) (set_mutex (Some t) w) | Some _ => None end
  | CheckUnlock k => next t (CheckFlag k) (set_mutex None w)
  | CheckFlag k => next t (if straggler (own w t) then CheckClear k else resume k) w
  | CheckClear k => next t (Ended k) (set_own t (with_straggler false) w)
  | _ => None
  end.

(* src: dbcore/epoch.cpp:127-136 straggler_ended *)
Definition ended_step (t : Z) (w : world) (p : pc) : step_result :=
  match p with
  | Ended k =>
      let n := nstragglers (st w) - 1 in
      next t (if n =? 0 then GqRead k else resume k) (set_st (ps_with_nstragglers n) w)
  | _ => None
  end.

(* src: dbcore/epoch.cpp:114-125 global_quiesce *)
Definition global_quiesce_step (t : Z) (w : world) (p : pc) : step_result :=
  match p with
  | GqRead k => next t (GqClear k (cold_cookie (st w))) w
  | GqClear k c => next t (GqCall k c) (set_st (ps_with_cold null_cookie) w)
  | GqCall k c => Some (goto t (GqReady k) w, reclaim c)
  | GqReady k => next t (resume k) (set_st (ps_with_ready true) w)
  | _ => None
  end.

(* src: dbcore/epoch.cpp:446-465 epoch_mgr::thread_quiesce *)
Definition quiesce_step (t : Z) (w : world) (p : pc) : step_result :=
  match p with
  | QFlag => next t (if straggler (own w t) then QClear else Running) w
  | QClear => next t QEnd (set_own t (with_straggler false) w)
  | QEnd => next t QRead (set_own t (with_end 0) w)
  | QRead => next t (QBegin (ps_begin (st w))) w
  | QBegin v => next t (Ended InQuiesce) (set_own t (with_begin v) w)
  | _ => None
  end.

(* src: dbcore/epoch.cpp:467-490 epoch_mgr::thread_exit *)
Definition exit_step (t : Z) (w : world) (p : pc) : step_result :=
  match p with
  | ExitRead k => next t (ExitEnd k (ps_begin (st w))) w
  | ExitEnd k tmp =>
      next t (if tmp <? ts_begin (own w t) + 2 then ExitTest k else CheckEnd k tmp) (set_own t (with_end tmp) w)
  | ExitTest k =>
      let tmp := ps_end (st w) in
      next t (if tmp <? ts_begin (own w t) + 2 then resume k else CheckEnd k tmp) w
  | _ => None
  end.

(* src: dbcore/epoch.cpp:164-243 epoch_mgr::new_epoch *)
Definition new_epoch_step (t : Z) (w : world) (p : pc) : step_result :=
  match p with
  | NewLock => match mutex w with None => next t NewTest (set_mutex (Some t) w) | Some _ => None end
  | NewTest => next t (if ready_for_safe_point (st w) then NewBegin else NewFail) w
  | NewFail => next t Running (set_mutex None w)
  | NewBegin => let N := ps_begin (st w) in next t (NewReady N) (set_st (ps_with_begin (N + 1)) w)
  | NewReady N =>
      next t (NewScan N (threads (st w)) (mk_cookie N (cb_epoch_ended N)) []) (set_st (ps_with_ready false) w)
  | NewScan N [] c found => next t (NewCold N c found) w
  | NewScan N (u :: todo) c found =>
      let c' := mk_cookie N (cb_epoch_ended_thread (ck_ptr c) (ts_cookie (own w u))) in
      next t (NewScanEnd N u (ts_begin (own w u)) todo c' found) w
  | NewScanEnd N u b todo c found =>
      let e := ts_end (own w u) in
      next t (NewScan N todo c (if (b =? N - 1) && (e <? b) then found ++ [u] else found)) w
  | NewCold N c found => next t (NewCooling N c found) (set_st (fun s => ps_with_cold (cooling_cookie s) s) w)
  | NewCooling N c found =>
      next t (match found with [] => NewFinish N true | _ => NewCount N found end) (set_st (ps_with_cooling c) w)
  | NewCount N found => next t (NewFlag N found) (set_st (ps_with_nstragglers (Z.of_nat (length found))) w)
  | NewFlag N [] => next t (NewFinish N false) w
  | NewFlag N (u :: todo) => next t (NewFlag N todo) (set_own u (with_straggler true) w)
  | NewFinish N direct => next t (NewUnlock direct) (set_st (ps_with_end (N + 1)) w)
  | NewUnlock direct => next t (if direct then GqRead InNew else Running) (set_mutex None w)
  | _ => None
  end.

(* src: dbcore/epoch.cpp:251-298 epoch_mgr::thread_init *)
Definition init_step (t : Z) (w : world) (p : pc) : step_result :=
  match p with
  | InitLock => match mutex w with None => next t InitInsert (set_mutex (Some t) w) | Some _ => None end
  | InitInsert =>
      let w := set_started (set_st (fun s => ps_with_threads (map_insert t (threads s)) s) w) in
      next t Running (set_mutex None (set_own t (with_init true (cb_thread_registered t)) w))
  | _ => None
  end.

(* src: dbcore/epoch.cpp:300-348 epoch_mgr::thread_fini *)
Definition fini_step (t : Z) (w : world) (p : pc) : step_result :=
  match p with
  | FiniLock => match mutex w with None => next t FiniErase (set_mutex (Some t) w) | Some _ => None end
  | FiniErase =>
      next t FiniCheck (set_st (fun s => ps_with_threads (map_erase t (threads s)) s)
        (set_own t (with_init false 0) w))
  | FiniCheck =>
      match threads (st w) with
      | _ :: _ => next t Running (set_mutex None w)
      | [] => next t (FiniEnd (ps_begin (st w))) w
      end
  | FiniEnd N => next t (FiniBegin N) (set_st (ps_with_end (N + 1)) w)
  | FiniBegin N => next t (FiniSwap (mk_cookie N (cb_epoch_ended N))) (set_st (ps_with_begin (N + 1)) w)
  | FiniSwap a => next t (FiniUnlock a (cooling_cookie (st w))) (set_st (ps_with_cooling null_cookie) w)
  | FiniUnlock a c => next t (FiniCooling a c) (set_mutex None w)
  | FiniCooling a c => Some (goto t (FiniActive a) w, reclaim c)
  | FiniActive a => Some (goto t Running w, reclaim a)
  | _ => None
  end.

Definition exec (t : Z) (w : world) : step_result :=
  let p := at_pc w t in
  match p with
  | Running => None
  | EnterRead | EnterEnd _ | EnterBegin _ | EnterCheck _ | EnterBail _ _ => enter_step t w p
  | CheckEnd _ _ | CheckLock _ | CheckUnlock _ | CheckFlag _ | CheckClear _ => check_step t w p
  | Ended _ => ended_step t w p
  | GqRead _ | GqClear _ _ | GqCall _ _ | GqReady _ => global_quiesce_step t w p
  | QFlag | QClear | QEnd | QRead | QBegin _ => quiesce_step t w p
  | ExitRead _ | ExitEnd _ _ | ExitTest _ => exit_step t w p
  | InitLock | InitInsert => init_step t w p
  | FiniLock | FiniErase | FiniCheck | FiniEnd _ | FiniBegin _ | FiniSwap _ | FiniUnlock _ _
  | FiniCooling _ _ | FiniActive _ => fini_step t w p
  | _ => new_epoch_step t w p
  end.

(** The calls a client makes. *)
Inductive call := thread_init | thread_fini | thread_enter | thread_exit | thread_quiesce | new_epoch.

(** What a call does before its first access of shared memory: its checks
    ([DIE_IF] ends the program) and writes to the thread's own state. *)

(* src: dbcore/epoch.cpp:251-266 epoch_mgr::thread_init *)
Definition init_entry (t : Z) (w : world) : res world :=
  let s := own w t in
  if initialized s then Throw assertion_failure
  else Ok (goto t InitLock (set_own t (with_init true (ts_cookie s)) w)).

(* src: dbcore/epoch.cpp:300-307 epoch_mgr::thread_fini *)
Definition fini_entry (t : Z) (w : world) : res world :=
  let s := own w t in
  if negb (initialized s) then Throw assertion_failure
  else Ok (goto t (if thread_is_active s then ExitRead InFini else FiniLock) w).

(* src: dbcore/epoch.cpp:356-360 epoch_mgr::thread_enter *)
Definition enter_entry (t : Z) (w : world) : res world :=
  if negb (thread_initialized w t) || thread_is_active (own w t) then Throw assertion_failure
  else Ok (goto t EnterRead w).

(* src: dbcore/epoch.cpp:467-471 epoch_mgr::thread_exit *)
Definition exit_entry (t : Z) (w : world) : res world :=
  if negb (thread_is_active (own w t)) then Throw assertion_failure else Ok (goto t (ExitRead InExit) w).

(* src: dbcore/epoch.cpp:446-450 epoch_mgr::thread_quiesce *)
Definition quiesce_entry (t : Z) (w : world) : res world :=
  if negb (thread_is_active (own w t)) then Throw assertion_failure else Ok (goto t QFlag w).

(** [state] is still null before the first [thread_init]. *)
(* src: dbcore/epoch.cpp:164-170 epoch_mgr::new_epoch *)
Definition new_entry (t : Z) (w : world) : res world :=
  if negb (started w) then Throw bad_address else Ok (goto t NewLock w).

Definition start (c : call) : Z -> world -> res world :=
  match c with
  | thread_init => init_entry
  | thread_fini => fini_entry
  | thread_enter => enter_entry
  | thread_exit => exit_entry
  | thread_quiesce => quiesce_entry
  | new_epoch => new_entry
  end.

Inductive step : world -> list event -> world -> Prop :=
| step_start c t w w' : at_pc w t = Running -> start c t w = Ok w' -> step w [] w'
| step_exec t w w' ev : exec t w = Some (w', ev) -> step w ev w'.

Definition initial : world := mk_world false initial_state None ∅ ∅.

Inductive reachable : world -> Prop :=
| reach_initial : reachable initial
| reach_step w ev w' : reachable w -> step w ev w' -> reachable w'.

(** Between the return of [thread_enter] and the moment [thread_exit] marks the
    end, a thread may use what was live in the epoch [ts_begin]. *)
Definition entering (p : pc) : bool :=
  match p with
  | EnterRead | EnterEnd _ | EnterBegin _ | EnterCheck _ | EnterBail _ _ => true
  | _ => false
  end.

Definition inside (w : world) (t : Z) : Prop :=
  entering (at_pc w t) = false /\ thread_is_active (own w t) = true.

End machine.
