(* ===== verification/EpochInv.v ===== *)
(** * An invariant of the epoch manager ([dbcore/epoch.cpp])

    What holds in every state that the calls of any number of threads can get
    to, however their steps interleave. *)
From stdpp Require Import base numbers list gmap sets.
From Stdlib Require Import ZArith Lia Sorting.Sorted.
From S2P Require Import Prelude Epoch.

Local Open Scope Z_scope.

(** ** Classes of program points *)

(** The mutex is held. *)
Definition locks (p : pc) : bool :=
  match p with
  | CheckUnlock _ | NewTest | NewFail | NewBegin | NewReady _ | NewScan _ _ _ _ | NewScanEnd _ _ _ _ _ _
  | NewCold _ _ _ | NewCooling _ _ _ | NewCount _ _ | NewFlag _ _ | NewFinish _ _ | NewUnlock _
  | InitInsert | FiniErase | FiniCheck | FiniEnd _ | FiniBegin _ | FiniSwap _ | FiniUnlock _ _ => true
  | _ => false
  end.

(** The thread alone decides when the cold epoch goes. *)
Definition token (p : pc) : bool :=
  match p with
  | NewReady _ | NewScan _ _ _ _ | NewScanEnd _ _ _ _ _ _ | NewCold _ _ _ | NewCooling _ _ _ | NewCount _ _
  | NewFinish _ true | NewUnlock true | GqRead _ | GqClear _ _ | GqCall _ _ | GqReady _ => true
  | _ => false
  end.

(** Counted in [nstragglers], but no longer flagged. *)
Definition counted (p : pc) : bool :=
  match p with Ended _ | QEnd | QRead | QBegin _ => true | _ => false end.

(** Threads that are about to be flagged. *)
Definition toflag (p : pc) : list Z := match p with NewFlag _ l => l | _ => [] end.

(** Threads that are or may still be found to be stragglers. *)
Definition pending (s : private_state) (p : pc) : list Z :=
  match p with
  | NewReady _ => threads s
  | NewScan _ todo _ found => todo ++ found
  | NewScanEnd N u b todo _ found => todo ++ found ++ (if b =? N - 1 then [u] else [])
  | NewCold _ _ found | NewCooling _ _ found | NewCount _ found => found
  | _ => []
  end.

Definition registering (p : pc) : bool := match p with InitLock | InitInsert => true | _ => false end.

(** Points only a registered thread gets to. *)
Definition needs_reg (p : pc) : bool :=
  match p with
  | EnterRead | EnterEnd _ | EnterBegin _ | EnterCheck _ | EnterBail _ _
  | CheckEnd _ _ | CheckLock _ | CheckUnlock _ | CheckFlag _ | CheckClear _ | Ended _
  | QFlag | QClear | QEnd | QRead | QBegin _ | ExitRead _ | ExitEnd _ _ | ExitTest _ | FiniLock | FiniErase => true
  | GqRead k | GqClear k _ | GqCall k _ | GqReady k => match k with InNew => false | _ => true end
  | _ => false
  end.

(** The epoch an entering thread is about to join. *)
Definition joining (p : pc) : option Z :=
  match p with EnterEnd x | EnterBegin x | EnterCheck x => Some x | _ => None end.

(** The epoch [thread_fini] of the last thread closed. *)
Definition closed (p : pc) : option Z :=
  match p with
  | FiniSwap a | FiniUnlock a _ | FiniCooling a _ | FiniActive a => Some (ck_epoch a)
  | _ => None
  end.

Definition leaving (k : caller) : bool := match k with InEnter | InExit | InFini => true | _ => false end.

Definition unless_null (P : Z -> Prop) (c : cookie) : Prop := ck_ptr c <> 0 -> P (ck_epoch c).

(** ** What a thread knows at each point *)

Definition local (s : private_state) (o : thread_state) (p : pc) : Prop :=
  let G := ps_begin s in
  let left_ := ts_begin o <= ts_end o in
  match p with
  | EnterEnd tmp | EnterBegin tmp => tmp <= G
  | EnterCheck tmp => tmp <= G /\ ts_begin o = tmp
  | EnterBail tmp2 _ => ts_begin o < tmp2
  | CheckEnd k _ | CheckLock k | CheckUnlock k | CheckFlag k | ExitTest k => leaving k = true /\ left_
  | CheckClear k => leaving k = true /\ left_ /\ straggler o = true
  | Ended k => k <> InNew /\ (leaving k = true -> left_) /\ (k = InQuiesce -> ts_begin o = G)
  | GqRead k | GqReady k => leaving k = true -> left_
  | GqClear k c | GqCall k c => (leaving k = true -> left_) /\ unless_null (fun e => e <= G - 2) c
  | QFlag | QEnd => ts_end o < ts_begin o
  | QClear => straggler o = true /\ ts_end o < ts_begin o
  | QBegin v => v = G
  | ExitRead k => leaving k = true
  | ExitEnd k tmp => leaving k = true /\ ts_begin o <= tmp
  | NewBegin => ready_for_safe_point s = true
  | NewReady N => G = N + 1 /\ ready_for_safe_point s = true /\ unless_null (fun e => e <= G - 2) (cooling_cookie s)
  | NewScan N todo c found =>
      G = N + 1 /\ NoDup (todo ++ found) /\ ck_epoch c = N /\ unless_null (fun e => e <= G - 2) (cooling_cookie s)
  | NewScanEnd N u _ todo c found =>
      G = N + 1 /\ NoDup (u :: todo ++ found) /\ ck_epoch c = N /\ unless_null (fun e => e <= G - 2) (cooling_cookie s)
  | NewCold N c found =>
      G = N + 1 /\ NoDup found /\ ck_epoch c = N /\ unless_null (fun e => e <= G - 2) (cooling_cookie s)
  | NewCooling N c found => G = N + 1 /\ NoDup found /\ ck_epoch c = N
  | NewCount N found => G = N + 1 /\ NoDup found
  | NewFlag N todo => G = N + 1 /\ NoDup todo
  | NewFinish N _ => G = N + 1
  | FiniLock | FiniErase | FiniCheck => left_
  | FiniEnd N | FiniBegin N => threads s = [] /\ G = N
  | FiniSwap a => threads s = [] /\ ck_epoch a = G - 1
  | FiniUnlock a c | FiniCooling a c => ck_epoch a < G /\ unless_null (fun e => e <= ck_epoch a) c
  | FiniActive a => ck_epoch a < G
  | _ => True
  end.

Definition registered (s : private_state) (o : thread_state) (p : pc) (u : Z) : Prop :=
  (initialized o = true -> registering p = false -> u ∈ threads s) /\
  (thread_is_active o = true \/ needs_reg p = true -> initialized o = true /\ registering p = false).

(** ** The invariant

    [S] is the set of threads counted in [nstragglers]. *)
Record inv (w : world) (S : gset Z) : Prop := {
  i_local u : local (st w) (own w u) (at_pc w u);
  i_reg u : registered (st w) (own w u) (at_pc w u) u;
  i_begin u : ts_begin (own w u) <= ps_begin (st w);
  i_mutex u : locks (at_pc w u) = true <-> mutex w = Some u;
  i_token u v : token (at_pc w u) = true -> token (at_pc w v) = true -> u = v;
  i_token_S u : token (at_pc w u) = true -> S = ∅;
  i_set u : u ∈ S <-> straggler (own w u) = true \/ counted (at_pc w u) = true \/
              exists h, u ∈ toflag (at_pc w h);
  i_once u h : straggler (own w u) = true \/ counted (at_pc w u) = true -> ~ (u ∈ toflag (at_pc w h));
  i_clear u : counted (at_pc w u) = true -> straggler (own w u) = false;
  i_count : nstragglers (st w) = Z.of_nat (size S);
  i_ready : ready_for_safe_point (st w) = true ->
              S = ∅ /\ forall u, token (at_pc w u) = true -> exists N, at_pc w u = NewReady N;
  i_inside u : inside w u -> ps_begin (st w) - 2 <= ts_begin (own w u);
  i_oldest u : inside w u -> ts_begin (own w u) = ps_begin (st w) - 2 ->
              u ∈ S \/ exists h, u ∈ pending (st w) (at_pc w h);
  i_threads : StronglySorted Z.lt (threads (st w));
  i_cooling : unless_null (fun e => e <= ps_begin (st w) - 1) (cooling_cookie (st w));
  i_cold : unless_null (fun e => e <= ps_begin (st w) - 2) (cold_cookie (st w));
  i_closed h u n : closed (at_pc w h) = Some n ->
              (inside w u -> n < ts_begin (own w u)) /\ (forall x, joining (at_pc w u) = Some x -> n < x) }.

(** ** Reading the parts of an updated world *)

Section lookups.
Implicit Types w : world.

Lemma own_goto t p w u : own (goto t p w) u = own w u.
Proof. done. Qed.

Lemma own_set_st f w u : own (set_st f w) u = own w u.
Proof. done. Qed.

Lemma own_set_mutex m w u : own (set_mutex m w) u = own w u.
Proof. done. Qed.

Lemma own_set_started w u : own (set_started w) u = own w u.
Proof. done. Qed.

Lemma own_set_own t f w u : own (set_own t f w) u = if decide (u = t) then f (own w t) else own w u.
Proof.
  unfold own, set_own. cbn. case_decide as E.
  - subst. by rewrite lookup_insert_eq.
  - by rewrite lookup_insert_ne.
Qed.

Lemma pc_goto t p w u : at_pc (goto t p w) u = if decide (u = t) then p else at_pc w u.
Proof.
  unfold at_pc, goto. cbn. case_decide as E.
  - subst. by rewrite lookup_insert_eq.
  - by rewrite lookup_insert_ne.
Qed.

Lemma pc_set_own t f w u : at_pc (set_own t f w) u = at_pc w u.
Proof. done. Qed.

End lookups.

Lemma inv_closed_lt w S h n : inv w S -> closed (at_pc w h) = Some n -> n < ps_begin (st w).
Proof.
  intros I E. pose proof (i_local _ _ I h) as L. destruct (at_pc w h); try done; cbn in *; simplify_eq; lia.
Qed.

(** [w'] differs from [w] in what [t] owns and in where it is. *)
Definition others_same (t : Z) (w w' : world) : Prop :=
  forall u, u <> t -> own w' u = own w u /\ at_pc w' u = at_pc w u.

(** The effect of a step of [t] that leaves the epoch and the registered
    threads alone; [S'] is the new set of stragglers. *)
Record steps (t : Z) (w w' : world) (S S' : gset Z) : Prop := {
  sp_begin : ps_begin (st w') = ps_begin (st w);
  sp_sorted : StronglySorted Z.lt (threads (st w'));
  sp_threads u : u <> t -> u ∈ threads (st w) -> u ∈ threads (st w');
  sp_pendings u : u <> t -> pending (st w') (at_pc w u) = pending (st w) (at_pc w u);
  sp_local u : u <> t -> local (st w) (own w u) (at_pc w u) -> local (st w') (own w u) (at_pc w u);
  sp_cooling : unless_null (fun e => e <= ps_begin (st w) - 1) (cooling_cookie (st w'));
  sp_cold : unless_null (fun e => e <= ps_begin (st w) - 2) (cold_cookie (st w'));
  sp_self : local (st w') (own w' t) (at_pc w' t);
  sp_reg : registered (st w') (own w' t) (at_pc w' t) t;
  sp_own : ts_begin (own w' t) <= ps_begin (st w);
  sp_lock : locks (at_pc w' t) = true <-> mutex w' = Some t;
  sp_unlock u : u <> t -> mutex w' = Some u <-> mutex w = Some u;
  sp_token : token (at_pc w' t) = true -> S' = ∅ /\ forall u, u <> t -> token (at_pc w u) = false;
  sp_tokens u : u <> t -> token (at_pc w u) = true -> S' = ∅;
  sp_count : nstragglers (st w') = Z.of_nat (size S');
  sp_ready : ready_for_safe_point (st w') = true -> S' = ∅ /\
    (token (at_pc w' t) = true -> exists N, at_pc w' t = NewReady N) /\
    forall u, u <> t -> token (at_pc w u) = true -> exists N, at_pc w u = NewReady N;
  sp_toflag : toflag (at_pc w' t) = toflag (at_pc w t);
  sp_S u : u <> t -> u ∈ S' <-> u ∈ S;
  sp_set : t ∈ S' <-> straggler (own w' t) = true \/ counted (at_pc w' t) = true \/ exists h, t ∈ toflag (at_pc w h);
  sp_once h : straggler (own w' t) = true \/ counted (at_pc w' t) = true -> ~ (t ∈ toflag (at_pc w h));
  sp_clear : counted (at_pc w' t) = true -> straggler (own w' t) = false;
  sp_pending u : inside w u -> ts_begin (own w u) = ps_begin (st w) - 2 ->
    u ∈ pending (st w) (at_pc w t) -> u ∈ pending (st w') (at_pc w' t);
  sp_inside : inside w' t -> ps_begin (st w) - 2 <= ts_begin (own w' t) /\
    (ts_begin (own w' t) = ps_begin (st w) - 2 ->
      t ∈ S' \/ exists h, t ∈ pending (st w') (at_pc w' h));
  sp_closed n : closed (at_pc w' t) = Some n -> closed (at_pc w t) = Some n;
  sp_above h n : closed (at_pc w h) = Some n -> (inside w' t -> n < ts_begin (own w' t)) /\
    (forall x, joining (at_pc w' t) = Some x -> n < x) }.

Section preservation.
Context (w w' : world) (t : Z) (S : gset Z) (I : inv w S) (Ho : others_same t w w').

Lemma inside_other u : u <> t -> inside w' u <-> inside w u.
Proof. intros H. unfold inside. destruct (Ho u H) as [-> ->]. done. Qed.

Lemma inv_steps S' : steps t w w' S S' -> inv w' S'.
Proof.
  intros [Eb En Et Ep Hl Hc1 Hc2 Sl Sr Sb Slk Sul St Sts Sct Srd Stf HS Sset Son Scl Sp Si Sc Sa].
  assert (forall u, toflag (at_pc w' u) = toflag (at_pc w u)) as Htf.
  { intros u. destruct (decide (u = t)) as [->|N]; [done|]. by destruct (Ho u N) as [_ ->]. }
  split.
  - intros u. destruct (decide (u = t)) as [->|N]; [done|]. destruct (Ho u N) as [-> ->].
    by apply Hl, (i_local _ _ I).
  - intros u. destruct (decide (u = t)) as [->|N]; [done|]. destruct (Ho u N) as [-> ->].
    pose proof (i_reg _ _ I u) as [R1 R2]. split; [|done]. intros. by apply Et, R1.
  - intros u. rewrite Eb. destruct (decide (u = t)) as [->|N]; [done|]. destruct (Ho u N) as [-> _]. apply (i_begin _ _ I).
  - intros u. destruct (decide (u = t)) as [->|N]; [done|]. rewrite Sul by done. destruct (Ho u N) as [_ ->].
    apply (i_mutex _ _ I).
  - intros u v. destruct (decide (u = t)) as [->|Nu], (decide (v = t)) as [->|Nv]; [done|..].
    + destruct (Ho v Nv) as [_ ->]. intros [_ F]%St. by rewrite F.
    + destruct (Ho u Nu) as [_ ->]. intros Hu [_ F]%St. by rewrite F in Hu.
    + destruct (Ho u Nu) as [_ ->], (Ho v Nv) as [_ ->]. apply (i_token _ _ I).
  - intros u. destruct (decide (u = t)) as [->|N]; [by intros []%St|]. destruct (Ho u N) as [_ ->]. by apply Sts.
  - intros u. setoid_rewrite Htf. destruct (decide (u = t)) as [->|N]; [done|]. rewrite HS by done.
    destruct (Ho u N) as [-> ->]. apply (i_set _ _ I).
  - intros u h. rewrite Htf. destruct (decide (u = t)) as [->|N]; [apply Son|]. destruct (Ho u N) as [-> ->].
    apply (i_once _ _ I).
  - intros u. destruct (decide (u = t)) as [->|N]; [done|]. destruct (Ho u N) as [-> ->]. apply (i_clear _ _ I).
  - done.
  - intros R. destruct (Srd R) as (-> & Hr & Hr'). split; [done|]. intros u.
    destruct (decide (u = t)) as [->|N]; [done|]. destruct (Ho u N) as [_ ->]. by apply Hr'.
  - intros u. rewrite Eb. destruct (decide (u = t)) as [->|N]; [apply Si|]. rewrite inside_other by done.
    destruct (Ho u N) as [-> _]. apply (i_inside _ _ I).
  - intros u Hu. rewrite Eb. intros E.
    destruct (decide (u = t)) as [->|N]; [by apply Si|]. destruct (Ho u N) as [Eo _]. rewrite Eo in E.
    apply inside_other in Hu; [|done]. rewrite HS by done.
    destruct (i_oldest _ _ I u Hu E) as [?|[h Hh]]; [by left|]. right. exists h.
    destruct (decide (h = t)) as [->|Nh]; [by apply Sp|]. destruct (Ho h Nh) as [_ ->]. by rewrite Ep.
  - done.
  - by rewrite Eb.
  - by rewrite Eb.
  - intros h u n Hn. assert (closed (at_pc w h) = Some n) as Hn'.
    { destruct (decide (h = t)) as [->|N]; [by apply Sc|]. by destruct (Ho h N) as [_ <-]. }
    destruct (decide (u = t)) as [->|N]; [by eapply Sa|]. rewrite inside_other by done.
    destruct (Ho u N) as [-> ->]. by apply (i_closed _ _ I h).
Qed.

End preservation.

(** [st] keeps all that matters to threads that do not change it. *)
Record st_same (t : Z) (w w' : world) : Prop := {
  ss_begin : ps_begin (st w') = ps_begin (st w);
  ss_sorted : StronglySorted Z.lt (threads (st w'));
  ss_threads u : u <> t -> u ∈ threads (st w) -> u ∈ threads (st w');
  ss_pendings u : u <> t -> pending (st w') (at_pc w u) = pending (st w) (at_pc w u);
  ss_count : nstragglers (st w') = nstragglers (st w);
  ss_local u : u <> t -> local (st w) (own w u) (at_pc w u) -> local (st w') (own w u) (at_pc w u);
  ss_cooling : unless_null (fun e => e <= ps_begin (st w) - 1) (cooling_cookie (st w'));
  ss_cold : unless_null (fun e => e <= ps_begin (st w) - 2) (cold_cookie (st w')) }.

Lemma st_same_refl t w w' S : inv w S -> st w' = st w -> st_same t w w'.
Proof. intros I E. split; rewrite ?E; try done; apply I. Qed.

(** [steps] in terms of the new values [o'], [p'] at [t] and the old point
    [p], so that the classes of points compute. *)
Record moves (t : Z) (w : world) (s' : private_state) (m' : option Z) (p : pc) (o' : thread_state) (p' : pc) : Prop := {
  mv_local : local s' o' p';
  mv_reg : registered s' o' p' t;
  mv_begin : ts_begin o' <= ps_begin (st w);
  mv_lock : locks p' = true <-> m' = Some t;
  mv_unlock u : u <> t -> m' = Some u <-> mutex w = Some u;
  mv_token : token p' = true -> token p = true;
  mv_ready : ready_for_safe_point s' = true ->
    (ready_for_safe_point (st w) = true \/ token p = true) /\ (token p' = true -> exists N, p' = NewReady N);
  mv_toflag : toflag p' = toflag p;
  mv_set : straggler o' || counted p' = straggler (own w t) || counted p;
  mv_clear : counted p' = true -> straggler o' = false;
  mv_pending u : inside w u -> ts_begin (own w u) = ps_begin (st w) - 2 ->
    u ∈ pending (st w) p -> u ∈ pending s' p';
  mv_inside : entering p' = false -> ts_end o' < ts_begin o' -> ps_begin (st w) - 2 <= ts_begin o' /\
    (ts_begin o' = ps_begin (st w) - 2 ->
      entering p = false /\ ts_end (own w t) < ts_begin (own w t) /\ ts_begin (own w t) = ts_begin o');
  mv_closed n : closed p' = Some n -> closed p = Some n;
  mv_above h n : closed (at_pc w h) = Some n -> (entering p' = false -> ts_end o' < ts_begin o' -> n < ts_begin o') /\
    (forall x, joining p' = Some x -> n < x) }.

Lemma active_lt o : thread_is_active o = true <-> ts_end o < ts_begin o.
Proof. apply Z.ltb_lt. Qed.

Lemma inv_one_token w S t : inv w S -> token (at_pc w t) = true -> forall u, u <> t -> token (at_pc w u) = false.
Proof.
  intros I Ht u N. destruct (token (at_pc w u)) eqn:Eu; [|done]. destruct N. by apply (i_token _ _ I).
Qed.

Lemma inv_moves w w' t S p o' p' :
  inv w S -> at_pc w t = p ->
  (forall u, own w' u = if decide (u = t) then o' else own w u) ->
  (forall u, at_pc w' u = if decide (u = t) then p' else at_pc w u) ->
  st_same t w w' -> moves t w (st w') (mutex w') p o' p' -> inv w' S.
Proof.
  intros I E Ho Hp [Eb Ed Et Epd En Hl Hc1 Hc2] [M1 M2 M3 M4 M5 M6 M7 M8 M9 M10 M11 M12 M13 M14].
  assert (own w' t = o') as Eo by (by rewrite Ho, decide_True).
  assert (at_pc w' t = p') as Ep by (by rewrite Hp, decide_True).
  assert (others_same t w w') as Hoth by (intros u N; by rewrite Ho, Hp, !decide_False).
  assert (inside w' t <-> entering p' = false /\ ts_end o' < ts_begin o') as Hi.
  { unfold inside. by rewrite Eo, Ep, active_lt. }
  assert (straggler o' = true \/ counted p' = true <-> straggler (own w t) = true \/ counted p = true) as Hset.
  { rewrite <- !orb_true_iff. by rewrite M9. }
  apply (inv_steps w w' t S I Hoth). split; rewrite ?Eo, ?Ep, ?E; try done.
  - intros Ht%M6. rewrite <- E in Ht. split; [by apply (i_token_S _ _ I t)|]. by apply (inv_one_token _ _ _ I).
  - intros u _. apply (i_token_S _ _ I).
  - rewrite En. apply (i_count _ _ I).
  - intros [[R|Ht] R']%M7.
    + destruct (i_ready _ _ I R) as [-> Hr]. split_and!; [done..|]. intros u _. apply Hr.
    + rewrite <- E in Ht. split_and!; [by apply (i_token_S _ _ I t)|done|]. intros u N.
      by rewrite (inv_one_token _ _ _ I Ht u N).
  - rewrite (i_set _ _ I), E. tauto.
  - intros h Hst. apply (i_once _ _ I). rewrite E. tauto.
  - rewrite Hi. intros [H1 H2]. destruct (M12 H1 H2) as [H3 H4]. split; [done|]. intros H5.
    destruct (H4 H5) as (H6 & H7 & H8). assert (inside w t) as Hin by (unfold inside; rewrite E, active_lt; done).
    destruct (i_oldest _ _ I t Hin ltac:(lia)) as [?|[h Hh]]; [by left|right]. exists h. rewrite Hp.
    case_decide as Eh; [|by rewrite Epd]. subst h. rewrite E in Hh. apply M11; [done|lia|done].
  - intros h n Hn. rewrite Hi. destruct (M14 h n Hn) as [H1 H2]. split; [|done]. intros []. by apply H1.
Qed.

(** Brings in what the invariant says of [t], which is at the point [E]. *)
Ltac facts I t E :=
  let L := fresh "L" in let R1 := fresh "R1" in let R2 := fresh "R2" in let B := fresh "B" in
  let K := fresh "K" in let C := fresh "C" in let N := fresh "N" in let T := fresh "T" in
  pose proof (i_local _ _ I t) as L; pose proof (i_reg _ _ I t) as [R1 R2]; pose proof (i_begin _ _ I t) as B;
  pose proof (i_mutex _ _ I t) as K; pose proof (i_clear _ _ I t) as C; pose proof (i_inside _ _ I t) as N;
  pose proof (fun R => proj2 (i_ready _ _ I R) t) as T;
  unfold inside in N; rewrite active_lt in R2, N; rewrite E in L, R1, R2, K, C, N, T; cbn in L, R1, R2, K, C, N, T;
  destruct_and? L.

(** The epochs closed by [thread_fini] are below everything [t] may join. *)
Ltac above I t E :=
  let h := fresh "h" in let n := fresh "n" in let Hn := fresh "Hn" in
  let Ha := fresh "Ha" in let Hb := fresh "Hb" in
  intros h n Hn; pose proof (inv_closed_lt _ _ _ _ I Hn); pose proof (i_closed _ _ I h t n Hn) as [Ha Hb];
  unfold inside in Ha; rewrite active_lt in Ha; rewrite E in Ha, Hb; cbn in Ha, Hb;
  try specialize (Hb _ eq_refl); split; [intros; first [done|lia|apply Ha; lia|apply Ha; done]
         |intros; simplify_eq; first [done|lia|apply Hb; done]].

Ltac moved I t E :=
  split; unfold registered; cbn [locks token toflag counted pending entering closed joining registering needs_reg local
      with_begin with_end with_straggler with_init ts_begin ts_end straggler initialized ts_cookie mutex st
      goto set_own set_st set_mutex next];
    rewrite ?active_lt; cbn [ts_begin ts_end straggler initialized with_begin with_end with_straggler with_init];
    try done; try lia; try (above I t E); try tauto;
    try match goal with H : straggler (own _ t) = _ |- _ => by rewrite H end;
    try match goal with T : _ -> true = true -> exists N, _ = NewReady N |- _ => by intros R; destruct (T R eq_refl) end;
    try (intros; repeat split; intros;
      try match goal with K : true = true <-> _ |- _ => pose proof (proj1 K eq_refl) end;
      first [done|lia|tauto|exfalso; lia|congruence]).

(** A step that changes where [t] is, and what it owns. *)
Ltac advance I t E :=
  facts I t E; eapply (inv_moves _ _ t _ _ _ _ I E);
  [ let u := fresh in intros u; rewrite ?own_goto; first [apply own_set_own | case_decide; [subst; reflexivity|done]]
  | let u := fresh in intros u; exact (pc_goto t _ _ u)
  | eapply st_same_refl; [exact I|done]
  | moved I t E ].

(** Only the lock holder is at a point that holds the lock. *)
Lemma inv_alone w S t u : inv w S -> locks (at_pc w t) = true -> u <> t -> locks (at_pc w u) = false.
Proof.
  intros I Ht N. destruct (locks (at_pc w u)) eqn:E; [|done]. apply (i_mutex _ _ I) in Ht, E. congruence.
Qed.

(** What others know is not lost. *)
Lemma local_other s s' o p :
  ps_begin s' = ps_begin s -> threads s' = threads s ->
  (ready_for_safe_point s = true -> ready_for_safe_point s' = true) /\ cooling_cookie s' = cooling_cookie s \/
  locks p = false -> local s o p -> local s' o p.
Proof.
  intros E1 E2 E4. destruct p; cbn in *; rewrite ?E1, ?E2; try done;
  destruct E4 as [[? E4]|]; rewrite ?E4; done || tauto.
Qed.

(** A step of [t] that changes [st]: those who hold no lock do not mind. *)
Ltac update I t E :=
  facts I t E; eapply (inv_moves _ _ t _ _ _ _ I E);
  [ let u := fresh in intros u; rewrite ?own_goto; case_decide; [subst; reflexivity|done]
  | let u := fresh in intros u; exact (pc_goto t _ _ u)
  | split; cbn [st set_st goto ps_with_ready ps_with_cold ps_with_cooling ps_with_end ps_begin threads nstragglers cooling_cookie cold_cookie];
      [done|apply (i_threads _ _ I)|done|done|done
      |let u := fresh "u" in let Hu := fresh "Hu" in intros u Hu; apply local_other; [done|done|];
        first [left; done|right; apply (inv_alone _ _ t u I); [by rewrite E|done]]
      |first [done|apply (i_cooling _ _ I)|by intros []|idtac]
      |first [done|apply (i_cold _ _ I)|by intros []|idtac]]
  | moved I t E ].

Lemma size_remove (S : gset Z) t : t ∈ S -> Z.of_nat (size (S ∖ {[t]})) = Z.of_nat (size S) - 1.
Proof.
  intros H. rewrite size_difference, size_singleton by set_solver.
  assert (size S <> 0%nat) by (intros F%size_empty_inv; set_solver). lia.
Qed.

Lemma single_remove (S : gset Z) t : t ∈ S -> size S = 1%nat -> S ∖ {[t]} = ∅.
Proof. intros H [x ->%leibniz_equiv]%size_1_elem_of. set_solver. Qed.

Lemma elem_remove (S : gset Z) t u : u ∈ S ∖ {[t]} <-> u ∈ S /\ u <> t.
Proof. rewrite elem_of_difference, elem_of_singleton. done. Qed.

Section steps.
Context `{CB : Callbacks}.

Lemma enter_ok t w S w' ev : inv w S -> enter_step t w (at_pc w t) = Some (w', ev) -> inv w' S.
Proof.
  intros I. destruct (at_pc w t) eqn:E; cbn; try done; unfold next.
  - intros [= <- <-]. advance I t E.
  - intros [= <- <-]. advance I t E.
  - intros [= <- <-]. advance I t E.
  - destruct (_ || _) eqn:Ed.
    + intros [= <- <-]. advance I t E.
    + intros [= <- <-]. advance I t E.
  - intros [= <- <-]. destruct check; advance I t E.
Qed.

Lemma check_ok t w S w' ev : inv w S -> check_step t w (at_pc w t) = Some (w', ev) -> inv w' S.
Proof.
  intros I. destruct (at_pc w t) eqn:E; cbn; try done; unfold next.
  - destruct (_ <? _); intros [= <- <-]; advance I t E.
  - destruct (mutex w) eqn:Em; [done|]. intros [= <- <-]. advance I t E.
  - intros [= <- <-]. advance I t E.
  - destruct (straggler (own w t)) eqn:Es; intros [= <- <-]; [advance I t E|destruct k; advance I t E].
  - intros [= <- <-]. destruct k; advance I t E.
Qed.

Lemma quiesce_ok t w S w' ev : inv w S -> quiesce_step t w (at_pc w t) = Some (w', ev) -> inv w' S.
Proof.
  intros I. destruct (at_pc w t) eqn:E; cbn; try done; unfold next.
  - destruct (straggler (own w t)) eqn:Es; intros [= <- <-]; advance I t E.
  - intros [= <- <-]; advance I t E.
  - intros [= <- <-]; advance I t E.
  - intros [= <- <-]; advance I t E.
  - intros [= <- <-]; advance I t E.
Qed.

Lemma exit_ok t w S w' ev : inv w S -> exit_step t w (at_pc w t) = Some (w', ev) -> inv w' S.
Proof.
  intros I. destruct (at_pc w t) eqn:E; cbn; try done; unfold next.
  - intros [= <- <-]; advance I t E.
  - destruct (_ <? _) eqn:Ed; intros [= <- <-]; advance I t E.
  - destruct (_ <? _) eqn:Ed; intros [= <- <-]; [destruct k; advance I t E|advance I t E].
Qed.
Lemma inv_in_S w S t : inv w S -> counted (at_pc w t) = true -> t ∈ S.
Proof. intros I H. apply (i_set _ _ I). auto. Qed.

Lemma inv_no_token w S t : inv w S -> t ∈ S -> forall u, token (at_pc w u) = false.
Proof.
  intros I Ht u. destruct (token (at_pc w u)) eqn:E; [|done]. rewrite (i_token_S _ _ I u E) in Ht. set_solver.
Qed.

Lemma inv_not_ready w S t : inv w S -> t ∈ S -> ready_for_safe_point (st w) = false.
Proof.
  intros I Ht. destruct (ready_for_safe_point _) eqn:E; [|done].
  destruct (i_ready _ _ I E) as [-> _]. set_solver.
Qed.

(** A straggler is gone: [t] leaves the set. *)
Lemma inv_ended w S t k p' :
  inv w S -> at_pc w t = Ended k -> p' = resume k \/ p' = GqRead k /\ size S = 1%nat ->
  inv (goto t p' (set_st (ps_with_nstragglers (nstragglers (st w) - 1)) w)) (S ∖ {[t]}).
Proof.
  intros I E Hp. facts I t E.
  assert (t ∈ S) as HtS by (apply (inv_in_S _ _ _ I); by rewrite E).
  pose proof (inv_no_token _ _ _ I HtS) as Hnt. pose proof (inv_not_ready _ _ _ I HtS) as Hnr.
  pose proof (single_remove S t HtS) as Hone.
  assert (locks p' = false /\ toflag p' = [] /\ counted p' = false /\ closed p' = None /\ joining p' = None
    /\ registering p' = false) as (P1 & P2 & P3 & P4 & P5 & P6)
    by (destruct Hp as [->|[-> _]]; destruct k; done).
  assert (local (st w) (own w t) p' /\ (token p' = true -> size S = 1%nat)) as [P7 P8]
    by (destruct Hp as [->|[-> ?]]; destruct k; done || (split; [|done]; cbn; auto)).
  apply (inv_steps w _ t S I); [split; [done|]; rewrite pc_goto, decide_False; done|].
  split; rewrite ?own_goto, ?own_set_st, ?pc_goto, ?decide_True, ?P1, ?P2, ?P3, ?P4, ?P5, ?E by done; try done;
    cbn [st set_st goto ps_with_nstragglers ps_begin threads ready_for_safe_point nstragglers cooling_cookie cold_cookie].
  - apply (i_threads _ _ I).
  - apply (i_cooling _ _ I).
  - apply (i_cold _ _ I).
  - unfold registered. rewrite active_lt, P6. tauto.
  - auto.
  - intros u _. by rewrite Hnt.
  - by rewrite (i_count _ _ I), size_remove.
  - congruence.
  - intros u Hu. rewrite elem_remove. tauto.
  - rewrite elem_remove, C by done. split; [intros []; done|]. intros [?|[?|[h Hh]]]; [done..|].
    exfalso. revert Hh. apply (i_once _ _ I). rewrite E. auto.
  - intros h [?|?]; [|done]. rewrite C in *; done.
  - by intros u _ _ ?%elem_of_nil.
  - intros [H3 H4%active_lt]. rewrite pc_goto, decide_True in H3 by done.
    split; [by apply N|]. intros H5. exfalso. change (ts_end (own w t) < ts_begin (own w t)) in H4.
    destruct k; first [done|specialize (H1 eq_refl); lia|specialize (H2 eq_refl); lia].
  - intros h n Hn. split; [|done]. intros [H3 H4]. rewrite pc_goto, decide_True in H3 by done.
    apply (proj1 (i_closed _ _ I h t n Hn)). split; [by rewrite E|done].
Qed.

Lemma ended_ok t w S w' ev : inv w S -> ended_step t w (at_pc w t) = Some (w', ev) -> exists S', inv w' S'.
Proof.
  intros I. destruct (at_pc w t) eqn:E; cbn; try done; unfold next. intros [= <- <-]. exists (S ∖ {[t]}).
  apply (inv_ended w S t k); [done..|]. destruct (_ =? _) eqn:En; [right|by left]. split; [done|].
  rewrite (i_count _ _ I) in En. lia.
Qed.

Lemma quiesced_ok t w S w' ev : inv w S -> global_quiesce_step t w (at_pc w t) = Some (w', ev) -> inv w' S.
Proof.
  intros I. destruct (at_pc w t) eqn:E; cbn; try done; unfold next.
  - intros [= <- <-]. pose proof (i_cold _ _ I). advance I t E.
  - intros [= <- <-]. update I t E.
  - intros [= <- <-]. advance I t E.
  - intros [= <- <-]. destruct k; update I t E.
Qed.

Lemma local_bump s o p :
  locks p = false -> counted p = false -> local s o p -> local (ps_with_begin (ps_begin s + 1) s) o p.
Proof.
  destruct p; cbn; try done; unfold unless_null; intros; destruct_and?; split_and?; try done; try lia; intros;
    match goal with H : _ -> _ <= _ |- _ => specialize (H ltac:(assumption)); lia end.
Qed.

(** The lock holder closes epoch [ps_begin]. *)
Lemma inv_next_epoch w S t p' :
  let G := ps_begin (st w) in
  let s' := ps_with_begin (G + 1) (st w) in
  inv w S -> locks (at_pc w t) = true -> (forall u, counted (at_pc w u) = false) ->
  toflag (at_pc w t) = [] -> token (at_pc w t) = false -> entering (at_pc w t) = false ->
  locks p' = true -> counted p' = false -> toflag p' = [] -> entering p' = false -> needs_reg p' = false ->
  registering p' = registering (at_pc w t) -> joining p' = None ->
  local s' (own w t) p' ->
  (token p' = true -> S = ∅ /\ (exists N, p' = NewReady N) /\ forall u, token (at_pc w u) = false) ->
  (forall u, inside w u -> G - 1 <= ts_begin (own w u) /\ u ∈ pending s' p') ->
  (forall n, closed p' = Some n -> forall u, ~ inside w u /\ joining (at_pc w u) = None) ->
  inv (goto t p' (set_st (ps_with_begin (G + 1)) w)) S.
Proof.
  intros G s' I H1 H2 H3 H4 H5 P1 P2 P3 P4 P5 P5' P6 P7 P8 P9 P10. set (w' := goto _ _ _).
  assert (forall u, at_pc w' u = if decide (u = t) then p' else at_pc w u) as Hp by (intros u; exact (pc_goto t p' _ u)).
  assert (forall u, own w' u = own w u) as Ho by done.
  assert (forall u, toflag (at_pc w' u) = toflag (at_pc w u)) as Ht.
  { intros u. rewrite Hp. case_decide; congruence. }
  assert (forall u, counted (at_pc w' u) = false) as Hc.
  { intros u. rewrite Hp. by case_decide. }
  assert (forall u, inside w' u <-> inside w u) as Hi.
  { intros u. unfold inside. rewrite Ho, Hp. case_decide; [|done]. subst u. by rewrite P4, H5. }
  split; try (intros u; rewrite ?Ho, ?Hp; try setoid_rewrite Ht); change (st w') with s'; change (mutex w') with (mutex w).
  - case_decide; [by subst u|]. apply local_bump; [by apply (inv_alone _ _ t _ I)|done|apply (i_local _ _ I)].
  - pose proof (i_reg _ _ I u) as [R1 R2]. case_decide; [subst u|by split]. unfold registered. rewrite P5, P5'.
    split; [done|]. intros [?|?]; [|done]. apply R2. tauto.
  - pose proof (i_begin _ _ I u). cbn. lia.
  - rewrite <- (i_mutex _ _ I). case_decide; [by subst; rewrite P1, H1|done].
  - intros v. rewrite Hp. case_decide; case_decide; subst; try done.
    + intros (_ & _ & F)%P8. by rewrite F.
    + intros Hu (_ & _ & F)%P8. by rewrite F in Hu.
    + apply (i_token _ _ I).
  - case_decide; [intros []%P8; done|apply (i_token_S _ _ I)].
  - rewrite <- Hp, Hc. rewrite (i_set _ _ I). by rewrite H2.
  - rewrite <- Hp, Hc. rewrite <- (H2 u). apply (i_once _ _ I).
  - by rewrite <- Hp, Hc.
  - apply (i_count _ _ I).
  - destruct (i_ready _ _ I u) as [-> Hr]. split; [done|]. intros v. rewrite Hp.
    case_decide; [|apply Hr]. by intros (_ & ? & _)%P8.
  - rewrite Hi. intros [? _]%P9. cbn. lia.
  - rewrite Hi. intros [_ ?]%P9 _. right. exists t. by rewrite Hp, decide_True.
  - apply (i_threads _ _ I).
  - pose proof (i_cooling _ _ I u). cbn in *. lia.
  - pose proof (i_cold _ _ I u). cbn in *. lia.
  - intros v n Hn. rewrite Hi, Hp. case_decide; [subst u|].
    + destruct (P10 n Hn v) as [? Ej]. case_decide; [by rewrite P6|by rewrite Ej].
    + destruct (i_closed _ _ I u v n Hn). case_decide; [by rewrite P6|done].
Qed.

Lemma pending_token s p u : u ∈ pending s p -> token p = true.
Proof. destruct p; cbn; try done; by intros ?%elem_of_nil. Qed.

Lemma new_begin_ok t w S :
  inv w S -> at_pc w t = NewBegin ->
  inv (goto t (NewReady (ps_begin (st w))) (set_st (ps_with_begin (ps_begin (st w) + 1)) w)) S.
Proof.
  intros I E. pose proof (i_local _ _ I t) as R. rewrite E in R. cbn in R. destruct (i_ready _ _ I R) as [HS Hr].
  assert (forall u, token (at_pc w u) = false) as Hnt.
  { intros u. destruct (token (at_pc w u)) eqn:Eu; [|done]. destruct (Hr u Eu) as [N HN].
    assert (u <> t) by congruence. assert (locks (at_pc w u) = false) as F; [|by rewrite HN in F].
    apply (inv_alone _ _ t _ I); [by rewrite E|done]. }
  apply inv_next_epoch; rewrite ?E; try done.
  - intros u. destruct (counted (at_pc w u)) eqn:Eu; [|done]. apply (inv_in_S _ _ _ I) in Eu. set_solver.
  - split_and!; [done|done|]. intros Hn. pose proof (i_cooling _ _ I Hn). cbn in *. lia.
  - intros _. split_and!; [done|by eexists|done].
  - intros u Hu. pose proof (i_inside _ _ I u Hu). cbn. split.
    + destruct (decide (ts_begin (own w u) = ps_begin (st w) - 2)) as [Eb|]; [|lia].
      destruct (i_oldest _ _ I u Hu Eb) as [?|[h Hh]]; [set_solver|].
      apply pending_token in Hh. by rewrite Hnt in Hh.
    + destruct (i_reg _ _ I u) as [R1 R2]. destruct Hu. apply R1; tauto.
Qed.

(** Points that differ only in what they say about stragglers. *)
Definition same_class (p p' : pc) : Prop :=
  locks p' = locks p /\ entering p' = entering p /\ needs_reg p' = needs_reg p /\ registering p' = registering p /\
  counted p' = counted p /\ closed p' = closed p /\ joining p' = joining p /\ (token p' = true -> token p = true).

(** Steps of [new_epoch] that count and flag stragglers. *)
Lemma inv_relabel w w' S S' :
  inv w S ->
  ps_begin (st w') = ps_begin (st w) /\ threads (st w') = threads (st w) /\ cooling_cookie (st w') = cooling_cookie (st w) /\
    cold_cookie (st w') = cold_cookie (st w) /\ mutex w' = mutex w ->
  (forall u, same_class (at_pc w u) (at_pc w' u)) ->
  (forall u, exists b, own w' u = with_straggler b (own w u)) ->
  (forall u, local (st w') (own w' u) (at_pc w' u)) ->
  (forall u, token (at_pc w' u) = true -> S' = ∅) ->
  (forall u, u ∈ S' <-> straggler (own w' u) = true \/ counted (at_pc w' u) = true \/ exists h, u ∈ toflag (at_pc w' h)) ->
  (forall u h, straggler (own w' u) = true \/ counted (at_pc w' u) = true -> ~ (u ∈ toflag (at_pc w' h))) ->
  (forall u, counted (at_pc w' u) = true -> straggler (own w' u) = false) ->
  nstragglers (st w') = Z.of_nat (size S') -> ready_for_safe_point (st w') = false ->
  (forall u, inside w u -> ts_begin (own w u) = ps_begin (st w) - 2 -> u ∈ S') ->
  inv w' S'.
Proof.
  intros I (Eb & Et & E1 & E2 & Em) Hp Ho H1 H2 H3 H4 H5 H6 H7 H8.
  assert (forall u, inside w' u <-> inside w u) as Hi.
  { intros u. unfold inside. destruct (Ho u) as [b ->], (Hp u) as (_ & -> & _). done. }
  assert (forall u, ts_begin (own w' u) = ts_begin (own w u)) as Hb by (intros u; by destruct (Ho u) as [b ->]).
  split; try done; rewrite ?Eb, ?Et, ?E1, ?E2.
  - intros u. unfold registered. rewrite Et. destruct (Ho u) as [b ->], (Hp u) as (_ & _ & -> & -> & _).
    apply (i_reg _ _ I u).
  - intros u. rewrite Hb. apply (i_begin _ _ I).
  - intros u. rewrite Em. destruct (Hp u) as [-> _]. apply (i_mutex _ _ I).
  - intros u v. destruct (Hp u) as (_ & _ & _ & _ & _ & _ & _ & Hu), (Hp v) as (_ & _ & _ & _ & _ & _ & _ & Hv).
    intros. apply (i_token _ _ I); auto.
  - congruence.
  - intros u. rewrite Hi, Hb. apply (i_inside _ _ I).
  - intros u. rewrite Hi, Hb. auto.
  - apply (i_threads _ _ I).
  - apply (i_cooling _ _ I).
  - apply (i_cold _ _ I).
  - intros h u n. rewrite Hi, Hb. destruct (Hp h) as (_ & _ & _ & _ & _ & -> & _), (Hp u) as (_ & _ & _ & _ & _ & _ & -> & _).
    apply (i_closed _ _ I).
Qed.

Lemma new_count_ok t w S N found :
  inv w S -> at_pc w t = NewCount N found ->
  inv (goto t (NewFlag N found) (set_st (ps_with_nstragglers (Z.of_nat (length found))) w)) (list_to_set found).
Proof.
  intros I E. pose proof (i_local _ _ I t) as L. rewrite E in L. destruct L as [EG Hnd].
  assert (token (at_pc w t) = true) as Htk by (by rewrite E).
  assert (S = ∅) as -> by (by apply (i_token_S _ _ I t)).
  set (w' := goto _ _ _).
  assert (forall u, at_pc w' u = if decide (u = t) then NewFlag N found else at_pc w u) as Hp
    by (intros u; exact (pc_goto t _ _ u)).
  assert (forall u, own w' u = own w u) as Ho by done.
  assert (forall u, ~ (straggler (own w u) = true \/ counted (at_pc w u) = true \/ exists h, u ∈ toflag (at_pc w h))) as Hs.
  { intros u. rewrite <- (i_set _ _ I). apply not_elem_of_empty. }
  assert (forall u, same_class (at_pc w u) (at_pc w' u)) as Hc.
  { intros u. rewrite Hp. unfold same_class. case_decide; [|tauto]. subst u. by rewrite E. }
  assert (forall u, counted (at_pc w' u) = counted (at_pc w u)) as Hcc by apply Hc.
  apply (inv_relabel w w' ∅ _ I); try done.
  - intros u. exists (straggler (own w u)). rewrite Ho. by destruct (own w u).
  - intros u. rewrite Ho, Hp. case_decide; [done|]. by apply (local_other (st w)); [..|left|apply (i_local _ _ I)].
  - intros u. rewrite Hp. case_decide; [done|]. by rewrite (inv_one_token _ _ _ I Htk).
  - intros u. rewrite Ho, Hcc, elem_of_list_to_set. split.
    + intros Hu. right. right. exists t. by rewrite Hp, decide_True.
    + intros [?|[?|[h Hh]]]; [destruct (Hs u); tauto..|]. rewrite Hp in Hh. case_decide; [done|]. destruct (Hs u). eauto.
  - intros u h. rewrite Ho, Hcc. intros. destruct (Hs u); tauto.
  - intros u. rewrite Ho, Hcc. intros. destruct (Hs u); tauto.
  - cbn. by rewrite size_list_to_set.
  - cbn. destruct (ready_for_safe_point _) eqn:R; [|done]. apply (i_ready _ _ I) in R as [_ R]. destruct (R t Htk). congruence.
  - intros u Hu Eb. destruct (i_oldest _ _ I u Hu Eb) as [F|[h Hh]]; [by apply not_elem_of_empty in F|].
    assert (h = t) as -> by (by apply (i_token _ _ I), Htk; apply pending_token in Hh).
    rewrite E in Hh. by apply elem_of_list_to_set.
Qed.

Lemma local_flag s o p : local s o p -> local s (with_straggler true o) p.
Proof. destruct p; cbn; tauto. Qed.

Lemma new_flag_ok t w S N u todo :
  inv w S -> at_pc w t = NewFlag N (u :: todo) -> inv (goto t (NewFlag N todo) (set_own u (with_straggler true) w)) S.
Proof.
  intros I E. pose proof (i_local _ _ I t) as L. rewrite E in L. destruct L as [EG [Hu Hnd]%NoDup_cons].
  set (w' := goto _ _ _).
  assert (forall v, at_pc w' v = if decide (v = t) then NewFlag N todo else at_pc w v) as Hp
    by (intros v; exact (pc_goto t _ _ v)).
  assert (forall v, own w' v = if decide (v = u) then with_straggler true (own w u) else own w v) as Ho
    by (intros v; exact (own_set_own u _ _ v)).
  assert (forall v h, v ∈ toflag (at_pc w h) -> v ∈ S /\ h = t /\ straggler (own w v) = false /\ counted (at_pc w v) = false) as Hf.
  { intros v h Hh. split_and!.
    - apply (i_set _ _ I). eauto.
    - destruct (decide (h = t)) as [|Nh]; [done|]. assert (locks (at_pc w h) = false) as F
        by (apply (inv_alone _ _ t _ I); [by rewrite E|done]). destruct (at_pc w h); try done; by apply elem_of_nil in Hh.
    - pose proof (i_once _ _ I v h). destruct (straggler _); tauto.
    - pose proof (i_once _ _ I v h). destruct (counted _); tauto. }
  assert (u ∈ toflag (at_pc w t)) as Hut by (rewrite E; by left).
  assert (forall u, same_class (at_pc w u) (at_pc w' u)) as Hc.
  { intros v. rewrite Hp. unfold same_class. case_decide; [|tauto]. subst v. by rewrite E. }
  assert (forall v, counted (at_pc w' v) = counted (at_pc w v)) as Hcc by apply Hc.
  assert (forall v h, v ∈ toflag (at_pc w' h) -> v ∈ todo) as Htodo.
  { intros v h. rewrite Hp. case_decide; [done|]. by intros (_ & ? & _)%Hf. }
  destruct (Hf u t Hut) as (HuS & _ & Hus & Huc).
  apply (inv_relabel w w' S _ I); try done.
  - intros v. rewrite Ho. case_decide as Ev; [by exists true; subst|]. exists (straggler (own w v)). by destruct (own w v).
  - intros v. rewrite Hp. pose proof (i_local _ _ I v) as Hv. case_decide; [done|]. rewrite Ho.
    case_decide; [subst v|done]. by apply local_flag.
  - intros v Hv. apply (i_token_S _ _ I v). by apply Hc.
  - intros v. rewrite Hcc, Ho. case_decide; [subst v; cbn; tauto|]. rewrite (i_set _ _ I).
    split; (intros [?|[?|[h Hh]]]; [tauto..|right; right; exists t]).
    + assert (h = t) as -> by (by apply Hf in Hh as (_ & ? & _)). rewrite Hp, decide_True by done.
      rewrite E in Hh. by apply elem_of_cons in Hh as [?|?].
    + apply Htodo in Hh. rewrite E. by right.
  - intros v h. rewrite Hcc, Ho. intros Hv Hh%Htodo. case_decide; [by subst|].
    apply (i_once _ _ I v t Hv). rewrite E. by right.
  - intros v. rewrite Hcc, Ho. case_decide; [subst; congruence|apply (i_clear _ _ I)].
  - apply (i_count _ _ I).
  - by apply (inv_not_ready _ _ _ I HuS).
  - intros v Hv Eb. destruct (i_oldest _ _ I v Hv Eb) as [?|[h Hh]]; [done|].
    apply pending_token in Hh. by rewrite (inv_no_token _ _ _ I HuS) in Hh.
Qed.

Lemma sorted_nodup l : StronglySorted Z.lt l -> NoDup l.
Proof.
  induction 1 as [|v l Hl IH Hv]; constructor; [|done]. intros H. eapply Forall_forall in Hv; [|done]. lia.
Qed.

Lemma scan_nodup (b : bool) (u : Z) todo found :
  NoDup (u :: todo ++ found) -> NoDup (todo ++ (if b then found ++ [u] else found)).
Proof.
  destruct b; [|by intros [_ ?]%NoDup_cons]. rewrite app_assoc. intros H.
  by rewrite (Permutation_app_comm (todo ++ found) [u]).
Qed.

Lemma new_ok t w S w' ev :
  inv w S -> new_epoch_step t w (at_pc w t) = Some (w', ev) -> exists S', inv w' S'.
Proof.
  intros I. destruct (at_pc w t) eqn:E; cbn; try done; unfold next.
  - destruct (mutex w) eqn:Em; [done|]. intros [= <- <-]. exists S. advance I t E.
  - destruct (ready_for_safe_point _) eqn:Er; intros [= <- <-]; exists S; advance I t E.
  - intros [= <- <-]. exists S. advance I t E.
  - intros [= <- <-]. exists S. by apply new_begin_ok.
  - intros [= <- <-]. exists S. update I t E.
    + rewrite app_nil_r. split_and!; [done|by apply sorted_nodup, (i_threads _ _ I)|done..].
    + intros u. by rewrite app_nil_r.
  - destruct todo as [|u todo]; intros [= <- <-]; exists S; advance I t E.
    + cbn. intros v _ Ev. rewrite elem_of_cons, !elem_of_app. intros [->|?]; [|tauto].
      rewrite (proj2 (Z.eqb_eq _ _)) by lia. rewrite list_elem_of_singleton. tauto.
  - intros [= <- <-]. exists S. advance I t E.
    + split_and!; [done|by apply scan_nodup|done..].
    + intros v [_ Hv%active_lt] Ev. rewrite !elem_of_app. destruct (Z.eqb_spec b (N - 1)) as [->|]; cbn.
      * rewrite list_elem_of_singleton. intros [?|[?| ->]]; [tauto|case_match; rewrite ?elem_of_app; tauto|].
        rewrite (proj2 (Z.ltb_lt _ _)) by lia. rewrite elem_of_app, list_elem_of_singleton. tauto.
      * rewrite elem_of_nil. tauto.
  - intros [= <- <-]. exists S. update I t E.
  - intros [= <- <-]. exists S. destruct found; update I t E; intros _; lia.
  - intros [= <- <-]. exists (list_to_set found). by apply (new_count_ok _ _ S).
  - destruct todo as [|u todo]; intros [= <- <-]; exists S; [advance I t E|by apply new_flag_ok].
  - intros [= <- <-]. exists S. destruct direct; update I t E.
  - intros [= <- <-]. exists S. destruct direct; advance I t E.
Qed.

Lemma map_insert_in t l u : u ∈ map_insert t l <-> u = t \/ u ∈ l.
Proof.
  induction l as [|v l IH]; cbn; [by rewrite list_elem_of_singleton, elem_of_nil; tauto|].
  destruct (_ <? _); [by rewrite elem_of_cons|]. destruct (Z.eqb_spec t v) as [->|].
  - rewrite elem_of_cons. tauto.
  - rewrite !elem_of_cons, IH. tauto.
Qed.

Lemma map_insert_sorted t l : StronglySorted Z.lt l -> StronglySorted Z.lt (map_insert t l).
Proof.
  induction 1 as [|v l Hl IH Hv]; cbn; [by repeat constructor|].
  destruct (Z.ltb_spec t v).
  - constructor; [by constructor|]. constructor; [done|]. eapply Forall_impl; [done|]. cbn. lia.
  - destruct (Z.eqb_spec t v); [by constructor|]. constructor; [done|]. apply Forall_forall.
    intros u [->|Hu]%map_insert_in; [lia|]. by eapply Forall_forall in Hv.
Qed.

Lemma map_erase_sorted t l : StronglySorted Z.lt l -> StronglySorted Z.lt (map_erase t l).
Proof.
  unfold map_erase. induction 1 as [|v l Hl IH Hv]; [constructor|]. rewrite filter_cons. case_decide; [|done].
  constructor; [done|]. apply Forall_forall. intros u [_ Hu]%list_elem_of_filter. by eapply Forall_forall in Hv.
Qed.

(** Only the lock holder looks at the registered threads. *)
Lemma unlocked_threads s l o p :
  locks p = false -> pending (ps_with_threads l s) p = pending s p /\ (local s o p -> local (ps_with_threads l s) o p).
Proof. by destruct p. Qed.

Ltac rethread I t E :=
  facts I t E; eapply (inv_moves _ _ t _ _ _ _ I E);
  [ let u := fresh in intros u; exact (own_set_own t _ _ u)
  | let u := fresh in intros u; exact (pc_goto t _ _ u)
  | split; cbn [st set_st set_own set_started set_mutex goto ps_with_threads ps_begin threads nstragglers cooling_cookie cold_cookie];
      [done|idtac|idtac
      |let u := fresh "u" in let Hu := fresh "Hu" in
       intros u Hu; apply (unlocked_threads _ _ fresh_tls), (inv_alone _ _ t u I); [by rewrite E|done]
      |done
      |let u := fresh "u" in let Hu := fresh "Hu" in
       intros u Hu; apply unlocked_threads, (inv_alone _ _ t u I); [by rewrite E|done]
      |apply (i_cooling _ _ I)|apply (i_cold _ _ I)]
  | ].

Lemma init_ok t w S w' ev : inv w S -> init_step t w (at_pc w t) = Some (w', ev) -> inv w' S.
Proof.
  intros I. destruct (at_pc w t) eqn:E; cbn; try done; unfold next.
  - destruct (mutex w) eqn:Em; [done|]. intros [= <- <-]. advance I t E.
  - intros [= <- <-]. rethread I t E.
    + apply map_insert_sorted, (i_threads _ _ I).
    + intros u Hu H. apply map_insert_in. by right.
    + moved I t E. split; [|done]. intros _ _. apply map_insert_in. by left.
Qed.

Lemma fini_begin_ok t w S :
  inv w S -> at_pc w t = FiniBegin (ps_begin (st w)) -> threads (st w) = [] ->
  inv (goto t (FiniSwap (mk_cookie (ps_begin (st w)) (cb_epoch_ended (ps_begin (st w)))))
         (set_st (ps_with_begin (ps_begin (st w) + 1)) w)) S.
Proof.
  intros I E Hth.
  assert (forall u, thread_is_active (own w u) = false /\ needs_reg (at_pc w u) = false) as Hnone.
  { intros u. destruct (i_reg _ _ I u) as [R1 R2]. rewrite Hth in R1.
    destruct (thread_is_active _), (needs_reg _); try done;
      destruct R2 as [R3 R4]; try tauto; by apply (R1 R3), elem_of_nil in R4. }
  apply inv_next_epoch; rewrite ?E; try done.
  - intros u. destruct (Hnone u) as [_ H]. by destruct (at_pc w u).
  - split; [done|]. cbn. lia.
  - intros u [_ Hu]. by rewrite (proj1 (Hnone u)) in Hu.
  - intros n _ u. destruct (Hnone u) as [H1 H2]. split; [intros [_ ?]; congruence|]. by destruct (at_pc w u).
Qed.

Lemma fini_ok t w S w' ev : inv w S -> fini_step t w (at_pc w t) = Some (w', ev) -> inv w' S.
Proof.
  intros I. destruct (at_pc w t) eqn:E; cbn; try done; unfold next.
  - destruct (mutex w) eqn:Em; [done|]. intros [= <- <-]. advance I t E.
  - intros [= <- <-]. rethread I t E.
    + apply map_erase_sorted, (i_threads _ _ I).
    + intros u Hu H. by apply list_elem_of_filter.
    + moved I t E.
  - destruct (threads (st w)) eqn:Eth; intros [= <- <-]; advance I t E.
  - intros [= <- <-]. update I t E.
  - intros [= <- <-]. pose proof (i_local _ _ I t) as L. rewrite E in L. destruct L as [Hth <-]. by apply fini_begin_ok.
  - intros [= <- <-]. update I t E. split; [cbn; lia|]. intros Hn. pose proof (i_cooling _ _ I Hn). cbn in *; lia.
  - intros [= <- <-]. advance I t E.
  - intros [= <- <-]. advance I t E.
  - intros [= <- <-]. advance I t E.
Qed.

Lemma active_ge o : thread_is_active o = false <-> ts_begin o <= ts_end o.
Proof. apply Z.ltb_ge. Qed.

Lemma start_ok c t w S w' : inv w S -> at_pc w t = Running -> start c t w = Ok w' -> inv w' S.
Proof.
  intros I E. destruct c; cbn.
  - unfold init_entry. destruct (initialized _) eqn:Ei; [done|]. intros [= <-]. advance I t E.
    split; [done|]. intros H. destruct (R2 H). congruence.
  - unfold fini_entry. destruct (initialized _) eqn:Ei; [|done]. cbn.
    destruct (thread_is_active _) eqn:Ea; apply active_lt in Ea || apply active_ge in Ea; intros [= <-]; advance I t E.
  - unfold enter_entry, thread_initialized. destruct (initialized _) eqn:Ei; [|done]. cbn.
    destruct (thread_is_active _) eqn:Ea; [done|]. apply active_ge in Ea. intros [= <-]. advance I t E.
  - unfold exit_entry. destruct (thread_is_active _) eqn:Ea; [|done]. apply active_lt in Ea. intros [= <-]. advance I t E.
  - unfold quiesce_entry. destruct (thread_is_active _) eqn:Ea; [|done]. apply active_lt in Ea. intros [= <-]. advance I t E.
  - unfold new_entry. destruct (negb _) eqn:Ei; [done|]. intros [= <-]. advance I t E.
Qed.

Lemma exec_ok t w S w' ev : inv w S -> exec t w = Some (w', ev) -> exists S', inv w' S'.
Proof.
  intros I. unfold exec. destruct (at_pc w t) eqn:E; try done; rewrite <- E;
    intros Hs; first [by eapply ended_ok|by eapply new_ok|exists S];
    first [by eapply enter_ok|by eapply check_ok|by eapply quiesced_ok|by eapply quiesce_ok|by eapply exit_ok
          |by eapply init_ok|by eapply fini_ok].
Qed.

Lemma initial_ok : inv initial ∅.
Proof.
  assert (forall u, own initial u = fresh_tls) as Ho by done.
  assert (forall u, at_pc initial u = Running) as Hp by done.
  split; try setoid_rewrite Ho; try setoid_rewrite Hp; try done.
  - intros u. split; [done|]. by intros [].
  - intros u. rewrite elem_of_empty. split; [done|]. intros [?|[?|[h Hh]]]; [done..|by apply elem_of_nil in Hh].
  - by intros u h [].
  - constructor.
  - by intros [].
Qed.

Theorem epoch_reachable_inv w : reachable w -> exists S, inv w S.
Proof.
  induction 1 as [|w ev w' _ [S I] Hs]; [exists ∅; apply initial_ok|]. destruct Hs.
  - exists S. by eapply start_ok.
  - by eapply exec_ok.
Qed.
End steps.
