(* ===== verification/EpochSafety.v ===== *)
(** * Epochs are reclaimed only after everybody has left ([dbcore/epoch.cpp])

    What the invariant means for clients: once an epoch is reclaimed nobody is
    inside it ever again, and at most three epochs are populated at a time.
    Two runs show that the count of stragglers can get stuck. *)
From stdpp Require Import base numbers list gmap sets relations.
From Stdlib Require Import ZArith Lia.
From S2P Require Import Prelude Epoch EpochInv.

Local Open Scope Z_scope.

Section safety.
Context `{CB : Callbacks}.

(** ** What clients may rely on *)

(** Epoch [n] and all before are over, and nobody may get into them again. *)
Definition gone (n : Z) (w : world) : Prop :=
  n < ps_begin (st w) /\ (forall u, inside w u -> n < ts_begin (own w u)) /\
  forall u x, joining (at_pc w u) = Some x -> n < x \/ n <= ps_begin (st w) - 2.

Lemma reclaim_inv c n : Reclaimed n ∈ reclaim c -> n = ck_epoch c /\ ck_ptr c <> 0.
Proof.
  unfold reclaim. destruct (Z.eqb_spec (ck_ptr c) 0); [by intros ?%elem_of_nil|].
  rewrite list_elem_of_singleton. by intros [= ->].
Qed.

(** The points where epochs are reclaimed. *)
Lemma exec_reclaims t w w' ev :
  exec t w = Some (w', ev) ->
  ev = [] \/ (exists k c, at_pc w t = GqCall k c /\ ev = reclaim c) \/
  (exists a c, at_pc w t = FiniCooling a c /\ ev = reclaim c) \/ exists a, at_pc w t = FiniActive a /\ ev = reclaim a.
Proof.
  unfold exec. destruct (at_pc w t) eqn:E; try done; cbn; unfold next; repeat case_match; intros [= <- <-]; auto;
    right; eauto 6.
Qed.

Lemma gone_reclaimed w S ev w' n t : inv w S -> exec t w = Some (w', ev) -> Reclaimed n ∈ ev -> gone n w.
Proof.
  intros I Hs Hn. pose proof (i_local _ _ I t) as L.
  assert (forall m, n <= m -> closed (at_pc w t) = Some m -> gone n w) as Hcl.
  { intros m Hm Hc. pose proof (inv_closed_lt _ _ _ _ I Hc).
    split_and!; [lia|..]; intros u; pose proof (i_closed _ _ I t u m Hc) as [H1 H2].
    - intros Hu%H1. lia.
    - intros x Hx%H2. left. lia. }
  destruct (exec_reclaims _ _ _ _ Hs) as [->|[(k & c & E & ->)|[(a & c & E & ->)|(a & E & ->)]]];
    [by apply elem_of_nil in Hn|..]; apply reclaim_inv in Hn as [-> Hc]; rewrite E in L; cbn in L.
  - destruct L as [_ L]. specialize (L Hc). cbn in L. split_and!; [lia| |by auto].
    intros u Hu. destruct (decide (ts_begin (own w u) = ps_begin (st w) - 2)) as [Eb|].
    + assert (token (at_pc w t) = true) as Ht by (by rewrite E).
      destruct (i_oldest _ _ I u Hu Eb) as [Hu'|[h Hh]].
      * rewrite (i_token_S _ _ I t Ht) in Hu'. by apply not_elem_of_empty in Hu'.
      * assert (h = t) as -> by (apply (i_token _ _ I); [by apply pending_token in Hh|done]).
        rewrite E in Hh. by apply elem_of_nil in Hh.
    + pose proof (i_inside _ _ I u Hu). lia.
  - apply (Hcl (ck_epoch a)); [by apply L|by rewrite E].
  - apply (Hcl (ck_epoch a)); [lia|by rewrite E].
Qed.

(** How the step of [t] changes where it is. *)
Lemma exec_self t w S w' ev :
  inv w S -> exec t w = Some (w', ev) ->
  ps_begin (st w) <= ps_begin (st w') /\
  (inside w' t -> inside w t /\ ts_begin (own w' t) = ts_begin (own w t) \/ ps_begin (st w) - 1 <= ts_begin (own w' t) /\ joining (at_pc w t) = Some (ts_begin (own w' t)) \/
     ts_begin (own w' t) = ps_begin (st w)) /\
  (forall x, joining (at_pc w' t) = Some x -> joining (at_pc w t) = Some x \/ x = ps_begin (st w)).
Proof.
  intros I. pose proof (i_local _ _ I t) as L. unfold exec.
  destruct (at_pc w t) eqn:E; try done; cbn in L |- *; unfold next; repeat case_match; intros [= <- <-];
   unfold inside; rewrite !pc_goto, !decide_True, E by done; rewrite !own_goto, ?own_set_mutex, ?own_set_st, ?own_set_own, ?decide_True by done.
  all: rewrite ?own_set_started, ?own_set_st, ?own_set_own; repeat case_decide; subst; rewrite ?active_lt;
    try match goal with k : caller |- _ => destruct k end; cbn.
  all: split; [lia|split; [intros [Hent Hact]; cbn in *; try done; destruct_and? L|intros; simplify_eq; auto]].
  all: try (left; split; [split; [done|lia]|done]).
  - right; left. split; [lia|congruence].
  - lia.
  - by right; right.
Qed.

Lemma start_self c t w w' :
  at_pc w t = Running -> start c t w = Ok w' ->
  st w' = st w /\ others_same t w w' /\ ts_begin (own w' t) = ts_begin (own w t) /\ (inside w' t -> inside w t) /\
  joining (at_pc w' t) = None.
Proof.
  intros E. destruct c; cbn; unfold init_entry, fini_entry, enter_entry, exit_entry, quiesce_entry, new_entry;
    repeat case_match; try done; intros [= <-]; unfold inside, others_same;
    rewrite !pc_goto, !decide_True, E, !own_goto, ?own_set_own, ?decide_True by done; cbn;
    (split_and!; [done| |done|by intros []|done]);
    intros u Hu; by rewrite pc_goto, own_goto, ?own_set_own, ?pc_set_own, !decide_False.
Qed.

Lemma exec_others t w w' ev :
  exec t w = Some (w', ev) ->
  forall u, u <> t -> at_pc w' u = at_pc w u /\ exists b, own w' u = with_straggler b (own w u).
Proof.
  assert (forall o, with_straggler (straggler o) o = o) as Hid by (by intros []).
  unfold exec. destruct (at_pc w t) eqn:E; try done; cbn; unfold next; repeat case_match; intros [= <- <-] u Hu;
    rewrite pc_goto, decide_False by done; (split; [done|]);
    rewrite ?own_goto, ?own_set_mutex, ?own_set_st, ?own_set_own, ?decide_False by done;
    rewrite ?own_set_started, ?own_set_st; eauto.
  all: case_decide; subst; eauto.
Qed.


Lemma gone_step n w S ev w' : inv w S -> gone n w -> step w ev w' -> gone n w'.
Proof.
  intros I (H1 & H2 & H3) Hs. destruct Hs as [c t w w' E Hs|t w w' ev Hs].
  - destruct (start_self _ _ _ _ E Hs) as (E1 & Ho & E2 & Hi & Ej). unfold gone. rewrite E1.
    split_and!; [done|..]; intros u; destruct (decide (u = t)) as [->|Hu].
    + rewrite E2. auto.
    + rewrite (inside_other _ _ _ Ho) by done. destruct (Ho u Hu) as [-> _]. auto.
    + by rewrite Ej.
    + destruct (Ho u Hu) as [_ ->]. apply H3.
  - destruct (exec_self _ _ _ _ _ I Hs) as (E1 & Hi & Hj). pose proof (exec_others _ _ _ _ Hs) as Ho.
    split_and!; [lia|..]; intros u; destruct (decide (u = t)) as [->|Hu].
    + intros [[Hu ->]|[[Hb Hx]| ->]]%Hi; [auto| |done]. destruct (H3 t _ Hx); lia.
    + destruct (Ho u Hu) as [Ep [b Eo]]. unfold inside. rewrite Ep, Eo. apply H2.
    + intros x [Hx| ->]%Hj; [destruct (H3 _ _ Hx)|]; auto with lia.
    + destruct (Ho u Hu) as [-> _]. intros x Hx. destruct (H3 _ _ Hx); auto with lia.
Qed.

Definition steps_to : world -> world -> Prop := rtc (fun w w' => exists ev, step w ev w').

Lemma gone_steps n w w' : reachable w -> gone n w -> steps_to w w' -> gone n w'.
Proof.
  intros R G Hs. induction Hs as [|w v w' [ev Hs] _ IH]; [done|]. destruct (epoch_reachable_inv w R) as [S I].
  apply IH; [by eapply reach_step|by eapply gone_step].
Qed.

(** ** Runs *)

(** Start a call, or let a thread take some steps. *)
Inductive action := Call (c : call) (t : Z) | Run (t : Z) (k : nat).

Fixpoint exec_n (t : Z) (k : nat) (w : world) : option world :=
  match k with
  | O => Some w
  | S k => '(w', _) ← exec t w; exec_n t k w'
  end.

Definition act (a : action) (w : world) : option world :=
  match a with
  | Call c t => match at_pc w t, start c t w with Running, Ok w' => Some w' | _, _ => None end
  | Run t k => exec_n t k w
  end.

Fixpoint run (l : list action) (w : world) : option world :=
  match l with [] => Some w | a :: l => w' ← act a w; run l w' end.

Lemma exec_n_steps t k w w' : exec_n t k w = Some w' -> steps_to w w'.
Proof.
  revert w. induction k as [|k IH]; cbn; intros w; [by intros [= ->]; apply rtc_refl|].
  destruct (exec t w) as [[v ev]|] eqn:E; [|done]. cbn. intros H. eapply rtc_l; [|by apply IH].
  exists ev. by eapply step_exec.
Qed.

Lemma run_steps l w w' : run l w = Some w' -> steps_to w w'.
Proof.
  revert w. induction l as [|a l IH]; cbn; intros w; [by intros [= ->]; apply rtc_refl|].
  destruct (act a w) as [v|] eqn:E; [|done]. cbn. intros H. transitivity v; [|by apply IH].
  destruct a as [c t|t k]; cbn in E; [|by eapply exec_n_steps].
  destruct (at_pc w t) eqn:Ep; try done. destruct (start c t w) eqn:Es; [|done]. simplify_eq.
  apply rtc_once. exists []. by eapply step_start.
Qed.

Lemma run_reachable l w : run l initial = Some w -> reachable w.
Proof.
  intros H%run_steps. remember initial as i eqn:Ei. assert (reachable i) as R by (subst; constructor). clear Ei.
  induction H as [|? ? ? [ev H] _ IH]; [done|]. apply IH. by eapply reach_step.
Qed.

(** C14: when the manager calls [epoch_reclaimed] for epoch [n], and at
    every moment after that, no thread is inside epoch [n] or an earlier one,
    whatever calls the threads make and however their steps interleave. *)
Theorem epoch_reclaim_safe w ev w' w'' n u :
  reachable w -> step w ev w' -> Reclaimed n ∈ ev -> steps_to w w'' ->
  inside w'' u -> n < ts_begin (own w'' u).
Proof.
  intros R Hs Hn Hs' Hu. destruct (epoch_reachable_inv w R) as [S I]. eapply (gone_steps n w w''); [done| |done..].
  destruct Hs as [|t ? ? ? Hs]; [by apply elem_of_nil in Hn|]. by eapply gone_reclaimed.
Qed.

(** Somebody is inside epoch [n]. *)
Definition populated (w : world) (n : Z) : Prop := exists u, inside w u /\ ts_begin (own w u) = n.

(** C21: at most three epochs are populated at a time: the current one and the
    two before it. *)
Theorem epoch_window w n : reachable w -> populated w n -> get_cur_epoch w - 2 <= n <= get_cur_epoch w.
Proof.
  intros R (u & Hu & <-). destruct (epoch_reachable_inv w R) as [S I].
  split; [by apply (i_inside _ _ I)|apply (i_begin _ _ I)].
Qed.

End safety.

(** ** Examples *)

#[local] Instance one_client : Callbacks :=
  {| cb_thread_registered := fun _ => 1; cb_epoch_ended := fun n => n; cb_epoch_ended_thread := fun c _ => c |}.

Definition after (l : list action) : world := default initial (run l initial).

Definition two_threads : list action := [Call thread_init 1; Run 1 2; Call thread_init 2; Run 2 2].

(** Thread 1 uses epoch 1 and then leaves; thread 2 opens epochs 2 and 3 and
    is about to reclaim epoch 1. *)
Definition reclaiming : list action :=
  two_threads ++ [Call thread_enter 1; Run 1 4; Call new_epoch 2; Run 2 17; Call thread_exit 1; Run 1 3;
                  Call new_epoch 2; Run 2 15].

Lemma epoch_reclaim_safe_witness : 1 < ts_begin (own (after (reclaiming ++ [Call thread_enter 1; Run 1 4])) 1).
Proof.
  apply (epoch_reclaim_safe (after reclaiming) [Reclaimed 1] (after (reclaiming ++ [Run 2 1]))).
  - apply (run_reachable reclaiming). vm_compute. reflexivity.
  - apply (step_exec 2). vm_compute. reflexivity.
  - by left.
  - apply (run_steps [Call thread_enter 1; Run 1 4]). vm_compute. reflexivity.
  - split; vm_compute; reflexivity.
Defined.

Lemma epoch_window_witness :
  get_cur_epoch (after (reclaiming ++ [Call thread_enter 1; Run 1 4])) - 2 <= 3
    <= get_cur_epoch (after (reclaiming ++ [Call thread_enter 1; Run 1 4])).
Proof.
  apply (epoch_window (after (reclaiming ++ [Call thread_enter 1; Run 1 4])) 3).
  - apply (run_reachable (reclaiming ++ [Call thread_enter 1; Run 1 4])). vm_compute. reflexivity.
  - exists 1. split; [split|]; vm_compute; reflexivity.
Defined.

(** No call is under way and nobody is inside an epoch, yet there is a
    straggler left and no new epoch can be opened. *)
Definition stuck (w : world) : Prop :=
  Forall (fun u => at_pc w u = Running /\ thread_is_active (own w u) = false) (threads (st w)) /\
  nstragglers (st w) = 1 /\ new_epoch_possible w = false.

(** Thread 1 is flagged in the middle of [thread_enter], for the epoch it was
    in before; it joins a later one, and [thread_exit] does not look at the
    flag then. *)
Definition false_straggler : list action :=
  two_threads ++ [Call thread_enter 1; Run 1 4; Call thread_exit 1; Run 1 3; Call new_epoch 2; Run 2 17;
                  Call thread_enter 1; Run 1 2; Call new_epoch 2; Run 2 16; Run 1 2; Call thread_exit 1; Run 1 3].

(** More calls do not help: thread 1 goes in and out, thread 2 tries again. *)
Definition retry : list action := [Call thread_enter 1; Run 1 4; Call thread_exit 1; Run 1 3; Call new_epoch 2; Run 2 3].

Example false_straggler_stuck :
  reachable (after false_straggler) /\ stuck (after false_straggler) /\ stuck (after (false_straggler ++ retry)).
Proof.
  split; [apply (run_reachable false_straggler); vm_compute; reflexivity|].
  split; (split; [|split; vm_compute; reflexivity]); vm_compute; repeat constructor.
Qed.

(** Thread 1 leaves after the scan has seen it inside and before it is flagged. *)
Definition late_flag : list action :=
  two_threads ++ [Call thread_enter 1; Run 1 4; Call new_epoch 2; Run 2 17; Call thread_exit 1; Run 1 1;
                  Call new_epoch 2; Run 2 9; Run 1 2; Run 2 7].

Example late_flag_stuck :
  reachable (after late_flag) /\ stuck (after late_flag) /\ stuck (after (late_flag ++ retry)).
Proof.
  split; [apply (run_reachable late_flag); vm_compute; reflexivity|].
  split; (split; [|split; vm_compute; reflexivity]); vm_compute; repeat constructor.
Qed.
