(* ===== verification/ScHash.v ===== *)
(** * Second-chance hashing ([dbcore/sc-hash.h])

    [sc_hash_set]: a table of fixed size with several levels of wide buckets,
    in which an insertion may move one other element.  It behaves like a
    finite map as long as there is room. *)
From stdpp Require Import base numbers list gmap functions sorting.
From Stdlib Require Import ZArith Lia.
From S2P Require Import Prelude Bits.

Local Open Scope Z_scope.

(** The template arguments, and what the [static_assert]s say of them. *)
(* src: dbcore/sc-hash.h:75-130 sc_hash_set *)
Class Layout := {
  SLOTS : Z;
  SUBTABLES : Z;
  BUCKET_SIZE : Z;
  USE_LEVELS : bool;
  SECOND_CHANCE : bool;
  slots_pow2 : exists k, 0 <= k < 64 /\ SLOTS = 2 ^ k;
  subtables_pow2 : exists k, 0 <= k < 64 /\ SUBTABLES = 2 ^ k;
  bucket_pow2 : exists k, 0 <= k < 64 /\ BUCKET_SIZE = 2 ^ k;
  slots_multiple : SLOTS mod (SUBTABLES * BUCKET_SIZE) = 0;
  second_chance_levels : SECOND_CHANCE = true -> USE_LEVELS = true }.

(** [T] with its hash and equality; an element is found by its key. *)
Class Keyed (K T : Type) := { key : T -> K; hash_key : K -> Z }.

Module sc_hash.

Definition W_BITS : Z := 64.

Section table.
Context `{L : Layout} {K T : Type} `{EqDecision K} `{H : Keyed K T}.

(* src: dbcore/sc-hash.h:110-111 sc_hash_set::HP_BITS, HP_MASK *)
Definition HP_BITS : Z := ctz (SLOTS / BUCKET_SIZE / SUBTABLES).
Definition HP_MASK : Z := 2 ^ HP_BITS - 1.

(** [_presence] and [_buckets]; a slot is empty memory until it is
    initialised. *)
(* src: dbcore/sc-hash.h:183-186 sc_hash_set *)
Record sc_hash_set := mk_set { _presence : Z -> Z; _buckets : Z -> option T }.

(* src: dbcore/sc-hash.h:413-418 sc_hash_set::_presence_info *)
Definition _presence_info (pos : Z) : Z * Z := (pos / W_BITS, u64 (Z.shiftl 1 (pos mod W_BITS))).

(* src: dbcore/sc-hash.h:420-424 sc_hash_set::_is_present *)
Definition _is_present (s : sc_hash_set) (pos : Z) : bool :=
  let '(w, bit) := _presence_info pos in negb (Z.land (_presence s w) bit =? 0).

(* src: dbcore/sc-hash.h:426-430 sc_hash_set::_set_present *)
Definition _set_present (pos : Z) (s : sc_hash_set) : sc_hash_set :=
  let '(w, bit) := _presence_info pos in
  mk_set (<[w := Z.lor (_presence s w) bit]> (_presence s)) (_buckets s).

(* src: dbcore/sc-hash.h:432-436 sc_hash_set::_unset_present *)
Definition _unset_present (pos : Z) (s : sc_hash_set) : sc_hash_set :=
  let '(w, bit) := _presence_info pos in
  mk_set (<[w := Z.land (_presence s w) (Z.lnot bit)]> (_presence s)) (_buckets s).

(* src: dbcore/sc-hash.h:401-405 sc_hash_set::_get_value *)
Definition _get_value (s : sc_hash_set) (pos : Z) : res T :=
  match _buckets s pos with Some v => Ok v | None => Throw bad_address end.

(* src: dbcore/sc-hash.h:392-399 sc_hash_set::_init_value *)
Definition _init_value (pos : Z) (v : T) (s : sc_hash_set) : sc_hash_set :=
  _set_present pos (mk_set (_presence s) (<[pos := Some v]> (_buckets s))).

(* src: dbcore/sc-hash.h:452-455 sc_hash_set::_hash_part *)
Definition _hash_part (h i : Z) : Z := Z.land (Z.shiftr h (i * HP_BITS)) HP_MASK.

(* src: dbcore/sc-hash.h:438-450 sc_hash_set::_get_bucket *)
Definition _get_bucket (h i : Z) : Z :=
  let h := _hash_part h i in
  let nbuckets := SLOTS / BUCKET_SIZE in
  let idx :=
    if USE_LEVELS then
      let subtsize := nbuckets / SUBTABLES in
      subtsize * i + Z.land h (subtsize - 1)
    else Z.land h (nbuckets - 1) in
  BUCKET_SIZE * idx.

(** [for (i = pos; i < pos+M; i++)] *)
Definition bucket (pos : Z) : list Z := seqZ pos BUCKET_SIZE.

Definition end_ : Z := SLOTS.

(** [_equal] *)
Definition holds (s : sc_hash_set) (x : K) (i : Z) : bool :=
  _is_present s i &&
  match _buckets s i with Some v => bool_decide (key v = x) | None => false end.

Fixpoint first_such (p : Z -> bool) (l : list Z) : option Z :=
  match l with [] => None | i :: l => if p i then Some i else first_such p l end.

(* src: dbcore/sc-hash.h:349-355 sc_hash_set::_find *)
Fixpoint _find_from (s : sc_hash_set) (x : K) (h : Z) (ks : list Z) : Z :=
  match ks with
  | [] => end_
  | k :: ks =>
      match first_such (holds s x) (bucket (_get_bucket h k)) with
      | Some i => i
      | None => _find_from s x h ks
      end
  end.

Definition levels : list Z := seqZ 0 SUBTABLES.

(* src: dbcore/sc-hash.h:347-357 sc_hash_set::_find *)
Definition _find (s : sc_hash_set) (x : K) (h : Z) : Z := _find_from s x h levels.

(* src: dbcore/sc-hash.h:360-364 sc_hash_set::find *)
Definition find (s : sc_hash_set) (x : K) : Z := _find s x (hash_key x).

(** Where an element of the full bucket one level up can go. *)
(* src: dbcore/sc-hash.h:315-329 sc_hash_set::find_and_emplace *)
Fixpoint second_chance (s : sc_hash_set) (k : Z) (js : list Z) : res (option (Z * Z * T)) :=
  match js with
  | [] => Ok None
  | j :: js =>
      y ← _get_value s j;
      let py := _get_bucket (hash_key (key y)) k in
      match first_such (fun i => negb (_is_present s i)) (bucket py) with
      | Some i => Ok (Some (i, j, y))
      | None => second_chance s k js
      end
  end.

(* src: dbcore/sc-hash.h:298-336 sc_hash_set::find_and_emplace *)
Fixpoint emplace_from (s : sc_hash_set) (h : Z) (v : T) (old_pos : Z) (ks : list Z) : res (Z * Z * sc_hash_set) :=
  match ks with
  | [] => Ok (end_, -1, s)
  | k :: ks =>
      let pos := _get_bucket h k in
      match first_such (fun i => negb (_is_present s i)) (bucket pos) with
      | Some i => Ok (i, 0, _init_value i v s)
      | None =>
          c ← (if SECOND_CHANCE && negb (k =? 0) then second_chance s k (bucket old_pos) else Ok None);
          match c with
          | Some (i, j, y) =>
              let s := _init_value i y s in
              Ok (j, 0, mk_set (_presence s) (<[j := Some v]> (_buckets s)))
          | None => emplace_from s h v pos ks
          end
      end
  end.

(** The element [v] is constructed from the arguments when there is room. *)
(* src: dbcore/sc-hash.h:282-337 sc_hash_set::find_and_emplace *)
Definition find_and_emplace (x : K) (v : T) (s : sc_hash_set) : res (Z * Z * sc_hash_set) :=
  let h := hash_key x in
  let it := _find s x h in
  if negb (it =? end_) then Ok (it, 1, s) else emplace_from s h v 0 levels.

(* src: dbcore/sc-hash.h:266-275 sc_hash_set::emplace *)
Definition emplace (v : T) (s : sc_hash_set) : res (Z * Z * sc_hash_set) := find_and_emplace (key v) v s.

(* src: dbcore/sc-hash.h:383-390 sc_hash_set::erase *)
Definition erase_at (pos : Z) (s : sc_hash_set) : sc_hash_set := _unset_present pos s.

(* src: dbcore/sc-hash.h:366-373 sc_hash_set::erase *)
Definition erase (x : K) (s : sc_hash_set) : bool * sc_hash_set :=
  let it := find s x in if negb (it =? end_) then (true, erase_at it s) else (false, s).

(** Elements have nothing to destroy. *)
(* src: dbcore/sc-hash.h:210-221 sc_hash_set::clear *)
Definition clear (s : sc_hash_set) : sc_hash_set := mk_set (fun _ => 0) (_buckets s).

Definition empty : sc_hash_set := mk_set (fun _ => 0) (fun _ => None).

(** The number of words of [_presence]. *)
Definition NP : Z := align_up SLOTS W_BITS / W_BITS.

(* src: dbcore/sc-hash.h:224-229 sc_hash_set::size *)
Definition size_ (s : sc_hash_set) : Z :=
  foldl (fun rval w => rval + Z.of_nat (length (bits_of (_presence s w)))) 0 (seqZ 0 NP).

(* src: dbcore/sc-hash.h:162-178 sc_hash_set::iterator::_find_valid *)
Fixpoint _find_valid (fuel : nat) (s : sc_hash_set) (pos : Z) : res Z :=
  match fuel with
  | O => Throw Spinning
  | S fuel =>
      if pos <? SLOTS then
        let bit := u64 (Z.shiftl 1 (pos mod W_BITS)) in
        let pending := Z.land (_presence s (pos / W_BITS)) (u64 (- bit)) in
        let i := if pending =? 0 then W_BITS else ctz pending in
        let pos := align_down pos W_BITS + i in
        if negb (pending =? 0) then Ok pos else _find_valid fuel s pos
      else Ok pos
  end.

(** A word is looked at once; one more turn sees the end. *)
Definition valid_fuel : nat := S (Z.to_nat NP).

(* src: dbcore/sc-hash.h:231-235 sc_hash_set::begin *)
Definition begin_ (s : sc_hash_set) : res Z := _find_valid valid_fuel s 0.
(* src: dbcore/sc-hash.h:149-153 sc_hash_set::iterator::operator++ *)
Definition next_ (s : sc_hash_set) (pos : Z) : res Z := _find_valid valid_fuel s (pos + 1).

(** [for (auto it = begin(); it != end(); ++it)]: the positions it visits. *)
Fixpoint visits_from (fuel : nat) (s : sc_hash_set) (pos : Z) : res (list Z) :=
  match fuel with
  | O => Throw Spinning
  | S fuel =>
      if negb (pos =? end_) then
        pos' ← next_ s pos;
        l ← visits_from fuel s pos';
        Ok (pos :: l)
      else Ok []
  end.
Definition visits (s : sc_hash_set) : res (list Z) := pos ← begin_ s; visits_from (S (Z.to_nat SLOTS)) s pos.

End table.
Arguments sc_hash_set : clear implicits.

End sc_hash.
