(* ===== verification/ScHashSpec.v ===== *)
(** * The table is a finite map ([dbcore/sc-hash.h])

    [models s m]: the table [s] holds exactly the elements of the finite map
    [m].  Every operation of the table is the one of the map, and iteration
    visits every element once. *)
From stdpp Require Import base numbers list gmap functions.
From Stdlib Require Import ZArith Lia.
From S2P Require Import Prelude Bits ScHash.

Import sc_hash.
Local Open Scope Z_scope.

Module sc_hash_spec.

Section spec.
Context `{L : Layout} {K T : Type} `{Countable K} `{HK : Keyed K T}.
Implicit Types s : sc_hash_set T.

(** ** Slots *)

(** What is in slot [pos]. *)
Definition at_ s (pos : Z) : option T := if _is_present s pos then _buckets s pos else None.

(** The slots an element with hash [h] may be in. *)
Definition probe (h : Z) : list Z := levels ≫= fun k => bucket (_get_bucket h k).

Lemma present_testbit s pos :
  0 <= pos -> _is_present s pos = Z.testbit (_presence s (pos / W_BITS)) (pos mod W_BITS).
Proof.
  intros Hp. unfold _is_present, _presence_info, W_BITS. set (w := _presence s _). set (k := pos mod 64).
  assert (0 <= k < 64) as Hk by (apply Z.mod_pos_bound; lia).
  rewrite Z.shiftl_1_l, wrap_small by (split; [lia|apply Z.pow_lt_mono_r; lia]).
  assert (Z.land w (2 ^ k) = if Z.testbit w k then 2 ^ k else 0) as ->.
  { apply Z.bits_inj'. intros i Hi. rewrite Z.land_spec, Z.pow2_bits_eqb by lia.
    destruct (Z.eqb_spec k i) as [<-|].
    - destruct (Z.testbit w k); [|by rewrite Z.bits_0]. by rewrite Z.pow2_bits_true.
    - rewrite andb_false_r. destruct (Z.testbit w k); [|by rewrite Z.bits_0]. by rewrite Z.pow2_bits_false by lia. }
  destruct (Z.testbit w k); [|done]. destruct (Z.eqb_spec (2 ^ k) 0); [|done].
  pose proof (Z.pow_pos_nonneg 2 k). lia.
Qed.

Lemma same_slot p q : 0 <= p -> 0 <= q -> p / W_BITS = q / W_BITS -> p mod W_BITS = q mod W_BITS -> p = q.
Proof. unfold W_BITS. intros. rewrite (Z.div_mod p 64), (Z.div_mod q 64) by lia. lia. Qed.

Lemma mod_word p : 0 <= p mod W_BITS < 64.
Proof. apply Z.mod_pos_bound. done. Qed.

Lemma bit_word p : u64 (Z.shiftl 1 (p mod W_BITS)) = 2 ^ (p mod W_BITS).
Proof.
  pose proof (mod_word p). rewrite Z.shiftl_1_l. apply wrap_small. split; [lia|apply Z.pow_lt_mono_r; lia].
Qed.

Lemma present_set p s q :
  0 <= p -> 0 <= q -> _is_present (_set_present p s) q = (q =? p) || _is_present s q.
Proof.
  intros Hp Hq. rewrite !present_testbit by done. unfold _set_present, _presence_info. rewrite bit_word. cbn.
  pose proof (mod_word p). pose proof (mod_word q).
  destruct (decide (q / W_BITS = p / W_BITS)) as [E|E].
  - rewrite E, fn_lookup_insert, Z.lor_spec, Z.pow2_bits_eqb, orb_comm by lia. f_equal.
    destruct (Z.eqb_spec q p) as [->|N]; [apply Z.eqb_refl|]. apply Z.eqb_neq. intros E'. destruct N. by apply same_slot.
  - rewrite fn_lookup_insert_ne by done. destruct (Z.eqb_spec q p); [congruence|done].
Qed.

Lemma present_unset p s q :
  0 <= p -> 0 <= q -> _is_present (_unset_present p s) q = negb (q =? p) && _is_present s q.
Proof.
  intros Hp Hq. rewrite !present_testbit by done. unfold _unset_present, _presence_info. rewrite bit_word. cbn.
  pose proof (mod_word p). pose proof (mod_word q).
  destruct (decide (q / W_BITS = p / W_BITS)) as [E|E].
  - rewrite E, fn_lookup_insert, Z.land_spec, Z.lnot_spec, Z.pow2_bits_eqb, andb_comm by lia. f_equal. f_equal.
    destruct (Z.eqb_spec q p) as [->|N]; [apply Z.eqb_refl|]. apply Z.eqb_neq. intros E'. destruct N. by apply same_slot.
  - rewrite fn_lookup_insert_ne by done. destruct (Z.eqb_spec q p); [congruence|done].
Qed.

Lemma at_init p v s q : 0 <= p -> 0 <= q -> at_ (_init_value p v s) q = if decide (q = p) then Some v else at_ s q.
Proof.
  intros Hp Hq. unfold at_, _init_value. rewrite present_set by done. cbn. case_decide as E.
  - subst. by rewrite Z.eqb_refl, fn_lookup_insert.
  - rewrite (proj2 (Z.eqb_neq _ _)), fn_lookup_insert_ne by done. done.
Qed.

Lemma at_erase p s q : 0 <= p -> 0 <= q -> at_ (erase_at p s) q = if decide (q = p) then None else at_ s q.
Proof.
  intros Hp Hq. unfold at_, erase_at. rewrite present_unset by done. cbn. case_decide as E.
  - subst. by rewrite Z.eqb_refl.
  - by rewrite (proj2 (Z.eqb_neq _ _)).
Qed.

(** ** Buckets *)

Lemma layout : exists n a b, 0 <= a /\ 0 <= b /\ a + b <= n < 64 /\
  SLOTS = 2 ^ n /\ SUBTABLES = 2 ^ a /\ BUCKET_SIZE = 2 ^ b.
Proof.
  destruct slots_pow2 as (n & Hn & En), subtables_pow2 as (a & Ha & Ea), bucket_pow2 as (b & Hb & Eb).
  exists n, a, b. split_and!; try done; try lia.
  pose proof slots_multiple as Hm. rewrite En, Ea, Eb, <- Z.pow_add_r in Hm by lia.
  destruct (Z.le_gt_cases (a + b) n); [done|]. rewrite Z.mod_small in Hm.
  - pose proof (Z.pow_pos_nonneg 2 n). lia.
  - split; [lia|]. apply Z.pow_lt_mono_r; lia.
Qed.

Lemma slots_pos : 0 < SLOTS.
Proof. destruct layout as (n & a & b & ? & ? & ? & -> & _). apply Z.pow_pos_nonneg; lia. Qed.

Lemma bucket_bounds h k : 0 <= k < SUBTABLES -> 0 <= _get_bucket h k /\ _get_bucket h k + BUCKET_SIZE <= SLOTS.
Proof.
  intros Hk. destruct layout as (n & a & b & Ha & Hb & Hn & En & Ea & Eb).
  unfold _get_bucket. rewrite En, Ea, Eb, <- !Z.pow_sub_r in * by lia.
  set (x := _hash_part h k). assert (2 ^ n = 2 ^ b * 2 ^ (n - b)) as E1 by (rewrite <- Z.pow_add_r by lia; f_equal; lia).
  assert (2 ^ (n - b) = 2 ^ (n - b - a) * 2 ^ a) as E2 by (rewrite <- Z.pow_add_r by lia; f_equal; lia).
  pose proof (Z.pow_pos_nonneg 2 b ltac:(lia) Hb). pose proof (Z.pow_pos_nonneg 2 (n - b - a) ltac:(lia) ltac:(lia)).
  assert (forall i, 0 <= i < 2 ^ (n - b) -> 0 <= 2 ^ b * i /\ 2 ^ b * i + 2 ^ b <= 2 ^ n) as Hi by (intros; nia).
  apply Hi. destruct USE_LEVELS; rewrite land_mask by lia.
  - pose proof (Z.mod_pos_bound x (2 ^ (n - b - a)) ltac:(lia)). nia.
  - apply Z.mod_pos_bound. nia.
Qed.

Lemma elem_of_levels k : k ∈ levels <-> 0 <= k < SUBTABLES.
Proof. unfold levels. rewrite elem_of_seqZ. lia. Qed.

Lemma elem_of_probe h i : i ∈ probe h <-> exists k, 0 <= k < SUBTABLES /\ i ∈ bucket (_get_bucket h k).
Proof.
  unfold probe. rewrite list_elem_of_bind. split.
  - intros (k & Hi & Hk%elem_of_levels). eauto.
  - intros (k & Hk & Hi). exists k. by rewrite elem_of_levels.
Qed.

Lemma bucket_range h k i : 0 <= k < SUBTABLES -> i ∈ bucket (_get_bucket h k) -> 0 <= i < SLOTS.
Proof. intros Hk. unfold bucket. rewrite elem_of_seqZ. pose proof (bucket_bounds h k Hk). lia. Qed.

Lemma probe_range h i : i ∈ probe h -> 0 <= i < SLOTS.
Proof. rewrite elem_of_probe. intros (k & Hk & Hi). by eapply bucket_range. Qed.

(** ** The invariant and the map *)

Record wf s : Prop := {
  wf_words w : fits 64 (_presence s w);
  wf_range pos : 0 <= pos -> _is_present s pos = true -> pos < SLOTS /\ is_Some (_buckets s pos);
  wf_place pos v : 0 <= pos -> at_ s pos = Some v -> pos ∈ probe (hash_key (key v));
  wf_unique i j v w : 0 <= i -> 0 <= j -> at_ s i = Some v -> at_ s j = Some w -> key v = key w -> i = j }.

Record models s (m : gmap K T) : Prop := {
  m_wf : wf s;
  m_elems x v : m !! x = Some v <-> exists pos, 0 <= pos /\ at_ s pos = Some v /\ key v = x }.

Lemma at_present s pos : wf s -> 0 <= pos -> _is_present s pos = true <-> is_Some (at_ s pos).
Proof.
  intros W Hp. unfold at_. split.
  - intros E. rewrite E. by apply (wf_range _ W).
  - destruct (_is_present s pos); [done|]. by intros [].
Qed.

Lemma holds_at s x i : holds s x i = true <-> exists v, at_ s i = Some v /\ key v = x.
Proof.
  unfold holds, at_. destruct (_is_present s i); cbn; [|by split; [|intros (? & ? & _)]].
  destruct (_buckets s i) as [v|]; [|by split; [|intros (? & ? & _)]].
  rewrite bool_decide_eq_true. split; [eauto|]. by intros (? & [= ->] & ?).
Qed.

Lemma first_such_spec p l :
  match first_such p l with Some i => i ∈ l /\ p i = true | None => forall i, i ∈ l -> p i = false end.
Proof.
  induction l as [|j l IH]; cbn; [by intros i ?%elem_of_nil|]. destruct (p j) eqn:E; [by split; [left|]|].
  destruct (first_such p l); [by split; [right|]; apply IH|]. intros i [->|?]%elem_of_cons; auto.
Qed.

Lemma find_from_spec s x h ks :
  (forall k, k ∈ ks -> 0 <= k < SUBTABLES) ->
  (_find_from s x h ks = end_ /\ forall k i, k ∈ ks -> i ∈ bucket (_get_bucket h k) -> holds s x i = false) \/
  (0 <= _find_from s x h ks < SLOTS /\ holds s x (_find_from s x h ks) = true).
Proof.
  induction ks as [|k ks IH]; intros Hks; cbn; [left; split; [done|]; by intros k i ?%elem_of_nil|].
  pose proof (first_such_spec (holds s x) (bucket (_get_bucket h k))) as Hf. destruct (first_such _ _) as [i|].
  - right. destruct Hf as [Hi ?]. split; [|done]. eapply bucket_range; [|done]. apply Hks. left.
  - destruct IH as [[E Hno]|?]; [intros; apply Hks; by right| |by right]. left. split; [done|].
    intros k' i [->|?]%elem_of_cons; [apply Hf|by apply Hno].
Qed.

Lemma find_spec s m x :
  models s m ->
  match m !! x with Some v => 0 <= find s x < SLOTS /\ at_ s (find s x) = Some v | None => find s x = end_ end.
Proof.
  intros [W Hm]. unfold find, _find.
  destruct (find_from_spec s x (hash_key x) levels) as [[E Hno]|[Hr Hh]]; [by intros k ?%elem_of_levels| |].
  - destruct (m !! x) as [v|] eqn:Ex; [|done]. apply Hm in Ex as (pos & Hp & Ha & <-).
    apply (wf_place _ W) in Ha as Hpl; [|done]. apply elem_of_probe in Hpl as (k & Hk & Hi).
    assert (holds s (key v) pos = true) as F by (apply holds_at; eauto).
    rewrite (Hno k pos) in F; [done|by apply elem_of_levels|done].
  - apply holds_at in Hh as (v & Hv & Hx). assert (m !! x = Some v) as Ex.
    { apply Hm. eexists. split; [|split; [exact Hv|done]]. lia. }
    by rewrite Ex.
Qed.

(** ** Insertion *)

Lemma words_set p s w : (forall w, fits 64 (_presence s w)) -> fits 64 (_presence (_set_present p s) w).
Proof.
  intros Hw. unfold _set_present, _presence_info. cbn. destruct (decide (w = p / W_BITS)) as [->|].
  - rewrite fn_lookup_insert. apply lor_fits; [done..|]. by apply wrap_fits.
  - by rewrite fn_lookup_insert_ne.
Qed.

Lemma at_put p v s q :
  0 <= p -> 0 <= q -> _is_present s p = true ->
  at_ (mk_set (_presence s) (<[p := Some v]> (_buckets s))) q = if decide (q = p) then Some v else at_ s q.
Proof.
  intros Hp Hq Hs. unfold at_. change (_is_present (mk_set _ _) q) with (_is_present s q). cbn [_buckets]. case_decide as E.
  - subst. by rewrite Hs, fn_lookup_insert.
  - by rewrite fn_lookup_insert_ne.
Qed.

(** A new element goes to an empty slot of its own. *)
Lemma models_init s m p v :
  models s m -> 0 <= p -> _is_present s p = false -> p ∈ probe (hash_key (key v)) -> m !! key v = None ->
  models (_init_value p v s) (<[key v := v]> m).
Proof.
  intros [W Hm] Hp Hs Hpr Hno.
  assert (at_ s p = None) as Ha by (unfold at_; by rewrite Hs).
  assert (forall q w, 0 <= q -> at_ s q = Some w -> key w <> key v) as Hne.
  { intros q w Hq Hw E. assert (m !! key w = Some w) as F by (apply Hm; eauto). congruence. }
  split; [split|].
  - intros w. unfold _init_value. apply words_set. intros u. apply (wf_words _ W).
  - intros q Hq. unfold _init_value. rewrite present_set by done. cbn. destruct (Z.eqb_spec q p) as [->|N]; cbn.
    + intros _. split; [by eapply probe_range|]. rewrite fn_lookup_insert. eauto.
    + rewrite fn_lookup_insert_ne by done. by apply (wf_range _ W).
  - intros q w Hq. rewrite at_init by done. case_decide; [|by apply (wf_place _ W)]. subst q. by intros [= ->].
  - intros i j u w Hi Hj. rewrite !at_init by done. repeat case_decide; subst; intros; simplify_eq; try done.
    + exfalso. by eapply (Hne j).
    + exfalso. by eapply (Hne i).
    + by eapply (wf_unique _ W i j).
  - intros x w. destruct (decide (x = key v)) as [->|N].
    + rewrite lookup_insert_eq. split.
      * intros [= ->]. exists p. by rewrite at_init, decide_True.
      * intros (q & Hq & Hw & E). rewrite at_init in Hw by done. case_decide; [done|]. exfalso. by eapply Hne.
    + rewrite lookup_insert_ne by done. rewrite Hm. split; intros (q & Hq & Hw & E); exists q; (split; [done|split; [|done]]).
      * rewrite at_init by done. case_decide; [|done]. subst q. congruence.
      * rewrite at_init in Hw by done. case_decide; [|done]. simplify_eq.
Qed.

(** [y] moves from slot [j] to the empty slot [i], and [v] takes its place. *)
Lemma models_move s m i j y v :
  models s m -> 0 <= i -> 0 <= j -> _is_present s i = false -> at_ s j = Some y ->
  i ∈ probe (hash_key (key y)) -> j ∈ probe (hash_key (key v)) -> m !! key v = None ->
  let s1 := _init_value i y s in
  let s2 := mk_set (_presence s1) (<[j := Some v]> (_buckets s1)) in
  models s2 (<[key v := v]> m) /\ at_ s2 j = Some v.
Proof.
  intros [W Hm] Hi Hj Hs Hy Hpi Hpj Hno s1 s2.
  assert (at_ s i = None) as Ha by (unfold at_; by rewrite Hs).
  assert (i <> j) as Hij by congruence.
  assert (forall q w, 0 <= q -> at_ s q = Some w -> key w <> key v) as Hne.
  { intros q w Hq Hw E. assert (m !! key w = Some w) as F by (apply Hm; eauto). congruence. }
  assert (_is_present s1 j = true) as Hj1.
  { unfold s1, _init_value. rewrite present_set by done. apply orb_true_iff. right. apply (at_present _ _ W); eauto. }
  assert (forall q, 0 <= q -> at_ s2 q = if decide (q = j) then Some v else if decide (q = i) then Some y else at_ s q) as Hat.
  { intros q Hq. unfold s2. rewrite at_put by done. case_decide; [done|]. unfold s1. by rewrite at_init. }
  split; [|by rewrite Hat, decide_True]. split; [split|].
  - intros w. apply words_set. intros u. apply (wf_words _ W).
  - intros q Hq Hpq. change (_is_present s1 q = true) in Hpq. unfold s1, _init_value in Hpq.
    rewrite present_set in Hpq by done. unfold s2, s1, _init_value. cbn.
    destruct (decide (q = j)) as [->|Nj]; [|rewrite fn_lookup_insert_ne by done; destruct (decide (q = i)) as [->|Ni]].
    + rewrite fn_lookup_insert. split; [by eapply probe_range|eauto].
    + rewrite fn_lookup_insert. split; [by eapply probe_range|eauto].
    + rewrite fn_lookup_insert_ne by done. apply (wf_range _ W); [done|].
      destruct (Z.eqb_spec q i); [done|]. exact Hpq.
  - intros q w Hq. rewrite Hat by done. repeat case_decide; subst; [by intros [= <-]..|by apply (wf_place _ W)].
  - intros a b u w Hqa Hqb. rewrite !Hat by done. repeat case_decide; subst; intros; simplify_eq; try done.
    + exfalso. by eapply (Hne j).
    + exfalso. by eapply (Hne b).
    + exfalso. by eapply (Hne j).
    + by destruct (wf_unique _ W j b u w).
    + exfalso. by eapply (Hne a).
    + by destruct (wf_unique _ W a j u w).
    + by apply (wf_unique _ W a b u w).
  - intros x w. destruct (decide (x = key v)) as [->|N].
    + rewrite lookup_insert_eq. split.
      * intros [= ->]. exists j. by rewrite Hat, decide_True.
      * intros (q & Hq & Hw & E). rewrite Hat in Hw by done. repeat case_decide; simplify_eq; [done|..]; exfalso.
        -- by eapply (Hne j).
        -- by eapply (Hne q).
    + rewrite lookup_insert_ne by done. rewrite Hm. split; intros (q & Hq & Hw & E).
      * destruct (decide (q = j)) as [->|]; [exists i|exists q]; rewrite Hat by done; repeat case_decide; simplify_eq; done.
      * rewrite Hat in Hw by done. repeat case_decide; simplify_eq; [exists j|exists q]; done.
Qed.


Lemma second_chance_spec s k js :
  (forall j, j ∈ js -> 0 <= j /\ is_Some (at_ s j)) ->
  exists r, second_chance s k js = Ok r /\
    match r with
    | Some (i, j, y) => j ∈ js /\ at_ s j = Some y /\ i ∈ bucket (_get_bucket (hash_key (key y)) k) /\ _is_present s i = false
    | None => True
    end.
Proof.
  induction js as [|j js IH]; cbn [second_chance]; intros Hjs; [by exists None|].
  destruct (Hjs j ltac:(left)) as [Hj [y Hy]]. unfold _get_value.
  assert (_buckets s j = Some y) as -> by (unfold at_ in Hy; by destruct (_is_present s j)). cbn.
  pose proof (first_such_spec (fun i => negb (_is_present s i)) (bucket (_get_bucket (hash_key (key y)) k))) as Hf.
  destruct (first_such _ _) as [i|].
  - eexists. split; [done|]. destruct Hf as [? ?%negb_true_iff]. split_and!; [left|done..].
  - destruct IH as (r & -> & Hr); [intros; apply Hjs; by right|]. exists r. split; [done|].
    destruct r as [[[i j'] y']|]; [|done]. split; [right|]; apply Hr.
Qed.

(** The buckets of the key on the levels [ks] are full. *)
Definition crowds s (x : K) (ks : list Z) : Prop :=
  forall k j, k ∈ ks -> j ∈ bucket (_get_bucket (hash_key x) k) -> is_Some (at_ s j).

(** What [find_and_emplace] promises when [x] is not there: the element is added,
    or there is no room for it on the levels that were tried. *)
Definition emplaced_on ks s (m : gmap K T) (v : T) (r : Z * Z * sc_hash_set T) : Prop :=
  let '(pos, c, s') := r in
  (c = 0 /\ 0 <= pos < SLOTS /\ at_ s' pos = Some v /\ models s' (<[key v := v]> m)) \/
  (c = -1 /\ s' = s /\ crowds s (key v) ks).

Definition emplaced s (m : gmap K T) (v : T) (r : Z * Z * sc_hash_set T) : Prop := emplaced_on levels s m v r.

Lemma emplace_from_spec s m v old_pos ks :
  models s m -> m !! key v = None -> (forall k, k ∈ ks -> 0 <= k < SUBTABLES) ->
  (forall k, head ks = Some k -> k = 0) \/
  (exists k, 0 <= k < SUBTABLES /\ old_pos = _get_bucket (hash_key (key v)) k /\
     forall j, j ∈ bucket old_pos -> is_Some (at_ s j)) ->
  exists r, emplace_from s (hash_key (key v)) v old_pos ks = Ok r /\ emplaced_on ks s m v r.
Proof.
  intros Hm Hno. pose proof (m_wf _ _ Hm) as W. set (h := hash_key (key v)). revert old_pos.
  induction ks as [|k ks IH]; intros old_pos Hks Hold; cbn [emplace_from].
  { eexists. split; [done|]. right. split_and!; [done..|]. by intros k j ?%elem_of_nil. }
  pose proof (Hks k ltac:(left)) as Hk.
  pose proof (first_such_spec (fun i => negb (_is_present s i)) (bucket (_get_bucket h k))) as Hf.
  destruct (first_such _ _) as [i|].
  - destruct Hf as [Hi Hi'%negb_true_iff]. pose proof (bucket_range _ _ _ Hk Hi). eexists. split; [done|]. left.
    split; [done|]. split; [done|]. split; [by rewrite at_init, decide_True by lia|]. apply models_init; try done; [lia|].
    apply elem_of_probe. eauto.
  - assert (forall j, j ∈ bucket (_get_bucket h k) -> is_Some (at_ s j)) as Hfull.
    { intros j Hj. apply (at_present _ _ W); [by apply (bucket_range _ _ _ Hk Hj)|]. specialize (Hf j Hj). by apply negb_false_iff in Hf. }
    assert (exists r, emplace_from s h v (_get_bucket h k) ks = Ok r /\ emplaced_on (k :: ks) s m v r) as Hrec.
    { destruct (IH (_get_bucket h k)) as ([[pos c] s'] & E & Hr); [intros; apply Hks; by right|by right; exists k|].
      exists (pos, c, s'). split; [done|]. destruct Hr as [Hr|(-> & -> & Hc)]; [by left|right]. split_and!; [done..|].
      intros k' j [->|Hk']%elem_of_cons Hj; [by apply Hfull|by apply (Hc k')]. }
    destruct (SECOND_CHANCE && negb (k =? 0)) eqn:Esc; [|done].
    destruct Hold as [Hold|(k0 & Hk0 & -> & Hold)].
    { apply andb_true_iff in Esc as [_ Ek]. by rewrite (Hold k eq_refl) in Ek. }
    destruct (second_chance_spec s k (bucket (_get_bucket h k0))) as (r & -> & Hr).
    { intros j Hj. split; [by apply (bucket_range _ _ _ Hk0 Hj)|by apply Hold]. }
    cbn. destruct r as [[[i j] y]|]; [|done]. destruct Hr as (Hj & Hy & Hi & Hfree). eexists. split; [done|]. left.
    pose proof (bucket_range _ _ _ Hk Hi). pose proof (bucket_range _ _ _ Hk0 Hj).
    destruct (models_move s m i j y v) as [? ?]; try done; try lia; apply elem_of_probe; eauto.
Qed.

Lemma models_erase s m p v :
  models s m -> 0 <= p -> at_ s p = Some v -> models (erase_at p s) (delete (key v) m).
Proof.
  intros [W Hm] Hp Hv. split; [split|].
  - intros w. unfold erase_at, _unset_present, _presence_info. cbn. destruct (decide (w = p / W_BITS)) as [->|].
    + rewrite fn_lookup_insert. apply land_fits; [done|apply (wf_words _ W)].
    + rewrite fn_lookup_insert_ne by done. apply (wf_words _ W).
  - intros q Hq. unfold erase_at. rewrite present_unset by done. intros [_ ?]%andb_true_iff. by apply (wf_range _ W).
  - intros q w Hq. rewrite at_erase by done. case_decide; [done|by apply (wf_place _ W)].
  - intros i j u w Hi Hj. rewrite !at_erase by done. repeat case_decide; try done. by apply (wf_unique _ W).
  - intros x w. rewrite lookup_delete_Some, Hm. split.
    + intros (N & q & Hq & Hw & <-). exists q. rewrite at_erase by done. case_decide; [|done]. congruence.
    + intros (q & Hq & Hw & <-). rewrite at_erase in Hw by done. case_decide; [done|]. split; [|eauto].
      intros E. destruct (wf_unique _ W p q v w); done.
Qed.

Lemma models_cleared s : models (clear s) ∅.
Proof.
  assert (forall pos, at_ (clear s) pos = None) as Ha by done.
  split; [split|].
  - intros w. done.
  - intros pos Hp. by unfold _is_present.
  - intros pos v _. by rewrite Ha.
  - intros i j v w _ _. by rewrite Ha.
  - intros x v. rewrite lookup_empty. split; [done|]. intros (pos & _ & F & _). by rewrite Ha in F.
Qed.

Lemma find_and_emplace_spec s m v : models s m ->
  exists pos c s', find_and_emplace (key v) v s = Ok (pos, c, s') /\
    match m !! key v with
    | Some w => c = 1 /\ s' = s /\ 0 <= pos < SLOTS /\ at_ s pos = Some w
    | None => emplaced s m v (pos, c, s')
    end.
Proof.
  intros Hm. pose proof (find_spec s m (key v) Hm) as Hf. pose proof slots_pos. unfold end_ in *.
  unfold find_and_emplace. fold (find s (key v)). unfold end_. destruct (m !! key v) as [w|] eqn:E.
  - rewrite (proj2 (Z.eqb_neq _ _)) by lia. eexists _, _, _. split; [done|]. by split_and!; try apply Hf.
  - rewrite Hf, Z.eqb_refl. cbn.
    destruct (emplace_from_spec s m v 0 levels) as ([[pos c] s'] & E' & Hr); eauto.
    + by intros k ?%elem_of_levels.
    + left. intros k. unfold levels. destruct layout as (n & a & b & Ha & Hb & Hn & _ & -> & _).
      rewrite seqZ_cons by (apply Z.pow_pos_nonneg; lia). by intros [= <-].
Qed.

(** C24: the table implements a finite map.  [find] gives the slot of the
    element with that key or [end()]; [find_and_emplace] always returns, says 1
    with the slot of the element and changes nothing if the key is there, says 0
    with the slot of the new element and adds it without losing another one, or
    says -1 and changes nothing, and then only if the buckets of the key are full
    on all levels; [erase] removes exactly the key; [clear] empties the table.
    Nothing is said of the iterator that comes with -1. *)
Theorem sc_hash_refines s m x v (Hm : models s m) (Hx : key v = x) :
  match m !! x with Some w => at_ s (find s x) = Some w | None => find s x = end_ end /\
  (exists pos c s', find_and_emplace x v s = Ok (pos, c, s') /\
     match m !! x with
     | Some w => c = 1 /\ s' = s /\ at_ s pos = Some w
     | None => emplaced s m v (pos, c, s')
     end) /\
  (exists s', erase x s = (bool_decide (is_Some (m !! x)), s') /\ models s' (delete x m)) /\
  models (clear s) ∅.
Proof.
  subst x. pose proof (find_spec s m (key v) Hm) as Hf. pose proof slots_pos. unfold end_ in *.
  split_and!; [destruct (m !! key v); [apply Hf|done]| | |apply models_cleared].
  - destruct (find_and_emplace_spec s m v Hm) as (pos & c & s' & E & Hr). exists pos, c, s'. split; [done|].
    destruct (m !! key v); [|done]. by destruct Hr as (? & ? & _ & ?).
  - unfold erase, end_. destruct (m !! key v) as [w|] eqn:E.
    + destruct (Z.eqb_spec (find s (key v)) SLOTS); [lia|]. eexists. split; [done|].
      assert (key w = key v) as Ek by (by apply (m_elems _ _ Hm) in E as (? & _ & _ & ?)).
      pose proof (models_erase s m (find s (key v)) w Hm (proj1 (proj1 Hf)) (proj2 Hf)) as Hd. by rewrite Ek in Hd.
    + rewrite Hf, Z.eqb_refl. eexists. split; [done|]. by rewrite delete_id.
Qed.

(** ** Iteration *)

Section iteration.
Context (Hwords : SLOTS mod W_BITS = 0).
Context (s : sc_hash_set T) (W : wf s).

Lemma slots_words : exists n, 0 < n /\ SLOTS = W_BITS * n.
Proof.
  exists (SLOTS / W_BITS). pose proof slots_pos. pose proof (Z.div_mod SLOTS W_BITS). unfold W_BITS in *. split; lia.
Qed.

(** The bits of the current word that are still to be seen. *)
Definition pending_word (pos : Z) : Z :=
  Z.land (_presence s (pos / W_BITS)) (u64 (- u64 (Z.shiftl 1 (pos mod W_BITS)))).

Lemma pending_testbit pos i :
  0 <= i < 64 -> Z.testbit (pending_word pos) i = (pos mod W_BITS <=? i) && Z.testbit (_presence s (pos / W_BITS)) i.
Proof.
  intros Hi. unfold pending_word. rewrite bit_word, Z.land_spec, wrap_spec, andb_comm by lia.
  rewrite (proj2 (Z.ltb_lt _ _)) by lia. cbn [andb]. f_equal.
  pose proof (mod_word pos). set (k := pos mod W_BITS) in *.
  replace (- 2 ^ k) with (Z.lnot (Z.ones k)) by (rewrite Z.ones_equiv; unfold Z.lnot; lia).
  rewrite Z.lnot_spec, Z.testbit_ones_nonneg by lia. destruct (Z.ltb_spec i k), (Z.leb_spec k i); (done || lia).
Qed.

Lemma word_present pos q : 0 <= q -> q / W_BITS = pos / W_BITS ->
  _is_present s q = Z.testbit (_presence s (pos / W_BITS)) (q mod W_BITS).
Proof. intros Hq <-. by apply present_testbit. Qed.

Lemma slots_mod : forall q, 0 <= q <= SLOTS -> q / W_BITS <= SLOTS / W_BITS.
Proof. intros q Hq. apply Z.div_le_mono; [done|lia]. Qed.

Lemma find_valid_spec fuel pos :
  0 <= pos <= SLOTS -> SLOTS / W_BITS - pos / W_BITS < Z.of_nat fuel ->
  exists pos', _find_valid fuel s pos = Ok pos' /\ pos <= pos' <= SLOTS /\
    (forall q, pos <= q < pos' -> _is_present s q = false) /\ (pos' < SLOTS -> _is_present s pos' = true).
Proof.
  revert pos. induction fuel as [|fuel IH]; intros pos Hpos Hf; [pose proof (slots_mod pos Hpos); lia|].
  cbn [_find_valid]. destruct (Z.ltb_spec pos SLOTS) as [Hlt|]; [|exists pos; split_and!; (done || lia)].
  fold (pending_word pos). pose proof (mod_word pos) as Hk. unfold W_BITS in Hk.
  assert (fits 64 (pending_word pos)) as Hp by (apply land_fits; [done|apply (wf_words _ W)]).
  assert (align_down pos W_BITS = 64 * (pos / 64)) as Ead.
  { unfold W_BITS. change 64 with (2 ^ 6) at 1. destruct layout as (n & a & b & ? & ? & ? & En & _).
    rewrite align_down_pow2; [|split; [lia|]|lia]; [change (2 ^ 6) with 64; pose proof (Z.div_mod pos 64 ltac:(lia)); lia|].
    rewrite En in Hlt. etrans; [exact Hlt|]. apply Z.pow_lt_mono_r; lia. }
  rewrite Ead. pose proof (Z.div_mod pos 64 ltac:(lia)) as Edm. unfold W_BITS in *.
  assert (forall q, 0 <= q -> pos <= q < 64 * (pos / 64) + 64 ->
    _is_present s q = Z.testbit (pending_word pos) (q - 64 * (pos / 64))) as Hq.
  { intros q H0 Hq. assert (q / 64 = pos / 64) as Eq by (symmetry; apply (Z.div_unique q 64 _ (q - 64 * (pos / 64))); lia).
    rewrite (word_present pos q), pending_testbit by (done || lia). unfold W_BITS.
    assert (q mod 64 = q - 64 * (pos / 64)) as -> by (pose proof (Z.div_mod q 64 ltac:(lia)); lia).
    by rewrite (proj2 (Z.leb_le _ _)) by lia. }
  destruct slots_words as (n & Hn & En). unfold W_BITS in En.
  assert (64 * (pos / 64) + 64 <= SLOTS) as Hle by (rewrite En in *; assert (pos / 64 < n) by (apply Z.div_lt_upper_bound; lia); lia).
  destruct (Z.eqb_spec (pending_word pos) 0) as [E0|N0]; cbn [negb].
  - destruct (IH (64 * (pos / 64) + 64)) as (pos' & -> & Hr & Hno & Hyes); [lia| |].
    { replace (64 * (pos / 64) + 64) with ((pos / 64 + 1) * 64) by lia. rewrite Z.div_mul by lia. lia. }
    exists pos'. split_and!; [done|lia..| |done]. intros q Hqr.
    destruct (Z.lt_ge_cases q (64 * (pos / 64) + 64)); [|apply Hno; lia]. rewrite Hq by lia. by rewrite E0, Z.bits_0.
  - destruct (bits_of_cons (pending_word pos)) as (_ & _ & Hc); [unfold fits in Hp; lia|].
    set (c := ctz (pending_word pos)) in *. eexists. split; [done|].
    destruct (testbit_ctz (pending_word pos)) as [Ht _]; [unfold fits in Hp; lia|]. fold c in Ht.
    assert (pos mod 64 <= c) as Hmc.
    { rewrite pending_testbit in Ht by lia. apply andb_true_iff in Ht as [Ht%Z.leb_le _]. exact Ht. }
    split_and!; [lia|lia| |].
    + intros q Hqr. rewrite Hq by lia. apply ctz_least; [unfold fits in Hp; lia|lia].
    + intros _. rewrite Hq by lia. by replace (64 * (pos / 64) + c - 64 * (pos / 64)) with c by lia.
Qed.

Definition slots_from (pos : Z) : list Z := filter (fun q => _is_present s q = true) (seqZ pos (SLOTS - pos)).

Lemma slots_from_skip a b :
  a <= b <= SLOTS -> (forall q, a <= q < b -> _is_present s q = false) -> slots_from a = slots_from b.
Proof.
  intros Hab Hno. unfold slots_from. replace (SLOTS - a) with ((b - a) + (SLOTS - b)) by lia.
  rewrite seqZ_app, list.filter_app by lia. replace (a + (b - a)) with b by lia. rewrite filter_none; [done|].
  intros q Hq%elem_of_seqZ. rewrite Hno by lia. done.
Qed.

Lemma valid_fuel_enough pos : 0 <= pos <= SLOTS -> SLOTS / W_BITS - pos / W_BITS < Z.of_nat valid_fuel.
Proof.
  intros Hp. destruct layout as (n & a & b & ? & ? & Hn & En & _). destruct slots_words as (k & Hk & Ek).
  assert (NP = k) as ENP.
  { unfold NP, W_BITS in *. change 64 with (2 ^ 6) at 1.
    assert (2 ^ n <= 2 ^ 63) by (apply Z.pow_le_mono_r; lia). change (2 ^ 63) with 9223372036854775808 in *.
    rewrite align_up_pow2 by lia. change (2 ^ 6) with 64. rewrite Ek, Z.div_mul by lia.
    symmetry. apply (Z.div_unique _ 64 k 63); lia. }
  unfold valid_fuel. rewrite ENP, Ek. unfold W_BITS in *. rewrite (Z.mul_comm 64 k), Z.div_mul by lia.
  assert (0 <= pos / 64) by (apply Z.div_pos; lia). lia.
Qed.

Lemma visits_from_spec fuel pos :
  0 <= pos <= SLOTS -> (pos < SLOTS -> _is_present s pos = true) -> SLOTS - pos < Z.of_nat fuel ->
  visits_from fuel s pos = Ok (slots_from pos).
Proof.
  revert pos. induction fuel as [|fuel IH]; intros pos Hpos Hp Hf; [lia|]. cbn [visits_from]. unfold end_.
  destruct (Z.eqb_spec pos SLOTS) as [->|N]; cbn [negb].
  - unfold slots_from. by replace (SLOTS - SLOTS) with 0 by lia.
  - unfold next_. destruct (find_valid_spec valid_fuel (pos + 1)) as (pos' & -> & Hr & Hno & Hyes);
      [lia|apply valid_fuel_enough; lia|]. cbn. rewrite IH by (done || lia). cbn. f_equal.
    rewrite <- (slots_from_skip (pos + 1) pos') by (done || lia). unfold slots_from.
    rewrite (seqZ_cons pos) by lia. rewrite filter_cons, decide_True by (apply Hp; lia).
    by replace (Z.pred (SLOTS - pos)) with (SLOTS - (pos + 1)) by lia.
Qed.

Lemma visits_spec : visits s = Ok (slots_from 0).
Proof.
  unfold visits, begin_. pose proof slots_pos.
  destruct (find_valid_spec valid_fuel 0) as (pos' & -> & Hr & Hno & Hyes); [lia|apply valid_fuel_enough; lia|].
  cbn [mbind res_bind]. rewrite visits_from_spec by (done || lia). by rewrite (slots_from_skip 0 pos') by (done || lia).
Qed.

End iteration.

Lemma visits_elems s m : models s m -> SLOTS mod W_BITS = 0 ->
  exists l, visits s = Ok l /\ NoDup l /\ (forall pos, pos ∈ l <-> 0 <= pos /\ is_Some (at_ s pos)).
Proof.
  intros Hm Hw. pose proof (m_wf _ _ Hm) as W. exists (slots_from s 0).
  split_and!; [by apply visits_spec|apply list.NoDup_filter, NoDup_seqZ|].
  intros pos. unfold slots_from. rewrite list_elem_of_filter, elem_of_seqZ. split.
  - intros [Hs Hp]. split; [lia|]. apply (at_present _ _ W); [lia|done].
  - intros [Hp Ha%(at_present _ _ W)]; [|done]. destruct (wf_range _ W pos Hp Ha). split; [done|lia].
Qed.

(** C25: when the table has whole words of presence bits, iterating from
    [begin()] to [end()] ends and visits every element once. *)
Theorem sc_hash_iterates s m (Hm : models s m) (Hw : SLOTS mod W_BITS = 0) :
  exists l, visits s = Ok l /\ NoDup l /\
    forall x v, m !! x = Some v <-> exists pos, pos ∈ l /\ at_ s pos = Some v /\ key v = x.
Proof.
  destruct (visits_elems s m Hm Hw) as (l & E & Hnd & Hl). exists l. split_and!; [done|done|].
  intros x v. rewrite (m_elems _ _ Hm). setoid_rewrite Hl. split; intros (pos & Hp & Ha & Hk); exists pos; (split; [|done]); [|lia].
  split; [done|]. by exists v.
Qed.

End spec.

(** ** Examples *)

(** The table of OID caches has 64 slots. *)
#[local] Instance cache_layout : Layout.
Proof.
  refine {| SLOTS := 64; SUBTABLES := 2; BUCKET_SIZE := 4; USE_LEVELS := true; SECOND_CHANCE := true |};
    [by exists 6|by exists 1|by exists 2|done|done].
Defined.

#[local] Instance pair_keyed : Keyed Z (Z * Z) := {| key := fst; hash_key := fun x => wrap 32 (x * 8) |}.

Lemma models_empty : models (empty (T := Z * Z)) ∅.
Proof. exact (models_cleared empty). Qed.

Lemma sc_hash_refines_witness :
  find empty 5 = end_ /\
  (exists pos c s', find_and_emplace 5 (5, 10) empty = Ok (pos, c, s') /\ emplaced empty ∅ (5, 10) (pos, c, s')).
Proof.
  destruct (sc_hash_refines empty ∅ 5 (5, 10) models_empty eq_refl) as (H1 & H2 & _). split; [exact H1|exact H2].
Defined.

(** Five elements with the same hash fill a bucket of the first level and
    start the next one. *)
Definition crowded : res (sc_hash_set (Z * Z)) :=
  foldl (fun r x => s ← r; '(_, _, s') ← emplace (x, x) s; Ok s') (Ok empty) [0; 536870912; 1073741824; 1610612736; 2147483648].

Example crowded_visits : (s ← crowded; visits s) = Ok [0; 1; 2; 3; 32].
Proof. vm_compute. reflexivity. Qed.

Definition one : sc_hash_set (Z * Z) := _init_value 0 (5, 10) empty.

Lemma models_one : models one (<[5 := (5, 10)]> ∅).
Proof.
  refine (models_init empty ∅ 0 (5, 10) models_empty _ _ _ _); [done|done| |done].
  apply elem_of_probe. exists 0. split; [done|]. vm_compute. left.
Qed.

Lemma sc_hash_iterates_witness :
  exists l, visits one = Ok l /\ NoDup l /\
    forall x (v : Z * Z), (<[5 := (5, 10)]> ∅ : gmap Z (Z * Z)) !! x = Some v <->
      exists pos, pos ∈ l /\ at_ one pos = Some v /\ key v = x.
Proof. exact (sc_hash_iterates one (<[5 := (5, 10)]> ∅) models_one eq_refl). Defined.

(** With fewer than 64 slots the iterator runs past [end()]. *)
Definition small_layout : Layout.
Proof.
  refine {| SLOTS := 32; SUBTABLES := 2; BUCKET_SIZE := 4; USE_LEVELS := true; SECOND_CHANCE := true |};
    [by exists 5|by exists 1|by exists 2|done|done].
Defined.

Example small_table_overruns :
  begin_ (L := small_layout) (empty (T := Z * Z)) = Ok 64 /\ end_ (L := small_layout) = 32.
Proof. split; reflexivity. Qed.

End sc_hash_spec.
