(* ===== verification/Dynarray.v ===== *)
(** * Growable arrays on reserved address space ([dbcore/dynarray.cpp])

    A [dynarray] reserves its whole capacity with [mmap] and makes pages of it
    accessible with [mprotect] as it grows. *)
From stdpp Require Import base numbers list.
From Stdlib Require Import ZArith Lia.
From S2P Require Import Prelude.

Local Open Scope Z_scope.

(** The operating system: whether a call succeeds, and where [mmap] puts the
    reservation. *)
Class Os := {
  mmap : Z -> option Z;
  mprotect : Z -> Z -> bool -> bool }.

Module dynarray.

Section array.
Context `{OS : Os}.

(* src: dbcore/dynarray.h:61-62 dynarray::page_bits *)
Definition page_bits : Z := 16.
(* src: dbcore/dynarray.h:64-65 dynarray::page_size *)
Definition page_size : Z := Z.shiftl 1 page_bits.

(** [_capacity] and [_size] count pages; [readable] is the protection of the
    pages of the reservation, which the system keeps. *)
(* src: dbcore/dynarray.h:133-135 dynarray *)
Record t := mk_dynarray { _capacity : Z; _size : Z; _data : Z; readable : Z -> bool }.

(* src: dbcore/dynarray.cpp:44-47 dynarray::max_size *)
Definition max_size : Z := Z.shiftl (2 ^ 32 - 1) page_bits.

(* src: dbcore/dynarray.cpp:49-54 dynarray::dynarray *)
Definition dummy : t := mk_dynarray 0 0 0 (fun _ => false).

(* src: dbcore/dynarray.cpp:133-137 dynarray::size *)
Definition size (d : t) : Z := u64 (Z.shiftl (_size d) page_bits).
(* src: dbcore/dynarray.cpp:139-143 dynarray::capacity *)
Definition capacity (d : t) : Z := u64 (Z.shiftl (_capacity d) page_bits).

(** [mprotect] of whole pages. *)
Definition protect (begin_ end_ : Z) (rw : bool) (f : Z -> bool) (p : Z) : bool :=
  if (Z.shiftr begin_ page_bits <=? p) && (p <? Z.shiftr end_ page_bits) then rw else f p.

(* src: dbcore/dynarray.cpp:176-194 dynarray::_adjust_mapping *)
Definition _adjust_mapping (begin_ end_ new_size : Z) (make_readable : bool) (d : t) : res t :=
  throw_if (capacity d <? new_size) illegal_argument ≫= fun _ =>
  if negb (begin_ =? end_) then
    throw_if (negb (mprotect (_data d + begin_) (u64 (end_ - begin_)) make_readable)) os_error ≫= fun _ =>
    Ok (mk_dynarray (_capacity d) (u32 (Z.shiftr new_size page_bits)) (_data d)
          (protect begin_ end_ make_readable (readable d)))
  else Ok d.

(* src: dbcore/dynarray.cpp:56-96 dynarray::dynarray *)
Definition make_dynarray (capacity_ size_ : Z) : res t :=
  let capacity_ := align_up capacity_ page_size in
  let size_ := align_up size_ page_size in
  let cap := u32 (Z.shiftr capacity_ page_bits) in
  throw_if (max_size <? capacity_) illegal_argument ≫= fun _ =>
  throw_if (capacity_ =? 0) illegal_argument ≫= fun _ =>
  throw_if (capacity_ <? size_) illegal_argument ≫= fun _ =>
  match mmap capacity_ with
  | None => Throw os_error
  | Some data =>
      let d := mk_dynarray cap 0 data (fun _ => false) in
      if negb (size_ =? 0) then _adjust_mapping 0 size_ size_ true d else Ok d
  end.

(* src: dbcore/dynarray.cpp:145-153 dynarray::truncate *)
Definition truncate (new_size : Z) (d : t) : res t :=
  let new_size := align_up new_size page_size in
  throw_if (size d <? new_size) illegal_argument ≫= fun _ =>
  _adjust_mapping new_size (size d) new_size false d.

(* src: dbcore/dynarray.cpp:155-166 dynarray::resize *)
Definition resize (new_size : Z) (d : t) : res t :=
  let new_size := align_up new_size page_size in
  throw_if (new_size <? size d) illegal_argument ≫= fun _ =>
  _adjust_mapping (size d) new_size new_size true d.

(* src: dbcore/dynarray.cpp:168-174 dynarray::ensure_size *)
Definition ensure_size (min_size : Z) (d : t) : res t :=
  let min_size := align_up min_size page_size in
  if size d <? min_size then resize min_size d else Ok d.

(* src: dbcore/dynarray.cpp:124-131 swap *)
Definition swap (a b : t) : t * t := (b, a).

(** The new value of the target and what is left of the victim. *)
(* src: dbcore/dynarray.cpp:116-122 dynarray::operator= *)
Definition move_assign (this victim : t) : t * t := swap this victim.
(* src: dbcore/dynarray.cpp:110-114 dynarray::dynarray *)
Definition move_construct (victim : t) : t * t := move_assign dummy victim.

(** ** Sizes *)

(** Rounding up to pages. *)
Definition pages (n : Z) : Z := (n + page_size - 1) / page_size.

(** The pages in use are accessible and no others. *)
Record wf (d : t) : Prop := {
  wf_capacity : fits 32 (_capacity d);
  wf_size : 0 <= _size d <= _capacity d;
  wf_readable p : readable d p = (0 <=? p) && (p <? _size d) }.

#[local] Ltac mcbn := cbn [throw_if mbind res_bind negb].

Lemma page_size_eq : page_size = 2 ^ 16.
Proof. done. Qed.

#[local] Ltac pages_arith := rewrite ?page_size_eq in *; lia.

Lemma align_pages n : 0 <= n -> n + 2 ^ 16 <= 2 ^ 64 -> align_up n page_size = pages n * page_size.
Proof. intros. unfold pages. rewrite page_size_eq. by apply align_up_pow2. Qed.

Lemma shiftr_pages k : Z.shiftr (k * page_size) page_bits = k.
Proof. rewrite Z.shiftr_div_pow2 by done. by apply Z.div_mul. Qed.

Lemma shiftl_pages k : fits 32 k -> u64 (Z.shiftl k page_bits) = k * page_size.
Proof.
  intros [Hk Hk']. rewrite Z.shiftl_mul_pow2 by done. change (2 ^ page_bits) with (2 ^ 16). rewrite page_size_eq.
  apply wrap_small. unfold fits. lia.
Qed.

Lemma size_eq d : wf d -> size d = _size d * page_size /\ capacity d = _capacity d * page_size.
Proof.
  intros [[] ? ?]. unfold size, capacity. rewrite !shiftl_pages by (unfold fits; lia). done.
Qed.

Lemma pages_bounds n : 0 <= n -> n <= pages n * page_size < n + page_size.
Proof.
  intros Hn. unfold pages. rewrite page_size_eq.
  pose proof (Z.div_mod (n + 2 ^ 16 - 1) (2 ^ 16) ltac:(lia)).
  pose proof (Z.mod_pos_bound (n + 2 ^ 16 - 1) (2 ^ 16) ltac:(lia)). lia.
Qed.

Lemma pages_mul k : pages (k * page_size) = k.
Proof. unfold pages. rewrite page_size_eq. symmetry. apply (Z.div_unique _ _ k (2 ^ 16 - 1)); lia. Qed.

(** [d'] is [d] with [k] pages in use. *)
Definition sized (d : t) (k : Z) (d' : t) : Prop :=
  wf d' /\ _size d' = k /\ _capacity d' = _capacity d /\ _data d' = _data d.

Lemma protect_pages a b rw f p :
  protect (a * page_size) (b * page_size) rw f p = if (a <=? p) && (p <? b) then rw else f p.
Proof. unfold protect. by rewrite !shiftr_pages. Qed.

(** Moving the end of the pages in use from [a] to [b]. *)
Lemma adjust_spec d lo hi k rw :
  wf d -> 0 <= k <= _capacity d -> lo = Z.min (_size d) k -> hi = Z.max (_size d) k -> (_size d < k -> rw = true) -> (k < _size d -> rw = false) ->
  let ok := mprotect (_data d + lo * page_size) ((hi - lo) * page_size) rw in
  match _adjust_mapping (lo * page_size) (hi * page_size) (k * page_size) rw d with
  | Ok d' => sized d k d' /\ (_size d = k \/ ok = true)
  | Throw e => e = os_error /\ ok = false /\ _size d <> k
  end.
Proof.
  intros W Hk -> -> Hrw Hrw' ok. pose proof W as [[Hc Hc'] Hs Hr]. unfold _adjust_mapping.
  rewrite (proj2 (size_eq d W)). destruct (Z.ltb_spec (_capacity d * page_size) (k * page_size)); [pages_arith|]. mcbn.
  set (lo := Z.min _ _) in *. set (hi := Z.max _ _) in *.
  destruct (Z.eqb_spec (lo * page_size) (hi * page_size)) as [E|N]; cbn [negb].
  - rewrite page_size_eq in E. assert (_size d = k) by lia. split; [|by left]. by split_and!.
  - rewrite page_size_eq in N. assert (_size d <> k) by lia.
    rewrite (wrap_small 64) by (rewrite page_size_eq; unfold fits; lia).
    replace (hi * page_size - lo * page_size) with ((hi - lo) * page_size) by lia. fold ok.
    destruct ok eqn:Eok; mcbn; [|done]. split; [|by right]. rewrite shiftr_pages, wrap_small by (unfold fits; lia).
    split_and!; [|done..]. split; cbn; [done|lia|]. intros p. rewrite protect_pages, Hr.
    assert (rw = (_size d <? k)) as -> by (destruct (Z.ltb_spec (_size d) k); [auto|apply Hrw'; lia]).
    destruct (Z.leb_spec lo p), (Z.ltb_spec p hi), (Z.ltb_spec (_size d) k), (Z.leb_spec 0 p), (Z.ltb_spec p (_size d)),
      (Z.ltb_spec p k); cbn; (done || lia).
Qed.

(** Beyond the capacity. *)
Lemma adjust_refused d lo hi k rw : wf d -> _capacity d < k -> _adjust_mapping lo hi (k * page_size) rw d = Throw illegal_argument.
Proof.
  intros W Hk. unfold _adjust_mapping. rewrite (proj2 (size_eq d W)).
  destruct (Z.ltb_spec (_capacity d * page_size) (k * page_size)); [done|pages_arith].
Qed.

Definition grown (d : t) (k : Z) (r : res t) : Prop :=
  match r with
  | Ok d' => sized d k d' /\ _size d <= k <= _capacity d
  | Throw e => e = illegal_argument /\ (k < _size d \/ _capacity d < k) \/
               e = os_error /\ mprotect (_data d + size d) ((k - _size d) * page_size) true = false
  end.

Lemma resize_spec d n : wf d -> 0 <= n -> n + 2 ^ 16 <= 2 ^ 64 -> grown d (pages n) (resize n d).
Proof.
  intros W Hn Hmax. destruct (size_eq d W) as [Es Ec]. pose proof (pages_bounds n Hn) as Hb. unfold resize, grown.
  rewrite align_pages by done. set (k := pages n) in *. rewrite Es.
  destruct (Z.ltb_spec (k * page_size) (_size d * page_size)) as [Hlt|Hge]; mcbn; [left; split; [done|pages_arith]|].
  destruct (Z.le_gt_cases k (_capacity d)) as [Hkc|Hkc]; [|rewrite adjust_refused by done; auto].
  assert (_size d <= k) by pages_arith. pose proof (wf_size _ W).
  epose proof (adjust_spec d (_size d) k k true W _ _ _ _ _) as Ha. cbv zeta in Ha.
  destruct (_adjust_mapping _ _ _ _ _); [destruct Ha; split; [done|lia]|tauto].
  Unshelve. all: lia || done.
Qed.

Definition shrunk (d : t) (k : Z) (r : res t) : Prop :=
  match r with
  | Ok d' => sized d k d' /\ k <= _size d
  | Throw e => e = illegal_argument /\ _size d < k \/
               e = os_error /\ mprotect (_data d + k * page_size) ((_size d - k) * page_size) false = false
  end.

Lemma truncate_spec d n : wf d -> 0 <= n -> n + 2 ^ 16 <= 2 ^ 64 -> shrunk d (pages n) (truncate n d).
Proof.
  intros W Hn Hmax. destruct (size_eq d W) as [Es Ec]. pose proof (pages_bounds n Hn) as Hb. unfold truncate, shrunk.
  rewrite align_pages by done. set (k := pages n) in *. rewrite Es.
  destruct (Z.ltb_spec (_size d * page_size) (k * page_size)) as [Hlt|Hge]; mcbn; [left; split; [done|pages_arith]|].
  assert (0 <= k <= _size d) by pages_arith. pose proof (wf_size _ W).
  epose proof (adjust_spec d k (_size d) k false W _ _ _ _ _) as Ha. cbv zeta in Ha.
  destruct (_adjust_mapping _ _ _ _ _); [destruct Ha; split; [done|lia]|tauto].
  Unshelve. all: lia || done.
Qed.

Lemma make_spec c n d :
  0 <= c -> 0 <= n -> c + 2 ^ 16 <= 2 ^ 64 -> n + 2 ^ 16 <= 2 ^ 64 -> make_dynarray c n = Ok d ->
  wf d /\ _capacity d = pages c /\ _size d = pages n.
Proof.
  intros Hc Hn Hcm Hnm. unfold make_dynarray. rewrite !align_pages by done.
  pose proof (pages_bounds c Hc) as Hb. pose proof (pages_bounds n Hn) as Hb'. set (k := pages c) in *. set (j := pages n) in *.
  change max_size with ((2 ^ 32 - 1) * page_size).
  destruct (Z.ltb_spec ((2 ^ 32 - 1) * page_size) (k * page_size)); mcbn; [done|].
  destruct (Z.eqb_spec (k * page_size) 0); mcbn; [done|].
  destruct (Z.ltb_spec (k * page_size) (j * page_size)); mcbn; [done|]. destruct (mmap _) as [data|]; [|done].
  rewrite shiftr_pages, wrap_small by (unfold fits; pages_arith). set (d0 := mk_dynarray _ _ _ _).
  assert (wf d0) as W0.
  { split; cbn; [unfold fits; pages_arith|pages_arith|]. intros p. destruct (Z.leb_spec 0 p), (Z.ltb_spec p 0); (done || lia). }
  destruct (Z.eqb_spec (j * page_size) 0) as [E0|N0]; mcbn.
  - intros [= <-]. split_and!; [done..|]. cbn. pages_arith.
  - epose proof (adjust_spec d0 0 j j true W0 _ _ _ _ _) as Ha. cbv zeta in Ha. rewrite Z.mul_0_l in Ha. intros E. rewrite E in Ha.
    destruct Ha as [(W & E1 & E2 & E3) _]. by split_and!.
  Unshelve. all: cbn; pages_arith || done.
Qed.

(** With a size that fits, only the system can refuse. *)
Lemma make_throws c n e : 0 < c -> 0 <= n <= c -> c + 2 ^ 17 <= 2 ^ 48 -> make_dynarray c n = Throw e -> e = os_error.
Proof.
  intros Hc Hn Hmax. unfold make_dynarray. rewrite !align_pages by lia.
  pose proof (pages_bounds c ltac:(lia)) as Hb. pose proof (pages_bounds n ltac:(lia)) as Hb'.
  assert (pages n <= pages c) as Hle by (unfold pages; apply Z.div_le_mono; [done|lia]). set (k := pages c) in *. set (j := pages n) in *.
  change max_size with ((2 ^ 32 - 1) * page_size).
  destruct (Z.ltb_spec ((2 ^ 32 - 1) * page_size) (k * page_size)); mcbn; [pages_arith|].
  destruct (Z.eqb_spec (k * page_size) 0); mcbn; [pages_arith|].
  destruct (Z.ltb_spec (k * page_size) (j * page_size)); mcbn; [pages_arith|]. destruct (mmap _) as [data|]; [|by intros [= ->]].
  destruct (Z.eqb_spec (j * page_size) 0) as [E0|N0]; mcbn; [done|].
  unfold _adjust_mapping, capacity. cbn [_capacity _size _data readable]. rewrite shiftr_pages, (wrap_small 32) by (unfold fits; pages_arith).
  rewrite shiftl_pages by (unfold fits; pages_arith). destruct (Z.ltb_spec (k * page_size) (j * page_size)); mcbn; [pages_arith|].
  destruct (0 =? j * page_size); mcbn; [done|]. destruct (mprotect _ _ _); mcbn; [done|]. by intros [= ->].
Qed.

Lemma ensure_size_spec d n : wf d -> 0 <= n -> n + 2 ^ 16 <= 2 ^ 64 ->
  let k := pages n in
  match ensure_size n d with
  | Ok d' => sized d (Z.max k (_size d)) d' /\ k <= _capacity d
  | Throw e => e = illegal_argument /\ _capacity d < k \/
               e = os_error /\ mprotect (_data d + size d) ((k - _size d) * page_size) true = false
  end.
Proof.
  intros W Hn Hmax k. pose proof (pages_bounds n Hn) as Hb. fold k in Hb. pose proof (wf_size _ W).
  destruct (size_eq d W) as [Es Ec]. pose proof (wf_capacity _ W) as [_ Hc].
  unfold ensure_size. rewrite align_pages by done. fold k. rewrite Es.
  destruct (Z.ltb_spec (_size d * page_size) (k * page_size)) as [Hlt|Hge].
  - assert (_size d < k) by pages_arith.
    pose proof (resize_spec d (k * page_size) W) as Hr. rewrite pages_mul in Hr. unfold grown in Hr. rewrite Es in Hr.
    destruct (resize _ _); [destruct Hr as [Hr1 Hr2]; [pages_arith..|]|].
    + rewrite Z.max_l by lia. split; [done|lia].
    + destruct Hr as [[? ?]|?]; [pages_arith..|left; split; [done|lia]|by right].
  - assert (k <= _size d) by pages_arith. rewrite Z.max_r by lia. split; [by split_and!|lia].
Qed.

(** C34: sizes are rounded up to pages; [resize] refuses to shrink and to
    exceed the capacity, [truncate] refuses to grow, [ensure_size] does
    nothing when the array is large enough; otherwise exactly the pages of the
    new size are accessible afterwards, or the system has refused and
    [os_error] is raised.  Addresses and the capacity never change. *)
Theorem dynarray_sizes d n (W : wf d) (Hn : 0 <= n) (Hmax : n + 2 ^ 16 <= 2 ^ 64) :
  let k := pages n in
  (n <= k * page_size < n + page_size) /\
  grown d k (resize n d) /\ shrunk d k (truncate n d) /\
  match ensure_size n d with
  | Ok d' => sized d (Z.max k (_size d)) d' /\ k <= _capacity d
  | Throw e => e = illegal_argument /\ _capacity d < k \/
               e = os_error /\ mprotect (_data d + size d) ((k - _size d) * page_size) true = false
  end.
Proof.
  intros k. pose proof (pages_bounds n Hn).
  split_and!; [lia|lia|by apply resize_spec|by apply truncate_spec|by apply ensure_size_spec].
Qed.

End array.

#[local] Instance generous : Os := {| mmap := fun _ => Some 4096; mprotect := fun _ _ _ => true |}.

Lemma dynarray_sizes_witness :
  exists d, make_dynarray 1000000 100000 = Ok d /\ _size d = 2 /\ shrunk d 1 (truncate 5 d) /\ grown d 10 (resize 600000 d).
Proof.
  destruct (make_dynarray 1000000 100000) as [d|] eqn:E; [|done]. exists d.
  destruct (make_spec 1000000 100000 d) as (W & Ec & Es); [done..|].
  destruct (dynarray_sizes d 5 W) as (_ & _ & H1 & _); [done..|].
  destruct (dynarray_sizes d 600000 W) as (_ & H2 & _); [done..|].
  split_and!; [done|done|exact H1|exact H2].
Defined.

End dynarray.
