(* ===== verification/SparseBitset.v ===== *)
(** * Sparse bitsets ([dbcore/sm-oid-alloc-impl.h])

    A set of up to 16 16-bit numbers in two vector registers.  It is never
    empty, and 0 is always first, so that a zero further back marks the end. *)
From stdpp Require Import base numbers list.
From Stdlib Require Import ZArith Lia.
From S2P Require Import Prelude Bits.

Local Open Scope Z_scope.

Module sparse_bitset.

(* src: dbcore/sm-oid-alloc-impl.h:16-16 sparse_bitset::GAMUT *)
Definition GAMUT : Z := 1 + 65535.
(* src: dbcore/sm-oid-alloc-impl.h:17-18 sparse_bitset::CAPACITY *)
Definition CAPACITY : Z := 2 * 16 / 2.

(** Two vectors of eight 16-bit lanes. *)
(* src: dbcore/sm-oid-alloc-impl.h:24-24 sparse_bitset *)
Record t := mk { entries0 : list Z; entries1 : list Z }.

Definition lane (v : list Z) (i : nat) : Z := nth i v 0.
(** [__builtin_shuffle] *)
Definition shuffle (v : list Z) (mask : list nat) : list Z := lane v <$> mask.
(** [__builtin_ia32_pmovmskb128] of a comparison: two bits for each lane. *)
Definition movmskb (lanes : list bool) : Z := foldr (fun (b : bool) acc => (if b then 3 else 0) + 4 * acc) 0 lanes.
(** [__builtin_popcount] *)
Definition popcount (x : Z) : Z := Z.of_nat (length (bits_of x)).

(* src: dbcore/sm-oid-alloc-impl.h:27-27 sparse_bitset::as_array *)
Definition as_array (b : t) : list Z := entries0 b ++ entries1 b.

(** [for (auto x : b)]: after the first entry, up to a zero; behind the last
    entry the iterator is at the end whatever it finds there. *)
(* src: dbcore/sm-oid-alloc-impl.h:29-43 sparse_bitset::iterator *)
Fixpoint until_zero (l : list Z) : list Z :=
  match l with [] => [] | x :: l => if x =? 0 then [] else x :: until_zero l end.
Definition elems (b : t) : list Z :=
  match as_array b with [] => [] | x :: l => x :: until_zero l end.

(* src: dbcore/sm-oid-alloc-impl.h:51-54 sparse_bitset::init1 *)
Definition init1 (i : Z) : t := mk (i :: replicate 7 0) (replicate 8 0).

(* src: dbcore/sm-oid-alloc-impl.h:59-61 sparse_bitset::almost_full *)
Definition almost_full (b : t) : bool := negb (nth 14 (as_array b) 0 =? 0).

Definition rotr_shufmask : list nat := [7; 0; 1; 2; 3; 4; 5; 6]%nat.

(* src: dbcore/sm-oid-alloc-impl.h:69-97 sparse_bitset::insert *)
Definition insert (b : t) (i : Z) : t * Z :=
  if lane (entries0 b) 7 =? 0 then
    let where_ := if lane (entries0 b) 0 =? 0 then 1%nat else 0%nat in
    (mk (<[where_ := i]> (shuffle (entries0 b) rotr_shufmask)) (entries1 b), 0)
  else if negb (lane (entries1 b) 7 =? 0) then (b, -1)
  else
    let '(i, e0) := if i =? 0 then (lane (entries0 b) 0, <[0%nat := 0]> (entries0 b)) else (i, entries0 b) in
    let e1 := <[0%nat := i]> (shuffle (entries1 b) rotr_shufmask) in
    (mk e0 e1, if lane e1 7 =? 0 then 0 else 1).

(* src: dbcore/sm-oid-alloc-impl.h:99-108 sparse_bitset::contains *)
Definition contains (b : t) (i : Z) : bool :=
  if i =? 0 then lane (entries0 b) 0 =? 0
  else
    let rval := movmskb ((fun x => x =? i) <$> entries0 b) in
    let rval := Z.lor rval (movmskb ((fun x => x =? i) <$> entries1 b)) in
    negb (rval =? 0).

(* src: dbcore/sm-oid-alloc-impl.h:109-116 sparse_bitset::size *)
Definition size (b : t) : Z :=
  let x := Z.land (movmskb ((fun x => negb (x =? 0)) <$> entries0 b)) 0x5555 in
  let y := Z.land (movmskb ((fun x => negb (x =? 0)) <$> entries1 b)) 0xaaaa in
  popcount (Z.lor (Z.lor x y) 1).

(** ** Sets *)

(** The entry in front, the others, and zeros behind them. *)
Definition layout (x : Z) (l : list Z) : list Z := x :: l ++ replicate (15 - length l) 0.

Record wf (b : t) (x : Z) (l : list Z) : Prop := {
  wf_layout : as_array b = layout x l;
  wf_length : length (entries0 b) = 8%nat /\ length (entries1 b) = 8%nat;
  wf_short : (length l <= 15)%nat;
  wf_nonzero : Forall (fun y => y <> 0) l;
  wf_fits : Forall (fits 16) (x :: l);
  wf_nodup : NoDup (x :: l) }.

Lemma until_zero_app l n : Forall (fun y => y <> 0) l -> until_zero (l ++ replicate n 0) = l.
Proof.
  induction 1 as [|y l Hy _ IH]; cbn; [by destruct n|]. rewrite (proj2 (Z.eqb_neq _ _)) by done. by rewrite IH.
Qed.

Lemma wf_elems b x l : wf b x l -> elems b = x :: l.
Proof. intros W. unfold elems. rewrite (wf_layout _ _ _ W). cbn. f_equal. apply until_zero_app, W. Qed.

(** A list of eight lanes. *)
Lemma eight {A} (v : list A) : length v = 8%nat ->
  exists a0 a1 a2 a3 a4 a5 a6 a7, v = [a0; a1; a2; a3; a4; a5; a6; a7].
Proof. intros H. do 8 (destruct v as [|? v]; [done|]). destruct v; [|done]. eauto 10. Qed.

Lemma rotate_spec v : length v = 8%nat -> shuffle v rotr_shufmask = nth 7 v 0 :: take 7 v.
Proof. intros (a0 & a1 & a2 & a3 & a4 & a5 & a6 & a7 & ->)%eight. done. Qed.

(** The two halves. *)
Lemma halves b x l :
  wf b x l ->
  entries0 b = x :: take 7 l ++ replicate (7 - length l) 0 /\
  entries1 b = drop 7 l ++ replicate (Nat.min 8 (15 - length l)) 0.
Proof.
  intros W. destruct (wf_length _ _ _ W) as [H0 H1]. pose proof (wf_layout _ _ _ W) as E. pose proof (wf_short _ _ _ W).
  unfold as_array, layout in E.
  split.
  - transitivity (take 8 (entries0 b ++ entries1 b)); [by rewrite take_app_length'|]. rewrite E. cbn [take].
    rewrite take_app, take_replicate. repeat f_equal. lia.
  - transitivity (drop 8 (entries0 b ++ entries1 b)); [by rewrite drop_app_length'|]. rewrite E. cbn [drop].
    rewrite drop_app, drop_replicate. repeat f_equal. lia.
Qed.

Lemma nth_end {A} (l : list A) n d : length l = n -> forall y, nth n (l ++ [y]) d = y.
Proof. intros <- y. by rewrite nth_middle. Qed.

Lemma nth_zeros k n : nth k (replicate n 0) 0 = 0.
Proof. revert k. induction n as [|n IH]; intros [|k]; cbn; auto. Qed.

(** ** Insertion *)

(** The first half has room. *)
Lemma insert_first b x l i :
  wf b x l -> fits 16 i -> i ∉ x :: l -> (length l < 7)%nat ->
  exists b' x' l', insert b i = (b', 0) /\ wf b' x' l' /\ x' :: l' ≡ₚ i :: x :: l.
Proof.
  intros W Hi Hnew Hlen. destruct (halves b x l W) as [E0 E1]. destruct (wf_length _ _ _ W) as [H0 H1].
  unfold insert. rewrite rotate_spec by done.
  assert (entries0 b = (x :: l ++ replicate (6 - length l) 0) ++ [0]) as E0'.
  { rewrite E0, take_ge by lia. cbn. rewrite <- app_assoc, <- replicate_S_end. do 3 f_equal. lia. }
  assert (length (x :: l ++ replicate (6 - length l) 0) = 7%nat) as Hl7 by (cbn; rewrite length_app, length_replicate; lia).
  unfold lane. rewrite E0', nth_end, take_app_length' by done. cbn [Z.eqb app nth].
  assert (drop 7 l = [] /\ Nat.min 8 (15 - length l) = 8%nat) as [Ed Em] by (split; [apply drop_ge|]; lia).
  rewrite Ed, Em in E1. destruct W as [_ _ _ Wn Wf Wd].
  assert (forall y (k : list Z), length k = length (x :: l) -> Forall (fun y => y <> 0) k -> y :: k ≡ₚ i :: x :: l ->
    wf (mk (y :: k ++ replicate (6 - length l) 0) (entries1 b)) y k) as Hwf.
  { intros y k Hlk Hnz Hp. cbn in Hlk. split; [| |cbn in *; lia|done|by rewrite Hp; constructor|by rewrite Hp; constructor].
    - unfold as_array, layout. cbn [entries0 entries1]. rewrite E1. cbn [app].
      rewrite <- app_assoc, <- replicate_add. do 3 f_equal. lia.
    - split; [cbn; rewrite length_app, length_replicate; lia|done]. }
  destruct (Z.eqb_spec x 0) as [->|Nx]; cbn.
  - eexists _, 0, (i :: l). split; [done|]. assert (0 :: i :: l ≡ₚ i :: 0 :: l) as Hp by constructor. split; [|done].
    apply (Hwf 0 (i :: l)); [done| |done]. constructor; [|done]. intros ->. apply Hnew. left.
  - eexists _, i, (x :: l). split; [done|]. split; [|done]. by apply (Hwf i (x :: l)); [|constructor|].
Qed.

(** The second half has room. *)
Lemma insert_second b x l i :
  wf b x l -> fits 16 i -> i ∉ x :: l -> (7 <= length l < 15)%nat ->
  exists b' x' l', insert b i = (b', if (length l =? 14)%nat then 1 else 0) /\ wf b' x' l' /\ x' :: l' ≡ₚ i :: x :: l.
Proof.
  intros W Hi Hnew Hlen. destruct (halves b x l W) as [E0 E1]. destruct (wf_length _ _ _ W) as [H0 H1].
  unfold insert. rewrite (rotate_spec (entries1 b)) by done. destruct W as [_ _ _ Wn Wf Wd].
  replace (7 - length l)%nat with 0%nat in E0 by lia. rewrite app_nil_r in E0.
  replace (Nat.min 8 (15 - length l)) with (S (14 - length l)) in E1 by lia.
  rewrite replicate_S_end, app_assoc in E1.
  assert (length (drop 7 l ++ replicate (14 - length l) 0) = 7%nat) as Hl7 by (rewrite length_app, length_drop, length_replicate; lia).
  assert (exists z, take 7 l !! 6%nat = Some z /\ z <> 0) as (z & Hz & Nz).
  { destruct (lookup_lt_is_Some_2 l 6) as [z Hz]; [lia|]. exists z. rewrite lookup_take_lt by lia. split; [done|].
    rewrite Forall_lookup in Wn. by eapply Wn. }
  assert (lane (entries0 b) 7 = z) as E7.
  { unfold lane. rewrite E0. cbn. by apply nth_lookup_Some. }
  rewrite E7, (proj2 (Z.eqb_neq z 0)) by done.
  unfold lane. rewrite E1, nth_end, take_app_length' by done. cbn [Z.eqb negb].
  set (tail := drop 7 l ++ replicate (14 - length l) 0) in *.
  assert (forall y, (if nth 7 (<[0%nat := y]> (0 :: tail)) 0 =? 0 then 0 else 1) = if (length l =? 14)%nat then 1 else 0) as Hc.
  { intros y. change (nth 7 (<[0%nat := y]> (0 :: tail)) 0) with (nth 6 tail 0).
    unfold tail. destruct (Nat.eqb_spec (length l) 14) as [E14|N14].
    - rewrite app_nth1 by (rewrite length_drop; lia). destruct (Z.eqb_spec (nth 6 (drop 7 l) 0) 0) as [F|]; [|done].
      destruct (lookup_lt_is_Some_2 l 13) as [u Hu]; [lia|]. rewrite Forall_lookup in Wn. exfalso. apply (Wn 13%nat u Hu).
      rewrite <- F. symmetry. apply nth_lookup_Some. by rewrite lookup_drop.
    - rewrite app_nth2 by (rewrite length_drop; lia). by rewrite nth_zeros. }
  assert (forall y k, k <> 0 -> y :: take 7 l ++ k :: drop 7 l ≡ₚ i :: x :: l ->
    wf (mk (y :: take 7 l) (k :: tail)) y (take 7 l ++ k :: drop 7 l)) as Hwf.
  { intros y k Nk Hp. split; [| | | |by rewrite Hp; constructor|by rewrite Hp; constructor].
    - unfold as_array, layout, tail. cbn [entries0 entries1 app]. f_equal. rewrite <- app_assoc. f_equal. cbn [app]. f_equal. f_equal.
      f_equal. rewrite length_app. cbn. rewrite length_take, length_drop. lia.
    - cbn. rewrite length_take. split; lia.
    - rewrite length_app. cbn. rewrite length_take, length_drop. lia.
    - rewrite <- (take_drop 7 l) in Wn. apply Forall_app in Wn as [? ?]. apply Forall_app. split; [done|by constructor]. }
  destruct (Z.eqb_spec i 0) as [->|Ni].
  - assert (x <> 0) as Nx by (intros ->; apply Hnew; left). rewrite E0, Hc. cbn.
    eexists _, 0, (take 7 l ++ x :: drop 7 l). split; [done|].
    assert (0 :: take 7 l ++ x :: drop 7 l ≡ₚ 0 :: x :: l) as Hp by (rewrite <- Permutation_middle, take_drop; done).
    split; [by apply Hwf|done].
  - rewrite E0, Hc. cbn. eexists _, x, (take 7 l ++ i :: drop 7 l). split; [done|].
    assert (x :: take 7 l ++ i :: drop 7 l ≡ₚ i :: x :: l) as Hp by (rewrite <- Permutation_middle, take_drop; constructor).
    split; [by apply Hwf|done].
Qed.

Lemma insert_full b x l i : wf b x l -> length l = 15%nat -> insert b i = (b, -1).
Proof.
  intros W Hl. destruct (halves b x l W) as [E0 E1]. pose proof (wf_nonzero _ _ _ W) as Wn. rewrite Forall_lookup in Wn.
  rewrite Hl in E0, E1. cbn in E1. rewrite app_nil_r in E0, E1.
  destruct (lookup_lt_is_Some_2 l 6) as [u Hu]; [lia|]. destruct (lookup_lt_is_Some_2 l 14) as [v Hv]; [lia|].
  assert (lane (entries0 b) 7 = u) as Eu.
  { unfold lane. rewrite E0. cbn. apply nth_lookup_Some. by rewrite lookup_take_lt by lia. }
  assert (lane (entries1 b) 7 = v) as Ev.
  { unfold lane. rewrite E1. apply nth_lookup_Some. by rewrite lookup_drop. }
  unfold insert. rewrite Eu, Ev. pose proof (Wn _ _ Hu). pose proof (Wn _ _ Hv).
  by rewrite !(proj2 (Z.eqb_neq _ 0)) by done.
Qed.

Lemma movmskb_nonneg l : 0 <= movmskb l.
Proof. induction l as [|[] l IH]; cbn [movmskb foldr]; [done|..]; fold (movmskb l); lia. Qed.

Lemma movmskb_zero l : movmskb l = 0 <-> forall b, b ∈ l -> b = false.
Proof.
  induction l as [|b l IH]; [split; [by intros _ b ?%elem_of_nil|done]|].
  cbn [movmskb foldr]. fold (movmskb l). pose proof (movmskb_nonneg l). split.
  - intros E. destruct b; [lia|]. intros b [->|Hb]%elem_of_cons; [done|]. apply IH; [lia|done].
  - intros Hb. rewrite (Hb b) by left. rewrite (proj2 IH); [done|]. intros c Hc. apply Hb. by right.
Qed.

Lemma lor_zero a b : 0 <= a -> 0 <= b -> Z.lor a b = 0 <-> a = 0 /\ b = 0.
Proof. intros. apply Z.lor_eq_0_iff. Qed.

Lemma contains_spec b x l i : wf b x l -> contains b i = bool_decide (i ∈ x :: l).
Proof.
  intros W. destruct (halves b x l W) as [E0 E1]. unfold contains. destruct (Z.eqb_spec i 0) as [->|Ni].
  - unfold lane. rewrite E0. cbn. pose proof (wf_nonzero _ _ _ W) as Wn. rewrite Forall_forall in Wn.
    destruct (Z.eqb_spec x 0) as [->|N]; symmetry; [apply bool_decide_eq_true; left|].
    apply bool_decide_eq_false. intros [?|H]%elem_of_cons; [congruence|]. by apply (Wn 0 H).
  - pose proof (movmskb_nonneg ((fun x => x =? i) <$> entries0 b)). pose proof (movmskb_nonneg ((fun x => x =? i) <$> entries1 b)).
    destruct (Z.eqb_spec (Z.lor (movmskb ((fun x => x =? i) <$> entries0 b)) (movmskb ((fun x => x =? i) <$> entries1 b))) 0) as [E|N];
      symmetry; [apply bool_decide_eq_false|apply bool_decide_eq_true].
    + rewrite lor_zero, !movmskb_zero in E by done. destruct E as [F0 F1]. intros Hin.
      assert (i ∈ as_array b) as [Hi|Hi]%elem_of_app.
      { rewrite (wf_layout _ _ _ W). unfold layout. rewrite app_comm_cons, elem_of_app. by left. }
      * assert ((i =? i) = false) as F by (apply F0, list_elem_of_fmap; eauto). by rewrite Z.eqb_refl in F.
      * assert ((i =? i) = false) as F by (apply F1, list_elem_of_fmap; eauto). by rewrite Z.eqb_refl in F.
    + destruct (decide (i ∈ x :: l)) as [|Hno]; [done|]. destruct N. apply lor_zero; [done..|].
      assert (forall y, y ∈ as_array b -> (y =? i) = false) as Hf.
      { intros y. rewrite (wf_layout _ _ _ W). unfold layout. rewrite app_comm_cons, elem_of_app. intros [Hy|[-> _]%elem_of_replicate].
        - apply Z.eqb_neq. intros ->. done.
        - by apply Z.eqb_neq. }
      split; apply movmskb_zero; intros c (y & -> & Hy)%list_elem_of_fmap; apply Hf, elem_of_app; auto.
Qed.

Lemma nonzero_lanes l n :
  Forall (fun y => y <> 0) l ->
  ((fun y => negb (y =? 0)) <$> (l ++ replicate n 0)) = replicate (length l) true ++ replicate n false.
Proof.
  intros Hl. rewrite fmap_app, fmap_replicate. f_equal. induction Hl as [|y l Hy _ IH]; [done|]. cbn.
  by rewrite (proj2 (Z.eqb_neq y 0)), IH.
Qed.

(** [size] as a function of which lanes are in use. *)
Definition lane_count (c : bool) (k : nat) : Z :=
  let x := Z.land (movmskb (c :: replicate (Nat.min 7 k) true ++ replicate (7 - k) false)) 0x5555 in
  let y := Z.land (movmskb (replicate (k - 7) true ++ replicate (Nat.min 8 (15 - k)) false)) 0xaaaa in
  popcount (Z.lor (Z.lor x y) 1).

Lemma lane_count_spec c k : (k <= 15)%nat -> lane_count c k = Z.of_nat (S k).
Proof. intros Hk. do 16 (destruct k as [|k]; [by destruct c; vm_compute|]). lia. Qed.

Lemma size_spec b x l : wf b x l -> size b = Z.of_nat (length (x :: l)).
Proof.
  intros W. destruct (halves b x l W) as [E0 E1]. pose proof (wf_nonzero _ _ _ W) as Wn.
  rewrite <- (take_drop 7 l), Forall_app in Wn. destruct Wn as [Wn0 Wn1].
  cbn [length]. rewrite <- (lane_count_spec (negb (x =? 0)) (length l)) by apply W. unfold size, lane_count.
  rewrite E0, E1. cbn [fmap list_fmap]. change (list_fmap Z bool ?f ?l) with (f <$> l).
  rewrite !nonzero_lanes by done. by rewrite length_take, length_drop.
Qed.

Lemma init1_wf i : fits 16 i -> wf (init1 i) i [].
Proof. intros Hi. split; [done|done|cbn; lia|done|by constructor|apply NoDup_singleton]. Qed.

(** A set of 16-bit numbers. *)
Definition ok (b : t) : Prop := exists x l, wf b x l.

Lemma insert_ok b i :
  ok b -> fits 16 i -> i ∉ elems b -> (length (elems b) < 16)%nat ->
  exists b', insert b i = (b', if (length (elems b) =? 15)%nat then 1 else 0) /\ ok b' /\ elems b' ≡ₚ i :: elems b.
Proof.
  intros (x & l & W) Hi. rewrite (wf_elems _ _ _ W). intros Hnew Hlen. cbn [length] in *.
  destruct (Nat.lt_ge_cases (length l) 7) as [Hlt|Hge].
  - destruct (insert_first _ _ _ _ W Hi Hnew Hlt) as (b' & x' & l' & E & W' & Hp). exists b'.
    rewrite E, (wf_elems _ _ _ W'). split_and!; [|by exists x', l'|done]. by destruct (Nat.eqb_spec (S (length l)) 15); [lia|].
  - destruct (insert_second _ _ _ _ W Hi Hnew) as (b' & x' & l' & E & W' & Hp); [lia|]. exists b'.
    rewrite E, (wf_elems _ _ _ W'). split_and!; [done|by exists x', l'|done].
Qed.

Lemma full_array b : ok b -> length (elems b) = 16%nat -> as_array b = elems b.
Proof.
  intros (x & l & W). rewrite (wf_elems _ _ _ W), (wf_layout _ _ _ W). cbn. intros [= E]. unfold layout.
  rewrite E. cbn. by rewrite app_nil_r.
Qed.

Lemma ok_elems b : ok b -> NoDup (elems b) /\ Forall (fits 16) (elems b) /\ (1 <= length (elems b) <= 16)%nat.
Proof.
  intros (x & l & W). rewrite (wf_elems _ _ _ W). pose proof (wf_short _ _ _ W). split_and!; [apply W|apply W|cbn; lia..].
Qed.

(** C26: a sparse bitset is a set of up to 16 numbers.  [contains]
    and [size] are those of the set of its entries, without repetition;
    inserting a new number adds exactly that, says whether the bitset is full
    now, and is refused with -1 when it was full before. *)
Theorem sparse_bitset_refines b i (W : ok b) (Hi : fits 16 i) :
  NoDup (elems b) /\ contains b i = bool_decide (i ∈ elems b) /\
  size b = Z.of_nat (length (elems b)) /\ size b <= CAPACITY /\
  (i ∉ elems b ->
     if size b =? CAPACITY then insert b i = (b, -1)
     else exists b', insert b i = (b', if size b =? CAPACITY - 1 then 1 else 0) /\ ok b' /\ elems b' ≡ₚ i :: elems b) /\
  ok (init1 i) /\ elems (init1 i) = [i].
Proof.
  destruct W as (x & l & W). rewrite (wf_elems _ _ _ W), (contains_spec _ _ _ _ W), (size_spec _ _ _ W).
  change CAPACITY with 16. pose proof (wf_short _ _ _ W) as Hs. split_and!; try done.
  - apply W.
  - cbn [length]. lia.
  - intros Hnew. cbn [length]. destruct (Z.eqb_spec (Z.of_nat (S (length l))) 16) as [E|N]; [eapply insert_full; [done|lia]|].
    destruct (insert_ok b i) as (b' & E & W' & Hp); rewrite ?(wf_elems _ _ _ W) in *; cbn [length] in *;
      [by exists x, l|done|done|lia|]. exists b'. rewrite E. split_and!; [|done|done]. f_equal.
    destruct (Nat.eqb_spec (S (length l)) 15), (Z.eqb_spec (Z.of_nat (S (length l))) (16 - 1)); (done || lia).
  - exists i, []. by apply init1_wf.
Qed.

Lemma sparse_bitset_refines_witness :
  exists b', insert (init1 7) 9 = (b', 0) /\ ok b' /\ elems b' ≡ₚ [9; 7].
Proof.
  destruct (sparse_bitset_refines (init1 7) 9) as (_ & _ & _ & _ & H & _); [exists 7, []; by apply init1_wf|done|].
  apply H. vm_compute. intros F. inversion F as [|? ? ? F']; inversion F'.
Defined.

End sparse_bitset.
