(* ===== verification/OidAlloc.v ===== *)
(** * The OID allocator ([dbcore/sm-oid-alloc-impl.cpp])

    Free OIDs live in a stack (L1), in sparse bitsets for 64k swaths of the OID
    space (L2) and in a dense bitmap (L3); fresh ones come from a high water
    mark.  Threads take and return them in batches through a [thread_cache].
    An access outside of an array is a [bad_address]. *)
From stdpp Require Import base numbers functions list.
From Stdlib Require Import ZArith Lia.
From S2P Require Import Prelude Bits Dynarray SparseBitset.

Local Open Scope Z_scope.

(** ** Arrays and loops *)

Definition aget {A} (cap : Z) (a : Z -> A) (i : Z) : res A :=
  if (0 <=? i) && (i <? cap) then Ok (a i) else Throw bad_address.
Definition aset {A} (cap : Z) (a : Z -> A) (i : Z) (v : A) : res (Z -> A) :=
  if (0 <=? i) && (i <? cap) then Ok (<[i := v]> a) else Throw bad_address.

Fixpoint for_each {A S} (l : list A) (f : A -> S -> res S) (s : S) : res S :=
  match l with [] => Ok s | x :: l => s ← f x s; for_each l f s end.

(* src: dbcore/sm-defs.h:125-131 objcopy *)
Definition objcopy (dcap : Z) (dst : Z -> Z) (di scap : Z) (src : Z -> Z) (si n : Z) : res (Z -> Z) :=
  for_each (seqZ 0 n) (fun k d => v ← aget scap src (si + k); aset dcap d (di + k) v) dst.

Module sm_allocator.

(** The header, and the arrays behind it. *)
(* src: dbcore/sm-oid-alloc-impl.h:200-275 sm_allocator::header_data *)
Record t := mk {
  backing_store : dynarray.t;
  capacity_mark : Z;
  hiwater_mark : Z;
  l1_size : Z;
  l2_size : Z;
  l2_first_unused : Z;
  l2_scan_hand : Z;
  l2_loose_oids : Z;
  l3_capacity : Z;
  l3_loose_oids : Z;
  l3_scan_hand : Z;
  l1 : Z -> Z;
  l2 : Z -> Z;
  l2_assignments : Z -> Z;
  l2_maps : Z -> sparse_bitset.t;
  l3_words : Z -> Z }.

Definition set_backing_store (v : dynarray.t) (x : t) : t :=
  mk v (capacity_mark x) (hiwater_mark x) (l1_size x) (l2_size x) (l2_first_unused x)
     (l2_scan_hand x) (l2_loose_oids x) (l3_capacity x) (l3_loose_oids x) (l3_scan_hand x)
     (l1 x) (l2 x) (l2_assignments x) (l2_maps x) (l3_words x).
Definition set_capacity_mark (v : Z) (x : t) : t :=
  mk (backing_store x) v (hiwater_mark x) (l1_size x) (l2_size x) (l2_first_unused x)
     (l2_scan_hand x) (l2_loose_oids x) (l3_capacity x) (l3_loose_oids x) (l3_scan_hand x)
     (l1 x) (l2 x) (l2_assignments x) (l2_maps x) (l3_words x).
Definition set_hiwater_mark (v : Z) (x : t) : t :=
  mk (backing_store x) (capacity_mark x) v (l1_size x) (l2_size x) (l2_first_unused x)
     (l2_scan_hand x) (l2_loose_oids x) (l3_capacity x) (l3_loose_oids x) (l3_scan_hand x)
     (l1 x) (l2 x) (l2_assignments x) (l2_maps x) (l3_words x).
Definition set_l1_size (v : Z) (x : t) : t :=
  mk (backing_store x) (capacity_mark x) (hiwater_mark x) v (l2_size x) (l2_first_unused x)
     (l2_scan_hand x) (l2_loose_oids x) (l3_capacity x) (l3_loose_oids x) (l3_scan_hand x)
     (l1 x) (l2 x) (l2_assignments x) (l2_maps x) (l3_words x).
Definition set_l2_size (v : Z) (x : t) : t :=
  mk (backing_store x) (capacity_mark x) (hiwater_mark x) (l1_size x) v (l2_first_unused x)
     (l2_scan_hand x) (l2_loose_oids x) (l3_capacity x) (l3_loose_oids x) (l3_scan_hand x)
     (l1 x) (l2 x) (l2_assignments x) (l2_maps x) (l3_words x).
Definition set_l2_first_unused (v : Z) (x : t) : t :=
  mk (backing_store x) (capacity_mark x) (hiwater_mark x) (l1_size x) (l2_size x) v
     (l2_scan_hand x) (l2_loose_oids x) (l3_capacity x) (l3_loose_oids x) (l3_scan_hand x)
     (l1 x) (l2 x) (l2_assignments x) (l2_maps x) (l3_words x).
Definition set_l2_scan_hand (v : Z) (x : t) : t :=
  mk (backing_store x) (capacity_mark x) (hiwater_mark x) (l1_size x) (l2_size x)
     (l2_first_unused x) v (l2_loose_oids x) (l3_capacity x) (l3_loose_oids x) (l3_scan_hand x)
     (l1 x) (l2 x) (l2_assignments x) (l2_maps x) (l3_words x).
Definition set_l2_loose_oids (v : Z) (x : t) : t :=
  mk (backing_store x) (capacity_mark x) (hiwater_mark x) (l1_size x) (l2_size x)
     (l2_first_unused x) (l2_scan_hand x) v (l3_capacity x) (l3_loose_oids x) (l3_scan_hand x)
     (l1 x) (l2 x) (l2_assignments x) (l2_maps x) (l3_words x).
Definition set_l3_capacity (v : Z) (x : t) : t :=
  mk (backing_store x) (capacity_mark x) (hiwater_mark x) (l1_size x) (l2_size x)
     (l2_first_unused x) (l2_scan_hand x) (l2_loose_oids x) v (l3_loose_oids x)
     (l3_scan_hand x) (l1 x) (l2 x) (l2_assignments x) (l2_maps x) (l3_words x).
Definition set_l3_loose_oids (v : Z) (x : t) : t :=
  mk (backing_store x) (capacity_mark x) (hiwater_mark x) (l1_size x) (l2_size x)
     (l2_first_unused x) (l2_scan_hand x) (l2_loose_oids x) (l3_capacity x) v (l3_scan_hand x)
     (l1 x) (l2 x) (l2_assignments x) (l2_maps x) (l3_words x).
Definition set_l3_scan_hand (v : Z) (x : t) : t :=
  mk (backing_store x) (capacity_mark x) (hiwater_mark x) (l1_size x) (l2_size x)
     (l2_first_unused x) (l2_scan_hand x) (l2_loose_oids x) (l3_capacity x) (l3_loose_oids x) v
     (l1 x) (l2 x) (l2_assignments x) (l2_maps x) (l3_words x).
Definition set_l1 (v : Z -> Z) (x : t) : t :=
  mk (backing_store x) (capacity_mark x) (hiwater_mark x) (l1_size x) (l2_size x)
     (l2_first_unused x) (l2_scan_hand x) (l2_loose_oids x) (l3_capacity x) (l3_loose_oids x)
     (l3_scan_hand x) v (l2 x) (l2_assignments x) (l2_maps x) (l3_words x).
Definition set_l2 (v : Z -> Z) (x : t) : t :=
  mk (backing_store x) (capacity_mark x) (hiwater_mark x) (l1_size x) (l2_size x)
     (l2_first_unused x) (l2_scan_hand x) (l2_loose_oids x) (l3_capacity x) (l3_loose_oids x)
     (l3_scan_hand x) (l1 x) v (l2_assignments x) (l2_maps x) (l3_words x).
Definition set_l2_assignments (v : Z -> Z) (x : t) : t :=
  mk (backing_store x) (capacity_mark x) (hiwater_mark x) (l1_size x) (l2_size x)
     (l2_first_unused x) (l2_scan_hand x) (l2_loose_oids x) (l3_capacity x) (l3_loose_oids x)
     (l3_scan_hand x) (l1 x) (l2 x) v (l2_maps x) (l3_words x).
Definition set_l2_maps (v : Z -> sparse_bitset.t) (x : t) : t :=
  mk (backing_store x) (capacity_mark x) (hiwater_mark x) (l1_size x) (l2_size x)
     (l2_first_unused x) (l2_scan_hand x) (l2_loose_oids x) (l3_capacity x) (l3_loose_oids x)
     (l3_scan_hand x) (l1 x) (l2 x) (l2_assignments x) v (l3_words x).
Definition set_l3_words (v : Z -> Z) (x : t) : t :=
  mk (backing_store x) (capacity_mark x) (hiwater_mark x) (l1_size x) (l2_size x)
     (l2_first_unused x) (l2_scan_hand x) (l2_loose_oids x) (l3_capacity x) (l3_loose_oids x)
     (l3_scan_hand x) (l1 x) (l2 x) (l2_assignments x) (l2_maps x) v.

(* src: dbcore/sm-oid-alloc-impl.h:525-525 sm_allocator::MAX_CAPACITY_MARK *)
Definition MAX_CAPACITY_MARK : Z := 2 ^ 32 - 1 - 1.
(** The header takes 48 bytes. *)
(* src: dbcore/sm-oid-alloc-impl.h:532-533 sm_allocator::L1_CAPACITY *)
Definition L1_CAPACITY : Z := (2 ^ 16 - 48) / 4.
(* src: dbcore/sm-oid-alloc-impl.h:545-545 sm_allocator::L2_CAPACITY *)
Definition L2_CAPACITY : Z := 1 + 65535.
(* src: dbcore/sm-oid-alloc-impl.h:577-577 sm_allocator::L3_BITS_PER_WORD *)
Definition L3_BITS_PER_WORD : Z := 8 * 8.
(* src: dbcore/sm-oid-alloc-impl.h:578-578 sm_allocator::L3_MAX_WORDS *)
Definition L3_MAX_WORDS : Z := (2 ^ 32 - 1) / L3_BITS_PER_WORD + 1.

(* src: dbcore/sm-oid-alloc-impl.h:318-321 sm_allocator::l1_alloc_size *)
Definition l1_alloc_size : Z := 48 + 4 * L1_CAPACITY.
(* src: dbcore/sm-oid-alloc-impl.h:326-329 sm_allocator::l2_alloc_size *)
Definition l2_alloc_size : Z := l1_alloc_size + 4 * L2_CAPACITY + 2 * L2_CAPACITY + 32 * L2_CAPACITY.
(* src: dbcore/sm-oid-alloc-impl.h:335-338 sm_allocator::l3_alloc_size *)
Definition l3_alloc_size (end_word : Z) : Z := l2_alloc_size + 8 * end_word.

(* src: dbcore/sm-oid-alloc-impl.h:367-367 sm_allocator::l2_valid *)
Definition l2_valid (a : t) : bool := negb (l2_first_unused a =? 0).
(* src: dbcore/sm-oid-alloc-impl.h:376-376 sm_allocator::l3_valid *)
Definition l3_valid (a : t) : bool := negb (l3_capacity a =? 0).
(* src: dbcore/sm-oid-alloc-impl.h:377-377 sm_allocator::l3_end *)
Definition l3_end (a : t) : Z := u32 (l3_capacity a * L3_BITS_PER_WORD).

(* src: dbcore/sm-oid-alloc-impl.cpp:149-156 sm_allocator::alloc_size *)
Definition alloc_size (a : t) : Z :=
  if l3_valid a then l3_alloc_size (l3_capacity a) else if l2_valid a then l2_alloc_size else l1_alloc_size.

End sm_allocator.

Module thread_cache.

(* src: dbcore/sm-oid-alloc-impl.h:295-296 thread_cache *)
Definition FILL_TARGET : Z := 64.
Definition N : Z := 126.

(* src: dbcore/sm-oid-alloc-impl.h:298-300 thread_cache *)
Record t := mk { f : Z; nentries : Z; entries : Z -> Z }.

(* src: dbcore/sm-oid-alloc-impl.h:302-302 thread_cache::thread_cache *)
Definition make (fid : Z) : t := mk fid 0 (fun _ => 0).

(* src: dbcore/sm-oid-alloc-impl.h:304-304 thread_cache::space_remaining *)
Definition space_remaining (tc : t) : Z := u32 (N - nentries tc).

(** [entries[nentries++] = x] *)
Definition push (x : Z) (tc : t) : res t :=
  e ← aset N (entries tc) (nentries tc) x; Ok (mk (f tc) (u32 (nentries tc + 1)) e).

End thread_cache.

Section allocator.
Context `{OS : Os}.
Import sm_allocator.
Abbreviation cache := thread_cache.t.

(** ** Start and growth *)

(* src: dbcore/sm-oid-alloc-impl.cpp:17-65 sm_allocator::header_data::header_data *)
Definition fresh (d : dynarray.t) : t :=
  mk d (1 * 1024 * 1024) 0 0 0xdead 0 0xdead 0xdeadbeef 0 0xdeadbeef 0xdeadbeef
     (fun _ => 0) (fun _ => 0) (fun _ => 0) (fun _ => sparse_bitset.init1 0) (fun _ => 0).

(* src: dbcore/sm-oid-alloc-impl.cpp:3-9 sm_allocator::make *)
Definition make : res t :=
  d ← dynarray.make_dynarray (l3_alloc_size L3_MAX_WORDS) l1_alloc_size; Ok (fresh d).

(** The bitmaps keep what they held; [l2] lists them all as unused. *)
(* src: dbcore/sm-oid-alloc-impl.cpp:67-97 sm_allocator::init_l2 *)
Definition init_l2 (a : t) : res t :=
  d ← dynarray.ensure_size l2_alloc_size (backing_store a);
  Ok (set_l2_loose_oids 0 (set_l2_scan_hand 0 (set_l2_first_unused 1 (set_l2_size 0
       (set_l2 (fun i => i) (set_l2_assignments (fun _ => 0) (set_backing_store d a))))))).

(* src: dbcore/sm-oid-alloc-impl.cpp:99-147 sm_allocator::init_l3 *)
Definition init_l3 (end_word : Z) (a : t) : res t :=
  a ← (if l3_capacity a <? end_word then
         d ← dynarray.ensure_size (l3_alloc_size end_word) (backing_store a);
         let a := set_backing_store d a in
         let a := if l3_capacity a =? 0 then set_l3_scan_hand 0 (set_l3_loose_oids 0 a) else a in
         let words := l3_words a in
         Ok (set_l3_words (fun i => if (l3_capacity a <=? i) && (i <? end_word) then 0 else words i) a)
       else if end_word <? l3_capacity a then
         d ← dynarray.truncate (l3_alloc_size end_word) (backing_store a);
         let a := set_backing_store d a in
         if end_word =? 0 then Ok (set_l3_scan_hand 0xdeadbeef (set_l3_loose_oids 0xdeadbeef a))
         else Ok (if l3_capacity a <=? l3_scan_hand a then set_l3_scan_hand 0 a else a)
       else Ok a);
  Ok (set_l3_capacity end_word a).

(* src: dbcore/sm-oid-alloc-impl.cpp:158-164 sm_allocator::propose_capacity *)
Definition propose_capacity (align : Z) (a : t) : Z :=
  let pc := Z.min (u32 (5 * capacity_mark a) / 4) MAX_CAPACITY_MARK in
  let delta := align_down (u64 (pc - capacity_mark a)) align in
  if negb (delta =? 0) then u32 (capacity_mark a + delta) else 0.

(** ** L1 *)

(** [l1[l1_size++] = x] *)
Definition push_l1 (x : Z) (a : t) : res t :=
  l ← aset L1_CAPACITY (l1 a) (l1_size a) x; Ok (set_l1_size (u16 (l1_size a + 1)) (set_l1 l a)).

(* src: dbcore/sm-oid-alloc-impl.cpp:244-256 sm_allocator::_fill_from_l1 *)
Definition _fill_from_l1 (tc : cache) (target : Z) (a : t) : res (Z * cache * t) :=
  let l1_target := Z.min target (l1_size a) in
  if negb (l1_target =? 0) then
    let a := set_l1_size (u16 (l1_size a - l1_target)) a in
    e ← objcopy thread_cache.N (thread_cache.entries tc) (thread_cache.nentries tc) L1_CAPACITY (l1 a) (l1_size a) l1_target;
    let tc := thread_cache.mk (thread_cache.f tc) (u32 (thread_cache.nentries tc + l1_target)) e in
    Ok (target - l1_target, tc, a)
  else Ok (target, tc, a).

(** One OID of L1 goes to the bitset of its swath. *)
(* src: dbcore/sm-oid-alloc-impl.cpp:267-302 sm_allocator::_drain_l1 *)
Definition drain_one (base i : Z) (a : t) : res t :=
  x ← aget L1_CAPACITY (l1 a) (base + i);
  let swath := Z.shiftr x 16 in
  bidx ← aget L2_CAPACITY (l2_assignments a) swath;
  if negb (bidx =? 0) then
    let a := set_l2_loose_oids (u32 (l2_loose_oids a + 1)) a in
    m ← aget L2_CAPACITY (l2_maps a) bidx;
    let '(m, rval) := sparse_bitset.insert m (u16 x) in
    let a := set_l2_maps (<[bidx := m]> (l2_maps a)) a in
    if negb (rval =? 0) then
      l ← aset L2_CAPACITY (l2 a) (l2_size a) (Z.lor (Z.land x (Z.lnot 0xffff)) bidx);
      let a := set_l2_size (u16 (l2_size a + 1)) (set_l2 l a) in
      let a := set_l2_assignments (<[swath := 0]> (l2_assignments a)) a in
      Ok (set_l2_loose_oids (u32 (l2_loose_oids a - sparse_bitset.CAPACITY)) a)
    else Ok a
  else if l2_first_unused a =? L2_CAPACITY then push_l1 x a
  else
    v ← aget L2_CAPACITY (l2 a) (l2_first_unused a);
    let bidx := u16 v in
    let a := set_l2_first_unused (u16 (l2_first_unused a + 1)) a in
    let a := set_l2_assignments (<[swath := bidx]> (l2_assignments a)) a in
    let a := set_l2_maps (<[bidx := sparse_bitset.init1 (u16 x)]> (l2_maps a)) a in
    Ok (set_l2_loose_oids (u32 (l2_loose_oids a + 1)) a).

(* src: dbcore/sm-oid-alloc-impl.cpp:258-305 sm_allocator::_drain_l1 *)
Definition _drain_l1 (target : Z) (a : t) : res (Z * t) :=
  a ← (if negb (l2_valid a) then init_l2 a else Ok a);
  let base := u16 (l1_size a - target) in
  a ← for_each (seqZ 0 target) (drain_one base) (set_l1_size base a);
  Ok (l1_size a - base, a).

(* src: dbcore/sm-oid-alloc-impl.cpp:221-242 sm_allocator::drain_cache *)
Definition drain_cache (tc : cache) (target : Z) (a : t) : res (bool * cache * t) :=
  let target := if target =? 0 then thread_cache.nentries tc else target in
  '(_, a) ← (if L1_CAPACITY <? l1_size a + thread_cache.nentries tc then _drain_l1 (L1_CAPACITY / 2) a else Ok (0, a));
  let l1_target := Z.min target (L1_CAPACITY - l1_size a) in
  let n := u32 (thread_cache.nentries tc - l1_target) in
  l ← objcopy L1_CAPACITY (l1 a) (l1_size a) thread_cache.N (thread_cache.entries tc) n l1_target;
  let a := set_l1_size (u16 (l1_size a + l1_target)) (set_l1 l a) in
  Ok (target - l1_target =? 0, thread_cache.mk (thread_cache.f tc) n (thread_cache.entries tc), a).

(** ** L2 *)

Section templates.
Context {X : Type}.
Abbreviation filter := (Z -> t * X -> res (bool * (t * X))).
Abbreviation sink := (Z -> t * X -> res (t * X)).

Definition _nop_filter : filter := fun _ st => Ok (true, st).

(* src: dbcore/sm-oid-alloc-impl.cpp:319-337 sm_allocator::_scan_l2 *)
Fixpoint scan_loop (fuel : nat) (f : filter) (s : sink) (target end_rejects : Z) (st : t * X) : res (Z * (t * X)) :=
  if (0 <? target) && (end_rejects <? l2_size (fst st)) then
    match fuel with
    | O => Throw Spinning
    | S fuel =>
        x ← aget L2_CAPACITY (l2 (fst st)) (l2_size (fst st) - 1);
        let base := Z.land x (Z.lnot 0xffff) in
        '(accepted, st) ← f base st;
        if (accepted : bool) then
          let bdx := u16 x in
          m ← aget L2_CAPACITY (l2_maps (fst st)) bdx;
          st ← for_each (sparse_bitset.as_array m) (fun offset => s (u32 (base + offset))) st;
          let '(a, x) := st in
          let a := set_l2_size (u16 (l2_size a - 1)) a in
          let a := set_l2_first_unused (u16 (l2_first_unused a - 1)) a in
          l ← aset L2_CAPACITY (l2 a) (l2_first_unused a) bdx;
          scan_loop fuel f s (target - sparse_bitset.CAPACITY) end_rejects (set_l2 l a, x)
        else
          let '(a, x') := st in
          y ← aget L2_CAPACITY (l2 a) end_rejects;
          l ← aset L2_CAPACITY (l2 a) (l2_size a - 1) y;
          l ← aset L2_CAPACITY l end_rejects x;
          scan_loop fuel f s target (end_rejects + 1) (set_l2 l a, x')
    end
  else Ok (target, st).

(** Every turn accepts or rejects one of the full bitsets. *)
(* src: dbcore/sm-oid-alloc-impl.cpp:307-340 sm_allocator::_scan_l2 *)
Definition _scan_l2 (n : Z) (f : filter) (s : sink) (st : t * X) : res (Z * (t * X)) :=
  scan_loop (Z.to_nat (l2_size (fst st))) f s n 0 st.

(* src: dbcore/sm-oid-alloc-impl.cpp:363-381 sm_allocator::_scavenge_l2 *)
Fixpoint scavenge_loop (idxs : list Z) (f : filter) (s : sink) (target : Z) (st : t * X) : res (Z * Z * (t * X)) :=
  match idxs with
  | [] => Ok (L2_CAPACITY, target, st)
  | i :: idxs =>
      if 0 <? target then
        let idx := u16 (l2_scan_hand (fst st) + i) in
        bdx ← aget L2_CAPACITY (l2_assignments (fst st)) idx;
        let base := u32 (Z.shiftl idx 16) in
        '(take_it, st) ← (if bdx =? 0 then Ok (false, st) else f base st);
        if (take_it : bool) then
          m ← aget L2_CAPACITY (l2_maps (fst st)) bdx;
          '(target, st) ← for_each (sparse_bitset.elems m) (fun x '(target, st) =>
            '(a, x') ← s (u32 (base + x)) st;
            Ok (target - 1, (set_l2_loose_oids (u32 (l2_loose_oids a - 1)) a, x'))) (target, st);
          let '(a, x') := st in
          let a := set_l2_first_unused (u16 (l2_first_unused a - 1)) a in
          l ← aset L2_CAPACITY (l2 a) (l2_first_unused a) bdx;
          let a := set_l2_assignments (<[idx := 0]> (l2_assignments a)) (set_l2 l a) in
          scavenge_loop idxs f s target (a, x')
        else scavenge_loop idxs f s target st
      else Ok (i, target, st)
  end.

(* src: dbcore/sm-oid-alloc-impl.cpp:356-384 sm_allocator::_scavenge_l2 *)
Definition _scavenge_l2 (n : Z) (f : filter) (s : sink) (st : t * X) : res (Z * (t * X)) :=
  '(i, target, (a, x)) ← scavenge_loop (seqZ 0 L2_CAPACITY) f s n st;
  Ok (target, (set_l2_scan_hand (u16 (l2_scan_hand a + i)) a, x)).

(** ** L3 *)

(* src: dbcore/sm-oid-alloc-impl.cpp:480-489 sm_allocator::_scavenge_l3 *)
Fixpoint scavenge_word (fuel : nat) (s : sink) (base hand target : Z) (st : t * X) : res (Z * (t * X)) :=
  match fuel with
  | O => Throw Spinning
  | S fuel =>
      let word := l3_words (fst st) hand in
      '(a, x) ← s (u32 (base + ctz word)) st;
      let a := set_l3_loose_oids (u32 (l3_loose_oids a - 1)) a in
      let word := Z.land word (word - 1) in
      let a := set_l3_words (<[hand := word]> (l3_words a)) a in
      if word =? 0 then Ok (target - 1, (a, x)) else scavenge_word fuel s base hand (target - 1) (a, x)
  end.

(* src: dbcore/sm-oid-alloc-impl.cpp:475-499 sm_allocator::_scavenge_l3 *)
Fixpoint scavenge_l3_loop (fuel : nat) (f : filter) (s : sink) (sentinel target : Z) (st : t * X) : res (Z * (t * X)) :=
  match fuel with
  | O => Throw Spinning
  | S fuel =>
      if 0 <? target then
        let hand := l3_scan_hand (fst st) in
        let base := u32 (hand * L3_BITS_PER_WORD) in
        word ← aget (l3_capacity (fst st)) (l3_words (fst st)) hand;
        let st := (set_l3_scan_hand (u32 (hand + 1)) (fst st), snd st) in
        '(take_it, st) ← (if word =? 0 then Ok (false, st) else f base st);
        '(target, (a, x)) ← (if (take_it : bool) then scavenge_word 64 s base hand target st else Ok (target, st));
        let a := if l3_capacity a <=? l3_scan_hand a then set_l3_scan_hand 0 a else a in
        if l3_scan_hand a =? sentinel then Ok (target, (a, x)) else scavenge_l3_loop fuel f s sentinel target (a, x)
      else Ok (target, st)
  end.

(* src: dbcore/sm-oid-alloc-impl.cpp:469-500 sm_allocator::_scavenge_l3 *)
Definition _scavenge_l3 (n : Z) (f : filter) (s : sink) (st : t * X) : res (Z * (t * X)) :=
  scavenge_l3_loop (S (Z.to_nat (l3_capacity (fst st)))) f s (l3_scan_hand (fst st)) n st.

End templates.

(** The sinks: push to a thread's cache, to L1, to L3. *)
Definition to_cache : Z -> t * cache -> res (t * cache) := fun x '(a, tc) => tc ← thread_cache.push x tc; Ok (a, tc).
Definition to_l1 {X} : Z -> t * X -> res (t * X) := fun x '(a, y) => a ← push_l1 x a; Ok (a, y).

(* src: dbcore/sm-oid-alloc-impl.cpp:459-467 sm_allocator::_insert_l3 *)
Definition _insert_l3 (x : Z) (a : t) : res t :=
  let i := x / L3_BITS_PER_WORD in
  word ← aget (l3_capacity a) (l3_words a) i;
  let word := Z.lor word (u64 (Z.shiftl 1 (x mod L3_BITS_PER_WORD))) in
  Ok (set_l3_loose_oids (u32 (l3_loose_oids a + 1)) (set_l3_words (<[i := word]> (l3_words a)) a)).

(* src: dbcore/sm-oid-alloc-impl.cpp:342-354 sm_allocator::_fill_from_l2 *)
Definition _fill_from_l2 (tc : cache) (target : Z) (a : t) : res (Z * cache * t) :=
  if negb (l2_valid a) || (l2_size a =? 0) then Ok (target, tc, a)
  else '(left_, (a, tc)) ← _scan_l2 target _nop_filter to_cache (a, tc); Ok (left_, tc, a).

(* src: dbcore/sm-oid-alloc-impl.cpp:386-402 sm_allocator::_scavenge_l2 *)
Definition _scavenge_l2_to_l1 (target : Z) (a : t) : res (Z * t) :=
  if negb (l2_valid a) || (l2_loose_oids a <? target) then Ok (target, a)
  else '(left_, (a, _)) ← _scavenge_l2 target _nop_filter to_l1 (a, tt); Ok (left_, a).

(** The largest OID that was refused for being behind the end of L3 is kept
    in [biggest]. *)
(* src: dbcore/sm-oid-alloc-impl.cpp:420-428 sm_allocator::_drain_l2 *)
Definition l3_filter : Z -> t * Z -> res (bool * (t * Z)) := fun x '(a, biggest) =>
  let x := u32 (x + sparse_bitset.GAMUT) in
  Ok (x <=? l3_end a, (a, if biggest <? x then x else biggest)).
Definition to_l3 : Z -> t * Z -> res (t * Z) := fun x '(a, b) => a ← _insert_l3 x a; Ok (a, b).

(* src: dbcore/sm-oid-alloc-impl.cpp:404-457 sm_allocator::_drain_l2 *)
Definition _drain_l2 (n : Z) (a : t) : res (Z * t) :=
  a ← (if negb (l3_valid a) then
         let count := Z.min (16 * 1024 * 1024) (capacity_mark a) in init_l3 (count / L3_BITS_PER_WORD) a
       else Ok a);
  '(left_, (a, _)) ← _scavenge_l2 n l3_filter to_l3 (a, 0);
  if left_ <=? 0 then Ok (0, a)
  else
    '(left_, (a, biggest)) ← _scan_l2 left_ l3_filter to_l3 (a, 0);
    if left_ <=? 0 then Ok (0, a)
    else if negb (biggest =? 0) then
      a ← init_l3 (biggest / L3_BITS_PER_WORD) a;
      '(left_, (a, _)) ← _scan_l2 left_ _nop_filter to_l3 (a, 0);
      Ok (if left_ <=? 0 then 0 else left_, a)
    else Ok (left_, a).

(* src: dbcore/sm-oid-alloc-impl.cpp:508-532 sm_allocator::_scavenge_l3 *)
Definition l1_has_space (a : t) : bool := l1_size a + thread_cache.N <=? L1_CAPACITY.
Definition batch_filter : Z -> t * cache -> res (bool * (t * cache)) := fun _ '(a, tc) =>
  if thread_cache.space_remaining tc <? L3_BITS_PER_WORD then
    '(_, tc, a) ← drain_cache tc 0 a;
    if negb (l1_has_space a) then
      '(_, a) ← _drain_l1 (L1_CAPACITY / 2) a;
      Ok (l1_has_space a, (a, tc))
    else Ok (true, (a, tc))
  else Ok (true, (a, tc)).

(** What is left in the local cache at the end is dropped. *)
(* src: dbcore/sm-oid-alloc-impl.cpp:502-540 sm_allocator::_scavenge_l3 *)
Definition _scavenge_l3_to_l1 (n : Z) (a : t) : res (Z * t) :=
  if negb (l3_valid a) then Ok (0, a)
  else '(left_, (a, _)) ← _scavenge_l3 n batch_filter to_cache (a, thread_cache.make 0); Ok (left_, a).

(** ** Filling a cache *)

(* src: dbcore/sm-oid-alloc-impl.cpp:193-196 sm_allocator::fill_cache *)
Fixpoint bump_loop (fuel : nat) (target : Z) (tc : cache) (a : t) : res (Z * cache * t) :=
  match fuel with
  | O => Ok (target, tc, a)
  | S fuel =>
      if negb (target =? 0) && (hiwater_mark a <? capacity_mark a) then
        tc ← thread_cache.push (hiwater_mark a) tc;
        bump_loop fuel (target - 1) tc (set_hiwater_mark (u32 (hiwater_mark a + 1)) a)
      else Ok (target, tc, a)
  end.

(** From the label [drain_l1] on when [from_l1], from behind the L1 part
    otherwise. *)
(* src: dbcore/sm-oid-alloc-impl.cpp:173-218 sm_allocator::fill_cache *)
Fixpoint fill_loop (fuel : nat) (from_l1 : bool) (target : Z) (tc : cache) (a : t) : res (bool * cache * t) :=
  match fuel with
  | O => Throw Spinning
  | S fuel =>
      '(filled, target, tc, a) ← (if from_l1 then
          '(left_, tc, a) ← _fill_from_l1 tc target a; Ok (left_ <=? 0, left_, tc, a)
        else Ok (false, target, tc, a));
      if (filled : bool) then Ok (true, tc, a)
      else
        '(filled, target, tc, a) ← (if l2_valid a && negb (l2_size a =? 0) then
            '(left_, tc, a) ← _fill_from_l2 tc target a; Ok (left_ <=? 0, left_, tc, a)
          else Ok (false, target, tc, a));
        if (filled : bool) then Ok (true, tc, a)
        else
          '(target, tc, a) ← bump_loop (Z.to_nat target) target tc a;
          let capacity_bump := u32 (propose_capacity 1 a - capacity_mark a) in
          if (capacity_bump <=? u32 (l2_loose_oids a + l3_loose_oids a)) && negb (l2_loose_oids a =? 0) then
            '(left_, a) ← _scavenge_l2_to_l1 (L1_CAPACITY / 2) a;
            '(_, a) ← (if (0 <? left_) && negb (l3_loose_oids a =? 0) then _scavenge_l3_to_l1 left_ a else Ok (left_, a));
            if negb (l1_size a =? 0) then fill_loop fuel true target tc a
            else Ok (target =? 0, tc, a)
          else Ok (target =? 0, tc, a)
  end.

(** Every turn but the first puts an OID into the cache. *)
(* src: dbcore/sm-oid-alloc-impl.cpp:166-219 sm_allocator::fill_cache *)
Definition fill_cache (tc : cache) (a : t) : res (bool * cache * t) :=
  let target := Z.min thread_cache.FILL_TARGET (u64 (thread_cache.space_remaining tc - sparse_bitset.CAPACITY)) in
  fill_loop (S (S (Z.to_nat thread_cache.N))) (negb (l1_size a =? 0)) target tc a.

End allocator.
