(* ===== verification/OidAllocSpec.v ===== *)
(** * Free OIDs are kept and handed out once ([dbcore/sm-oid-alloc-impl.cpp])

    [free a] is the list of the OIDs that the allocator [a] holds.  Filling and
    draining a cache moves OIDs between it and the allocator without losing or
    duplicating one, and stays inside of all arrays. *)
From stdpp Require Import base numbers functions list.
From Stdlib Require Import ZArith Lia.
From S2P Require Import Prelude Bits Dynarray SparseBitset OidAlloc.

Import sm_allocator.
Local Open Scope Z_scope.

(** ** Lists *)

Section lists.
Context {A B : Type}.

(** Changing [f] at one element of the list. *)
Lemma bind_update (f g : A -> list B) (l : list A) (x : A) :
  NoDup l -> x ∈ l -> (forall y, y ∈ l -> y <> x -> g y = f y) ->
  exists r, l ≫= f ≡ₚ f x ++ r /\ l ≫= g ≡ₚ g x ++ r.
Proof.
  intros Hl Hx Hfg. apply list_elem_of_split in Hx as (l1 & l2 & ->).
  exists ((l1 ≫= f) ++ (l2 ≫= f)). apply NoDup_app in Hl as (_ & H1 & [H2 _]%NoDup_cons).
  assert (forall l', (forall y, y ∈ l' -> y ∈ l1 ++ x :: l2 /\ y <> x) -> l' ≫= g = l' ≫= f) as Hsame.
  { intros l'. induction l' as [|y l' IH]; intros Hl'; [done|]. cbn. rewrite IH by (intros; apply Hl'; by right).
    f_equal. destruct (Hl' y); [left|]. by apply Hfg. }
  assert (l1 ≫= g = l1 ≫= f) as E1.
  { apply Hsame. intros y Hy. split; [apply elem_of_app; by left|]. intros ->. by apply (H1 x Hy), elem_of_cons; left. }
  assert (l2 ≫= g = l2 ≫= f) as E2.
  { apply Hsame. intros y Hy. split; [apply elem_of_app; right; by right|]. by intros ->. }
  rewrite !bind_app. cbn. rewrite E1, E2. split; apply Permutation_app_swap_app.
Qed.

Lemma bind_same (f g : A -> list B) (l : list A) : (forall y, y ∈ l -> g y = f y) -> l ≫= g = l ≫= f.
Proof.
  induction l as [|y l IH]; intros Hfg; [done|]. cbn. rewrite IH by (intros; apply Hfg; by right).
  f_equal. apply Hfg. left.
Qed.

Lemma bind_length (f : A -> list B) (l : list A) (n : nat) :
  (forall y, y ∈ l -> length (f y) <= n)%nat -> (length (l ≫= f) <= n * length l)%nat.
Proof.
  induction l as [|y l IH]; intros Hf; cbn; [lia|]. rewrite length_app.
  pose proof (Hf y ltac:(left)). pose proof (IH ltac:(intros; apply Hf; by right)). lia.
Qed.

End lists.

Lemma seqZ_snoc m n : 0 <= n -> seqZ m (n + 1) = seqZ m n ++ [m + n].
Proof. intros Hn. by rewrite seqZ_app by lia. Qed.

(** ** The second level *)

(** The OIDs of a full bitset: the high bits of the entry are the swath, the
    low bits the bitmap. *)
Definition full_entry (a : t) (v : Z) : list Z :=
  (fun o => Z.land v (Z.lnot 0xffff) + o) <$> sparse_bitset.elems (l2_maps a (u16 v)).

Definition fulls (a : t) : list Z := seqZ 0 (l2_size a) ≫= fun i => full_entry a (l2 a i).

(** The OIDs of a swath with a bitmap that is not full. *)
Definition loose_at (a : t) (s : Z) : list Z :=
  if l2_assignments a s =? 0 then []
  else (fun o => s * 65536 + o) <$> sparse_bitset.elems (l2_maps a (l2_assignments a s)).

(** All swaths; sealed, so that no conversion unfolds the 65536 of them. *)
#[local] Definition swaths_def : list Z := seqZ 0 L2_CAPACITY.
#[local] Definition swaths_aux : seal swaths_def. Proof. by eexists. Qed.
Definition swaths : list Z := unseal swaths_aux.

Lemma swaths_eq : swaths = seqZ 0 L2_CAPACITY.
Proof. unfold swaths. by rewrite (seal_eq swaths_aux). Qed.
Definition loose (a : t) : list Z := swaths ≫= loose_at a.

(** Who uses a bitmap. *)
Inductive owner := OFull (i : Z) | OAsg (s : Z) | OIdle (j : Z).

#[local] Instance owner_eq_dec : EqDecision owner.
Proof. solve_decision. Defined.

Definition owns (a : t) (o : owner) (b : Z) : Prop :=
  match o with
  | OFull i => 0 <= i < l2_size a /\ u16 (l2 a i) = b
  | OAsg s => 0 <= s < L2_CAPACITY /\ l2_assignments a s = b /\ b <> 0
  | OIdle j => l2_first_unused a <= j < L2_CAPACITY /\ u16 (l2 a j) = b
  end.

Definition assigned (a : t) : list Z := filter (fun s => l2_assignments a s <> 0) swaths.

Record wf2 (a : t) : Prop := {
  w_size : 0 <= l2_size a;
  w_unused : 1 <= l2_first_unused a < L2_CAPACITY;
  w_count : l2_size a + Z.of_nat (length (assigned a)) = l2_first_unused a - 1;
  w_inj o o' b : owns a o b -> owns a o' b -> o = o';
  w_range o b : owns a o b -> 0 < b < L2_CAPACITY;
  w_full i : 0 <= i < l2_size a -> fits 32 (l2 a i) /\
    sparse_bitset.ok (l2_maps a (u16 (l2 a i))) /\ length (sparse_bitset.elems (l2_maps a (u16 (l2 a i)))) = 16%nat;
  w_asg s : 0 <= s < L2_CAPACITY -> l2_assignments a s <> 0 ->
    sparse_bitset.ok (l2_maps a (l2_assignments a s)) /\
    (length (sparse_bitset.elems (l2_maps a (l2_assignments a s))) <= 15)%nat;
  w_loose : l2_loose_oids a = Z.of_nat (length (loose a)) }.

Lemma L2_eq : L2_CAPACITY = 65536.
Proof. done. Qed.

#[local] Opaque L2_CAPACITY L1_CAPACITY.

Lemma elem_of_swaths s : s ∈ swaths <-> 0 <= s < L2_CAPACITY.
Proof. rewrite swaths_eq, elem_of_seqZ. lia. Qed.

Lemma swaths_nodup : NoDup swaths.
Proof. rewrite swaths_eq. apply NoDup_seqZ. Qed.

Lemma swaths_length : Z.of_nat (length swaths) = 65536.
Proof. rewrite swaths_eq, length_seqZ, L2_eq. lia. Qed.

(** A bitmap goes from the owner [old] to the owner [new]. *)
Lemma inj_move a a' (old new : owner) :
  wf2 a -> (forall b, owns a' new b -> owns a old b) -> (forall b, ~ owns a' old b) ->
  (forall o b, o <> new -> owns a' o b -> owns a o b) ->
  (forall o o' b, owns a' o b -> owns a' o' b -> o = o') /\ (forall o b, owns a' o b -> 0 < b < L2_CAPACITY).
Proof.
  intros W Hnew Hold Hsame. split.
  - intros o o' b Ho Ho'. destruct (decide (o = new)) as [->|N], (decide (o' = new)) as [->|N']; [done|..].
    + exfalso. apply (Hold b). rewrite (w_inj _ W old o' b); auto.
    + exfalso. apply (Hold b). rewrite (w_inj _ W old o b); auto.
    + apply (w_inj _ W _ _ b); auto.
  - intros o b Ho. destruct (decide (o = new)) as [->|N]; eapply (w_range _ W); eauto.
Qed.

Lemma loose_bound a : wf2 a -> Z.of_nat (length (loose a)) <= 15 * 65536.
Proof.
  intros W. assert (length (loose a) <= 15 * length swaths)%nat as H.
  { apply bind_length. intros s Hs%elem_of_swaths. unfold loose_at. destruct (Z.eqb_spec (l2_assignments a s) 0); [cbn; lia|].
    rewrite length_fmap. by apply (w_asg _ W). }
  pose proof swaths_length. lia.
Qed.

Lemma assigned_update a a' s :
  0 <= s < L2_CAPACITY -> (forall s', 0 <= s' < L2_CAPACITY -> s' <> s -> l2_assignments a' s' = l2_assignments a s') ->
  Z.of_nat (length (assigned a')) =
    Z.of_nat (length (assigned a)) + (if l2_assignments a' s =? 0 then 0 else 1) - (if l2_assignments a s =? 0 then 0 else 1).
Proof.
  intros Hs Hsame. pose (f (a : t) := fun s => if l2_assignments a s =? 0 then [] else [s]).
  assert (forall a, assigned a = swaths ≫= f a) as Hbind.
  { intros b. unfold assigned. induction swaths as [|y l IH]; [done|]. rewrite filter_cons. cbn. rewrite IH.
    unfold f. case_decide; destruct (Z.eqb_spec (l2_assignments b y) 0); (done || lia). }
  destruct (bind_update (f a) (f a') swaths s) as (r & E & E').
  { apply swaths_nodup. } { by apply elem_of_swaths. }
  { intros y Hy%elem_of_swaths N. unfold f. by rewrite Hsame. }
  rewrite !Hbind, E, E', !length_app. unfold f. destruct (_ =? 0), (_ =? 0); cbn; lia.
Qed.

(** What a step on the second level leaves alone. *)
Definition same_rest (a a' : t) : Prop :=
  l1 a' = l1 a /\ l1_size a' = l1_size a /\ hiwater_mark a' = hiwater_mark a /\ capacity_mark a' = capacity_mark a /\
  backing_store a' = backing_store a /\ l3_capacity a' = l3_capacity a.

(** A bitmap that changes does not show elsewhere. *)
Lemma fulls_same a a' (n : Z) b :
  (forall i, 0 <= i < n -> l2 a' i = l2 a i /\ u16 (l2 a i) <> b) ->
  (forall c, c <> b -> l2_maps a' c = l2_maps a c) ->
  (seqZ 0 n ≫= fun i => full_entry a' (l2 a' i)) = (seqZ 0 n ≫= fun i => full_entry a (l2 a i)).
Proof.
  intros Hl Hm. apply bind_same. intros i Hi%elem_of_seqZ. destruct (Hl i) as [-> N]; [lia|].
  unfold full_entry. by rewrite Hm.
Qed.

Lemma loose_update a a' s b :
  0 <= s < L2_CAPACITY ->
  (forall s', 0 <= s' < L2_CAPACITY -> s' <> s -> l2_assignments a' s' = l2_assignments a s' /\
     (l2_assignments a s' <> 0 -> l2_assignments a s' <> b)) ->
  (forall c, c <> b -> l2_maps a' c = l2_maps a c) ->
  exists r, loose a ≡ₚ loose_at a s ++ r /\ loose a' ≡ₚ loose_at a' s ++ r.
Proof.
  intros Hs Ha Hm. apply bind_update; [apply swaths_nodup|by apply elem_of_swaths|].
  intros s' Hs'%elem_of_swaths N. destruct (Ha s' Hs' N) as [E Hb]. unfold loose_at. rewrite E.
  destruct (Z.eqb_spec (l2_assignments a s') 0) as [|N0]; [done|]. by rewrite Hm by auto.
Qed.

Lemma asg_owner a s : 0 <= s < L2_CAPACITY -> l2_assignments a s <> 0 -> owns a (OAsg s) (l2_assignments a s).
Proof. by intros. Qed.

Section add.
Context (a : t) (W : wf2 a) (s o : Z) (Hs : 0 <= s < L2_CAPACITY).

Lemma asg_elsewhere b : owns a (OAsg s) b ->
  (forall i, 0 <= i < l2_size a -> u16 (l2 a i) <> b) /\
  (forall s', 0 <= s' < L2_CAPACITY -> s' <> s -> l2_assignments a s' <> 0 -> l2_assignments a s' <> b) /\
  (forall j, l2_first_unused a <= j < L2_CAPACITY -> u16 (l2 a j) <> b).
Proof.
  intros Hb. split_and!.
  - intros i Hi E. assert (OFull i = OAsg s) by (by apply (w_inj _ W _ _ b)). done.
  - intros s' Hs' N N0 E. assert (OAsg s' = OAsg s) as [= ->]; [|done]. apply (w_inj _ W _ _ b); [|done].
    rewrite <- E. by apply asg_owner.
  - intros j Hj E. assert (OIdle j = OAsg s) by (by apply (w_inj _ W _ _ b)). done.
Qed.

(** The bitmap of the swath gets one more entry. *)
Lemma add_loose m :
  l2_assignments a s <> 0 -> sparse_bitset.ok m -> (length (sparse_bitset.elems m) <= 15)%nat ->
  sparse_bitset.elems m ≡ₚ o :: sparse_bitset.elems (l2_maps a (l2_assignments a s)) ->
  let a' := set_l2_maps (<[l2_assignments a s := m]> (l2_maps a)) (set_l2_loose_oids (u32 (l2_loose_oids a + 1)) a) in
  wf2 a' /\ fulls a' = fulls a /\ loose a' ≡ₚ s * 65536 + o :: loose a.
Proof.
  intros N0 Hok Hlen Hp a'. set (b := l2_assignments a s) in *.
  destruct (asg_elsewhere b) as (Hf & Ha & _); [by apply asg_owner|].
  assert (forall c, c <> b -> l2_maps a' c = l2_maps a c) as Hm by (intros c Hc; by apply fn_lookup_insert_ne).
  assert (l2_maps a' b = m) as Hmb by apply fn_lookup_insert.
  assert (fulls a' = fulls a) as Ef by (apply (fulls_same a a' _ b); [|done]; intros i Hi; split; [done|by apply Hf]).
  destruct (loose_update a a' s b) as (r & E & E'); [done| |done|].
  { intros s' Hs' N. split; [done|]. by apply Ha. }
  assert (loose a' ≡ₚ s * 65536 + o :: loose a) as El.
  { rewrite E, E'. unfold loose_at. change (l2_assignments a' s) with b. fold b. rewrite (proj2 (Z.eqb_neq b 0)) by done.
    by rewrite Hmb, Hp. }
  split_and!; [|done..].   split; [apply (w_size _ W)|apply (w_unused _ W)|apply (w_count _ W)|apply (w_inj _ W)|apply (w_range _ W)|..].
  - intros i Hi. change (l2 a' i) with (l2 a i). rewrite (Hm (u16 (l2 a i))) by (by apply Hf). by apply W.
  - intros s' Hs' N'. change (l2_assignments a' s') with (l2_assignments a s') in *.
    destruct (decide (s' = s)) as [->|Ns]; [by fold b; rewrite Hmb|]. rewrite Hm by (by apply Ha). by apply W.
  - rewrite El. cbn. pose proof (loose_bound a W). pose proof (w_loose _ W) as ->. rewrite wrap_small by (unfold fits; lia). lia.
Qed.

(** The bitmap of the swath becomes full and goes to the list. *)
Lemma retire m :
  l2_assignments a s <> 0 -> sparse_bitset.ok m -> length (sparse_bitset.elems m) = 16%nat ->
  sparse_bitset.elems m ≡ₚ o :: sparse_bitset.elems (l2_maps a (l2_assignments a s)) ->
  let b := l2_assignments a s in
  forall a', l2_maps a' = <[b := m]> (l2_maps a) -> l2 a' = <[l2_size a := s * 65536 + b]> (l2 a) ->
  l2_size a' = u16 (l2_size a + 1) -> l2_assignments a' = <[s := 0]> (l2_assignments a) ->
  l2_first_unused a' = l2_first_unused a -> l2_loose_oids a' = u32 (u32 (l2_loose_oids a + 1) - 16) ->
  wf2 a' /\ fulls a' ++ loose a' ≡ₚ s * 65536 + o :: fulls a ++ loose a.
Proof.
  intros N0 Hok Hlen Hp b a' Em El2 Esz Easg Eun Elo. pose proof L2_eq.
  destruct (asg_elsewhere b) as (Hf & Ha & Hidle); [by apply asg_owner|].
  pose proof (w_range _ W (OAsg s) b (asg_owner _ _ Hs N0)) as Hb. pose proof (w_unused _ W). pose proof (w_size _ W).
  assert (forall c, c <> b -> l2_maps a' c = l2_maps a c) as Hm by (intros c Hc; rewrite Em; by apply fn_lookup_insert_ne).
  assert (l2_maps a' b = m) as Hmb by (rewrite Em; apply fn_lookup_insert).
  assert (Z.of_nat (length (assigned a')) = Z.of_nat (length (assigned a)) - 1) as Hcnt.
  { rewrite (assigned_update a a' s Hs), Easg, fn_lookup_insert; [|by intros s' _ N; rewrite Easg, fn_lookup_insert_ne].
    fold b. rewrite (proj2 (Z.eqb_neq b 0)) by done. cbn. lia. }
  pose proof (w_count _ W) as Hct.
  assert (l2_size a' = l2_size a + 1) as Esz' by (rewrite Esz; apply wrap_small; unfold fits; lia).
  assert (u16 (s * 65536 + b) = b) as Eb by (unfold wrap; change (2 ^ 16) with 65536; rewrite Z.add_comm, Z.mod_add, Z.mod_small by lia; done).
  assert (Z.land (s * 65536 + b) (Z.lnot 65535) = s * 65536) as Ebase.
  { change 65535 with (2 ^ 16 - 1). rewrite land_lnot_mask by done. change (2 ^ 16) with 65536.
    rewrite Z.add_comm, Z.mod_add, Z.mod_small by lia. lia. }
  assert (forall i, i <> l2_size a -> l2 a' i = l2 a i) as Hl2 by (intros i Ni; rewrite El2; by apply fn_lookup_insert_ne).
  assert (l2 a' (l2_size a) = s * 65536 + b) as Hl2f by (rewrite El2; apply fn_lookup_insert).
  assert (fulls a' = fulls a ++ ((fun o => s * 65536 + o) <$> sparse_bitset.elems m)) as Ef.
  { unfold fulls. rewrite Esz', seqZ_snoc, bind_app by done. f_equal.
    - apply (fulls_same a a' _ b); [|done]. intros i Hi. split; [apply Hl2; lia|by apply Hf].
    - rewrite Z.add_0_l. cbn [mbind list_bind]. rewrite app_nil_r, Hl2f. unfold full_entry. by rewrite Eb, Hmb, Ebase. }
  destruct (loose_update a a' s b) as (r & E & E'); [done| |done|].
  { intros s' Hs' N. rewrite Easg, fn_lookup_insert_ne by done. split; [done|]. by apply Ha. }
  assert (loose_at a' s = []) as El' by (unfold loose_at; by rewrite Easg, fn_lookup_insert).
  assert (loose_at a s = (fun o => s * 65536 + o) <$> sparse_bitset.elems (l2_maps a b)) as El.
  { unfold loose_at. fold b. by rewrite (proj2 (Z.eqb_neq b 0)) by done. }
  rewrite El' in E'. rewrite El in E. split.
  - destruct (inj_move a a' (OAsg s) (OFull (l2_size a)) W) as [I1 I2].
    { intros c [_ <-]. by rewrite Hl2f, Eb. }
    { intros c (_ & F & ?). by rewrite Easg, fn_lookup_insert in F; subst. }
    { intros [i|s'|j] c N; cbn.
      - assert (i <> l2_size a) by congruence. rewrite Hl2, Esz' by done. lia.
      - rewrite Easg. intros (? & F & ?). destruct (decide (s' = s)) as [->|]; [by rewrite fn_lookup_insert in F; subst|].
        by rewrite fn_lookup_insert_ne in F.
      - rewrite Eun. intros [? <-]. rewrite Hl2 by lia. done. }
    split; [lia|lia|lia|exact I1|exact I2|..].
    + intros i Hi. destruct (decide (i = l2_size a)) as [->|Ni].
      * rewrite Hl2f, Eb, Hmb. split; [unfold fits; lia|done].
      * rewrite Hl2 by done. rewrite Hm by (apply Hf; lia). apply (w_full _ W). lia.
    + intros s' Hs' N'. rewrite Easg in *. destruct (decide (s' = s)) as [->|Ns]; [by rewrite fn_lookup_insert in N'|].
      rewrite fn_lookup_insert_ne in * by done. rewrite Hm by (by apply Ha). by apply (w_asg _ W).
    + pose proof (loose_bound a W) as Hlb. rewrite Elo, (w_loose _ W). apply Permutation_length in Hp, E, E'.
      rewrite Hlen in Hp. rewrite length_app, length_fmap in E. cbn in Hp, E'. fold b in Hp.
      rewrite (wrap_small 32 (_ + 1)) by (unfold fits; lia). rewrite wrap_small by (unfold fits; lia). lia.
  - rewrite Ef, E', E, Hp. cbn. rewrite <- !app_assoc. cbn. by rewrite <- Permutation_middle.
Qed.

(** An unused bitmap is assigned to the swath. *)
Lemma assign :
  l2_assignments a s = 0 -> fits 16 o -> l2_first_unused a + 1 < L2_CAPACITY ->
  let b := u16 (l2 a (l2_first_unused a)) in
  forall a', l2_maps a' = <[b := sparse_bitset.init1 o]> (l2_maps a) -> l2 a' = l2 a -> l2_size a' = l2_size a ->
  l2_assignments a' = <[s := b]> (l2_assignments a) -> l2_first_unused a' = u16 (l2_first_unused a + 1) ->
  l2_loose_oids a' = u32 (l2_loose_oids a + 1) ->
  wf2 a' /\ fulls a' = fulls a /\ loose a' ≡ₚ s * 65536 + o :: loose a.
Proof.
  intros E0 Ho HU b a' Em El2 Esz Easg Eun Elo. pose proof L2_eq. pose proof (w_unused _ W).
  assert (owns a (OIdle (l2_first_unused a)) b) as Hown by (cbn; lia).
  pose proof (w_range _ W _ _ Hown) as Hb.
  assert (forall i, 0 <= i < l2_size a -> u16 (l2 a i) <> b) as Hf.
  { intros i Hi E. assert (OFull i = OIdle (l2_first_unused a)) by (by apply (w_inj _ W _ _ b)). done. }
  assert (forall s', 0 <= s' < L2_CAPACITY -> l2_assignments a s' <> 0 -> l2_assignments a s' <> b) as Ha.
  { intros s' Hs' N0 E. assert (OAsg s' = OIdle (l2_first_unused a)); [|done]. apply (w_inj _ W _ _ b); [|done].
    rewrite <- E. by apply asg_owner. }
  assert (forall c, c <> b -> l2_maps a' c = l2_maps a c) as Hm by (intros c Hc; rewrite Em; by apply fn_lookup_insert_ne).
  assert (l2_maps a' b = sparse_bitset.init1 o) as Hmb by (rewrite Em; apply fn_lookup_insert).
  assert (l2_assignments a' s = b) as Hsb by (rewrite Easg; apply fn_lookup_insert).
  assert (forall s', s' <> s -> l2_assignments a' s' = l2_assignments a s') as Has
    by (intros s' N; rewrite Easg; by apply fn_lookup_insert_ne).
  assert (l2_first_unused a' = l2_first_unused a + 1) as Eun' by (rewrite Eun; apply wrap_small; unfold fits; lia).
  pose proof (assigned_update a a' s Hs (fun s' _ => Has s')) as Hcnt. pose proof (w_count _ W) as Hct.
  rewrite Hsb, E0, (proj2 (Z.eqb_neq b 0)) in Hcnt by lia. cbn in Hcnt.
  assert (fulls a' = fulls a) as Ef.
  { unfold fulls. rewrite Esz. apply (fulls_same a a' _ b); [|done]. intros i Hi. rewrite El2. split; [done|by apply Hf]. }
  destruct (loose_update a a' s b) as (r & E & E'); [done| |done|].
  { intros s' Hs' N. split; [by apply Has|]. by apply Ha. }
  assert (loose a' ≡ₚ s * 65536 + o :: loose a) as El.
  { rewrite E, E'. unfold loose_at. rewrite Hsb, E0, (proj2 (Z.eqb_neq b 0)), Hmb by lia. done. }
  split_and!; [|done..]. destruct (inj_move a a' (OIdle (l2_first_unused a)) (OAsg s) W) as [I1 I2].
  { intros c (_ & <- & _). by rewrite Hsb. }
  { intros c [F _]. lia. }
  { intros [i|s'|j] c N; cbn.
    - by rewrite El2, Esz.
    - rewrite Has by congruence. done.
    - rewrite El2, Eun'. lia. }
  split; [rewrite Esz; apply (w_size _ W)|lia|lia|exact I1|exact I2|..].
  - intros i Hi. rewrite Esz in Hi. rewrite El2, (Hm (u16 (l2 a i))) by (by apply Hf). by apply (w_full _ W).
  - intros s' Hs' N'. destruct (decide (s' = s)) as [->|Ns].
    + rewrite Hsb, Hmb. split; [|cbn; lia]. exists o, []. by apply sparse_bitset.init1_wf.
    + rewrite Has in * by done. rewrite Hm by (by apply Ha). by apply (w_asg _ W).
  - rewrite El, Elo. cbn. pose proof (loose_bound a W). rewrite (w_loose _ W), wrap_small by (unfold fits; lia). lia.
Qed.

End add.

(** The bitmap of an emptied swath becomes unused. *)
Lemma unassign a s a' :
  wf2 a -> 0 <= s < L2_CAPACITY -> l2_assignments a s <> 0 ->
  l2_maps a' = l2_maps a -> l2_size a' = l2_size a -> l2_first_unused a' = u16 (l2_first_unused a - 1) ->
  l2 a' = <[l2_first_unused a - 1 := l2_assignments a s]> (l2 a) -> l2_assignments a' = <[s := 0]> (l2_assignments a) ->
  l2_loose_oids a' = l2_loose_oids a - Z.of_nat (length (loose_at a s)) ->
  wf2 a' /\ fulls a' = fulls a /\ loose a ≡ₚ loose_at a s ++ loose a'.
Proof.
  intros W Hs N0 Em Esz Eun El2 Easg Elo. pose proof L2_eq. pose proof (w_unused _ W). pose proof (w_size _ W).
  pose proof (w_range _ W (OAsg s) _ (asg_owner _ _ Hs N0)) as Hb. set (b := l2_assignments a s) in *.
  assert (u16 b = b) as Eb by (apply wrap_small; unfold fits; lia).
  assert (forall s', s' <> s -> l2_assignments a' s' = l2_assignments a s') as Has
    by (intros s' N; rewrite Easg; by apply fn_lookup_insert_ne).
  assert (l2_assignments a' s = 0) as Hs0 by (rewrite Easg; apply fn_lookup_insert).
  pose proof (assigned_update a a' s Hs (fun s' _ => Has s')) as Hcnt. pose proof (w_count _ W) as Hct.
  rewrite Hs0 in Hcnt. fold b in Hcnt. rewrite (proj2 (Z.eqb_neq b 0)) in Hcnt by done. cbn in Hcnt.
  assert (l2_first_unused a' = l2_first_unused a - 1) as Eun' by (rewrite Eun; apply wrap_small; unfold fits; lia).
  assert (forall i, i <> l2_first_unused a - 1 -> l2 a' i = l2 a i) as Hl2 by (intros i Ni; rewrite El2; by apply fn_lookup_insert_ne).
  assert (fulls a' = fulls a) as Ef.
  { unfold fulls. rewrite Esz. apply bind_same. intros i Hi%elem_of_seqZ. rewrite Hl2 by lia. unfold full_entry. by rewrite Em. }
  destruct (bind_update (loose_at a) (loose_at a') swaths s) as (r & E & E'); [apply swaths_nodup|by apply elem_of_swaths| |].
  { intros s' _ N. unfold loose_at. by rewrite Em, Has. }
  assert (loose_at a' s = []) as E0 by (unfold loose_at; by rewrite Hs0). rewrite E0 in E'.
  assert (loose a ≡ₚ loose_at a s ++ loose a') as El by (unfold loose at 1; rewrite E; by unfold loose; rewrite E').
  split_and!; [|done..]. destruct (inj_move a a' (OAsg s) (OIdle (l2_first_unused a - 1)) W) as [I1 I2].
  { intros c [_ <-]. rewrite El2, fn_lookup_insert, Eb. by apply asg_owner. }
  { intros c (_ & F & ?). rewrite Hs0 in F. by subst. }
  { intros [i|s'|j] c N; cbn.
    - rewrite Esz. intros [? <-]. by rewrite Hl2 by lia.
    - intros (? & F & ?). destruct (decide (s' = s)) as [->|]; [by rewrite Hs0 in F; subst|]. by rewrite Has in F.
    - rewrite Eun'. assert (j <> l2_first_unused a - 1) by congruence. rewrite Hl2 by done. lia. }
  split; [lia|lia|lia|exact I1|exact I2|..].
  - intros i Hi. rewrite Esz in Hi. rewrite Hl2, Em by lia. by apply (w_full _ W).
  - intros s' Hs' N'. destruct (decide (s' = s)) as [->|Ns]; [done|]. rewrite Has, Em in * by done. by apply (w_asg _ W).
  - rewrite Elo, (w_loose _ W), El, length_app. lia.
Qed.

(** The last full bitmap becomes unused. *)
Lemma release a a' :
  wf2 a -> 0 < l2_size a -> let v := l2 a (l2_size a - 1) in
  l2_maps a' = l2_maps a -> l2_size a' = u16 (l2_size a - 1) -> l2_first_unused a' = u16 (l2_first_unused a - 1) ->
  l2 a' = <[l2_first_unused a - 1 := u16 v]> (l2 a) -> l2_assignments a' = l2_assignments a ->
  l2_loose_oids a' = l2_loose_oids a ->
  wf2 a' /\ fulls a = fulls a' ++ full_entry a v /\ loose a' = loose a.
Proof.
  intros W HF v Em Esz Eun El2 Easg Elo. pose proof L2_eq. pose proof (w_unused _ W). pose proof (w_count _ W).
  assert (l2_first_unused a' = l2_first_unused a - 1) as Eun' by (rewrite Eun; apply wrap_small; unfold fits; lia).
  assert (l2_size a' = l2_size a - 1) as Esz' by (rewrite Esz; apply wrap_small; unfold fits; lia).
  assert (forall i, i <> l2_first_unused a - 1 -> l2 a' i = l2 a i) as Hl2 by (intros i Ni; rewrite El2; by apply fn_lookup_insert_ne).
  assert (loose a' = loose a) as El by (apply bind_same; intros s _; unfold loose_at; by rewrite Em, Easg).
  assert (fulls a = fulls a' ++ full_entry a v) as Ef.
  { unfold fulls. rewrite Esz'. replace (l2_size a) with (l2_size a - 1 + 1) at 1 by lia. rewrite seqZ_snoc, bind_app by lia. f_equal.
    - symmetry. apply bind_same. intros i Hi%elem_of_seqZ. rewrite Hl2 by lia. unfold full_entry. by rewrite Em.
    - cbn [mbind list_bind]. by rewrite app_nil_r. }
  assert (u16 (u16 v) = u16 v) as Euv by (apply wrap_small, wrap_fits; done).
  split_and!; [|done..]. destruct (inj_move a a' (OFull (l2_size a - 1)) (OIdle (l2_first_unused a - 1)) W) as [I1 I2].
  { intros c [_ <-]. rewrite El2, fn_lookup_insert, Euv. cbn. split; [lia|done]. }
  { intros c [F _]. lia. }
  { intros [i|s'|j] c N; cbn.
    - rewrite Esz'. intros [? <-]. rewrite Hl2 by lia. split; [lia|done].
    - by rewrite Easg.
    - rewrite Eun'. assert (j <> l2_first_unused a - 1) by congruence. rewrite Hl2 by done. lia. }
  assert (assigned a' = assigned a) as Ea by (unfold assigned; by rewrite Easg).
  split; [lia|lia|rewrite Ea; lia|exact I1|exact I2|..].
  - intros i Hi. rewrite Hl2, Em by lia. apply (w_full _ W). lia.
  - intros s' Hs'. rewrite Easg, Em. by apply (w_asg _ W).
  - by rewrite Elo, El, (w_loose _ W).
Qed.

(** ** Draining the first level *)

Lemma oid_split x : fits 32 x ->
  0 <= Z.shiftr x 16 < L2_CAPACITY /\ x = Z.shiftr x 16 * 65536 + u16 x /\ fits 16 (u16 x) /\
  Z.land x (Z.lnot 0xffff) = Z.shiftr x 16 * 65536.
Proof.
  intros [Hx Hx']. rewrite L2_eq. change 0xffff with (2 ^ 16 - 1). rewrite land_lnot_mask, Z.shiftr_div_pow2 by done.
  unfold wrap, fits. change (2 ^ 16) with 65536 in *. change (2 ^ 32) with 4294967296 in *.
  pose proof (Z.div_mod x 65536 ltac:(lia)). pose proof (Z.mod_pos_bound x 65536 ltac:(lia)).
  split_and!; lia.
Qed.

Lemma aget_ok {A} cap (a : Z -> A) i : 0 <= i < cap -> aget cap a i = Ok (a i).
Proof. intros Hi. unfold aget. destruct (Z.leb_spec 0 i), (Z.ltb_spec i cap); (done || lia). Qed.

Lemma aset_ok {A} cap (a : Z -> A) i v : 0 <= i < cap -> aset cap a i v = Ok (<[i := v]> a).
Proof. intros Hi. unfold aset. destruct (Z.leb_spec 0 i), (Z.ltb_spec i cap); (done || lia). Qed.

Lemma lor_swath s b : 0 <= b < 65536 -> Z.lor (s * 65536) b = s * 65536 + b.
Proof. intros Hb. change 65536 with (2 ^ 16). by apply lor_low. Qed.

Lemma drain_one_spec a base i x :
  wf2 a -> 0 <= base + i < L1_CAPACITY -> l1 a (base + i) = x -> fits 32 x -> x ∉ loose a ->
  l2_first_unused a + 1 < L2_CAPACITY ->
  exists a', drain_one base i a = Ok a' /\ wf2 a' /\ fulls a' ++ loose a' ≡ₚ x :: fulls a ++ loose a /\
    same_rest a a' /\ l2_first_unused a <= l2_first_unused a' <= l2_first_unused a + 1.
Proof.
  intros W Hi Hx Hfit Hnew HU. destruct (oid_split x Hfit) as (Hs & Ex & Ho & Ebase). pose proof L2_eq.
  unfold drain_one. rewrite (aget_ok _ _ _ Hi), Hx. cbn [mbind res_bind]. set (s := Z.shiftr x 16) in *.
  rewrite (aget_ok _ _ _ Hs). cbn [mbind res_bind]. destruct (Z.eqb_spec (l2_assignments a s) 0) as [E0|N0]; cbn [negb].
  - destruct (Z.eqb_spec (l2_first_unused a) L2_CAPACITY); [lia|]. pose proof (w_unused _ W).
    rewrite aget_ok by lia. cbn [mbind res_bind]. match goal with |- exists a', Ok ?r = _ /\ _ => exists r; set (a' := r) end.
    destruct (assign a W s (u16 x) Hs E0 Ho HU a') as (W' & Ef & El); [reflexivity..|].
    split_and!; [done|done| |done|..].
    + rewrite Ef, El, <- Ex. by rewrite <- Permutation_middle.
    + subst a'. cbn. rewrite wrap_small by (unfold fits; lia). lia.
    + subst a'. cbn. rewrite wrap_small by (unfold fits; lia). lia.
  - pose proof (w_range _ W (OAsg s) _ (asg_owner _ _ Hs N0)) as Hb. rewrite aget_ok by (cbn; lia). cbn [mbind res_bind].
    destruct (w_asg _ W s Hs N0) as [Hok Hlen]. set (m := l2_maps a (l2_assignments a s)) in *.
    assert (u16 x ∉ sparse_bitset.elems m) as Hno.
    { intros F. apply Hnew. apply list_elem_of_bind. exists s. split; [|by apply elem_of_swaths].
      unfold loose_at. rewrite (proj2 (Z.eqb_neq _ 0)) by done. fold m. rewrite Ex. apply list_elem_of_fmap. eauto. }
    destruct (sparse_bitset.insert_ok m (u16 x) Hok Ho Hno) as (m' & Ei & Hok' & Hp); [lia|].
    cbn [set_l2_loose_oids l2_maps]. fold m. rewrite Ei. destruct (Nat.eqb_spec (length (sparse_bitset.elems m)) 15) as [E15|N15].
    + cbn [negb Z.eqb]. cbn [set_l2_maps l2 l2_size set_l2_loose_oids].
      assert (0 <= l2_size a < L2_CAPACITY) by (pose proof (w_count _ W); pose proof (w_unused _ W); pose proof (w_size _ W); lia).
      rewrite aset_ok by done. cbn [mbind res_bind]. match goal with |- exists a', Ok ?r = _ /\ _ => exists r; set (a' := r) end.
      destruct (retire a W s (u16 x) Hs m' N0 Hok') with (a' := a') as [W' Hperm]; try reflexivity.
      { apply Permutation_length in Hp. cbn in Hp. lia. }
      { done. }
      { subst a'. cbn. by rewrite Ebase, lor_swath by lia. }
      split_and!; [done|done|by rewrite Ex at 1|done|cbn; lia|cbn; lia].
    + cbn [negb Z.eqb]. match goal with |- exists a', Ok ?r = _ /\ _ => exists r; set (a' := r) end.
      destruct (add_loose a W s (u16 x) Hs m' N0 Hok') as (W' & Ef & El).
      { apply Permutation_length in Hp. cbn in Hp. lia. }
      { done. }
      fold a' in W', Ef, El. split_and!; [done|done| |done|cbn; lia|cbn; lia]. rewrite Ef, El, <- Ex. by rewrite <- Permutation_middle.
Qed.
