(* ===== verification/OidAllocFree.v ===== *)
(** * OIDs move between the allocator and the caches ([dbcore/sm-oid-alloc-impl.cpp])

    [pool a tc] is the list of the free OIDs of the allocator [a] and of the
    cache [tc].  Filling and draining the cache keeps it, up to the fresh OIDs
    that a fill takes from the high water mark. *)
From stdpp Require Import base numbers functions list.
From Stdlib Require Import ZArith Lia.
From S2P Require Import Prelude Bits Dynarray SparseBitset OidAlloc OidAllocSpec.

Import sm_allocator.
Local Open Scope Z_scope.
#[local] Abbreviation cache := thread_cache.t.

(** ** Arrays used as stacks *)

Definition stack (f : Z -> Z) (n : Z) : list Z := f <$> seqZ 0 n.

Lemma stack_push f n x : 0 <= n -> stack (<[n := x]> f) (n + 1) = stack f n ++ [x].
Proof.
  intros Hn. unfold stack. rewrite seqZ_snoc, fmap_app by done. f_equal.
  - apply list_fmap_ext. intros i j Hj%list_elem_of_lookup_2%elem_of_seqZ. apply fn_lookup_insert_ne. lia.
  - cbn. by rewrite Z.add_0_l, fn_lookup_insert.
Qed.

Lemma stack_split f n k : 0 <= k <= n -> stack f n = stack f (n - k) ++ (f <$> seqZ (n - k) k).
Proof.
  intros Hk. unfold stack. replace n with ((n - k) + k) at 1 by lia. by rewrite seqZ_app, fmap_app, Z.add_0_l by lia.
Qed.

Lemma stack_length f n : 0 <= n -> Z.of_nat (length (stack f n)) = n.
Proof. intros Hn. unfold stack. rewrite length_fmap, length_seqZ. lia. Qed.

Lemma objcopy_snoc dcap dst di scap src si n d :
  0 <= n -> objcopy dcap dst di scap src si n = Ok d -> 0 <= si + n < scap -> 0 <= di + n < dcap ->
  objcopy dcap dst di scap src si (n + 1) = Ok (<[di + n := src (si + n)]> d).
Proof.
  unfold objcopy. intros Hn Hd Hs Hdi. rewrite seqZ_snoc by done. revert Hd.
  generalize (seqZ 0 n) as l. intros l. revert dst. induction l as [|k l IH]; intros dst; cbn -[aget aset].
  - intros [= ->]. rewrite aget_ok by done. cbn [mbind res_bind]. by rewrite aset_ok by done.
  - intros E. destruct (aget scap src (si + k)); [|done]. cbn [mbind res_bind] in *.
    destruct (aset dcap dst (di + k) a); [|done]. cbn [mbind res_bind] in *. by apply IH.
Qed.

(** Copying [n] entries to the top of a stack. *)
Lemma objcopy_push dcap dst di scap src si n :
  0 <= n -> 0 <= si -> si + n <= scap -> 0 <= di -> di + n <= dcap ->
  exists d, objcopy dcap dst di scap src si n = Ok d /\ stack d (di + n) = stack dst di ++ (src <$> seqZ si n).
Proof.
  intros Hn. revert n Hn. refine (natlike_ind _ _ _).
  - intros. exists dst. split; [done|]. by rewrite Z.add_0_r, app_nil_r.
  - intros n Hn IH ? ? ? ?. destruct IH as (d & Hd & E); [lia..|]. rewrite <- Z.add_1_r.
    eexists. split; [apply (objcopy_snoc _ _ _ _ _ _ _ d); (done || lia)|].
    rewrite Z.add_assoc, stack_push, E, seqZ_snoc, fmap_app, app_assoc by lia. done.
Qed.

(** ** Pools *)

Definition l1_list (a : t) : list Z := stack (l1 a) (l1_size a).
Definition l2_list (a : t) : list Z := if l2_valid a then fulls a ++ loose a else [].
Definition free (a : t) : list Z := l1_list a ++ l2_list a.
Definition held (tc : cache) : list Z := stack (thread_cache.entries tc) (thread_cache.nentries tc).
Definition pool (a : t) (tc : cache) : list Z := free a ++ held tc.

(** The shape of the allocator while the third level is not in use. *)
Record sound (a : t) : Prop := {
  s_l1 : 0 <= l1_size a <= L1_CAPACITY;
  s_l2 : l2_valid a = true -> wf2 a;
  s_l3 : l3_capacity a = 0;
  s_marks : 0 <= hiwater_mark a <= capacity_mark a;
  s_capacity : capacity_mark a < 2 ^ 32;
  s_store : dynarray.wf (backing_store a) /\ l2_alloc_size <= dynarray.capacity (backing_store a) }.

Definition cache_ok (tc : cache) : Prop := 0 <= thread_cache.nentries tc <= thread_cache.N.

Lemma L1_eq : L1_CAPACITY = 16372.
Proof. done. Qed.

#[local] Opaque L2_CAPACITY L1_CAPACITY.

Lemma push_ok x tc : 0 <= thread_cache.nentries tc < thread_cache.N ->
  exists tc', thread_cache.push x tc = Ok tc' /\ held tc' = held tc ++ [x] /\
    thread_cache.nentries tc' = thread_cache.nentries tc + 1 /\ thread_cache.f tc' = thread_cache.f tc.
Proof.
  intros Hn. unfold thread_cache.push. rewrite aset_ok by done. cbn [mbind res_bind]. eexists. split; [done|].
  unfold held. cbn. rewrite wrap_small by (unfold fits, thread_cache.N in *; lia). split_and!; [by rewrite stack_push by lia|done..].
Qed.

Lemma push_l1_ok x a : 0 <= l1_size a < L1_CAPACITY ->
  exists l, push_l1 x a = Ok (set_l1_size (l1_size a + 1) (set_l1 l a)) /\ stack l (l1_size a + 1) = l1_list a ++ [x].
Proof.
  intros Hn. unfold push_l1. rewrite aset_ok by done. cbn [mbind res_bind]. eexists. split.
  - rewrite (wrap_small 16) by (pose proof L1_eq; unfold fits; lia). done.
  - unfold l1_list. by rewrite stack_push by lia.
Qed.

(** ** The first level *)

Lemma fill_from_l1_ok tc target a :
  0 <= l1_size a <= L1_CAPACITY -> 0 <= target -> 0 <= thread_cache.nentries tc ->
  thread_cache.nentries tc + target <= thread_cache.N ->
  let k := Z.min target (l1_size a) in
  exists tc', _fill_from_l1 tc target a = Ok (target - k, tc', set_l1_size (l1_size a - k) a) /\
    thread_cache.f tc' = thread_cache.f tc /\ thread_cache.nentries tc' = thread_cache.nentries tc + k /\
    exists l, l1_list a = stack (l1 a) (l1_size a - k) ++ l /\ held tc' = held tc ++ l.
Proof.
  intros Ha Ht Hn Hroom k. unfold _fill_from_l1. fold k. destruct (Z.eqb_spec k 0) as [E|N]; cbn [negb].
  - exists tc. rewrite E, !Z.sub_0_r, Z.add_0_r. split_and!; [by destruct a|done..|]. exists []. by rewrite !app_nil_r.
  - assert (u16 (l1_size a - k) = l1_size a - k) as E by (apply wrap_small; pose proof L1_eq; unfold fits; lia).
    cbn [set_l1_size l1_size l1]. rewrite E.
    destruct (objcopy_push thread_cache.N (thread_cache.entries tc) (thread_cache.nentries tc) L1_CAPACITY (l1 a) (l1_size a - k) k)
      as (d & -> & Hd); [lia..|]. cbn [mbind res_bind]. eexists. split; [done|]. cbn.
    rewrite wrap_small by (unfold fits, thread_cache.N in *; lia). split_and!; [done|done|].
    exists (l1 a <$> seqZ (l1_size a - k) k). split; [apply stack_split; lia|done].
Qed.

(** ** Full bitsets *)

Lemma to_cache_all (base : Z) (l : list Z) a tc :
  0 <= thread_cache.nentries tc -> thread_cache.nentries tc + Z.of_nat (length l) <= thread_cache.N ->
  (forall o, o ∈ l -> fits 32 (base + o)) ->
  exists tc', for_each l (fun o => to_cache (u32 (base + o))) (a, tc) = Ok (a, tc') /\
    held tc' = held tc ++ (Z.add base <$> l) /\
    thread_cache.nentries tc' = thread_cache.nentries tc + Z.of_nat (length l) /\ thread_cache.f tc' = thread_cache.f tc.
Proof.
  revert tc. induction l as [|o l IH]; intros tc Hn Hlen Hfit; cbn [for_each length] in *.
  - exists tc. rewrite app_nil_r, Z.add_0_r. done.
  - rewrite wrap_small by (apply Hfit; left). cbn [to_cache].
    destruct (push_ok (base + o) tc) as (tc1 & -> & E1 & En & Ef); [lia|]. cbn [mbind res_bind].
    destruct (IH tc1) as (tc' & E & Eh & En' & Ef'); [lia|lia|intros; apply Hfit; by right|].
    exists tc'. rewrite E, Eh, E1, En', En, Ef', Ef, <- app_assoc. split_and!; [done|done|lia|done].
Qed.

Lemma bitset_entry_fits v o : fits 32 v -> fits 16 o -> fits 32 (Z.land v (Z.lnot 0xffff) + o).
Proof.
  unfold fits. change 0xffff with (2 ^ 16 - 1). rewrite land_lnot_mask by done.
  change (2 ^ 16) with 65536. change (2 ^ 32) with 4294967296. intros.
  pose proof (Z.div_mod v 65536 ltac:(lia)). pose proof (Z.mod_pos_bound v 65536 ltac:(lia)). lia.
Qed.

(** Full bitsets went to the cache. *)
Record l2_moved (a : t) (tc : cache) (a' : t) (tc' : cache) : Prop := {
  lm_wf : wf2 a';
  lm_rest : same_rest a a';
  lm_loose : loose a' = loose a;
  lm_pool : fulls a' ++ held tc' ≡ₚ fulls a ++ held tc;
  lm_f : thread_cache.f tc' = thread_cache.f tc;
  lm_count : thread_cache.nentries tc <= thread_cache.nentries tc' }.

Lemma scan_loop_ok fuel target a tc :
  wf2 a -> l2_size a <= Z.of_nat fuel -> 0 <= thread_cache.nentries tc ->
  thread_cache.nentries tc + target + 15 <= thread_cache.N ->
  exists a' tc', scan_loop fuel _nop_filter to_cache target 0 (a, tc) =
      Ok (target - (thread_cache.nentries tc' - thread_cache.nentries tc), (a', tc')) /\
    l2_moved a tc a' tc' /\
    (l2_size a' = 0 \/ target - (thread_cache.nentries tc' - thread_cache.nentries tc) <= 0) /\
    thread_cache.nentries tc' <= Z.max (thread_cache.nentries tc) (thread_cache.nentries tc + target + 15).
Proof.
  revert target a tc. induction fuel as [|fuel IH]; intros target a tc W Hfuel Hn Hroom.
  - assert (l2_size a = 0) as E by (pose proof (w_size _ W); lia). exists a, tc. cbn. rewrite E, andb_false_r, Z.sub_diag, Z.sub_0_r.
    split_and!; [done|by split|by left|lia].
  - cbn [scan_loop fst]. destruct (Z.ltb_spec 0 target) as [Ht|Ht]; cbn [andb].
    2:{ exists a, tc. rewrite Z.sub_diag, Z.sub_0_r. split_and!; [done|by split|by right|lia]. }
    destruct (Z.ltb_spec 0 (l2_size a)) as [HF|HF].
    2:{ exists a, tc. rewrite Z.sub_diag, Z.sub_0_r. pose proof (w_size _ W). split_and!; [done|by split|left; lia|lia]. }
    pose proof (w_unused _ W) as HU. pose proof (w_count _ W). pose proof L2_eq. rewrite aget_ok by lia. cbn [mbind res_bind _nop_filter].
    set (v := l2 a (l2_size a - 1)). destruct (w_full _ W (l2_size a - 1)) as (Hv & Hok & Hlen); [lia|]. fold v in Hv, Hok, Hlen.
    assert (0 <= u16 v < L2_CAPACITY) by (pose proof (wrap_fits 16 v ltac:(done)); unfold fits in *; lia).
    rewrite aget_ok by done. cbn [mbind res_bind fst]. rewrite (sparse_bitset.full_array _ Hok Hlen).
    destruct (to_cache_all (Z.land v (Z.lnot 0xffff)) (sparse_bitset.elems (l2_maps a (u16 v))) a tc) as (tc1 & -> & Eh & En & Ef).
    { lia. } { unfold thread_cache.N in *. lia. }
    { intros o Ho. apply bitset_entry_fits; [done|]. destruct (sparse_bitset.ok_elems _ Hok) as (_ & Hall & _).
      by eapply Forall_forall in Hall. }
    rewrite Hlen in En. change (Z.of_nat 16) with 16 in En.
    cbn [mbind res_bind]. cbn [l2_first_unused set_l2_first_unused set_l2_size l2 l2_size]. rewrite (wrap_small 16 (l2_first_unused a - 1)) by (unfold fits; lia).
    rewrite aset_ok by lia. cbn [mbind res_bind].
    change sparse_bitset.CAPACITY with 16. match goal with |- context [scan_loop fuel _ _ _ _ (?r, _)] => set (a1 := r) end.
    destruct (release a a1 W HF) as (W1 & Ef1 & El1); [try reflexivity..|].
    { cbn. by rewrite (wrap_small 16) by (unfold fits; lia). }
    destruct (IH (target - 16) a1 tc1) as (a' & tc' & E & M & Hend & Hmax);
      [done|cbn; rewrite wrap_small by (unfold fits; lia); lia|lia|lia|].
    exists a', tc'. rewrite E, En. destruct M as [W' R' L' P' F' C'].
    split_and!; [do 2 f_equal; lia| |lia|lia]. split; [done|done|by rewrite L'| |by rewrite F'|lia].
    rewrite P', Eh, Ef1. fold v. unfold full_entry. rewrite <- !app_assoc. f_equiv. apply Permutation_app_comm.
Qed.

Lemma fill_from_l2_ok target a tc :
  wf2 a -> 0 <= thread_cache.nentries tc -> 0 <= target -> thread_cache.nentries tc + target + 15 <= thread_cache.N ->
  exists a' tc', _fill_from_l2 tc target a = Ok (target - (thread_cache.nentries tc' - thread_cache.nentries tc), tc', a') /\
    l2_moved a tc a' tc' /\
    (l2_size a' = 0 \/ target - (thread_cache.nentries tc' - thread_cache.nentries tc) <= 0) /\
    thread_cache.nentries tc' <= thread_cache.nentries tc + target + 15.
Proof.
  intros W Hn Ht Hroom. unfold _fill_from_l2, l2_valid. pose proof (w_unused _ W). rewrite (proj2 (Z.eqb_neq _ 0)) by lia. cbn [negb orb].
  destruct (Z.eqb_spec (l2_size a) 0) as [E|N].
  - exists a, tc. rewrite Z.sub_diag, Z.sub_0_r. split_and!; [done|by split|by left|lia].
  - unfold _scan_l2. destruct (scan_loop_ok (Z.to_nat (l2_size a)) target a tc) as (a' & tc' & E & ? & ? & ?);
      [done|pose proof (w_size _ W); lia|done|done|]. cbn [fst]. rewrite E. cbn [mbind res_bind]. exists a', tc'. split_and!; [done..|lia].
Qed.

(** ** Bitsets that are not full *)

Definition on_l1 (l : Z -> Z) (n k : Z) (a : t) : t := set_l2_loose_oids k (set_l1_size n (set_l1 l a)).

Definition scavenge_one (base : Z) : Z -> Z * (t * unit) -> res (Z * (t * unit)) := fun x '(target, st) =>
  '(a, x') ← to_l1 (u32 (base + x)) st; Ok (target - 1, (set_l2_loose_oids (u32 (l2_loose_oids a - 1)) a, x')).

Lemma to_l1_all (base : Z) (l : list Z) target a :
  0 <= l1_size a -> l1_size a + Z.of_nat (length l) <= L1_CAPACITY -> (forall o, o ∈ l -> fits 32 (base + o)) ->
  Z.of_nat (length l) <= l2_loose_oids a < 2 ^ 32 ->
  let k := Z.of_nat (length l) in
  exists l1', for_each l (scavenge_one base) (target, (a, tt)) =
      Ok (target - k, (on_l1 l1' (l1_size a + k) (l2_loose_oids a - k) a, tt)) /\
    stack l1' (l1_size a + k) = l1_list a ++ (Z.add base <$> l).
Proof.
  revert target a. induction l as [|o l IH]; intros target a Hn Hlen Hfit Hloose k; cbn [for_each length] in *.
  - exists (l1 a). subst k. rewrite !Z.sub_0_r, Z.add_0_r, app_nil_r. by destruct a.
  - cbn [scavenge_one to_l1]. rewrite (wrap_small 32 (base + o)) by (apply Hfit; left).
    destruct (push_l1_ok (base + o) a) as (l0 & -> & E0); [lia|]. cbn [mbind res_bind].
    cbn [l2_loose_oids set_l1_size set_l1]. rewrite (wrap_small 32) by (unfold fits; lia).
    match goal with |- context [for_each l _ (_, (?r, _))] => set (a1 := r) end.
    destruct (IH (target - 1) a1) as (l1' & E & Es); [cbn; lia|cbn; lia|intros; apply Hfit; by right|cbn; lia|].
    exists l1'. rewrite E. cbn in Es |- *. replace (l1_size a + k) with (l1_size a + 1 + Z.of_nat (length l)) by lia. split.
    + replace (target - k) with (target - 1 - Z.of_nat (length l)) by lia.
      by replace (l2_loose_oids a - k) with (l2_loose_oids a - 1 - Z.of_nat (length l)) by lia.
    + rewrite Es. unfold l1_list at 1. cbn. by rewrite E0, <- app_assoc.
Qed.

(** The swaths at [idxs] behind the hand were emptied to the first level, or
    enough were. *)
Record scavenged (idxs : list Z) (target target' : Z) (a a' : t) : Prop := {
  sc_wf : wf2 a';
  sc_fulls : fulls a' = fulls a;
  sc_pool : l1_list a' ++ loose a' ≡ₚ l1_list a ++ loose a;
  sc_size : l1_size a' = l1_size a + (target - target');
  sc_target : target' <= target;
  sc_room : l1_size a' <= L1_CAPACITY;
  sc_rest : hiwater_mark a' = hiwater_mark a /\ capacity_mark a' = capacity_mark a /\ backing_store a' = backing_store a /\
    l3_capacity a' = l3_capacity a /\ l3_loose_oids a' = l3_loose_oids a /\ l2_scan_hand a' = l2_scan_hand a;
  sc_mono s : l2_assignments a s = 0 -> l2_assignments a' s = 0;
  sc_done : target' <= 0 \/ forall i, i ∈ idxs -> l2_assignments a' (u16 (l2_scan_hand a + i)) = 0 }.

(** One swath is emptied. *)
Lemma scavenge_step idx target a :
  wf2 a -> 0 <= idx < L2_CAPACITY -> l2_assignments a idx <> 0 -> 0 <= l1_size a -> l1_size a + 15 <= L1_CAPACITY ->
  let m := l2_maps a (l2_assignments a idx) in
  let k := Z.of_nat (length (sparse_bitset.elems m)) in
  exists l1', let a1 := on_l1 l1' (l1_size a + k) (l2_loose_oids a - k) a in
    for_each (sparse_bitset.elems m) (scavenge_one (u32 (Z.shiftl idx 16))) (target, (a, tt)) = Ok (target - k, (a1, tt)) /\
    1 <= k <= 15 /\ scavenged [] target (target - k) a
      (set_l2_assignments (<[idx := 0]> (l2_assignments a1))
        (set_l2 (<[l2_first_unused a - 1 := l2_assignments a idx]> (l2 a1)) (set_l2_first_unused (u16 (l2_first_unused a - 1)) a1))).
Proof.
  intros W Hidx N0 Hn Hroom m k. destruct (w_asg _ W idx Hidx N0) as [Hok Hlen]. fold m in Hok, Hlen.
  destruct (sparse_bitset.ok_elems _ Hok) as (_ & Hall & H1). pose proof L2_eq. pose proof (loose_bound a W) as Hlb.
  assert (u32 (Z.shiftl idx 16) = idx * 65536) as Eb.
  { rewrite Z.shiftl_mul_pow2 by done. change (2 ^ 16) with 65536. apply wrap_small. unfold fits. lia. }
  assert (loose_at a idx = Z.add (idx * 65536) <$> sparse_bitset.elems m) as El.
  { unfold loose_at. by rewrite (proj2 (Z.eqb_neq _ 0)) by done. }
  destruct (loose_update a a idx (l2_assignments a idx) Hidx) as (r & Er & _).
  { intros s' Hs' N. split; [done|]. intros N' E. assert (OAsg s' = OAsg idx) by (by apply (w_inj _ W _ _ (l2_assignments a idx))). congruence. }
  { done. }
  assert (k <= l2_loose_oids a) as Hk.
  { rewrite (w_loose _ W), Er, El, length_app, length_fmap. lia. }
  destruct (to_l1_all (idx * 65536) (sparse_bitset.elems m) target a) as (l1' & E & Es); [done|lia| |rewrite (w_loose _ W) in *; lia|].
  { intros o Ho. eapply Forall_forall in Ho; [|exact Hall]. unfold fits in *. lia. }
  exists l1'. rewrite Eb. split; [exact E|]. split; [lia|].
  match goal with |- scavenged _ _ _ _ ?r => set (a' := r) end.
  destruct (unassign a idx a') as (W' & Ef & Ep); try done; [cbn; rewrite El, length_fmap; lia|].
  assert (l1_list a' = l1_list a ++ (Z.add (idx * 65536) <$> sparse_bitset.elems m)) as El1 by exact Es.
  split; [done|done| |cbn; lia|lia|cbn; lia|done| |].
  - rewrite El1, Ep, El, <- app_assoc. done.
  - intros s. cbn. destruct (decide (s = idx)) as [->|]; [by rewrite fn_lookup_insert|by rewrite fn_lookup_insert_ne].
  - right. intros i Hi. by apply not_elem_of_nil in Hi.
Qed.

Lemma scavenge_loop_ok idxs target a :
  wf2 a -> 0 <= l1_size a <= L1_CAPACITY -> l1_size a + target + 14 <= L1_CAPACITY ->
  exists i target' a', scavenge_loop idxs _nop_filter to_l1 target (a, tt) = Ok (i, target', (a', tt)) /\
    scavenged idxs target target' a a'.
Proof.
  revert target a. induction idxs as [|i idxs IH]; intros target a W Hn Hroom.
  - exists L2_CAPACITY, target, a. split; [done|]. split; [done..|lia|lia|lia|done|done|].
    right. intros i Hi. by apply not_elem_of_nil in Hi.
  - cbn [scavenge_loop]. destruct (Z.ltb_spec 0 target) as [Ht|Ht].
    2:{ exists i, target, a. split; [done|]. split; [done..|lia|lia|lia|done|done|by left]. }
    cbn [fst]. set (idx := u16 (l2_scan_hand a + i)). pose proof L2_eq.
    assert (0 <= idx < L2_CAPACITY) as Hidx by (pose proof (wrap_fits 16 (l2_scan_hand a + i) ltac:(done)); unfold fits in *; lia).
    rewrite aget_ok by done. cbn [mbind res_bind]. destruct (Z.eqb_spec (l2_assignments a idx) 0) as [E0|N0].
    + cbn [mbind res_bind]. destruct (IH target a W Hn Hroom) as (j & t' & a' & E & S).
      exists j, t', a'. split; [done|]. destruct S; split; try done. destruct sc_done0 as [|Hd]; [by left|right].
      intros i' [->|Hi']%elem_of_cons; [by apply sc_mono0|by apply Hd].
    + cbn [mbind res_bind _nop_filter fst]. pose proof (w_range _ W _ _ (asg_owner _ _ Hidx N0)).
      rewrite aget_ok by lia. cbn [mbind res_bind].
      destruct (scavenge_step idx target a) as (l1' & E & Hk & S); [done..|lia|lia|].
      change (fun x '(target, st) => '(a0, x') ← to_l1 (u32 (u32 (idx ≪ 16) + x)) st;
        Ok (target - 1, (set_l2_loose_oids (u32 (l2_loose_oids a0 - 1)) a0, x'))) with (scavenge_one (u32 (Z.shiftl idx 16))).
      rewrite E. set (k := Z.of_nat _) in *. cbn [mbind res_bind]. pose proof (w_unused _ W).
      cbn [l2_first_unused set_l2_first_unused on_l1 set_l2_loose_oids set_l1_size set_l1].
      cbn [on_l1 set_l2_loose_oids set_l1_size set_l1 l2_assignments l2] in S.
      rewrite aset_ok by (rewrite wrap_small; unfold fits; lia). cbn [mbind res_bind].
      rewrite (wrap_small 16 (l2_first_unused a - 1)) in S |- * by (unfold fits; lia).
      match goal with |- context [scavenge_loop idxs _ _ _ (?r, _)] => set (a1 := r) end. change (scavenged [] target (target - k) a a1) in S.
      destruct S as [W1 Ef1 Ep1 Es1 Et1 Er1 Ee1 Em1 _].
      destruct (IH (target - k) a1) as (j & t' & a' & E' & S'); [done|lia|lia|].
      exists j, t', a'. split; [done|]. destruct S' as [W2 Ef2 Ep2 Es2 Et2 Er2 Ee2 Em2 Ed2].
      destruct Ee1 as (?&?&?&?&?&Eh1), Ee2 as (?&?&?&?&?&Eh2).
      split; [done|congruence|by rewrite Ep2|lia|lia|lia|split_and!; congruence|auto|].
      destruct Ed2 as [|Hd]; [by left|right]. rewrite Eh1 in Hd.
      intros i' [->|Hi']%elem_of_cons; [|by apply Hd]. apply Em2. cbn. apply fn_lookup_insert.
Qed.

Lemma u16_reaches h s : 0 <= s < 65536 -> exists i, 0 <= i < 65536 /\ u16 (h + i) = s.
Proof.
  intros Hs. exists ((s - h) mod 65536). split; [apply Z.mod_pos_bound; lia|]. unfold wrap. change (2 ^ 16) with 65536.
  rewrite Z.add_mod_idemp_r by lia. replace (h + (s - h)) with s by lia. by apply Z.mod_small.
Qed.

(** With enough loose OIDs, scavenging half of the first level succeeds. *)
Lemma scavenge_l2_ok n a :
  wf2 a -> 0 <= l1_size a <= L1_CAPACITY -> l1_size a + n + 14 <= L1_CAPACITY -> n <= l2_loose_oids a ->
  exists left_ a', _scavenge_l2_to_l1 n a = Ok (left_, a') /\ left_ <= 0 /\ scavenged [] n left_ a (set_l2_scan_hand (l2_scan_hand a) a').
Proof.
  intros W Hl1 Hroom Hn. unfold _scavenge_l2_to_l1, l2_valid. pose proof (w_unused _ W).
  rewrite (proj2 (Z.eqb_neq _ 0)), (proj2 (Z.ltb_ge _ _)) by lia. cbn [negb orb]. unfold _scavenge_l2.
  destruct (scavenge_loop_ok (seqZ 0 L2_CAPACITY) n a W Hl1 Hroom) as (i & left_ & a' & -> & S). cbn [mbind res_bind].
  eexists left_, _. split; [done|]. destruct S as [W' Ef Ep Es Et Er Ee Em Ed]. split.
  - destruct Ed as [|Hd]; [done|]. assert (loose a' = []) as El.
    { apply elem_of_nil_inv. intros x (s & Hx & Hs%elem_of_swaths)%list_elem_of_bind. unfold loose_at in Hx.
      destruct (u16_reaches (l2_scan_hand a) s) as (j & Hj & E); [by rewrite <- L2_eq|].
      rewrite <- E, Hd in Hx by (apply elem_of_seqZ; rewrite L2_eq; lia). by apply not_elem_of_nil in Hx. }
    apply Permutation_length in Ep. rewrite El, app_nil_r, length_app in Ep. unfold l1_list in Ep.
    pose proof (stack_length (l1 a) (l1_size a)). pose proof (stack_length (l1 a') (l1_size a')). rewrite (w_loose _ W) in Hn. lia.
  - destruct Ee as (?&?&?&?&?&?). split; try done; [by destruct W'|]. right. intros j Hj. by apply not_elem_of_nil in Hj.
Qed.
