(* ===== verification/OidAllocSafe.v ===== *)
(** * The OID allocator loses no OID and hands none out twice

    The theorems on [fill_cache] and [drain_cache] of
    [dbcore/sm-oid-alloc-impl.cpp], for the levels L1 and L2 and a high water mark
    within the initial capacity of 2^20 OIDs. *)
From stdpp Require Import base numbers functions list.
From Stdlib Require Import ZArith Lia.
From S2P Require Import Prelude Bits Dynarray SparseBitset OidAlloc OidAllocSpec OidAllocFree.

Import sm_allocator.
Local Open Scope Z_scope.
#[local] Abbreviation cache := thread_cache.t.
#[local] Opaque L2_CAPACITY L1_CAPACITY.

Definition below (hi : Z) (l : list Z) : Prop := Forall (fun x => 0 <= x < hi) l.

#[export] Instance below_perm hi : Proper ((≡ₚ) ==> iff) (below hi).
Proof. intros l l' E. unfold below. by rewrite E. Qed.

Lemma nodup_below_length hi l : 0 <= hi -> NoDup l -> below hi l -> Z.of_nat (length l) <= hi.
Proof.
  intros Hhi Hnd Hb. assert (l ⊆+ seqZ 0 hi) as H%submseteq_length.
  { apply NoDup_submseteq; [done|]. intros x Hx. apply elem_of_seqZ. eapply Forall_forall in Hx; [|exact Hb]. cbn in Hx. lia. }
  rewrite length_seqZ in H. lia.
Qed.

(** ** There are enough bitmaps *)

Lemma fulls_length a : wf2 a -> Z.of_nat (length (fulls a)) = 16 * l2_size a.
Proof.
  intros W. pose proof (w_size _ W) as Hs. unfold fulls.
  assert (forall i, i ∈ seqZ 0 (l2_size a) -> length (full_entry a (l2 a i)) = 16%nat) as Hall.
  { intros i Hi%elem_of_seqZ. unfold full_entry. rewrite length_fmap. apply (w_full _ W). lia. }
  assert (forall l, (forall i, i ∈ l -> length (full_entry a (l2 a i)) = 16%nat) ->
    length (l ≫= fun i => full_entry a (l2 a i)) = (16 * length l)%nat) as Hlen.
  { intros l. induction l as [|i l IH]; intros Hl; [done|]. cbn [mbind list_bind]. rewrite length_app, Hl by left.
    change (length (l ≫= fun i => full_entry a (l2 a i))) with (length (mbind (M := list) (fun i => full_entry a (l2 a i)) l)).
    rewrite IH; [cbn; lia|]. intros; apply Hl. by right. }
  rewrite Hlen, length_seqZ by done. lia.
Qed.

Lemma assigned_length a k : wf2 a -> 0 <= k -> below (k * 65536) (loose a) -> Z.of_nat (length (assigned a)) <= k.
Proof.
  intros W Hk Hb. assert (assigned a ⊆+ seqZ 0 k) as H%submseteq_length; [|by rewrite length_seqZ in H; lia].
  apply NoDup_submseteq; [apply NoDup_filter, swaths_nodup|]. intros s (N & Hs)%list_elem_of_filter.
  pose proof (proj1 (elem_of_swaths s) Hs) as Hr. destruct (w_asg _ W s Hr N) as [Hok _].
  destruct (sparse_bitset.ok_elems _ Hok) as (_ & Hall & Hlen).
  destruct (sparse_bitset.elems (l2_maps a (l2_assignments a s))) as [|o l] eqn:E; [cbn in Hlen; lia|].
  apply Forall_cons in Hall as [Ho _]. apply elem_of_seqZ.
  assert (s * 65536 + o ∈ loose a) as Hin.
  { apply list_elem_of_bind. exists s. split; [|done]. unfold loose_at. rewrite (proj2 (Z.eqb_neq _ 0)), E by done. left. }
  eapply Forall_forall in Hin; [|exact Hb]. cbn in Hin. unfold fits in Ho. lia.
Qed.

Lemma unused_bound a :
  wf2 a -> below (2 ^ 20) (loose a) -> Z.of_nat (length (fulls a ++ loose a)) <= 1048000 -> l2_first_unused a + 1 < L2_CAPACITY.
Proof.
  intros W Hb Hlen. rewrite length_app in Hlen. pose proof (fulls_length a W). pose proof (w_count _ W).
  replace (2 ^ 20) with (16 * 65536) in Hb by reflexivity. pose proof (assigned_length a 16 W ltac:(lia) Hb). rewrite L2_eq. lia.
Qed.

(** ** Draining *)

Lemma drain_loop base idxs a :
  let xs := (fun i => l1 a (base + i)) <$> idxs in
  wf2 a -> (forall i, i ∈ idxs -> 0 <= base + i < L1_CAPACITY) -> NoDup (xs ++ fulls a ++ loose a) ->
  below (2 ^ 20) (xs ++ fulls a ++ loose a) -> Z.of_nat (length (xs ++ fulls a ++ loose a)) <= 1048000 ->
  exists a', for_each idxs (drain_one base) a = Ok a' /\ wf2 a' /\ fulls a' ++ loose a' ≡ₚ xs ++ fulls a ++ loose a /\ same_rest a a'.
Proof.
  revert a. induction idxs as [|i idxs IH]; intros a xs W Hi Hnd Hb Hlen; unfold xs in *; clear xs.
  { exists a. cbn [fmap list_fmap app]. split; [reflexivity|]. split; [exact W|]. split; [reflexivity|by split_and!]. }
  cbn [for_each].
  cbn [fmap list_fmap app] in *. pose proof Hnd as [Hx _]%NoDup_cons. pose proof Hb as [Hx' Hb']%Forall_cons.
  destruct (drain_one_spec a base i (l1 a (base + i))) as (a1 & -> & W1 & E1 & R1 & _);
    [done|apply Hi; left|done|unfold fits; lia| | |].
  { intros F. apply Hx. rewrite !elem_of_app. auto. }
  { apply unused_bound; [done|..].
    - apply Forall_app in Hb' as [_ Hb']. by apply Forall_app in Hb' as [_ Hb'].
    - cbn in Hlen. rewrite length_app in Hlen. lia. }
  cbn [mbind res_bind].
  assert (l1 a (base + i) :: ((fun i => l1 a (base + i)) <$> idxs) ++ fulls a ++ loose a ≡ₚ
          ((fun i => l1 a1 (base + i)) <$> idxs) ++ fulls a1 ++ loose a1) as Ep.
  { destruct R1 as [-> _]. rewrite E1. apply Permutation_middle. }
  destruct (IH a1) as (a' & -> & W' & E' & R'); [done|intros; apply Hi; by right|by rewrite <- Ep..|].
  exists a'. split_and!; [done..|by rewrite E', Ep|]. unfold same_rest in *. intuition congruence.
Qed.

Lemma fresh_wf2 a :
  l2 a = (fun i => i) -> l2_assignments a = (fun _ => 0) -> l2_size a = 0 -> l2_first_unused a = 1 -> l2_loose_oids a = 0 ->
  wf2 a /\ fulls a = [] /\ loose a = [].
Proof.
  intros E1 E2 E3 E4 E5. pose proof L2_eq.
  assert (loose a = []) as El.
  { apply elem_of_nil_inv. intros x (s & Hx & _)%list_elem_of_bind. unfold loose_at in Hx. rewrite E2 in Hx. by apply not_elem_of_nil in Hx. }
  split_and!; [|unfold fulls; by rewrite E3|done].
  assert (forall o b, owns a o b -> exists j, o = OIdle j /\ j = b /\ 0 < b < L2_CAPACITY) as Ho.
  { intros [i|s|j] b; cbn; rewrite ?E1, ?E2, ?E3, ?E4; [lia|by intros (_ & <- & ?)|]. intros [? <-].
    rewrite wrap_small by (unfold fits; lia). exists j. split_and!; (done || lia). }
  split; [lia|lia| |intros o o' b (j & -> & -> & _)%Ho (j' & -> & -> & _)%Ho; done|by intros o b (j & _ & _ & ?)%Ho|lia|by rewrite E2|by rewrite El, E5].
  rewrite E3, E4. assert (assigned a = []) as ->; [|done]. apply elem_of_nil_inv. intros s (N & _)%list_elem_of_filter. by rewrite E2 in N.
Qed.

Section safety.
Context `{OS : Os}.

Lemma l2_pages : dynarray.pages l2_alloc_size = 39.
Proof. done. Qed.

Lemma store_grows d : dynarray.wf d -> l2_alloc_size <= dynarray.capacity d ->
  dynarray.ensure_size l2_alloc_size d = Throw os_error \/
  exists d', dynarray.ensure_size l2_alloc_size d = Ok d' /\ dynarray.wf d' /\ dynarray.capacity d' = dynarray.capacity d.
Proof.
  intros W Hc. pose proof (dynarray.ensure_size_spec d l2_alloc_size W ltac:(done) ltac:(done)) as H. cbv zeta in H.
  rewrite l2_pages in H. pose proof (proj2 (dynarray.size_eq d W)) as E. rewrite E in *.
  destruct (dynarray.ensure_size l2_alloc_size d) as [d'|e].
  - right. exists d'. destruct H as [(W' & _ & Ec & _) _]. by rewrite (proj2 (dynarray.size_eq d' W')), Ec.
  - left. destruct H as [[_ F]|[-> _]]; [|done]. exfalso. rewrite dynarray.page_size_eq in Hc.
    change l2_alloc_size with (39 * 2 ^ 16) in Hc. lia.
Qed.

(** The allocator changed inside only. *)
Record rearranged (a a' : t) : Prop := {
  r_sound : sound a';
  r_free : free a' ≡ₚ free a;
  r_hi : hiwater_mark a' = hiwater_mark a;
  r_cap : capacity_mark a' = capacity_mark a }.

Lemma init_l2_ok a : sound a -> l2_valid a = false ->
  init_l2 a = Throw os_error \/
  exists a', init_l2 a = Ok a' /\ rearranged a a' /\ l2_valid a' = true /\ l1_size a' = l1_size a /\ l1 a' = l1 a.
Proof.
  intros S Hv. destruct (s_store _ S) as [Wd Hc]. unfold init_l2.
  destruct (store_grows _ Wd Hc) as [->|(d' & -> & Wd' & Ec)]; cbn [mbind res_bind]; [by left|right].
  match goal with |- exists a', Ok ?r = _ /\ _ => exists r; set (a' := r) end.
  destruct (fresh_wf2 a') as (W' & Ef & El); [done..|]. destruct S. split_and!; [done| |done..].
  split; [|unfold free, l2_list; rewrite Hv; cbn [l2_valid]; by rewrite Ef, El|done..]. split; try done.
  cbn. by rewrite Ec.
Qed.

Lemma drain_l1_ok a n :
  sound a -> n = L1_CAPACITY / 2 -> n + 600 <= l1_size a -> NoDup (free a) -> below (2 ^ 20) (free a) ->
  _drain_l1 n a = Throw os_error \/
  exists a', _drain_l1 n a = Ok (0, a') /\ rearranged a a' /\ l1_size a' = l1_size a - n.
Proof.
  intros S Hn Hl1 Hnd Hb. assert (n = 8186) as En by (by subst n). clear Hn. pose proof L1_eq.
  assert ((if negb (l2_valid a) then init_l2 a else Ok a) = Throw os_error \/
    exists a1, (if negb (l2_valid a) then init_l2 a else Ok a) = Ok a1 /\ rearranged a a1 /\ l2_valid a1 = true /\
      l1_size a1 = l1_size a) as [E|(a1 & E & [S1 P1 H1 C1] & Hv & E1)].
  { destruct (l2_valid a) eqn:Hv; cbn [negb].
    - right. exists a. by split_and!.
    - destruct (init_l2_ok a S Hv) as [|(a1 & ? & ? & ? & ? & ?)]; [by left|right]. by exists a1. }
  { left. unfold _drain_l1. by rewrite E. }
  right. unfold _drain_l1. rewrite E. cbn [mbind res_bind]. clear E.
  pose proof (s_l1 _ S1) as Hs1. rewrite (wrap_small 16) by (unfold fits; lia). set (base := l1_size a1 - n) in *.
  set (a2 := set_l1_size base a1). pose proof (s_l2 _ S1 Hv) as W1.
  assert (wf2 a2) as W2 by (by destruct W1).
  assert (free a1 ≡ₚ stack (l1 a1) base ++ ((fun i => l1 a2 (base + i)) <$> seqZ 0 n) ++ fulls a2 ++ loose a2) as Ep.
  { unfold free, l1_list, l2_list. rewrite Hv, (stack_split _ _ n), <- app_assoc by lia. fold base.
    assert (l1 a1 <$> seqZ base n = (fun i => l1 a2 (base + i)) <$> seqZ 0 n) as ->; [|done].
    rewrite <- (Z.add_0_r base) at 1. rewrite <- (fmap_add_seqZ base 0 n), <- list_fmap_compose. done. }
  rewrite <- P1, Ep in Hnd, Hb. pose proof (nodup_below_length (2 ^ 20) _ ltac:(done) Hnd Hb) as Hlen. rewrite length_app in Hlen.
  pose proof (stack_length (l1 a1) base). apply NoDup_app in Hnd as (_ & _ & Hnd). apply Forall_app in Hb as [_ Hb].
  destruct (drain_loop base (seqZ 0 n) a2) as (a' & -> & W' & E' & R'); [done| |done|done|lia|].
  { intros i Hi%elem_of_seqZ. lia. }
  cbn [mbind res_bind]. destruct R' as (R1 & R2 & R3 & R4 & R5 & R6). exists a'. cbn in R1, R2, R3, R4, R5, R6.
  assert (l2_valid a' = true) as Hv'. { pose proof (w_unused _ W'). unfold l2_valid. rewrite (proj2 (Z.eqb_neq _ 0)); [done|lia]. }
  split_and!; [by rewrite R2, Z.sub_diag| |lia]. destruct S1. split; [|rewrite <- P1, Ep|congruence..].
  - split; [lia|done|congruence|rewrite R3, R4; done|by rewrite R4|by rewrite R5].
  - unfold free, l1_list, l2_list. by rewrite Hv', R1, R2, E'.
Qed.

(** OIDs moved between the allocator and the cache; the fresh ones are those
    between the old and the new high water mark. *)
Record moves (a : t) (tc : cache) (a' : t) (tc' : cache) : Prop := {
  mv_sound : sound a';
  mv_cache : cache_ok tc';
  mv_f : thread_cache.f tc' = thread_cache.f tc;
  mv_cap : capacity_mark a' = capacity_mark a;
  mv_hi : hiwater_mark a <= hiwater_mark a';
  mv_pool : pool a' tc' ≡ₚ pool a tc ++ seqZ (hiwater_mark a) (hiwater_mark a' - hiwater_mark a) }.

Lemma moves_trans a1 t1 a2 t2 a3 t3 : moves a1 t1 a2 t2 -> moves a2 t2 a3 t3 -> moves a1 t1 a3 t3.
Proof.
  intros [] []. split; [done|done|congruence|congruence|lia|]. rewrite mv_pool1, mv_pool0, <- app_assoc. f_equiv.
  replace (hiwater_mark a3 - hiwater_mark a1) with (hiwater_mark a2 - hiwater_mark a1 + (hiwater_mark a3 - hiwater_mark a2)) by lia.
  rewrite seqZ_app by lia. do 2 f_equiv. lia.
Qed.

(** Nothing fresh was taken. *)
Lemma moves_same a tc a' tc' :
  sound a' -> cache_ok tc' -> thread_cache.f tc' = thread_cache.f tc -> capacity_mark a' = capacity_mark a ->
  hiwater_mark a' = hiwater_mark a -> pool a' tc' ≡ₚ pool a tc -> moves a tc a' tc'.
Proof. intros ? ? ? ? E ?. split; [done..|lia|]. by rewrite E, Z.sub_diag, app_nil_r. Qed.

Lemma rearranged_moves a tc a' : rearranged a a' -> cache_ok tc -> moves a tc a' tc.
Proof. intros [] ?. apply moves_same; try done. unfold pool. by rewrite r_free0. Qed.

Lemma drain_cache_ok a tc target :
  sound a -> cache_ok tc -> 0 <= target <= thread_cache.nentries tc ->
  NoDup (pool a tc) -> below (2 ^ 20) (pool a tc) ->
  drain_cache tc target a = Throw os_error \/
  exists tc' a', drain_cache tc target a = Ok (true, tc', a') /\ moves a tc a' tc' /\ hiwater_mark a' = hiwater_mark a /\
    thread_cache.nentries tc' = thread_cache.nentries tc - (if target =? 0 then thread_cache.nentries tc else target).
Proof.
  intros S Hc Ht Hnd Hb. pose proof L1_eq. pose proof (s_l1 _ S). unfold cache_ok in Hc. change thread_cache.N with 126 in *.
  set (t0 := if target =? 0 then thread_cache.nentries tc else target).
  assert (0 <= t0 <= thread_cache.nentries tc) by (subst t0; destruct (target =? 0); lia).
  apply NoDup_app in Hnd as (Hnd & _). apply Forall_app in Hb as [Hb _].
  assert (forall r, r = (if L1_CAPACITY <? l1_size a + thread_cache.nentries tc then _drain_l1 (L1_CAPACITY / 2) a else Ok (0, a)) ->
    r = Throw os_error \/ exists a1, r = Ok (0, a1) /\ rearranged a a1 /\ l1_size a1 + thread_cache.nentries tc <= L1_CAPACITY) as Hdrain.
  { intros r ->. destruct (Z.ltb_spec L1_CAPACITY (l1_size a + thread_cache.nentries tc)) as [Hlt|Hge].
    - assert (L1_CAPACITY / 2 = 8186) as E2 by done.
      destruct (drain_l1_ok a (L1_CAPACITY / 2)) as [->|(a1 & -> & R & E)]; [done..|lia|done|done|by left|right].
      exists a1. split_and!; [done..|lia].
    - right. exists a. by split_and!. }
  unfold drain_cache. fold t0. destruct (Hdrain _ eq_refl) as [->|(a1 & -> & R & Hroom)]; cbn [mbind res_bind]; [by left|right].
  pose proof (s_l1 _ (r_sound _ _ R)). rewrite (Z.min_l t0) by lia.
  rewrite (wrap_small 32) by (unfold fits; lia).
  destruct (objcopy_push L1_CAPACITY (l1 a1) (l1_size a1) 126 (thread_cache.entries tc) (thread_cache.nentries tc - t0) t0)
    as (d & E & Hd); [lia..|]. change thread_cache.N with 126. rewrite E. cbn [mbind res_bind]. rewrite Z.sub_diag.
  eexists _, _. split; [done|]. rewrite (wrap_small 16) by (unfold fits; lia).
  split_and!; [|by apply R|done].
  apply (moves_trans _ _ a1 tc); [apply rearranged_moves; done|]. destruct (r_sound _ _ R).
  apply moves_same; [split; [cbn; lia|intros Hv; by destruct (s_l2 Hv)|done..]|unfold cache_ok; cbn; change thread_cache.N with 126; lia|done..|].
  unfold pool, free, l1_list, held. cbn [l1 l1_size set_l1 set_l1_size thread_cache.entries thread_cache.nentries]. rewrite Hd.
  rewrite (stack_split (thread_cache.entries tc) (thread_cache.nentries tc) t0) by lia.
  change (l2_list (set_l1_size _ _)) with (l2_list a1). rewrite <- !app_assoc. f_equiv. rewrite Permutation_app_comm, <- !app_assoc. f_equiv.
Qed.

(** ** Filling *)

Lemma bump_loop_ok fuel tc a :
  sound a -> 0 <= thread_cache.nentries tc -> thread_cache.nentries tc + Z.of_nat fuel <= thread_cache.N ->
  exists k tc' a', bump_loop fuel (Z.of_nat fuel) tc a = Ok (Z.of_nat fuel - k, tc', a') /\ 0 <= k <= Z.of_nat fuel /\
    moves a tc a' tc' /\ thread_cache.nentries tc' = thread_cache.nentries tc + k /\ l1_size a' = l1_size a /\
    l2_size a' = l2_size a /\ l2_valid a' = l2_valid a /\ hiwater_mark a' = hiwater_mark a + k /\
    (k < Z.of_nat fuel -> hiwater_mark a' = capacity_mark a').
Proof.
  revert tc a. induction fuel as [|fuel IH]; intros tc a S Hn Hroom.
  { exists 0, tc, a. split_and!; try (done || lia). apply moves_same; try done. unfold cache_ok. lia. }
  cbn [bump_loop]. rewrite (proj2 (Z.eqb_neq _ 0)) by lia. cbn [negb andb].
  destruct (Z.ltb_spec (hiwater_mark a) (capacity_mark a)) as [Hlt|Hge].
  2:{ exists 0, tc, a. rewrite Z.sub_0_r, Z.add_0_r. pose proof (s_marks _ S).
      split_and!; try (done || lia). apply moves_same; try done. unfold cache_ok. lia. }
  destruct (push_ok (hiwater_mark a) tc) as (tc1 & -> & Eh & En & Ef); [lia|]. cbn [mbind res_bind].
  pose proof (s_marks _ S) as Hm. pose proof (s_capacity _ S). rewrite (wrap_small 32) by (unfold fits; lia).
  set (a1 := set_hiwater_mark (hiwater_mark a + 1) a). replace (Z.of_nat (Datatypes.S fuel) - 1) with (Z.of_nat fuel) by lia.
  assert (moves a tc a1 tc1) as M.
  { split; [|unfold cache_ok; lia|done|done|cbn; lia|].
    - destruct S. split; try done; [intros Hv; by destruct (s_l2 Hv)|cbn; lia].
    - replace (hiwater_mark a1 - hiwater_mark a) with 1 by (cbn; lia). unfold pool. rewrite Eh, app_assoc. done. }
  destruct (IH tc1 a1) as (k & tc' & a' & -> & Hk & M' & En' & E1 & E2 & E3 & Eh' & Hend); [apply M|lia|lia|].
  cbn in Eh'. exists (k + 1), tc', a'. split_and!; try (done || lia); [do 3 f_equal; lia|by apply (moves_trans _ _ a1 tc1)].
Qed.

Lemma l1_moves a tc k tc' l :
  sound a -> 0 <= k <= l1_size a -> cache_ok tc' -> thread_cache.f tc' = thread_cache.f tc ->
  l1_list a = stack (l1 a) (l1_size a - k) ++ l -> held tc' = held tc ++ l -> moves a tc (set_l1_size (l1_size a - k) a) tc'.
Proof.
  intros [] Hk Hc Hf El Eh. apply moves_same; try done.
  - split; try done; [cbn; lia|]. intros Hv. by destruct (s_l2 Hv).
  - unfold pool, free. rewrite El, Eh. change (l2_list (set_l1_size _ a)) with (l2_list a). unfold l1_list. cbn [l1 l1_size set_l1_size].
    rewrite <- !app_assoc. f_equiv. rewrite (Permutation_app_comm l), <- !app_assoc. done.
Qed.

Lemma l2_moves a tc a' tc' : sound a -> l2_valid a = true -> cache_ok tc' -> l2_moved a tc a' tc' -> moves a tc a' tc' /\ l2_valid a' = true.
Proof.
  intros [] Hv Hc [W (R1 & R2 & R3 & R4 & R5 & R6) El Ep Hf Hn].
  assert (l2_valid a' = true) as Hv'. { pose proof (w_unused _ W). unfold l2_valid. rewrite (proj2 (Z.eqb_neq _ 0)); [done|lia]. }
  split; [|done]. apply moves_same; try done.
  - split; [by rewrite R2|done|by rewrite R6|by rewrite R3, R4|by rewrite R4|by rewrite R5].
  - unfold pool, free, l1_list, l2_list. rewrite Hv, Hv', R1, R2, <- !app_assoc. f_equiv. rewrite El, (Permutation_app_comm (loose a)), !app_assoc.
    rewrite Ep. rewrite <- !app_assoc. f_equiv. apply Permutation_app_comm.
Qed.

Lemma scavenge_moves a tc n left_ a' h :
  sound a -> l2_valid a = true -> cache_ok tc -> scavenged [] n left_ a (set_l2_scan_hand h a') -> 0 <= l1_size a' -> moves a tc a' tc.
Proof.
  intros [] Hv Hc [W Ef Ep Es _ Er (E1 & E2 & E3 & E4 & _) _ _] Hl. apply rearranged_moves; [|done].
  assert (wf2 a') as W' by (by destruct W). change (fulls (set_l2_scan_hand h a')) with (fulls a') in Ef.
  change (loose (set_l2_scan_hand h a')) with (loose a') in Ep. change (l1_list (set_l2_scan_hand h a')) with (l1_list a') in Ep. cbn in *.
  assert (l2_valid a' = true) as Hv'. { pose proof (w_unused _ W'). unfold l2_valid. rewrite (proj2 (Z.eqb_neq _ 0)); [done|lia]. }
  split; [|unfold free, l2_list; rewrite Hv, Hv', Ef|done..].
  - split; [lia|done|congruence|congruence|congruence|by rewrite E3].
  - rewrite (Permutation_app_comm (fulls a) (loose a')), (Permutation_app_comm (fulls a) (loose a)), !app_assoc. by rewrite Ep.
Qed.

#[local] Ltac mcbn := cbn [mbind res_bind].

(** The cache got [target - left_] OIDs from this level. *)
Definition stage (a : t) (tc : cache) (target : Z) (empty : t -> Prop) (filled : bool) (left_ : Z) (tc' : cache) (a' : t) : Prop :=
  moves a tc a' tc' /\ hiwater_mark a' = hiwater_mark a /\
  left_ = target - (thread_cache.nentries tc' - thread_cache.nentries tc) /\
  (if filled then left_ <= 0 else 0 <= left_ <= target /\ empty a').

Lemma l1_stage (from_l1 : bool) target tc a :
  sound a -> (from_l1 = false -> l1_size a = 0) -> 0 <= target -> 0 <= thread_cache.nentries tc ->
  thread_cache.nentries tc + target <= thread_cache.N ->
  exists filled left_ tc' a',
    (if from_l1 then '(left_, tc, a) ← _fill_from_l1 tc target a; Ok (left_ <=? 0, left_, tc, a) else Ok (false, target, tc, a)) =
      Ok (filled, left_, tc', a') /\
    stage a tc target (fun a' => l1_size a' = 0) filled left_ tc' a' /\ (from_l1 = true -> target <= l1_size a -> filled = true).
Proof.
  intros S H0 Ht Hn Hroom. destruct from_l1.
  - destruct (fill_from_l1_ok tc target a) as (tc' & -> & Hf & En & l & El & Eh); [apply S|done..|]. mcbn.
    set (k := Z.min target (l1_size a)) in *. pose proof (s_l1 _ S). eexists _, _, _, _. split; [done|]. split; [split_and!|].
    + apply (l1_moves _ _ k _ l); try done; [lia|]. unfold cache_ok. lia.
    + done.
    + lia.
    + destruct (Z.leb_spec (target - k) 0); [done|]. cbn. lia.
    + intros _ Hle. apply Z.leb_le. lia.
  - eexists _, _, _, _. split; [done|]. split; [split_and!|done].
    + apply moves_same; try done. unfold cache_ok. lia.
    + done.
    + lia.
    + lia.
    + lia.
    + auto.
Qed.

Lemma l2_stage target tc a :
  sound a -> 0 <= target -> 0 <= thread_cache.nentries tc -> thread_cache.nentries tc + target + 15 <= thread_cache.N ->
  exists filled left_ tc' a',
    (if l2_valid a && negb (l2_size a =? 0) then '(left_, tc, a) ← _fill_from_l2 tc target a; Ok (left_ <=? 0, left_, tc, a)
     else Ok (false, target, tc, a)) = Ok (filled, left_, tc', a') /\
    stage a tc target (fun a' => l2_valid a' = true -> l2_size a' = 0) filled left_ tc' a' /\ l1_size a' = l1_size a.
Proof.
  intros S Ht Hn Hroom. destruct (l2_valid a) eqn:Hv; cbn [andb].
  2:{ eexists _, _, _, _. split; [done|]. split; [split_and!|done]; [|done|lia|lia|lia|congruence].
      apply moves_same; try done. unfold cache_ok. lia. }
  destruct (Z.eqb_spec (l2_size a) 0) as [E|N]; cbn [negb].
  { eexists _, _, _, _. split; [done|]. split; [split_and!|done]; [|done|lia|lia|lia|done].
    apply moves_same; try done. unfold cache_ok. lia. }
  destruct (fill_from_l2_ok target a tc) as (a' & tc' & -> & M & Hend & Hmax); [by apply S|done..|]. mcbn.
  eexists _, _, _, _. split; [done|]. pose proof (lm_count _ _ _ _ M). destruct (lm_rest _ _ _ _ M) as (_ & ? & ? & _).
  destruct (l2_moves a tc a' tc') as [Mv Hv']; [done|done|unfold cache_ok; lia|done|]. split; [split_and!|done]; [done|done|done|].
  destruct (Z.leb_spec (target - (thread_cache.nentries tc' - thread_cache.nentries tc)) 0); [done|]. lia.
Qed.

(** Enough loose OIDs went to the empty first level, or nothing happened. *)
Lemma scavenge_stage a tc :
  sound a -> l1_size a = 0 -> cache_ok tc ->
  exists a', (forall R (K : t -> res R), ('(left_, a) ← _scavenge_l2_to_l1 (L1_CAPACITY / 2) a;
      '(_, a) ← (if (0 <? left_) && negb (l3_loose_oids a =? 0) then _scavenge_l3_to_l1 left_ a else Ok (left_, a)); K a) = K a') /\
    (a' = a \/ moves a tc a' tc /\ hiwater_mark a' = hiwater_mark a /\ 8186 <= l1_size a').
Proof.
  intros S E0 Hc. assert (L1_CAPACITY / 2 = 8186) as E2 by done. pose proof L1_eq. rewrite E2.
  destruct (l2_valid a && (8186 <=? l2_loose_oids a)) eqn:Hc2.
  - apply andb_true_iff in Hc2 as [Hv Hl%Z.leb_le].
    destruct (scavenge_l2_ok 8186 a) as (left_ & a' & -> & Hle & Sc); [by apply S|lia|lia|done|]. mcbn.
    exists a'. split; [intros R K; by rewrite (proj2 (Z.ltb_ge 0 left_)) by done|right].
    pose proof (sc_size _ _ _ _ _ Sc) as Es. cbn in Es. destruct (sc_rest _ _ _ _ _ Sc) as [Eh _]. split_and!; [|done|lia]. apply (scavenge_moves a tc 8186 left_ a' (l2_scan_hand a)); try done. lia.
  - unfold _scavenge_l2_to_l1. assert (negb (l2_valid a) || (l2_loose_oids a <? 8186) = true) as ->.
    { destruct (l2_valid a); [|done]. cbn in Hc2 |- *. apply Z.ltb_lt. by apply Z.leb_gt in Hc2. }
    exists a. split; [|by left]. intros R K. mcbn. unfold _scavenge_l3_to_l1, l3_valid. rewrite (s_l3 _ S). cbn [negb Z.eqb].
    by destruct ((0 <? 8186) && _).
Qed.

Record fill_post (a : t) (tc : cache) (target : Z) (b : bool) (a' : t) (tc' : cache) : Prop := {
  fp_moves : moves a tc a' tc';
  fp_fresh : hiwater_mark a' - hiwater_mark a <= thread_cache.nentries tc' - thread_cache.nentries tc;
  fp_true : b = true -> thread_cache.nentries tc + target <= thread_cache.nentries tc';
  fp_false : b = false -> hiwater_mark a' = capacity_mark a' /\ l1_size a' = 0 /\ (l2_valid a' = true -> l2_size a' = 0) /\
    thread_cache.nentries tc' < thread_cache.nentries tc + target }.

Lemma fill_turn fuel (from_l1 : bool) target tc a :
  sound a -> (from_l1 = false -> l1_size a = 0) -> 0 <= target -> 0 <= thread_cache.nentries tc ->
  thread_cache.nentries tc + target + 15 <= thread_cache.N ->
  (exists b tc' a', fill_loop (S fuel) from_l1 target tc a = Ok (b, tc', a') /\ fill_post a tc target b a' tc') \/
  (exists left_ tc' a', fill_loop (S fuel) from_l1 target tc a = fill_loop fuel true left_ tc' a' /\ moves a tc a' tc' /\
    left_ = target - (thread_cache.nentries tc' - thread_cache.nentries tc) /\ 0 <= left_ <= target /\ left_ <= l1_size a' /\
    hiwater_mark a' - hiwater_mark a <= thread_cache.nentries tc' - thread_cache.nentries tc /\
    (from_l1 = true -> l1_size a < target)).
Proof.
  intros S H0 Ht Hn Hroom. cbn [fill_loop]. assert (thread_cache.N = 126) as EN by done.
  destruct (l1_stage from_l1 target tc a) as (fl1 & left1 & tc1 & a1 & -> & (M1 & Eh1 & E1 & F1) & Hfull); [done..|lia|]. mcbn.
  destruct fl1.
  { left. exists true, tc1, a1. split; [done|]. split; [done|lia|lia|done]. }
  destruct F1 as [Hl1 Hz1].
  destruct (l2_stage left1 tc1 a1) as (fl2 & left2 & tc2 & a2 & -> & (M2 & Eh2 & E2 & F2) & Hs2);
    [apply M1|lia|pose proof (mv_cache _ _ _ _ M1) as []; lia|lia|]. mcbn.
  pose proof (moves_trans _ _ _ _ _ _ M1 M2) as M12. destruct fl2.
  { left. exists true, tc2, a2. split; [done|]. split; [done|lia|lia|done]. }
  destruct F2 as [Hl2 Hz2].
  destruct (bump_loop_ok (Z.to_nat left2) tc2 a2) as (k & tc3 & a3 & Eb & Hk & M3 & En3 & Es3 & Ez3 & Ev3 & Eh3 & Hend);
    [apply M2|pose proof (mv_cache _ _ _ _ M2) as []; lia|lia|]. rewrite Z2Nat.id in Eb, Hk, Hend by lia. rewrite Eb. mcbn.
  pose proof (moves_trans _ _ _ _ _ _ M12 M3) as M123.
  assert (fill_post a tc target (left2 - k =? 0) a3 tc3) as Post.
  { split; [done|lia|intros E%Z.eqb_eq; lia|]. intros E%Z.eqb_neq. split_and!; [apply Hend; lia|lia|rewrite Ev3, Ez3; done|lia]. }
  destruct (_ && _); [|left; by eexists _, _, _].
  destruct (scavenge_stage a3 tc3) as (a4 & HK & Ha4); [apply M3|lia|apply M3|]. rewrite HK.
  destruct Ha4 as [->|(M4 & Eh4 & H4)].
  - rewrite Es3, Hs2, Hz1. left. by eexists _, _, _.
  - right. rewrite (proj2 (Z.eqb_neq _ 0)) by lia. exists (left2 - k), tc3, a4. cbn [negb].
    split_and!; [done|by apply (moves_trans _ _ a3 tc3)|lia|lia|lia|lia|lia|]. intros ->.
    destruct (Z.lt_ge_cases (l1_size a) target) as [|Hge]; [done|]. discriminate (Hfull eq_refl Hge).
Qed.

Lemma fill_cache_ok tc a :
  sound a -> 0 <= thread_cache.nentries tc <= 110 ->
  exists b tc' a', fill_cache tc a = Ok (b, tc', a') /\ fill_post a tc (Z.min 64 (110 - thread_cache.nentries tc)) b a' tc'.
Proof.
  intros Sa Hn. assert (thread_cache.N = 126) as EN by done. unfold fill_cache.
  assert (u64 (thread_cache.space_remaining tc - sparse_bitset.CAPACITY) = 110 - thread_cache.nentries tc) as ->.
  { unfold thread_cache.space_remaining. rewrite EN. change sparse_bitset.CAPACITY with 16.
    rewrite (wrap_small 32) by (unfold fits; lia). rewrite wrap_small by (unfold fits; lia). lia. }
  change thread_cache.FILL_TARGET with 64. set (target := Z.min 64 (110 - thread_cache.nentries tc)).
  destruct (fill_turn (S (Z.to_nat thread_cache.N)) (negb (l1_size a =? 0)) target tc a) as [Hdone|(left1 & tc1 & a1 & E1 & M1 & El1 & Hl1 & Hle1 & Hf1 & _)];
    [done|by intros E%negb_false_iff%Z.eqb_eq|lia|lia|lia|done|].
  rewrite E1. pose proof (mv_cache _ _ _ _ M1) as [Hn1 _].
  destruct (fill_turn (Z.to_nat thread_cache.N) true left1 tc1 a1) as [(b & tc' & a' & E2 & P)|(left2 & tc2 & a2 & _ & _ & _ & _ & _ & _ & F)];
    [apply M1|done|lia|lia|lia| |specialize (F eq_refl); lia].
  exists b, tc', a'. split; [done|]. destruct P. split; [by apply (moves_trans _ _ a1 tc1)|lia| |].
  - intros Hb. specialize (fp_true0 Hb). lia.
  - intros Hb. destruct (fp_false0 Hb) as (? & ? & ? & ?). split_and!; [done..|lia].
Qed.

Lemma make_ok a : make = Ok a -> sound a /\ free a = [] /\ hiwater_mark a = 0 /\ capacity_mark a = 2 ^ 20.
Proof.
  unfold make. destruct (dynarray.make_dynarray (l3_alloc_size L3_MAX_WORDS) l1_alloc_size) as [d|] eqn:Ed; [|done]. mcbn.
  intros [= <-]. split_and!; [|done..]. pose proof L1_eq.
  destruct (dynarray.make_spec (l3_alloc_size L3_MAX_WORDS) l1_alloc_size d) as (Wd & Ec & _); [done..|].
  split; cbn; [lia|done|done|lia|lia|]. split; [done|]. by rewrite (proj2 (dynarray.size_eq d Wd)), Ec.
Qed.

(** ** Theorems *)

(** C20: filling a cache of at most 110 OIDs always returns, inside of
    all arrays.  The OIDs of the allocator and of the cache are those from
    before, as often as before, and the fresh ones that the high water mark
    passed; the mark stays within the capacity.  When it returns true the cache
    got the OIDs it asked for (64, or as many as leave room for a bitset);
    when it returns false there is no fresh OID, L1 is empty and L2 has no full
    bitset. *)
Theorem oid_fill_cache tc a (Sa : sound a) (Hn : 0 <= thread_cache.nentries tc <= 110) :
  exists b tc' a', fill_cache tc a = Ok (b, tc', a') /\
    sound a' /\ cache_ok tc' /\ capacity_mark a' = capacity_mark a /\ hiwater_mark a <= hiwater_mark a' <= capacity_mark a /\
    pool a' tc' ≡ₚ pool a tc ++ seqZ (hiwater_mark a) (hiwater_mark a' - hiwater_mark a) /\
    (if b then thread_cache.nentries tc + Z.min 64 (110 - thread_cache.nentries tc) <= thread_cache.nentries tc'
     else hiwater_mark a' = capacity_mark a' /\ l1_size a' = 0 /\ (l2_valid a' = true -> l2_size a' = 0)).
Proof.
  destruct (fill_cache_ok tc a Sa Hn) as (b & tc' & a' & E & [[] _ Ht Hf]). exists b, tc', a'. pose proof (s_marks _ mv_sound0).
  split_and!; [done..|lia|lia|done|]. destruct b; [auto|]. by destruct (Hf eq_refl) as (? & ? & ? & _).
Qed.

(** C19: draining a cache whose OIDs are below 2^20 (the initial
    capacity) and not free in the allocator returns true and moves [target]
    OIDs (all for 0) to the allocator, inside of all arrays and bitsets and
    without running out of bitmaps; only the system can make it fail, when it
    refuses memory for L2. *)
Theorem oid_drain_cache tc a target (Sa : sound a) (Hc : cache_ok tc) (Ht : 0 <= target <= thread_cache.nentries tc)
    (Hnd : NoDup (pool a tc)) (Hb : below (2 ^ 20) (pool a tc)) :
  drain_cache tc target a = Throw os_error \/
  exists tc' a', drain_cache tc target a = Ok (true, tc', a') /\
    sound a' /\ cache_ok tc' /\ capacity_mark a' = capacity_mark a /\ hiwater_mark a' = hiwater_mark a /\
    pool a' tc' ≡ₚ pool a tc /\
    thread_cache.nentries tc' = thread_cache.nentries tc - (if target =? 0 then thread_cache.nentries tc else target).
Proof.
  destruct (drain_cache_ok a tc target Sa Hc Ht Hnd Hb) as [|(tc' & a' & E & [] & Eh & En)]; [by left|right].
  exists tc', a'. rewrite Eh, Z.sub_diag, app_nil_r in mv_pool0. by split_and!.
Qed.

End safety.

Section witnesses.
#[local] Instance generous_os : Os := {| mmap := fun _ => Some 4096; mprotect := fun _ _ _ => true |}.

Lemma made : exists d, make = Ok (fresh d).
Proof.
  unfold make. destruct (dynarray.make_dynarray (l3_alloc_size L3_MAX_WORDS) l1_alloc_size) as [d|] eqn:E; [|by vm_compute in E].
  by exists d.
Qed.

Lemma oid_fill_cache_witness :
  exists a tc' a', make = Ok a /\ fill_cache (thread_cache.make 7) a = Ok (true, tc', a') /\ pool a' tc' ≡ₚ seqZ 0 64.
Proof.
  destruct made as [d Ea]. set (a := fresh d) in *. destruct (make_ok a Ea) as (Sa & Ef & Eh & _). exists a.
  destruct (oid_fill_cache (thread_cache.make 7) a Sa) as (b & tc' & a' & E & _ & _ & _ & _ & Ep & _); [done|].
  exists tc', a'. assert (b = true /\ hiwater_mark a' = 64) as [-> E64].
  { vm_compute in E. by injection E as <- _ <-. }
  split_and!; [done|done|]. rewrite Ep, E64, Eh. unfold pool. by rewrite Ef.
Defined.

(** A cache with the OIDs 0 to [k] - 1 and an allocator that gave them out. *)
#[local] Definition ten (a : t) : t := set_hiwater_mark 10 a.
#[local] Definition full_cache : cache := thread_cache.mk 7 10 (fun i => i).

Lemma oid_drain_cache_witness :
  exists a tc' a', make = Ok a /\ drain_cache full_cache 4 (ten a) = Ok (true, tc', a') /\ pool a' tc' ≡ₚ seqZ 0 10.
Proof.
  destruct made as [d Ea]. set (a := fresh d) in *. destruct (make_ok a Ea) as (Sa & Ef & Eh & Ec). exists a.
  assert (pool (ten a) full_cache = seqZ 0 10) as Ep.
  { unfold pool. change (free (ten a)) with (free a). by rewrite Ef. }
  destruct (oid_drain_cache full_cache (ten a) 4) as [E|(tc' & a' & E & _ & _ & _ & _ & Ep' & _)].
  - destruct Sa. split; try done.
  - done.
  - done.
  - rewrite Ep. apply NoDup_seqZ.
  - rewrite Ep. apply Forall_forall. intros x Hx%elem_of_seqZ. lia.
  - by vm_compute in E.
  - exists tc', a'. by rewrite Ep', Ep.
Defined.

End witnesses.
