(* ===== verification/OidManager.v ===== *)
(** * Files and their OIDs ([dbcore/sm-oid.cpp])

    The OID manager: a file has an OID array and, if managed, an allocator;
    threads allocate and free OIDs through caches that they keep in a hash
    table.  The arrays of file 0 and of file 1 hold the arrays and the
    allocators of the files; [arrays] and [allocators] are their contents.  A
    call that throws gives no state. *)
From stdpp Require Import base numbers list gmap functions.
From Stdlib Require Import ZArith Lia.
From S2P Require Import Prelude Bits Dynarray SparseBitset ScHash OidAlloc.

Local Open Scope Z_scope.

Module oid_array.
Section array.
Context `{OS : Os}.

(** The array starts behind its [dynarray], which takes 16 bytes. *)
(* src: dbcore/sm-oid.h:35-40 oid_array::alloc_size *)
Definition alloc_size (n : Z) : Z := 16 + 8 * n.
(* src: dbcore/sm-oid.h:29-30 oid_array::MAX_ENTRIES *)
Definition MAX_ENTRIES : Z := 2 ^ 32 - 16 / 8.

(* src: dbcore/sm-oid.h:45-48 oid_array::make_oid_dynarray *)
Definition make_oid_dynarray : res dynarray.t :=
  dynarray.make_dynarray (alloc_size MAX_ENTRIES) (1024 * 1024 * 128).
(* src: dbcore/sm-oid.cpp:204-213 oid_array::make *)
Definition make : res dynarray.t := make_oid_dynarray.

(* src: dbcore/sm-oid.cpp:226-229 oid_array::ensure_size *)
Definition ensure_size (n : Z) (d : dynarray.t) : res dynarray.t := dynarray.ensure_size (alloc_size n) d.

(** Whether the slot of [o] is memory. *)
Definition in_array (d : dynarray.t) (o : Z) : bool := (0 <=? o) && (alloc_size (o + 1) <=? dynarray.size d).
End array.
End oid_array.

(* src: dbcore/sm-oid.cpp:31-31 thread_data::NENTRIES *)
#[export] Instance cache_layout : Layout.
Proof.
  refine {| SLOTS := 64; SUBTABLES := 2; BUCKET_SIZE := 4; USE_LEVELS := true; SECOND_CHANCE := true |};
    [by exists 6|by exists 1|by exists 2|done|done].
Defined.

(** The hash function is generated code. *)
Class BurtHash := burt_hash : Z -> Z.

(* src: dbcore/sm-oid.cpp:33-48 thread_data::hasher, cmpeq *)
#[export] Instance cache_keyed `{BurtHash} : Keyed Z thread_cache.t := {| key := thread_cache.f; hash_key := burt_hash |}.

Module oid_mgr.
Import sc_hash.

(* src: dbcore/sm-oid-impl.h:14-17 sm_oid_mgr_impl *)
Definition OBJARRAY_FID : Z := 0.
Definition ALLOCATOR_FID : Z := 1.
Definition METADATA_FID : Z := 2.
Definition FIRST_FREE_FID : Z := 3.

Abbreviation cache_map := (sc_hash_set thread_cache.t).

(** [contents] are the OID arrays' entries, 0 for NULL_PTR; [tls] has the
    caches of the threads that have some. *)
(* src: dbcore/sm-oid-impl.h:8-47 sm_oid_mgr_impl *)
Record t := mk {
  arrays : gmap Z dynarray.t;
  allocators : gmap Z sm_allocator.t;
  contents : Z -> Z -> Z;
  tls : gmap Z cache_map }.

Definition set_arrays (v : gmap Z dynarray.t) (s : t) : t := mk v (allocators s) (contents s) (tls s).
Definition set_allocators (v : gmap Z sm_allocator.t) (s : t) : t := mk (arrays s) v (contents s) (tls s).
Definition set_contents (v : Z -> Z -> Z) (s : t) : t := mk (arrays s) (allocators s) v (tls s).
Definition set_tls (v : gmap Z cache_map) (s : t) : t := mk (arrays s) (allocators s) (contents s) v.

Definition put_array (f : Z) (d : dynarray.t) (s : t) : t := set_arrays (<[f := d]> (arrays s)) s.
Definition put_allocator (f : Z) (a : sm_allocator.t) (s : t) : t := set_allocators (<[f := a]> (allocators s)) s.
Definition put_caches (tid : Z) (c : cache_map) (s : t) : t := set_tls (<[tid := c]> (tls s)) s.
Definition caches (tid : Z) (s : t) : cache_map := default empty (tls s !! tid).

(** [*it = tc], in place. *)
Definition put_at (pos : Z) (tc : thread_cache.t) (c : cache_map) : cache_map :=
  mk_set (_presence c) (<[pos := Some tc]> (_buckets c)).

Section manager.
Context `{OS : Os} `{BH : BurtHash}.

(** ** Access *)

(* src: dbcore/sm-oid.cpp:458-466 sm_oid_mgr_impl::get_array *)
Definition get_array (f : Z) (s : t) : res dynarray.t :=
  match arrays s !! OBJARRAY_FID with
  | None => Throw bad_address
  | Some files =>
      throw_if (negb (oid_array.in_array files f)) bad_address ≫= fun _ =>
      match arrays s !! f with None => Throw illegal_argument | Some d => Ok d end
  end.

(* src: dbcore/sm-oid.cpp:468-473 sm_oid_mgr_impl::file_exists *)
Definition file_exists (f : Z) (s : t) : bool := match arrays s !! f with Some _ => true | None => false end.

(** The slot, if it is memory. *)
(* src: dbcore/sm-oid.cpp:441-446 sm_oid_mgr_impl::oid_access *)
Definition oid_access (f o : Z) (s : t) : res unit :=
  oa ← get_array f s; throw_if (negb (oid_array.in_array oa o)) bad_address.

(* src: dbcore/sm-oid.cpp:448-456 sm_oid_mgr_impl::get_allocator *)
Definition get_allocator (f : Z) (s : t) : res sm_allocator.t :=
  _ ← oid_access ALLOCATOR_FID f s;
  match allocators s !! f with None => Throw illegal_argument | Some a => Ok a end.

(** ** Caches of a thread *)

(** Draining changes the caches in place, and not which slots are in use. *)
(* src: dbcore/sm-oid.cpp:92-97 thread_revoke_caches *)
Fixpoint drain_all (tid : Z) (l : list Z) (s : t) : res t :=
  match l with
  | [] => Ok s
  | pos :: l =>
      tc ← _get_value (caches tid s) pos;
      a ← get_allocator (thread_cache.f tc) s;
      '(_, tc', a) ← drain_cache tc 0 a;
      drain_all tid l (put_caches tid (put_at pos tc' (caches tid s)) (put_allocator (thread_cache.f tc) a s))
  end.

(* src: dbcore/sm-oid.cpp:90-103 thread_revoke_caches *)
Definition thread_revoke_caches (tid : Z) (s : t) : res t :=
  l ← visits (caches tid s);
  s ← drain_all tid l s;
  Ok (put_caches tid (clear (caches tid s)) s).

(* src: dbcore/sm-oid.cpp:105-113 thread_fini *)
Definition thread_fini (tid : Z) (s : t) : res t :=
  s ← thread_revoke_caches tid s; Ok (set_tls (delete tid (tls s)) s).

(** The destructor of the thread key.  [arg] is what [thread_init] stored
    under the key, the address of the thread's [thread_data]; only if it were
    the address of the manager would the caches be given back.  Otherwise the
    exiting thread's caches stay in [threads]. *)
(* src: dbcore/sm-oid.cpp:261-265 fini *)
Definition fini (arg master tid : Z) (s : t) : res t :=
  if arg =? master then thread_fini tid s else Ok s.

(* src: dbcore/sm-oid.cpp:115-130 thread_init *)
Definition thread_init (tid : Z) (s : t) : t := put_caches tid empty s.

(* src: dbcore/sm-oid.cpp:135-158 thread_cache *)
Definition get_cache (tid f : Z) (s : t) : res (Z * t) :=
  let s := match tls s !! tid with None => thread_init tid s | Some _ => s end in
  '(pos, second, c) ← find_and_emplace f (thread_cache.make f) (caches tid s);
  let s := put_caches tid c s in
  if second =? -1 then
    s ← thread_revoke_caches tid s;
    '(pos, second, c) ← find_and_emplace f (thread_cache.make f) (caches tid s);
    Ok (pos, put_caches tid c s)
  else Ok (pos, s).

(** The cache is empty: fill it, with more capacity if need be. *)
(* src: dbcore/sm-oid.cpp:166-178 thread_allocate *)
Definition refill (f : Z) (tc : thread_cache.t) (s : t) : res (thread_cache.t * t) :=
  a ← get_allocator f s;
  '(filled, tc, a) ← fill_cache tc a;
  if (filled : bool) then Ok (tc, put_allocator f a s)
  else
    let cbump := propose_capacity 1 a in
    oa ← get_array f s;
    oa ← oid_array.ensure_size cbump oa;
    '(_, tc, a) ← fill_cache tc (sm_allocator.set_capacity_mark cbump a);
    Ok (tc, put_allocator f a (put_array f oa s)).

(* src: dbcore/sm-oid.cpp:160-180 thread_allocate *)
Definition thread_allocate (tid f : Z) (s : t) : res (Z * t) :=
  '(pos, s) ← get_cache tid f s;
  tc ← _get_value (caches tid s) pos;
  '(tc, s) ← (if thread_cache.nentries tc =? 0 then refill f tc s else Ok (tc, s));
  let n := u32 (thread_cache.nentries tc - 1) in
  o ← aget thread_cache.N (thread_cache.entries tc) n;
  Ok (o, put_caches tid (put_at pos (thread_cache.mk (thread_cache.f tc) n (thread_cache.entries tc)) (caches tid s)) s).

(* src: dbcore/sm-oid.cpp:182-196 thread_free *)
Definition thread_free (tid f o : Z) (s : t) : res t :=
  '(pos, s) ← get_cache tid f s;
  tc ← _get_value (caches tid s) pos;
  '(tc, s) ← (if thread_cache.space_remaining tc =? 0 then
      a ← get_allocator (thread_cache.f tc) s;
      '(_, tc', a) ← drain_cache tc 0 a;
      Ok (tc', put_allocator (thread_cache.f tc) a s)
    else Ok (tc, s));
  tc ← thread_cache.push o tc;
  Ok (put_caches tid (put_at pos tc (caches tid s)) s).

(** ** OIDs *)

(** [goto alloc] is taken for OID 0 only, which the allocator gives once. *)
(* src: dbcore/sm-oid.cpp:713-719 sm_oid_mgr::alloc_oid *)
Fixpoint alloc_loop (fuel : nat) (tid f : Z) (s : t) : res (Z * t) :=
  match fuel with
  | O => Throw Spinning
  | S fuel => '(o, s) ← thread_allocate tid f s; if o =? 0 then alloc_loop fuel tid f s else Ok (o, s)
  end.
(* src: dbcore/sm-oid.cpp:702-720 sm_oid_mgr::alloc_oid *)
Definition alloc_oid (tid f : Z) (s : t) : res (Z * t) := alloc_loop 2 tid f s.

(* src: dbcore/sm-oid.cpp:722-731 sm_oid_mgr::free_oid *)
Definition free_oid (tid f o : Z) (s : t) : res (Z * t) :=
  _ ← oid_access f o s;
  let rval := contents s f o in
  s ← thread_free tid f o (set_contents (<[f := <[o := 0]> (contents s f)]> (contents s)) s);
  Ok (rval, s).

(* src: dbcore/sm-oid.cpp:733-737 sm_oid_mgr::oid_get *)
Definition oid_get (f o : Z) (s : t) : res Z := _ ← oid_access f o s; Ok (contents s f o).
(* src: dbcore/sm-oid.cpp:757-762 sm_oid_mgr::oid_put *)
Definition oid_put (f o p : Z) (s : t) : res t :=
  _ ← oid_access f o s; Ok (set_contents (<[f := <[o := p]> (contents s f)]> (contents s)) s).

(** ** Files *)

(* src: dbcore/sm-oid.cpp:231-273 sm_oid_mgr_impl::sm_oid_mgr_impl *)
Definition create : res t :=
  files ← oid_array.make;
  let s := mk {[ OBJARRAY_FID := files ]} ∅ (fun _ _ => 0) ∅ in
  allocs ← oid_array.make;
  _ ← oid_access OBJARRAY_FID ALLOCATOR_FID s;
  let s := put_array ALLOCATOR_FID allocs s in
  metas ← oid_array.make;
  _ ← oid_access OBJARRAY_FID METADATA_FID s;
  let s := put_array METADATA_FID metas s in
  alloc ← OidAlloc.make;
  let alloc := sm_allocator.set_hiwater_mark FIRST_FREE_FID alloc in
  oa ← oid_array.ensure_size (sm_allocator.capacity_mark alloc) files;
  let s := put_array OBJARRAY_FID oa s in
  _ ← oid_access ALLOCATOR_FID OBJARRAY_FID s;
  Ok (put_allocator OBJARRAY_FID alloc s).

(* src: dbcore/sm-oid.cpp:296-316 sm_oid_mgr_impl::create_file *)
Definition create_file (tid : Z) (needs_alloc : bool) (s : t) : res (Z * t) :=
  '(f, s) ← thread_allocate tid OBJARRAY_FID s;
  oa ← oid_array.make;
  _ ← oid_access OBJARRAY_FID f s;
  let s := put_array f oa s in
  if needs_alloc then
    alloc ← OidAlloc.make;
    _ ← oid_access ALLOCATOR_FID f s;
    let s := put_allocator f alloc s in
    oa ← oid_array.ensure_size (sm_allocator.capacity_mark alloc) oa;
    Ok (f, put_array f oa s)
  else Ok (f, s).

(* src: dbcore/sm-oid.cpp:322-332 sm_oid_mgr_impl::recreate_file *)
Definition recreate_file (f : Z) (s : t) : res t :=
  ptr ← oid_array.make;
  _ ← oid_access OBJARRAY_FID f s;
  Ok (put_array f ptr s).

(* src: dbcore/sm-oid.cpp:339-391 sm_oid_mgr_impl::recreate_allocator *)
Definition recreate_allocator (f m : Z) (s : t) : res t :=
  _ ← oid_access ALLOCATOR_FID f s;
  '(alloc, s) ← match allocators s !! f with
    | Some alloc => Ok (alloc, s)
    | None => alloc ← OidAlloc.make; Ok (alloc, put_allocator f alloc s)
    end;
  if m =? 0 then Ok s
  else if (m <? sm_allocator.capacity_mark alloc) && (m <? sm_allocator.hiwater_mark alloc) then Ok s
  else
    let m := u32 (m + 64) in
    let alloc := sm_allocator.set_capacity_mark m (sm_allocator.set_hiwater_mark m alloc) in
    let s := put_allocator f alloc s in
    oa ← get_array f s;
    oa ← oid_array.ensure_size (sm_allocator.capacity_mark alloc) oa;
    Ok (put_array f oa s).

(* src: dbcore/sm-oid.cpp:411-418 sm_oid_mgr_impl::destroy_file *)
Definition nuke (f : Z) (c : cache_map) : cache_map :=
  let it := find c f in
  match _buckets c it with
  | Some tc => if negb (it =? end_) then put_at it (thread_cache.mk (thread_cache.f tc) 0 (thread_cache.entries tc)) c else c
  | None => c
  end.

(* src: dbcore/sm-oid.cpp:393-439 sm_oid_mgr_impl::destroy_file *)
Definition destroy_file (tid f : Z) (s : t) : res t :=
  let s := set_tls (nuke f <$> tls s) s in
  _ ← oid_access OBJARRAY_FID f s;
  let s := set_arrays (delete f (arrays s)) s in
  _ ← oid_access ALLOCATOR_FID f s;
  let s := set_allocators (delete f (allocators s)) s in
  thread_free tid OBJARRAY_FID f s.

End manager.
End oid_mgr.
