(* ===== verification/OidManagerSafe.v ===== *)
(** * No OID is given out twice ([dbcore/sm-oid.cpp])

    [C] collects the caches of all threads and [live f] the OIDs of the file
    [f] that are in use.  Every OID below the high water mark of a file is in
    exactly one place: free in the allocator, in a cache, or in use. *)
From stdpp Require Import base numbers gmap functions list.
From Stdlib Require Import ZArith Lia.
From S2P Require Import Prelude Bits Dynarray SparseBitset ScHash ScHashSpec OidAlloc OidAllocSpec OidAllocFree OidAllocSafe OidManager.

Import sc_hash sc_hash_spec oid_mgr.
Local Open Scope Z_scope.
#[local] Abbreviation cache := thread_cache.t.
#[local] Abbreviation alloc := sm_allocator.t.

(** ** The caches of all threads *)

Definition of_file (f : Z) (x : Z * Z * cache) : list Z := if decide (snd (fst x) = f) then held (snd x) else [].
Definition cached (C : gmap (Z * Z) cache) (f : Z) : list Z := map_to_list C ≫= of_file f.

Lemma cached_insert C tid g tc f :
  C !! (tid, g) = None -> cached (<[(tid, g) := tc]> C) f ≡ₚ (if decide (g = f) then held tc else []) ++ cached C f.
Proof. intros HC. unfold cached. by rewrite map_to_list_insert by done. Qed.

Lemma cached_delete C tid g tc f :
  C !! (tid, g) = Some tc -> cached C f ≡ₚ (if decide (g = f) then held tc else []) ++ cached (delete (tid, g) C) f.
Proof.
  intros HC. rewrite <- (insert_delete_id C (tid, g) tc HC) at 1. apply cached_insert. apply lookup_delete_eq.
Qed.

Lemma cached_update C tid g tc tc' f :
  C !! (tid, g) = Some tc ->
  cached (<[(tid, g) := tc']> C) f ≡ₚ (if decide (g = f) then held tc' else []) ++ cached (delete (tid, g) C) f.
Proof.
  intros HC. rewrite <- (insert_delete_eq C (tid, g) tc'). apply cached_insert. apply lookup_delete_eq.
Qed.

Definition without (tid : Z) (C : gmap (Z * Z) cache) : gmap (Z * Z) cache := filter (fun x => fst (fst x) <> tid) C.

Lemma cached_without C f tid :
  (forall g tc, C !! (tid, g) = Some tc -> held tc = []) -> cached (without tid C) f ≡ₚ cached C f.
Proof.
  intros Hn. unfold without. induction C as [|[tid' g] tc C Hk IH] using map_ind; [by rewrite map_filter_empty|].
  rewrite cached_insert by done. rewrite map_filter_insert. cbn [fst].
  assert (forall g tc, C !! (tid, g) = Some tc -> held tc = []) as Hn'.
  { intros g' tc' Hk'. apply (Hn g'). rewrite lookup_insert_ne; [done|]. congruence. }
  case_decide as HP.
  - rewrite cached_insert, IH by (done || apply map_lookup_filter_None; by left). done.
  - rewrite delete_id, IH by (done || apply map_lookup_filter_None; by left).
    assert (tid' = tid) as -> by (destruct (decide (tid' = tid)); done).
    by rewrite (Hn g tc) by apply lookup_insert_eq; case_decide.
Qed.

(** ** Arrays *)

Definition array_ok (d : dynarray.t) : Prop := dynarray.wf d /\ 2048 <= dynarray._size d.

(** What fits into the 128 MB that an array starts with. *)
Definition MANY : Z := 16777214.

Lemma in_array_ok d o : array_ok d -> 0 <= o < MANY -> oid_array.in_array d o = true.
Proof.
  intros [W Hs] Ho. unfold oid_array.in_array, oid_array.alloc_size, MANY in *. rewrite (proj1 (dynarray.size_eq d W)), dynarray.page_size_eq.
  apply andb_true_iff. rewrite !Z.leb_le. lia.
Qed.

Lemma ensure_array d n `{OS : Os} : array_ok d -> 0 <= n < MANY -> oid_array.ensure_size n d = Ok d.
Proof.
  intros [W Hs] Hn. unfold oid_array.ensure_size, dynarray.ensure_size, oid_array.alloc_size, MANY in *.
  rewrite dynarray.align_pages, (proj1 (dynarray.size_eq d W)) by lia. pose proof (dynarray.pages_bounds (16 + 8 * n) ltac:(lia)).
  rewrite dynarray.page_size_eq in *. rewrite (proj2 (Z.ltb_ge _ _)); [done|]. lia.
Qed.

Lemma make_array_ok `{OS : Os} d : oid_array.make = Ok d -> array_ok d.
Proof.
  intros E. destruct (dynarray.make_spec (oid_array.alloc_size oid_array.MAX_ENTRIES) (1024 * 1024 * 128) d) as (W & _ & Es); [done..|].
  split; [done|]. rewrite Es. done.
Qed.

(** ** Changing an element in place *)

Section put.
Context `{BH : BurtHash}.

Lemma at_put_at c m pos tc tc' q : models c m -> 0 <= pos -> 0 <= q -> at_ c pos = Some tc ->
  at_ (put_at pos tc' c) q = if decide (q = pos) then Some tc' else at_ c q.
Proof. intros Hm Hp Hq Ha. apply at_put; [done|done|]. apply (at_present _ _ (m_wf _ _ Hm)); [done|]. by exists tc. Qed.

Lemma put_at_models c m pos tc tc' :
  models c m -> 0 <= pos -> at_ c pos = Some tc -> thread_cache.f tc' = thread_cache.f tc ->
  models (put_at pos tc' c) (<[thread_cache.f tc := tc']> m).
Proof.
  intros Hm Hp Ha Hf. pose proof (m_wf _ _ Hm) as W.
  assert (forall q, 0 <= q -> at_ (put_at pos tc' c) q = if decide (q = pos) then Some tc' else at_ c q) as Hat
    by (intros; by eapply at_put_at).
  assert (forall q v, 0 <= q -> at_ (put_at pos tc' c) q = Some v -> exists v', at_ c q = Some v' /\ key v' = key v) as Hold.
  { intros q v Hq. rewrite Hat by done. case_decide as E; [|by exists v]. intros [= <-]. subst. by exists tc. }
  split; [split|].
  - apply (wf_words _ W).
  - intros q Hq Hs. destruct (wf_range _ W q Hq Hs) as [Hr Hb]. split; [done|]. unfold put_at. cbn.
    destruct (decide (q = pos)) as [->|]; [by rewrite fn_lookup_insert|by rewrite fn_lookup_insert_ne].
  - intros q v Hq Hv. destruct (Hold q v Hq Hv) as (v' & Hv' & <-). by apply (wf_place _ W).
  - intros i j v w Hi Hj (v' & Hv & <-)%Hold (w' & Hw & <-)%Hold Hk; try done. by eapply (wf_unique _ W i j).
  - intros x v. rewrite lookup_insert_Some, (m_elems _ _ Hm). split.
    + intros [[<- <-]|[N (q & Hq & Hv & Hk)]].
      * exists pos. rewrite Hat by done. by rewrite decide_True by done.
      * exists q. rewrite Hat by done. rewrite decide_False; [done|]. intros ->. apply N. rewrite Ha in Hv. by injection Hv as ->.
    + intros (q & Hq & Hv & Hk). rewrite Hat in Hv by done. case_decide as E; [left; injection Hv as <-; by rewrite <- Hf|right].
      split; [|by exists q]. intros E'. apply E. by apply (wf_unique _ W q pos v tc); [..|rewrite Hk, <- E'].
Qed.

End put.

(** ** The invariant *)

Section safety.
Context `{OS : Os} `{BH : BurtHash}.

(** The capacities a file can have before and after it outgrows the initial one. *)
Definition GROWN : Z := 1310720.

Record inv (s : oid_mgr.t) (C : gmap (Z * Z) cache) (live : Z -> list Z) : Prop := {
  i_tls tid c : tls s !! tid = Some c -> exists m, models c m /\ forall f, m !! f = C !! (tid, f);
  i_no_tls tid f : tls s !! tid = None -> C !! (tid, f) = None;
  i_cache k tc : C !! k = Some tc -> cache_ok tc /\ is_Some (allocators s !! snd k);
  i_alloc f a : allocators s !! f = Some a -> sound a /\
    (sm_allocator.capacity_mark a = 2 ^ 20 \/ sm_allocator.capacity_mark a = GROWN) /\
    free a ++ cached C f ++ live f ≡ₚ seqZ 0 (sm_allocator.hiwater_mark a);
  i_none f : allocators s !! f = None -> live f = [];
  i_arrays f d : arrays s !! f = Some d -> array_ok d;
  i_has f : is_Some (allocators s !! f) -> is_Some (arrays s !! f);
  i_base : is_Some (arrays s !! OBJARRAY_FID) /\ is_Some (arrays s !! ALLOCATOR_FID) /\ is_Some (allocators s !! OBJARRAY_FID);
  i_fids f : is_Some (arrays s !! f) -> f ∈ live OBJARRAY_FID }.

(** No file has outgrown its initial capacity. *)
Definition small (s : oid_mgr.t) : Prop := forall f a, allocators s !! f = Some a -> sm_allocator.capacity_mark a = 2 ^ 20.

Lemma inv_caches s C live tid : inv s C live -> exists m, models (caches tid s) m /\ forall f, m !! f = C !! (tid, f).
Proof.
  intros I. unfold caches. destruct (tls s !! tid) as [c|] eqn:E; [by apply (i_tls _ _ _ I)|].
  exists ∅. split; [exact (models_cleared empty)|]. intros f. by rewrite lookup_empty, (i_no_tls _ _ _ I).
Qed.

Lemma at_cached s C live tid pos tc :
  inv s C live -> 0 <= pos -> at_ (caches tid s) pos = Some tc -> C !! (tid, thread_cache.f tc) = Some tc.
Proof.
  intros I Hp Ha. destruct (inv_caches s C live tid I) as (m & Hm & E). rewrite <- E. apply (m_elems _ _ Hm). by exists pos.
Qed.

Lemma live_bounds s C live f a o : inv s C live -> allocators s !! f = Some a -> o ∈ live f ->
  0 <= o < sm_allocator.hiwater_mark a /\ sm_allocator.hiwater_mark a <= GROWN.
Proof.
  intros I Ha Ho. destruct (i_alloc _ _ _ I f a Ha) as (Sa & Hc & Ep). pose proof (s_marks _ Sa).
  assert (o ∈ seqZ 0 (sm_allocator.hiwater_mark a)) as [? ?]%elem_of_seqZ.
  { rewrite <- Ep, !elem_of_app. auto. }
  unfold GROWN in *. lia.
Qed.

Lemma fid_bounds s C live f : inv s C live -> is_Some (arrays s !! f) -> 0 <= f < MANY.
Proof.
  intros I Hf%(i_fids _ _ _ I). destruct (i_base _ _ _ I) as (_ & _ & [a Ha]).
  pose proof (live_bounds _ _ _ _ _ _ I Ha Hf). unfold GROWN, MANY in *. lia.
Qed.

Lemma get_array_ok s C live f d : inv s C live -> arrays s !! f = Some d -> get_array f s = Ok d.
Proof.
  intros I Hd. unfold get_array. destruct (i_base _ _ _ I) as ([d0 H0] & _). rewrite H0.
  rewrite in_array_ok, Hd; [done|by apply (i_arrays _ _ _ I) in H0|apply (fid_bounds _ _ _ _ I); eauto].
Qed.

Lemma oid_access_ok s C live f o : inv s C live -> is_Some (arrays s !! f) -> 0 <= o < MANY -> oid_access f o s = Ok tt.
Proof.
  intros I [d Hd] Ho. unfold oid_access. rewrite (get_array_ok _ _ _ _ _ I Hd). cbn [mbind res_bind].
  by rewrite in_array_ok by (done || by apply (i_arrays _ _ _ I) in Hd).
Qed.

Lemma get_allocator_ok s C live f : inv s C live -> is_Some (arrays s !! f) ->
  get_allocator f s = match allocators s !! f with None => Throw illegal_argument | Some a => Ok a end.
Proof.
  intros I Hf. unfold get_allocator. destruct (i_base _ _ _ I) as (_ & H1 & _).
  rewrite (oid_access_ok _ _ _ _ _ I H1); [done|]. by apply (fid_bounds _ _ _ _ I).
Qed.

(** The OIDs of a cache and of its allocator are distinct and below the mark. *)
Lemma pool_facts s C live tid f tc a :
  inv s C live -> C !! (tid, f) = Some tc -> allocators s !! f = Some a ->
  NoDup (pool a tc) /\ below (sm_allocator.hiwater_mark a) (pool a tc).
Proof.
  intros I HC Ha. destruct (i_alloc _ _ _ I f a Ha) as (_ & _ & Ep).
  rewrite (cached_delete C tid f tc f HC), decide_True, <- app_assoc, app_assoc in Ep by done. fold (pool a tc) in Ep.
  assert (NoDup (seqZ 0 (sm_allocator.hiwater_mark a))) as Hnd by apply NoDup_seqZ. rewrite <- Ep in Hnd.
  split; [by apply NoDup_app in Hnd as (? & _)|]. apply Forall_forall. intros x Hx.
  assert (x ∈ seqZ 0 (sm_allocator.hiwater_mark a)) as ?%elem_of_seqZ; [|lia]. rewrite <- Ep. apply elem_of_app. by left.
Qed.
(** ** One cache and its allocator change *)

Lemma inv_put s C live live' tid pos f tc tc' a a' :
  inv s C live -> 0 <= pos -> at_ (caches tid s) pos = Some tc -> thread_cache.f tc = f -> allocators s !! f = Some a ->
  thread_cache.f tc' = f -> cache_ok tc' -> sound a' ->
  (sm_allocator.capacity_mark a' = 2 ^ 20 \/ sm_allocator.capacity_mark a' = GROWN) ->
  sm_allocator.hiwater_mark a <= sm_allocator.hiwater_mark a' ->
  pool a' tc' ++ live' f ≡ₚ (pool a tc ++ live f) ++
    seqZ (sm_allocator.hiwater_mark a) (sm_allocator.hiwater_mark a' - sm_allocator.hiwater_mark a) ->
  (forall g, g <> f -> live' g = live g) -> (f = OBJARRAY_FID -> live f ⊆ live' f) ->
  inv (put_caches tid (put_at pos tc' (caches tid s)) (put_allocator f a' s)) (<[(tid, f) := tc']> C) live'.
Proof.
  intros I Hp Hat Hf Ha Hf' Hok Sa' Hcap Hhi Hpool Hlive Hobj.
  pose proof (at_cached _ _ _ _ _ _ I Hp Hat) as HC. rewrite Hf in HC. destruct (inv_caches s C live tid I) as (m & Hm & Em).
  assert (forall g b, <[f := a']> (allocators s) !! g = b -> is_Some (allocators s !! g) <-> is_Some b) as Hsome.
  { intros g b <-. destruct (decide (f = g)) as [<-|]; [by rewrite Ha, lookup_insert_eq|by rewrite lookup_insert_ne]. }
  split; cbn.
  - intros tid' c. destruct (decide (tid = tid')) as [<-|N].
    + rewrite lookup_insert_eq. intros [= <-]. exists (<[f := tc']> m). split; [rewrite <- Hf; apply put_at_models; congruence|].
      intros g. destruct (decide (f = g)) as [<-|]; [by rewrite !lookup_insert_eq|].
      rewrite !lookup_insert_ne by congruence. apply Em.
    + rewrite lookup_insert_ne by done. intros (m' & Hm' & E')%(i_tls _ _ _ I). exists m'. split; [done|].
      intros g. rewrite lookup_insert_ne by congruence. apply E'.
  - intros tid' g. destruct (decide (tid = tid')) as [<-|N]; [by rewrite lookup_insert_eq|].
    rewrite !lookup_insert_ne by congruence. apply (i_no_tls _ _ _ I).
  - intros k tc1. destruct (decide ((tid, f) = k)) as [<-|N].
    + rewrite lookup_insert_eq. intros [= <-]. split; [done|]. cbn. by rewrite lookup_insert_eq.
    + rewrite lookup_insert_ne by done. intros [? Hs]%(i_cache _ _ _ I). split; [done|]. by apply (Hsome _ _ eq_refl).
  - intros g b. destruct (decide (f = g)) as [<-|N].
    + rewrite lookup_insert_eq. intros [= <-]. split; [done|]. split; [done|].
      rewrite (cached_update C tid f tc tc' f HC), decide_True by done.
      destruct (i_alloc _ _ _ I f a Ha) as (Sa & _ & Ep). rewrite (cached_delete C tid f tc f HC), decide_True in Ep by done.
      pose proof (s_marks _ Sa).
      replace (sm_allocator.hiwater_mark a') with
        (sm_allocator.hiwater_mark a + (sm_allocator.hiwater_mark a' - sm_allocator.hiwater_mark a)) at 1 by lia.
      rewrite seqZ_app, Z.add_0_l, <- Ep by lia. unfold pool in Hpool. set (R := cached (delete (tid, f) C) f) in *.
      transitivity (R ++ (free a' ++ held tc') ++ live' f); [|rewrite Hpool]; solve_Permutation.
    + rewrite lookup_insert_ne, Hlive by done. rewrite (cached_update C tid f tc tc' g HC), decide_False by done.
      intros Hb. pose proof (i_alloc _ _ _ I g b Hb) as Hi. by rewrite (cached_delete C tid f tc g HC), decide_False in Hi by done.
  - intros g Hg. destruct (decide (f = g)) as [<-|N]; [by rewrite lookup_insert_eq in Hg|]. rewrite lookup_insert_ne in Hg by done.
    rewrite Hlive by done. by apply (i_none _ _ _ I).
  - apply (i_arrays _ _ _ I).
  - intros g Hg. apply (i_has _ _ _ I), (Hsome _ _ eq_refl), Hg.
  - destruct (i_base _ _ _ I) as (? & ? & ?). split_and!; [done..|]. by apply (Hsome _ _ eq_refl).
  - intros g Hg%(i_fids _ _ _ I). destruct (decide (f = OBJARRAY_FID)) as [E|N]; [|by rewrite Hlive].
    rewrite <- E in Hg |- *. by apply (Hobj E).
Qed.

(** [s'] has the files of [s], with the same capacities. *)
Definition same_files (s s' : oid_mgr.t) : Prop :=
  arrays s' = arrays s /\ contents s' = contents s /\
  forall f, sm_allocator.capacity_mark <$> allocators s' !! f = sm_allocator.capacity_mark <$> allocators s !! f.

Lemma same_files_trans s1 s2 s3 : same_files s1 s2 -> same_files s2 s3 -> same_files s1 s3.
Proof. unfold same_files. intros (? & ? & H) (? & ? & H'). split_and!; [congruence..|]. intros f. by rewrite H', H. Qed.

Lemma same_files_put s f a a' : allocators s !! f = Some a -> sm_allocator.capacity_mark a' = sm_allocator.capacity_mark a ->
  same_files s (put_allocator f a' s).
Proof.
  intros Ha Ec. split_and!; [done..|]. intros g. cbn. destruct (decide (f = g)) as [<-|]; [|by rewrite lookup_insert_ne].
  rewrite lookup_insert_eq, Ha. cbn. by rewrite Ec.
Qed.

Lemma small_same s s' : same_files s s' -> small s -> small s'.
Proof.
  intros (_ & _ & E) Hs f a Ha. specialize (E f). rewrite Ha in E. destruct (allocators s !! f) as [b|] eqn:Hb; [|done].
  cbn in E. injection E as ->. by apply (Hs f).
Qed.

Lemma same_files_alloc s s' f : same_files s s' -> is_Some (allocators s !! f) -> is_Some (allocators s' !! f).
Proof. intros (_ & _ & E) [a Ha]. specialize (E f). rewrite Ha in E. destruct (allocators s' !! f); [eauto|done]. Qed.

(** One cache is drained. *)
Lemma drain_found s C live tid pos tc :
  inv s C live -> small s -> 0 <= pos -> at_ (caches tid s) pos = Some tc ->
  exists a, allocators s !! thread_cache.f tc = Some a /\ get_allocator (thread_cache.f tc) s = Ok a /\
    (drain_cache tc 0 a = Throw os_error \/
     exists tc' a', drain_cache tc 0 a = Ok (true, tc', a') /\ moves a tc a' tc' /\
       sm_allocator.hiwater_mark a' = sm_allocator.hiwater_mark a /\ thread_cache.nentries tc' = 0).
Proof.
  intros I Hs Hp Hat. pose proof (at_cached _ _ _ _ _ _ I Hp Hat) as HC. destruct (i_cache _ _ _ I _ _ HC) as [Hok [a Ha]].
  exists a. split; [done|]. cbn in Ha. rewrite (get_allocator_ok _ _ _ _ I), Ha by (apply (i_has _ _ _ I); by exists a). split; [done|].
  destruct (pool_facts _ _ _ _ _ _ _ I HC Ha) as [Hnd Hb]. destruct (i_alloc _ _ _ I _ a Ha) as (Sa & Hc & _).
  destruct (drain_cache_ok a tc 0) as [|(tc' & a' & E & M & Eh & En)]; [done|done|split; [lia|apply Hok]|done| |by left|right].
  { eapply Forall_impl; [exact Hb|]. cbn. pose proof (s_marks _ Sa). pose proof (Hs _ a Ha). lia. }
  exists tc', a'. cbn in En. split_and!; [done|done|done|lia].
Qed.

Lemma drain_at s C live tid pos tc :
  inv s C live -> small s -> 0 <= pos -> at_ (caches tid s) pos = Some tc ->
  let f := thread_cache.f tc in
  exists a, get_allocator f s = Ok a /\
    (drain_cache tc 0 a = Throw os_error \/
     exists tc' a', drain_cache tc 0 a = Ok (true, tc', a') /\ thread_cache.f tc' = f /\ thread_cache.nentries tc' = 0 /\
       let s' := put_caches tid (put_at pos tc' (caches tid s)) (put_allocator f a' s) in
       inv s' (<[(tid, f) := tc']> C) live /\ same_files s s').
Proof.
  intros I Hs Hp Hat f. destruct (drain_found s C live tid pos tc I Hs Hp Hat) as (a & Ha & Eg & [E|(tc' & a' & E & M & Eh & En)]).
  { exists a. auto. }
  exists a. split; [done|]. right. exists tc', a'. destruct (i_alloc _ _ _ I _ a Ha) as (Sa & Hc & _).
  split_and!; [done|apply M|done|]. split.
  - destruct M. apply (inv_put s C live live tid pos f tc tc' a a'); try done; [by rewrite mv_cap|].
    rewrite mv_pool, Eh, Z.sub_diag. by rewrite !app_nil_r.
  - destruct M. apply (same_files_trans _ (put_allocator f a' s)); [by apply (same_files_put _ _ a)|done].
Qed.

Lemma caches_put tid c s : caches tid (put_caches tid c s) = c.
Proof. unfold caches. cbn. by rewrite lookup_insert_eq. Qed.

Lemma drain_all_ok tid l s C live :
  inv s C live -> small s -> (forall pos, pos ∈ l -> 0 <= pos /\ is_Some (at_ (caches tid s) pos)) ->
  drain_all tid l s = Throw os_error \/
  exists s' C', drain_all tid l s = Ok s' /\ inv s' C' live /\ same_files s s' /\
    (forall q tc', 0 <= q -> at_ (caches tid s') q = Some tc' -> exists tc, at_ (caches tid s) q = Some tc /\
       (q ∈ l \/ thread_cache.nentries tc = 0 -> thread_cache.nentries tc' = 0)).
Proof.
  revert s C. induction l as [|pos l IH]; intros s C I Hs Hl.
  { right. exists s, C. split_and!; try done. intros q tc' Hq Ha. exists tc'. split; [done|]. by intros [?%not_elem_of_nil|]. }
  destruct (Hl pos) as [Hp [tc Hat]]; [left|]. cbn [drain_all].
  assert (_get_value (caches tid s) pos = Ok tc) as ->.
  { unfold _get_value. unfold at_ in Hat. destruct (_is_present _ pos); [by rewrite Hat|done]. }
  destruct (drain_at s C live tid pos tc I Hs Hp Hat) as (a & Ea & [E|(tc' & a' & E & Ef & En & I' & F)]); cbn [mbind res_bind];
    rewrite Ea; cbn [mbind res_bind]; rewrite E; cbn [mbind res_bind]; [by left|].
  destruct (inv_caches s C live tid I) as (m & Hm & _).
  match goal with |- context [drain_all tid l ?r] => set (s1 := r) end.
  assert (forall q, 0 <= q -> at_ (caches tid s1) q = if decide (q = pos) then Some tc' else at_ (caches tid s) q) as Hat1.
  { intros q Hq. unfold s1. rewrite caches_put. by apply (at_put_at _ m _ tc). }
  destruct (IH s1 _ I' (small_same _ _ F Hs)) as [|(s' & C' & E' & I'' & F' & Hend)]; [|by left|right].
  { intros q Hq. destruct (Hl q) as [Hq0 Hsome]; [by right|]. split; [done|]. rewrite Hat1 by done. case_decide; [by eexists|done]. }
  exists s', C'. split_and!; [done|done|by apply (same_files_trans _ s1)|..].
  intros q tq Hq Hatq. destruct (Hend q tq Hq Hatq) as (t1 & H1 & Hz). rewrite Hat1 in H1 by done. case_decide as Eq.
  - injection H1 as <-. subst q. exists tc. split; [done|]. intros _. apply Hz. by right.
  - exists t1. split; [done|]. intros [[->|?]%elem_of_cons|?]; [done|auto..].
Qed.

(** ** Finding a cache *)

(** The table of a thread is replaced by one with the same OIDs. *)
Lemma inv_table s C C' live tid c m :
  inv s C live -> models c m -> (forall f, m !! f = C' !! (tid, f)) ->
  (forall tid' f, tid' <> tid -> C' !! (tid', f) = C !! (tid', f)) ->
  (forall f tc, C' !! (tid, f) = Some tc -> cache_ok tc /\ is_Some (allocators s !! f)) ->
  (forall f, cached C' f ≡ₚ cached C f) -> inv (put_caches tid c s) C' live.
Proof.
  intros I Hm Em Hother Hcache Hsame. split; cbn; try apply I.
  - intros tid' c'. destruct (decide (tid = tid')) as [<-|N].
    + rewrite lookup_insert_eq. intros [= <-]. by exists m.
    + rewrite lookup_insert_ne by done. intros (m' & Hm' & E')%(i_tls _ _ _ I). exists m'. split; [done|]. intros f. by rewrite Hother.
  - intros tid' f. destruct (decide (tid = tid')) as [<-|N]; [by rewrite lookup_insert_eq|].
    rewrite lookup_insert_ne, Hother by done. apply (i_no_tls _ _ _ I).
  - intros [tid' f] tc. destruct (decide (tid' = tid)) as [->|N]; [apply Hcache|]. rewrite Hother by done. apply (i_cache _ _ _ I).
  - intros f a Ha. rewrite Hsame. by apply (i_alloc _ _ _ I).
Qed.

Lemma revoke_ok tid s C live :
  inv s C live -> small s ->
  thread_revoke_caches tid s = Throw os_error \/
  exists s' C', thread_revoke_caches tid s = Ok s' /\ inv s' C' live /\ same_files s s' /\ models (caches tid s') ∅.
Proof.
  intros I Hs. unfold thread_revoke_caches. destruct (inv_caches s C live tid I) as (m & Hm & _).
  destruct (visits_elems _ _ Hm eq_refl) as (l & -> & _ & Hl). cbn [mbind res_bind].
  destruct (drain_all_ok tid l s C live I Hs) as [->|(s1 & C1 & -> & I1 & F1 & Hz)]; [by intros pos ?%Hl|by left|right].
  cbn [mbind res_bind]. destruct (inv_caches s1 C1 live tid I1) as (m1 & Hm1 & E1).
  assert (forall f tc, C1 !! (tid, f) = Some tc -> held tc = []) as Hnil.
  { intros f tc HC. rewrite <- E1 in HC. apply (m_elems _ _ Hm1) in HC as (pos & Hp & Hat & _).
    destruct (Hz pos tc Hp Hat) as (tc0 & Hat0 & Hn). unfold held. rewrite Hn; [done|]. left. apply Hl. split; [done|]. by exists tc0. }
  eexists _, (without tid C1). split; [done|]. split; [|split].
  - apply (inv_table _ C1 _ _ _ _ ∅ I1); [apply models_cleared|..].
    + intros f. rewrite lookup_empty. symmetry. apply map_lookup_filter_None. right. cbn. by intros x _ [].
    + intros tid' f N. destruct (C1 !! (tid', f)) as [tc|] eqn:E; [by apply map_lookup_filter_Some|by apply map_lookup_filter_None; left].
    + intros f tc [_ []]%map_lookup_filter_Some. done.
    + intros f. by apply cached_without.
  - done.
  - rewrite caches_put. apply models_cleared.
Qed.

Lemma emplace_empty c v : models c (∅ : gmap Z cache) -> exists pos c', find_and_emplace (thread_cache.f v) v c = Ok (pos, 0, c').
Proof.
  intros Hm. pose proof (find_spec c ∅ (thread_cache.f v) Hm) as Hf. rewrite lookup_empty in Hf. unfold find_and_emplace.
  change (_find c (thread_cache.f v) (hash_key (thread_cache.f v))) with (find c (thread_cache.f v)). rewrite Hf, Z.eqb_refl. cbn [negb].
  change levels with [0; 1]. cbn [emplace_from]. unfold bucket. rewrite seqZ_cons by done. cbn [first_such].
  set (pos := _get_bucket _ 0). assert (_is_present c pos = false) as ->; [|by eexists _, _].
  destruct (_is_present c pos) eqn:E; [|done]. assert (0 <= pos) by (apply (bucket_bounds (hash_key (thread_cache.f v)) 0); done).
  apply (at_present _ _ (m_wf _ _ Hm)) in E as [tc Htc]; [|done].
  assert ((∅ : gmap Z cache) !! thread_cache.f tc = Some tc) as F by (apply (m_elems _ _ Hm); by exists pos). by rewrite lookup_empty in F.
Qed.

(** The cache of a file is at [pos] of the thread's table. *)
Record found (s s' : oid_mgr.t) (C' : gmap (Z * Z) cache) (live : Z -> list Z) (tid f pos : Z) (tc : cache) : Prop := {
  fd_inv : inv s' C' live;
  fd_files : same_files s s';
  fd_pos : 0 <= pos;
  fd_at : at_ (caches tid s') pos = Some tc;
  fd_f : thread_cache.f tc = f }.

Lemma inv_emplaced s C live tid f pos c' m :
  inv s C live -> is_Some (allocators s !! f) -> models (caches tid s) m -> (forall g, m !! g = C !! (tid, g)) ->
  C !! (tid, f) = None -> 0 <= pos -> at_ c' pos = Some (thread_cache.make f) -> models c' (<[f := thread_cache.make f]> m) ->
  found s (put_caches tid c' s) (<[(tid, f) := thread_cache.make f]> C) live tid f pos (thread_cache.make f).
Proof.
  intros I Hf Hm Em HC Hp Hat Hm'. split; [|done|done|by rewrite caches_put|done].
  apply (inv_table s C _ live tid c' _ I Hm').
  - intros g. destruct (decide (f = g)) as [<-|]; [by rewrite !lookup_insert_eq|]. rewrite !lookup_insert_ne by congruence. apply Em.
  - intros tid' g N. by rewrite lookup_insert_ne by congruence.
  - intros g tc. destruct (decide (f = g)) as [<-|].
    + rewrite lookup_insert_eq. intros [= <-]. split; [done|done].
    + rewrite lookup_insert_ne by congruence. apply (i_cache _ _ _ I (tid, g)).
  - intros g. rewrite cached_insert by done. by case_decide.
Qed.

Lemma emplace_step s C live tid f :
  inv s C live -> is_Some (allocators s !! f) ->
  exists pos second c, find_and_emplace f (thread_cache.make f) (caches tid s) = Ok (pos, second, c) /\
    ((second = -1 /\ c = caches tid s) \/
     (second <> -1 /\ exists C' tc, found s (put_caches tid c s) C' live tid f pos tc)).
Proof.
  intros I Hf. destruct (inv_caches s C live tid I) as (m & Hm & Em).
  destruct (find_and_emplace_spec (caches tid s) m (thread_cache.make f) Hm) as (pos & second & c & E & Hr).
  exists pos, second, c. split; [exact E|]. cbn in Hr. destruct (m !! f) as [tc|] eqn:Hmf.
  - right. destruct Hr as (-> & -> & Hp & Hat). split; [done|]. exists C, tc.
    split; [|done|lia|by rewrite caches_put|by apply (m_elems _ _ Hm) in Hmf as (? & _ & _ & ?)].
    apply (inv_table s C C live tid _ m I Hm Em); [done| |done]. intros g tc'. apply (i_cache _ _ _ I (tid, g)).
  - destruct Hr as [(-> & Hp & Hat & Hm')|(-> & -> & _)]; [right|by left]. split; [done|].
    eexists _, _. apply (inv_emplaced s C live tid f pos c m); try done; [by rewrite <- Em|lia].
Qed.

Lemma put_caches_same tid s c : tls s !! tid = Some c -> put_caches tid (caches tid s) s = s.
Proof. intros E. destruct s. unfold put_caches, caches, set_tls. cbn in *. rewrite E. cbn. by rewrite insert_id. Qed.

Lemma get_cache_ok s C live tid f :
  inv s C live -> small s -> is_Some (allocators s !! f) ->
  get_cache tid f s = Throw os_error \/
  exists pos s' C' tc, get_cache tid f s = Ok (pos, s') /\ found s s' C' live tid f pos tc.
Proof.
  intros I Hs Hf. unfold get_cache.
  set (s0 := match tls s !! tid with None => thread_init tid s | Some _ => s end).
  assert (inv s0 C live /\ same_files s s0 /\ is_Some (tls s0 !! tid)) as (I0 & F0 & [c0 Hc0]).
  { subst s0. destruct (tls s !! tid) as [c|] eqn:E; [by rewrite E|]. split_and!; [|done|].
    - apply (inv_table s C C live tid _ ∅ I); [exact (models_cleared empty)| |done| |done].
      + intros g. by rewrite lookup_empty, (i_no_tls _ _ _ I).
      + intros g tc. apply (i_cache _ _ _ I (tid, g)).
    - cbn. rewrite lookup_insert_eq. eauto. }
  assert (is_Some (allocators s0 !! f)) as Hf0 by (by apply (same_files_alloc s)).
  destruct (emplace_step s0 C live tid f I0 Hf0) as (pos & second & c & -> & [[-> ->]|[N (C' & tc & Fd)]]); cbn [mbind res_bind].
  2:{ right. rewrite (proj2 (Z.eqb_neq _ _)) by done. exists pos, (put_caches tid c s0), C', tc. split; [done|].
      destruct Fd. split; try done. }
  rewrite Z.eqb_refl, (put_caches_same _ _ _ Hc0).
  destruct (revoke_ok tid s0 C live I0 (small_same _ _ F0 Hs)) as [->|(s1 & C1 & -> & I1 & F1 & Hm1)]; cbn [mbind res_bind]; [by left|right].
  assert (is_Some (allocators s1 !! f)) as Hf1 by (by apply (same_files_alloc s0)).
  destruct (emplace_empty _ (thread_cache.make f) Hm1) as (pos2 & c2 & E2). cbn [thread_cache.make thread_cache.f] in E2.
  destruct (emplace_step s1 C1 live tid f I1 Hf1) as (pos' & second' & c' & E' & [[-> ->]|[N (C' & tc & Fd)]]);
    fold (thread_cache.make f) in E2; rewrite E2 in E'; [done|]. injection E' as <- <- <-.
  rewrite E2. cbn [mbind res_bind]. eexists _, _, C', tc. split; [done|]. destruct Fd. split; try done.
  apply (same_files_trans _ s0); [done|]. by apply (same_files_trans _ s1).
Qed.

(** ** Allocation *)

Lemma put_allocator_same f a s : allocators s !! f = Some a -> put_allocator f a s = s.
Proof. intros E. destruct s. unfold put_allocator, set_allocators. cbn in *. by rewrite insert_id. Qed.

Lemma put_array_same f d s : arrays s !! f = Some d -> put_array f d s = s.
Proof. intros E. destruct s. unfold put_array, set_arrays. cbn in *. by rewrite insert_id. Qed.

Lemma propose_grown a : sm_allocator.capacity_mark a = 2 ^ 20 -> propose_capacity 1 a = GROWN.
Proof. intros E. unfold propose_capacity. by rewrite E. Qed.

Lemma moves_grow a tc c : sm_allocator.capacity_mark a <= c < 2 ^ 32 -> sound a -> sound (sm_allocator.set_capacity_mark c a) /\
  pool (sm_allocator.set_capacity_mark c a) tc = pool a tc.
Proof. intros Hc []. split; [|done]. split; try done; [intros Hv; by destruct (s_l2 Hv)|cbn; lia|cbn; lia]. Qed.

(** The cache has OIDs now; the file may have grown. *)
Record refilled (a : alloc) (tc : cache) (a' : alloc) (tc' : cache) : Prop := {
  rf_f : thread_cache.f tc' = thread_cache.f tc;
  rf_cache : cache_ok tc';
  rf_some : 2 <= thread_cache.nentries tc';
  rf_sound : sound a';
  rf_cap : sm_allocator.capacity_mark a' = 2 ^ 20 \/ sm_allocator.capacity_mark a' = GROWN;
  rf_hi : sm_allocator.hiwater_mark a <= sm_allocator.hiwater_mark a';
  rf_pool : pool a' tc' ≡ₚ pool a tc ++
    seqZ (sm_allocator.hiwater_mark a) (sm_allocator.hiwater_mark a' - sm_allocator.hiwater_mark a) }.

Lemma refill_ok s C live f tc a :
  inv s C live -> allocators s !! f = Some a -> sm_allocator.capacity_mark a = 2 ^ 20 -> thread_cache.nentries tc = 0 ->
  exists tc' a', refill f tc s = Ok (tc', put_allocator f a' s) /\ refilled a tc a' tc'.
Proof.
  intros I Ha Hc Hn. unfold refill. destruct (i_alloc _ _ _ I f a Ha) as (Sa & _ & _).
  assert (is_Some (arrays s !! f)) as [d Hd] by (apply (i_has _ _ _ I); eauto).
  rewrite (get_allocator_ok _ _ _ _ I), Ha by eauto. cbn [mbind res_bind].
  destruct (fill_cache_ok tc a Sa) as (b & tc1 & a1 & -> & [M1 Hf1 Ht1 Hx1]); [lia|]. cbn [mbind res_bind]. rewrite Hn in *.
  destruct b.
  - exists tc1, a1. split; [done|]. specialize (Ht1 eq_refl). destruct M1. split; try done; [lia|]. left. by rewrite mv_cap.
  - destruct (Hx1 eq_refl) as (Ehi & _ & _ & Hlt). pose proof (mv_cap _ _ _ _ M1) as Ec1. rewrite Hc in Ec1.
    rewrite (get_array_ok _ _ _ _ _ I Hd). cbn [mbind res_bind]. rewrite propose_grown by done.
    rewrite (ensure_array d GROWN) by (done || by apply (i_arrays _ _ _ I) in Hd). cbn [mbind res_bind].
    rewrite (put_array_same f d s Hd). destruct (moves_grow a1 tc1 GROWN) as [Sg Eg]; [rewrite Ec1; done|apply M1|].
    pose proof (mv_cache _ _ _ _ M1) as [Hn1 _].
    destruct (fill_cache_ok tc1 _ Sg) as (b & tc2 & a2 & -> & [M2 Hf2 Ht2 Hx2]); [lia|]. cbn [mbind res_bind].
    exists tc2, a2. split; [done|]. destruct M1, M2. rewrite Eg in mv_pool0.
    cbn [sm_allocator.set_capacity_mark sm_allocator.capacity_mark sm_allocator.hiwater_mark] in *. unfold GROWN in *.
    assert (thread_cache.nentries tc2 <= 126) by apply mv_cache0.
    split; [congruence|done| |done|by right|lia|].
    + destruct b; [specialize (Ht2 eq_refl); lia|]. destruct (Hx2 eq_refl) as (Eh2 & _). change (2 ^ 20) with 1048576 in *. lia.
    + rewrite mv_pool0, mv_pool, <- app_assoc. f_equiv.
      replace (sm_allocator.hiwater_mark a2 - sm_allocator.hiwater_mark a) with
        ((sm_allocator.hiwater_mark a1 - sm_allocator.hiwater_mark a) + (sm_allocator.hiwater_mark a2 - sm_allocator.hiwater_mark a1)) by lia.
      rewrite seqZ_app by lia. do 2 f_equiv. lia.
Qed.

(** Taking the last OID of a cache. *)
Lemma pop_ok tc : cache_ok tc -> 1 <= thread_cache.nentries tc ->
  exists o, aget thread_cache.N (thread_cache.entries tc) (u32 (thread_cache.nentries tc - 1)) = Ok o /\
    let tc' := thread_cache.mk (thread_cache.f tc) (u32 (thread_cache.nentries tc - 1)) (thread_cache.entries tc) in
    cache_ok tc' /\ thread_cache.nentries tc' = thread_cache.nentries tc - 1 /\ held tc = held tc' ++ [o].
Proof.
  intros [H0 H1] Hn. change thread_cache.N with 126 in *. rewrite (wrap_small 32) by (unfold fits; lia).
  eexists. rewrite aget_ok by lia. split; [done|]. unfold cache_ok, held. cbn. change thread_cache.N with 126.
  split; [lia|]. split; [done|]. rewrite (stack_split _ _ 1) by lia. done.
Qed.

Lemma get_value_at c pos (tc : cache) : at_ c pos = Some tc -> _get_value c pos = Ok tc.
Proof. unfold at_, _get_value. destruct (_is_present c pos); [by intros ->|done]. Qed.

(** The OID [o] came out of the cache of [tid] for [f]. *)
Definition allocated (s s' : oid_mgr.t) (live : Z -> list Z) (f o : Z) : Prop :=
  exists C', inv s' C' (<[f := o :: live f]> live) /\ arrays s' = arrays s /\ contents s' = contents s /\
    forall g, is_Some (allocators s' !! g) <-> is_Some (allocators s !! g).

(** The next allocation needs no more than the initial capacity. *)
Definition ready (s : oid_mgr.t) (tid f : Z) : Prop :=
  small s \/ exists pos tc, 0 <= pos /\ at_ (caches tid s) pos = Some tc /\ thread_cache.f tc = f /\ 1 <= thread_cache.nentries tc.

(** The cache at [pos], refilled or not, gives an OID. *)
Lemma take_ok s C live tid f pos tc tc1 a a1 :
  inv s C live -> 0 <= pos -> at_ (caches tid s) pos = Some tc -> thread_cache.f tc = f -> allocators s !! f = Some a ->
  thread_cache.f tc1 = f -> cache_ok tc1 -> 1 <= thread_cache.nentries tc1 -> sound a1 ->
  (sm_allocator.capacity_mark a1 = 2 ^ 20 \/ sm_allocator.capacity_mark a1 = GROWN) ->
  sm_allocator.hiwater_mark a <= sm_allocator.hiwater_mark a1 ->
  pool a1 tc1 ≡ₚ pool a tc ++ seqZ (sm_allocator.hiwater_mark a) (sm_allocator.hiwater_mark a1 - sm_allocator.hiwater_mark a) ->
  let n := u32 (thread_cache.nentries tc1 - 1) in
  exists o, aget thread_cache.N (thread_cache.entries tc1) n = Ok o /\
    let s' := put_caches tid (put_at pos (thread_cache.mk (thread_cache.f tc1) n (thread_cache.entries tc1)) (caches tid s))
      (put_allocator f a1 s) in
    allocated s s' live f o /\
    (sm_allocator.capacity_mark a1 = 2 ^ 20 /\ small s \/ 2 <= thread_cache.nentries tc1 -> ready s' tid f).
Proof.
  intros I Hp Hat Hf Ha Hf1 Hok1 Hn1 Sa1 Hc1 Hhi Hpool n. destruct (pop_ok tc1 Hok1 Hn1) as (o & Eo & Hok' & En & Eh).
  fold n in Eo, Hok', En, Eh. rewrite Eo. cbn [thread_cache.nentries] in En. exists o. split; [done|]. split.
  - eexists. split_and!; [|done|done|].
    + apply (inv_put s C live _ tid pos f tc _ a a1); try done.
      * unfold pool in *. rewrite Eh in Hpool. rewrite fn_lookup_insert.
        transitivity ((free a1 ++ held (thread_cache.mk (thread_cache.f tc1) n (thread_cache.entries tc1)) ++ [o]) ++ live f); [solve_Permutation|].
        rewrite Hpool. solve_Permutation.
      * intros g N. by rewrite fn_lookup_insert_ne.
      * intros _. rewrite fn_lookup_insert. intros x. by right.
    + intros g. cbn. destruct (decide (f = g)) as [<-|]; [by rewrite Ha, lookup_insert_eq|by rewrite lookup_insert_ne].
  - intros [[Ec Hs]|H2].
    + left. intros g b. cbn. destruct (decide (f = g)) as [<-|]; [rewrite lookup_insert_eq; by intros [= <-]|].
      rewrite lookup_insert_ne by done. apply Hs.
    + right. destruct (inv_caches s C live tid I) as (m & Hm & _). eexists pos, _. rewrite caches_put.
      rewrite (at_put_at _ m _ tc) by done. rewrite decide_True by done. split_and!; [done|done|done|]. cbn. lia.
Qed.

Lemma get_cache_hit s C live tid f pos tc :
  inv s C live -> 0 <= pos -> at_ (caches tid s) pos = Some tc -> thread_cache.f tc = f ->
  exists pos', get_cache tid f s = Ok (pos', s) /\ 0 <= pos' /\ at_ (caches tid s) pos' = Some tc.
Proof.
  intros I Hp Hat <-. destruct (inv_caches s C live tid I) as (m & Hm & Em). unfold get_cache.
  destruct (tls s !! tid) as [c|] eqn:Etls; [|unfold caches in Hat; by rewrite Etls in Hat].
  destruct (find_and_emplace_spec (caches tid s) m (thread_cache.make (thread_cache.f tc)) Hm) as (pos' & second & c' & E & Hr).
  cbn in E, Hr. assert (m !! thread_cache.f tc = Some tc) as Hmf by (apply (m_elems _ _ Hm); by exists pos). rewrite Hmf in Hr.
  destruct Hr as (-> & -> & Hr & Hat'). fold (thread_cache.make (thread_cache.f tc)) in E. rewrite E. cbn [mbind res_bind Z.eqb].
  rewrite (put_caches_same _ _ _ Etls). exists pos'. split_and!; [done|lia|done].
Qed.

Lemma thread_allocate_ok s C live tid f :
  inv s C live -> ready s tid f -> is_Some (allocators s !! f) ->
  thread_allocate tid f s = Throw os_error \/
  exists o s', thread_allocate tid f s = Ok (o, s') /\ allocated s s' live f o /\ (small s -> ready s' tid f).
Proof.
  intros I Hr Hf.
  assert (get_cache tid f s = Throw os_error \/ exists pos s1 C1 tc, get_cache tid f s = Ok (pos, s1) /\ found s s1 C1 live tid f pos tc /\
    (small s1 \/ 1 <= thread_cache.nentries tc)) as [E|(pos & s1 & C1 & tc & E & [I1 F1 Hp Hat Ef] & Hn)];
    [|left; unfold thread_allocate; by rewrite E|].
  { destruct Hr as [Hs|(pos & tc & Hp & Hat & Ef & Hn)].
    - destruct (get_cache_ok s C live tid f I Hs Hf) as [|(pos & s1 & C1 & tc & E & Fd)]; [by left|right]. exists pos, s1, C1, tc.
      split_and!; [done..|]. left. apply (small_same s); [apply Fd|done].
    - right. destruct (get_cache_hit _ _ _ _ _ _ _ I Hp Hat Ef) as (pos' & E & Hp' & Hat'). exists pos', s, C, tc. split_and!; [done|by split|auto]. }
  right. unfold thread_allocate. rewrite E. cbn [mbind res_bind]. rewrite (get_value_at _ _ _ Hat). cbn [mbind res_bind].
  destruct (same_files_alloc _ _ _ F1 Hf) as [a Ha]. pose proof (at_cached _ _ _ _ _ _ I1 Hp Hat) as HC.
  destruct (i_cache _ _ _ I1 _ _ HC) as [Hok _]. destruct (i_alloc _ _ _ I1 f a Ha) as (Sa & Hc & _).
  assert (forall o s', allocated s1 s' live f o -> allocated s s' live f o) as Hlift.
  { intros o s' (C' & I' & Ea & Ec & Hall). destruct F1 as (Ea1 & Ec1 & Eall). exists C'. split_and!; [done|congruence|congruence|].
    intros g. rewrite Hall. specialize (Eall g). by destruct (allocators s1 !! g), (allocators s !! g). }
  destruct (Z.eqb_spec (thread_cache.nentries tc) 0) as [En|Nn].
  - assert (sm_allocator.capacity_mark a = 2 ^ 20) as Ec by (destruct Hn as [Hs1|]; [by apply (Hs1 f)|lia]).
    destruct (refill_ok s1 C1 live f tc a I1 Ha Ec En) as (tc1 & a1 & -> & []). cbn [mbind res_bind].
    destruct (take_ok s1 C1 live tid f pos tc tc1 a a1) as (o & -> & Hal & Hrd); try done; [congruence|lia|].
    cbn [mbind res_bind]. eexists _, _. split_and!; [done|by apply Hlift|auto].
  - cbn [mbind res_bind]. destruct Hok as [H0 H1].
    destruct (take_ok s1 C1 live tid f pos tc tc a a) as (o & -> & Hal & Hrd); try done; [lia|by rewrite Z.sub_diag, app_nil_r|].
    cbn [mbind res_bind]. rewrite (put_allocator_same _ _ _ Ha) in Hal, Hrd. eexists _, _. split_and!; [done|by apply Hlift|].
    intros Hs. apply Hrd. left. pose proof (small_same _ _ F1 Hs) as Hs1. split; [by apply (Hs1 f)|done].
Qed.

(** ** Freeing *)

(** The cache at [pos], drained or not, takes an OID. *)
Lemma give_ok s C live tid f o l pos tc tc1 a a1 :
  inv s C live -> 0 <= pos -> at_ (caches tid s) pos = Some tc -> thread_cache.f tc = f -> allocators s !! f = Some a ->
  moves a tc a1 tc1 -> sm_allocator.hiwater_mark a1 = sm_allocator.hiwater_mark a -> thread_cache.nentries tc1 < thread_cache.N ->
  live f ≡ₚ o :: l -> f <> OBJARRAY_FID ->
  exists tc2, thread_cache.push o tc1 = Ok tc2 /\
    inv (put_caches tid (put_at pos tc2 (caches tid s)) (put_allocator f a1 s)) (<[(tid, f) := tc2]> C) (<[f := l]> live).
Proof.
  intros I Hp Hat Hf Ha [] Eh Hn Hl Hobj. destruct mv_cache as [H0 H1].
  destruct (push_ok o tc1) as (tc2 & -> & Eh2 & En2 & Ef2); [lia|]. exists tc2. split; [done|].
  destruct (i_alloc _ _ _ I f a Ha) as (_ & Hc & _).
  apply (inv_put s C live _ tid pos f tc tc2 a a1); try done; [congruence|unfold cache_ok; lia|by rewrite mv_cap| |].
  - rewrite Eh, Z.sub_diag, !app_nil_r in *. unfold pool in *. rewrite fn_lookup_insert, Eh2, Hl.
    transitivity ((free a1 ++ held tc1) ++ o :: l); [solve_Permutation|by rewrite mv_pool].
  - intros g N. by rewrite fn_lookup_insert_ne.
Qed.

Lemma thread_free_ok s C live tid f o l :
  inv s C live -> small s -> live f ≡ₚ o :: l -> f <> OBJARRAY_FID ->
  thread_free tid f o s = Throw os_error \/
  exists s' C', thread_free tid f o s = Ok s' /\ inv s' C' (<[f := l]> live) /\ same_files s s'.
Proof.
  intros I Hs Hl Hobj. unfold thread_free.
  assert (is_Some (allocators s !! f)) as Hf.
  { destruct (allocators s !! f) eqn:E; [eauto|]. rewrite (i_none _ _ _ I f E) in Hl. by apply Permutation_nil_cons in Hl. }
  destruct (get_cache_ok s C live tid f I Hs Hf) as [->|(pos & s1 & C1 & tc & -> & [I1 F1 Hp Hat Ef])]; cbn [mbind res_bind]; [by left|].
  rewrite (get_value_at _ _ _ Hat). cbn [mbind res_bind]. pose proof (small_same _ _ F1 Hs) as Hs1.
  destruct (drain_found s1 C1 live tid pos tc I1 Hs1 Hp Hat) as (a & Ha & Eg & Hd). rewrite Ef in *.
  pose proof (at_cached _ _ _ _ _ _ I1 Hp Hat) as HC. destruct (i_cache _ _ _ I1 _ _ HC) as [Hok _].
  destruct (i_alloc _ _ _ I1 f a Ha) as (Sa & _ & _). unfold thread_cache.space_remaining.
  destruct Hok as [H0 H1]. rewrite (wrap_small 32) by (change thread_cache.N with 126 in *; unfold fits; lia).
  destruct (Z.eqb_spec (thread_cache.N - thread_cache.nentries tc) 0) as [En|Nn].
  - rewrite Eg. cbn [mbind res_bind]. destruct Hd as [->|(tc1 & a1 & -> & M & Eh & En1)]; cbn [mbind res_bind]; [by left|right].
    destruct (give_ok s1 C1 live tid f o l pos tc tc1 a a1) as (tc2 & -> & I2); try done; [by rewrite En1|]. cbn [mbind res_bind].
    eexists _, _. split_and!; [done|done|]. apply (same_files_trans _ s1); [done|].
    apply (same_files_trans _ (put_allocator f a1 s1)); [|done]. apply (same_files_put _ _ a); [done|apply M].
  - right. cbn [mbind res_bind]. destruct (give_ok s1 C1 live tid f o l pos tc tc a a) as (tc2 & -> & I2); try done.
    { apply moves_same; try done. } { lia. }
    cbn [mbind res_bind]. rewrite (put_allocator_same _ _ _ Ha) in I2. eexists _, _. by split_and!.
Qed.

End safety.
