(* ===== verification/OidLife.v ===== *)
(** * The life of OIDs: calls of the OID manager in any order

    Threads create files, allocate and free OIDs, and exit.  As long as no file
    outgrows its initial capacity of 2^20 OIDs, every call either returns, or
    the system has refused memory; an allocated OID is in no other use, its
    slot is memory, and each OID is free, cached by one thread or in use.  The
    OIDs an exiting thread has cached stay in its cache. *)
From stdpp Require Import base numbers gmap functions list.
From Stdlib Require Import ZArith Lia.
From S2P Require Import Prelude Bits Dynarray SparseBitset ScHash ScHashSpec OidAlloc OidAllocSpec OidAllocFree OidAllocSafe OidManager OidManagerSafe.

Import sc_hash sc_hash_spec oid_mgr.
Local Open Scope Z_scope.
#[local] Abbreviation cache := thread_cache.t.
#[local] Abbreviation alloc := sm_allocator.t.

Section life.
Context `{OS : Os} `{BH : BurtHash}.

(** ** New arrays and allocators *)

Lemma make_array_total : oid_array.make = Throw os_error \/ exists d, oid_array.make = Ok d /\ array_ok d.
Proof.
  destruct oid_array.make as [d|e] eqn:E; [right; exists d; split; [done|by apply make_array_ok]|left].
  f_equal. by apply (dynarray.make_throws (oid_array.alloc_size oid_array.MAX_ENTRIES) (1024 * 1024 * 128)).
Qed.

Lemma make_alloc_total : OidAlloc.make = Throw os_error \/
  exists a, OidAlloc.make = Ok a /\ sound a /\ free a = [] /\ sm_allocator.hiwater_mark a = 0 /\ sm_allocator.capacity_mark a = 2 ^ 20.
Proof.
  destruct OidAlloc.make as [a|e] eqn:E; [right; exists a; split; [done|by apply make_ok]|left]. f_equal.
  unfold OidAlloc.make in E. destruct (dynarray.make_dynarray _ _) as [d|e'] eqn:Ed; [done|]. cbn in E. injection E as ->.
  by apply (dynarray.make_throws (sm_allocator.l3_alloc_size sm_allocator.L3_MAX_WORDS) sm_allocator.l1_alloc_size).
Qed.

(** ** The invariant of new files *)

Lemma inv_live s C live live' : inv s C live -> (forall f, live' f = live f) -> inv s C live'.
Proof.
  intros [] E. split; try done.
  - intros f a Ha. rewrite E. by apply i_alloc.
  - intros f Hf. rewrite E. by apply i_none.
  - intros f Hf. rewrite E. by apply i_fids.
Qed.

Lemma inv_put_array s C live f d : inv s C live -> array_ok d -> f ∈ live OBJARRAY_FID -> inv (put_array f d s) C live.
Proof.
  intros [] Hd Hf. split; cbn; try done.
  - intros g d'. rewrite lookup_insert_Some. intros [[_ <-]|[_ ?]]; [done|eauto].
  - intros g Hg. rewrite lookup_insert_is_Some'. auto.
  - rewrite !lookup_insert_is_Some'. destruct i_base as (? & ? & ?). auto.
  - intros g. rewrite lookup_insert_is_Some'. intros [<-|?]; [done|auto].
Qed.

Lemma cached_none C f : (forall tid, C !! (tid, f) = None) -> cached C f = [].
Proof.
  intros HC. unfold cached. apply elem_of_nil_inv. intros x ([[tid g] tc] & Hx & Hin%elem_of_map_to_list)%list_elem_of_bind.
  unfold of_file in Hx. cbn in Hx. case_decide as E; [|by apply not_elem_of_nil in Hx]. subst. by rewrite HC in Hin.
Qed.

Lemma inv_put_allocator s C live f a :
  inv s C live -> allocators s !! f = None -> is_Some (arrays s !! f) -> sound a -> free a = [] ->
  sm_allocator.hiwater_mark a = 0 -> sm_allocator.capacity_mark a = 2 ^ 20 -> inv (put_allocator f a s) C live.
Proof.
  intros I Hno Harr Sa Ef Eh Ec. pose proof I as []. split; cbn; try done.
  - intros k tc HC. rewrite lookup_insert_is_Some'. destruct (i_cache k tc HC). auto.
  - intros g b. rewrite lookup_insert_Some. intros [[<- <-]|[_ ?]]; [|by apply i_alloc]. split_and!; [done|by left|].
    rewrite Ef, Eh, (i_none f Hno), cached_none; [done|]. intros tid. destruct (C !! (tid, f)) eqn:E; [|done].
    apply i_cache in E as [_ [? Hs]]. cbn in Hs. by rewrite Hno in Hs.
  - intros g. rewrite lookup_insert_None. intros [? _]. by apply i_none.
  - intros g. rewrite lookup_insert_is_Some'. intros [<-|?]; [done|auto].
  - destruct i_base as (? & ? & ?). rewrite lookup_insert_is_Some'. auto.
Qed.

(** ** The calls *)

Lemma allocated_fresh s s' live f o : is_Some (allocators s !! f) -> allocated s s' live f o ->
  (o ∉ live f) /\ 0 <= o < MANY.
Proof.
  intros Hf (C' & I & _ & _ & Hall). apply Hall in Hf as [a Ha].
  assert (o ∈ (<[f := o :: live f]> live : Z -> list Z) f) as Ho by (rewrite fn_lookup_insert; left).
  pose proof (live_bounds _ _ _ _ _ _ I Ha Ho). unfold GROWN, MANY in *. split; [|lia].
  destruct (i_alloc _ _ _ I f a Ha) as (_ & _ & Ep). rewrite fn_lookup_insert in Ep.
  assert (NoDup (seqZ 0 (sm_allocator.hiwater_mark a))) as Hnd by apply NoDup_seqZ. rewrite <- Ep in Hnd.
  apply NoDup_app in Hnd as (_ & _ & Hnd). apply NoDup_app in Hnd as (_ & _ & Hnd). by apply NoDup_cons in Hnd as [? _].
Qed.

(** OID 0 is taken out of the cache and not returned. *)
Definition skipped (tid f : Z) (s : oid_mgr.t) : list Z :=
  match thread_allocate tid f s with Ok (o, _) => if o =? 0 then [0] else [] | Throw _ => [] end.

Lemma alloc_oid_ok s C live tid f :
  inv s C live -> small s -> is_Some (allocators s !! f) ->
  alloc_oid tid f s = Throw os_error \/
  exists o s' C', alloc_oid tid f s = Ok (o, s') /\ inv s' C' (<[f := o :: skipped tid f s ++ live f]> live) /\
    o <> 0 /\ (o ∉ live f) /\ 0 <= o < MANY /\ arrays s' = arrays s /\ contents s' = contents s.
Proof.
  intros I Hs Hf. unfold alloc_oid, skipped. cbn [alloc_loop].
  destruct (thread_allocate_ok s C live tid f I) as [->|(o & s1 & -> & Hal & Hrd)]; [by left|done|by left|]. cbn [mbind res_bind].
  pose proof (allocated_fresh _ _ _ _ _ Hf Hal) as [Hno Hr]. pose proof Hal as (C1 & I1 & Ea1 & Ec1 & Hall1).
  destruct (Z.eqb_spec o 0) as [->|N0]; [|right; exists o, s1, C1; split_and!; (done || lia)].

  assert (is_Some (allocators s1 !! f)) as Hf1 by (by apply Hall1).
  destruct (thread_allocate_ok s1 C1 _ tid f I1 (Hrd Hs) Hf1) as [->|(o & s2 & -> & Hal2 & _)]; cbn [mbind res_bind]; [by left|right].
  pose proof (allocated_fresh _ _ _ _ _ Hf1 Hal2) as [Hno2 Hr2]. rewrite fn_lookup_insert in Hno2.
  destruct Hal2 as (C2 & I2 & Ea2 & Ec2 & _). apply not_elem_of_cons in Hno2 as [N0 Hno2].
  rewrite (proj2 (Z.eqb_neq o 0)) by done. exists o, s2, C2. split; [done|]. split_and!; try done; try lia; try congruence.
  apply (inv_live _ _ _ _ I2). intros g. destruct (decide (g = f)) as [->|]; [by rewrite !fn_lookup_insert|by rewrite !fn_lookup_insert_ne].
Qed.

Lemma inv_contents s C live c : inv s C live -> inv (set_contents c s) C live.
Proof. by intros []. Qed.

Lemma free_oid_ok s C live tid f o l :
  inv s C live -> small s -> live f ≡ₚ o :: l -> f <> OBJARRAY_FID ->
  free_oid tid f o s = Throw os_error \/
  exists s' C', free_oid tid f o s = Ok (contents s f o, s') /\ inv s' C' (<[f := l]> live) /\ contents s' f o = 0.
Proof.
  intros I Hs Hl Hobj. unfold free_oid.
  assert (exists a, allocators s !! f = Some a) as [a Ha].
  { destruct (allocators s !! f) as [a|] eqn:E; [eauto|]. rewrite (i_none _ _ _ I f E) in Hl. by apply Permutation_nil_cons in Hl. }
  assert (0 <= o < MANY) as Ho.
  { destruct (live_bounds s C live f a o I Ha) as [H1 H2]; [rewrite Hl; left|]. unfold MANY, GROWN in *. lia. }
  rewrite (oid_access_ok s C live) by (done || apply (i_has _ _ _ I); eauto). cbn [mbind res_bind].
  destruct (thread_free_ok _ C live tid f o l (inv_contents s C live (<[f := <[o := 0]> (contents s f)]> (contents s)) I))
    as [->|(s' & C' & -> & I' & (_ & Ec & _))]; [exact Hs|done|done|by left|right].
  cbn [mbind res_bind]. exists s', C'. split_and!; [done|done|]. rewrite Ec. cbn. by rewrite !fn_lookup_insert.
Qed.

Lemma thread_fini_ok s C live tid : inv s C live -> small s ->
  thread_fini tid s = Throw os_error \/ exists s' C', thread_fini tid s = Ok s' /\ inv s' C' live.
Proof.
  intros I Hs. unfold thread_fini. destruct (revoke_ok tid s C live I Hs) as [->|(s1 & C1 & -> & I1 & _ & Hm)]; [by left|right].
  cbn [mbind res_bind]. eexists _, C1. split; [done|]. destruct (inv_caches s1 C1 live tid I1) as (m & Hm' & Em).
  destruct I1. split; cbn; try done.
  - intros tid' c. rewrite lookup_delete_Some. intros [_ ?]. by apply i_tls.
  - intros tid' f. destruct (decide (tid' = tid)) as [->|N]; [|rewrite lookup_delete_ne by done; apply i_no_tls]. intros _.
    rewrite <- Em. destruct (m !! f) as [tc|] eqn:E; [|done]. apply (m_elems _ _ Hm') in E. apply (m_elems _ _ Hm) in E.
    by rewrite lookup_empty in E.
Qed.

Lemma create_file_ok s C live tid needs_alloc :
  inv s C live -> small s ->
  create_file tid needs_alloc s = Throw os_error \/
  exists f s' C', create_file tid needs_alloc s = Ok (f, s') /\ inv s' C' (<[OBJARRAY_FID := f :: live OBJARRAY_FID]> live) /\
    file_exists f s = false /\ file_exists f s' = true /\ (needs_alloc = true -> is_Some (allocators s' !! f)).
Proof.
  intros I Hs. destruct (i_base _ _ _ I) as (_ & _ & Hobj). unfold create_file.
  destruct (thread_allocate_ok s C live tid OBJARRAY_FID I) as [->|(f & s1 & -> & Hal & _)]; [by left|done|by left|]. cbn [mbind res_bind].
  destruct (allocated_fresh _ _ _ _ _ Hobj Hal) as [Hno Hr]. destruct Hal as (C1 & I1 & Ea & _ & Hall).
  set (live1 := <[OBJARRAY_FID := f :: live OBJARRAY_FID]> live) in *.
  assert (f ∈ live1 OBJARRAY_FID) as Hin by (unfold live1; rewrite fn_lookup_insert; left).
  assert (arrays s !! f = None) as Hnone. { destruct (arrays s !! f) eqn:E; [|done]. destruct Hno. apply (i_fids _ _ _ I). eauto. }
  assert (file_exists f s = false) as Hex by (unfold file_exists; by rewrite Hnone).
  destruct make_array_total as [->|(d & -> & Hd)]; cbn [mbind res_bind]; [by left|].
  rewrite (oid_access_ok s1 C1 live1) by (done || apply (i_base _ _ _ I1)). cbn [mbind res_bind].
  pose proof (inv_put_array s1 C1 live1 f d I1 Hd Hin) as I2. set (s2 := put_array f d s1) in *.
  assert (arrays s2 !! f = Some d) as Hd2 by (cbn; apply lookup_insert_eq).
  assert (file_exists f s2 = true) as Hex2 by (unfold file_exists; by rewrite Hd2).
  destruct needs_alloc; [|right; by exists f, s2, C1].
  destruct make_alloc_total as [->|(a & -> & Sa & Ef & Eh & Ec)]; cbn [mbind res_bind]; [by left|right].
  rewrite (oid_access_ok s2 C1 live1) by (done || apply (i_base _ _ _ I2)). cbn [mbind res_bind].
  rewrite ensure_array by (done || by rewrite Ec). cbn [mbind res_bind].
  rewrite (put_array_same f d (put_allocator f a s2)) by done. exists f, (put_allocator f a s2), C1.
  split_and!; [done| |done|done|intros _; cbn; rewrite lookup_insert_eq; eauto].
  apply inv_put_allocator; try done. destruct (allocators s2 !! f) eqn:E; [|done]. exfalso.
  assert (is_Some (allocators s !! f)) as Hs' by (apply Hall; cbn in E; eauto). apply (i_has _ _ _ I) in Hs' as [? Hs']. congruence.
Qed.

(** What is in use at the start: the internal files. *)
Definition live0 (f : Z) : list Z := if f =? OBJARRAY_FID then [OBJARRAY_FID; ALLOCATOR_FID; METADATA_FID] else [].

Lemma create_ok s : create = Ok s -> inv s ∅ live0 /\ small s.
Proof.
  unfold create. destruct make_array_total as [->|(d & -> & Hd)]; [done|]. cbn [mbind res_bind].
  destruct (oid_access OBJARRAY_FID ALLOCATOR_FID _) as [[]|]; [|done]. cbn [mbind res_bind].
  destruct (oid_access OBJARRAY_FID METADATA_FID _) as [[]|]; [|done]. cbn [mbind res_bind].
  destruct make_alloc_total as [->|(a & -> & Sa & Ef & Eh & Ec)]; [done|]. cbn [mbind res_bind].
  set (a' := sm_allocator.set_hiwater_mark FIRST_FREE_FID a).
  assert (sound a') as Sa'. { destruct Sa. split; try done; [intros Hv; by destruct (s_l2 Hv)|]. cbn. rewrite Ec. done. }
  rewrite ensure_array by (done || (cbn; by rewrite Ec)). cbn [mbind res_bind].
  destruct (oid_access ALLOCATOR_FID OBJARRAY_FID _) as [[]|]; [|done]. cbn [mbind res_bind]. intros [= <-].
  assert (forall g b, allocators (put_allocator OBJARRAY_FID a' (put_array OBJARRAY_FID d (put_array METADATA_FID d
    (put_array ALLOCATOR_FID d (mk {[OBJARRAY_FID := d]} ∅ (fun _ _ => 0) ∅))))) !! g = Some b -> g = OBJARRAY_FID /\ b = a') as Hone.
  { intros g b. cbn. rewrite lookup_insert_Some, lookup_empty. by intros [[<- <-]|[_ ?]]. }
  split; [|intros g b [_ ->]%Hone; exact Ec]. split.
  - intros tid c. cbn. by rewrite lookup_empty.
  - intros tid f _. apply lookup_empty.
  - intros k tc. by rewrite lookup_empty.
  - intros f b [-> ->]%Hone. split_and!; [done|by left|]. change (free a') with (free a). by rewrite Ef.
  - intros f. cbn. rewrite lookup_insert_None. intros [_ N]. unfold live0. by rewrite (proj2 (Z.eqb_neq _ _)).
  - intros f d'. cbn -[singletonM map_singleton]. rewrite !lookup_insert_Some, lookup_singleton_Some.
    by intros [[_ <-]|[_ [[_ <-]|[_ [[_ <-]|[_ [_ <-]]]]]]].
  - intros f [b [-> _]%Hone]. cbn. rewrite lookup_insert_eq. eauto.
  - split_and!; cbn; eauto.
  - intros f. cbn -[singletonM map_singleton]. rewrite !lookup_insert_is_Some'. unfold live0. cbn. rewrite !elem_of_cons.
    intros [<-|[<-|[<-|[? [<- _]%lookup_singleton_Some]]]]; auto.
Qed.

(** ** All sequences of calls *)

(** Where the threads' [thread_data] and the manager are in memory. *)
Context (data_at : Z -> Z) (master : Z).

Inductive call := AllocOid (tid f : Z) | FreeOid (tid f o : Z) | CreateFile (tid : Z) (needs_alloc : bool) | Exit (tid : Z).

Definition caller (c : call) : Z :=
  match c with AllocOid tid _ | FreeOid tid _ _ | CreateFile tid _ | Exit tid => tid end.

(** The caller's side of the contract: OIDs are allocated in managed files, and
    freed by who has them; the thread is not one of the [gone]. *)
Definition allowed (c : call) (s : oid_mgr.t) (live : Z -> list Z) (gone : gset Z) : Prop :=
  caller c ∉ gone /\
  match c with
  | AllocOid _ f => is_Some (allocators s !! f)
  | FreeOid _ f o => o ∈ live f /\ f <> OBJARRAY_FID
  | CreateFile _ _ | Exit _ => True
  end.

(** A call, its result, and what is in use afterwards. *)
Definition perform (c : call) (s : oid_mgr.t) (live : Z -> list Z) : res (Z * oid_mgr.t * (Z -> list Z)) :=
  match c with
  | AllocOid tid f => '(o, s') ← alloc_oid tid f s; Ok (o, s', <[f := o :: skipped tid f s ++ live f]> live)
  | FreeOid tid f o => '(p, s') ← free_oid tid f o s; Ok (p, s', <[f := filter (fun x => x <> o) (live f)]> live)
  | CreateFile tid b => '(f, s') ← create_file tid b s; Ok (f, s', <[OBJARRAY_FID := f :: live OBJARRAY_FID]> live)
  | Exit tid => s' ← fini (data_at tid) master tid s; Ok (0, s', live)
  end.

Definition leaves (c : call) (gone : gset Z) : gset Z :=
  match c with Exit tid => {[tid]} ∪ gone | _ => gone end.

(** The states after calls that returned, each made when no file had outgrown
    its initial capacity. *)
Inductive reach : oid_mgr.t -> (Z -> list Z) -> gset Z -> Prop :=
| reach_start s : create = Ok s -> reach s live0 ∅
| reach_call s live gone c r s' live' :
    reach s live gone -> small s -> allowed c s live gone -> perform c s live = Ok (r, s', live') ->
    reach s' live' (leaves c gone).

Lemma live_nodup s C live f : inv s C live -> NoDup (live f).
Proof.
  intros I. destruct (allocators s !! f) as [a|] eqn:Ha; [|rewrite (i_none _ _ _ I f Ha); constructor].
  destruct (i_alloc _ _ _ I f a Ha) as (_ & _ & Ep).
  assert (NoDup (seqZ 0 (sm_allocator.hiwater_mark a))) as Hnd by apply NoDup_seqZ. rewrite <- Ep in Hnd.
  apply NoDup_app in Hnd as (_ & _ & Hnd). by apply NoDup_app in Hnd as (_ & _ & Hnd).
Qed.

Lemma remove_one (l : list Z) o : NoDup l -> o ∈ l -> l ≡ₚ o :: filter (fun x => x <> o) l.
Proof.
  intros Hnd Ho. apply NoDup_Permutation; [done| |].
  - constructor; [|by apply NoDup_filter]. by intros [? _]%list_elem_of_filter.
  - intros x. rewrite elem_of_cons, list_elem_of_filter. destruct (decide (x = o)) as [->|]; tauto.
Qed.

Definition outcome (c : call) (s : oid_mgr.t) (live : Z -> list Z) (r : Z) (s' : oid_mgr.t) : Prop :=
  match c with
  | AllocOid _ f => r <> 0 /\ (r ∉ live f) /\ oid_access f r s' = Ok tt
  | FreeOid _ f o => r = contents s f o /\ contents s' f o = 0
  | CreateFile _ b => file_exists r s = false /\ file_exists r s' = true /\ (b = true -> is_Some (allocators s' !! r))
  | Exit _ => True
  end.

Lemma key_fini_ok s C live tid : inv s C live -> small s ->
  fini (data_at tid) master tid s = Throw os_error \/
  exists s' C', fini (data_at tid) master tid s = Ok s' /\ inv s' C' live.
Proof. intros I Hs. unfold fini. destruct (_ =? _); [by apply (thread_fini_ok s C)|right; eauto]. Qed.

Lemma perform_ok c s C live gone :
  inv s C live -> small s -> allowed c s live gone ->
  perform c s live = Throw os_error \/
  exists r s' live' C', perform c s live = Ok (r, s', live') /\ inv s' C' live' /\ outcome c s live r s'.
Proof.
  intros I Hs [_ Hc]. destruct c as [tid f|tid f o|tid b|tid]; cbn [perform outcome] in *.
  - destruct (alloc_oid_ok s C live tid f I Hs Hc) as [->|(o & s' & C' & -> & I' & N0 & Hno & Hr & Ea & _)]; [by left|right].
    cbn [mbind res_bind]. eexists _, _, _, C'. split_and!; [done..|]. apply (oid_access_ok _ _ _ _ _ I'); [|done].
    rewrite Ea. by apply (i_has _ _ _ I).
  - destruct Hc as [Ho Hobj]. pose proof (remove_one _ _ (live_nodup _ _ _ f I) Ho) as Hl.
    destruct (free_oid_ok s C live tid f o _ I Hs Hl Hobj) as [->|(s' & C' & -> & I' & E0)]; [by left|right].
    cbn [mbind res_bind]. eexists _, _, _, C'. by split_and!.
  - destruct (create_file_ok s C live tid b I Hs) as [->|(f & s' & C' & -> & I' & ? & ? & ?)]; [by left|right].
    cbn [mbind res_bind]. eexists _, _, _, C'. by split_and!.
  - destruct (key_fini_ok s C live tid I Hs) as [->|(s' & C' & -> & I')]; [by left|right].
    cbn [mbind res_bind]. eexists _, _, _, C'. by split_and!.
Qed.

Lemma reach_inv s live gone : reach s live gone -> exists C, inv s C live.
Proof.
  induction 1 as [s E|s live gone c r s' live' _ [C I] Hs Hc E]; [exists ∅; by apply create_ok|].
  destruct (perform_ok c s C live gone I Hs Hc) as [E'|(r1 & s1 & l1 & C1 & E' & I1 & _)]; rewrite E in E'; [done|].
  injection E' as <- <- <-. eauto.
Qed.

(** C8: after any calls that returned, made by threads that had not exited
    and each while no file had outgrown its initial capacity: no OID of a file
    is in use twice; each OID in use is below the high water mark, within the
    capacity, and its slot is memory; and each OID below the mark is in
    exactly one place: free in the allocator, in the cache of one thread, or
    in use.  The threads include those that have exited.  Their caches are not
    given back, since the destructor of the thread key finds the manager's
    address in no [thread_data]; OIDs in them are not handed out again. *)
Theorem oid_life_safe s live gone f a (R : reach s live gone) (Ha : allocators s !! f = Some a) :
  NoDup (live f) /\ below (sm_allocator.hiwater_mark a) (live f) /\ sm_allocator.hiwater_mark a <= sm_allocator.capacity_mark a /\
  (forall o, o ∈ live f -> oid_access f o s = Ok tt) /\
  exists C, (forall tid, exists m, models (caches tid s) m /\ forall g, m !! g = C !! (tid, g)) /\
    free a ++ cached C f ++ live f ≡ₚ seqZ 0 (sm_allocator.hiwater_mark a).
Proof.
  destruct (reach_inv s live gone R) as [C I]. destruct (i_alloc _ _ _ I f a Ha) as (Sa & _ & Ep).
  assert (forall o, o ∈ live f -> 0 <= o < sm_allocator.hiwater_mark a /\ 0 <= o < MANY) as Hb.
  { intros o Ho. pose proof (live_bounds _ _ _ _ _ _ I Ha Ho). unfold GROWN, MANY in *. lia. }
  split; [by apply (live_nodup s C)|]. split; [apply Forall_forall; intros o Ho; by apply Hb|]. split; [apply (s_marks _ Sa)|]. split.
  - intros o Ho. apply (oid_access_ok _ _ _ _ _ I); [apply (i_has _ _ _ I); eauto|by apply Hb].
  - exists C. split; [|done]. intros tid. by apply (inv_caches s C live).
Qed.

(** C18: a call that the contract allows, while no file has outgrown
    its initial capacity, returns unless the system refuses memory: it never
    spins and never leaves an array.  An allocated OID is not 0, was not in
    use and its slot is memory; freeing returns what the slot held and clears
    it; a created file did not exist. *)
Theorem oid_calls_return s live gone c (R : reach s live gone) (Hs : small s) (Hc : allowed c s live gone) :
  perform c s live = Throw os_error \/
  exists r s' live', perform c s live = Ok (r, s', live') /\ outcome c s live r s'.
Proof.
  destruct (reach_inv s live gone R) as [C I]. destruct (perform_ok c s C live gone I Hs Hc) as [|(r & s' & live' & _ & E & _ & Ho)]; [by left|right].
  by exists r, s', live'.
Qed.

End life.

(** ** Examples *)

Section examples.
#[local] Instance willing_os : Os := {| mmap := fun _ => Some 4096; mprotect := fun _ _ _ => true |}.
#[local] Instance any_hash : BurtHash := fun x => wrap 32 (x * 2654435761).

Definition started : oid_mgr.t := match create with Ok s => s | Throw _ => mk ∅ ∅ (fun _ _ => 0) ∅ end.

Lemma started_ok : create = Ok started.
Proof. unfold started. destruct create eqn:E; [done|]. exfalso. by vm_compute in E. Qed.

Lemma started_small : small started.
Proof. apply (create_ok started started_ok). Qed.

(** The manager at 4096, the threads' data above. *)
Definition addresses (tid : Z) : Z := 8192 + tid * 64.

Lemma oid_calls_return_witness :
  exists r s' live', perform addresses 4096 (CreateFile 1 true) started live0 = Ok (r, s', live') /\ file_exists r started = false.
Proof.
  destruct (oid_calls_return addresses 4096 started live0 ∅ (CreateFile 1 true) (reach_start _ _ _ started_ok) started_small
    (conj (not_elem_of_empty 1) I))
    as [E|(r & s' & live' & E & Ho)]; [by vm_compute in E|]. exists r, s', live'. split; [exact E|apply Ho].
Defined.

Lemma oid_life_safe_witness : exists a, allocators started !! OBJARRAY_FID = Some a /\ NoDup (live0 OBJARRAY_FID) /\
  forall o, o ∈ live0 OBJARRAY_FID -> oid_access OBJARRAY_FID o started = Ok tt.
Proof.
  destruct (i_base _ _ _ (proj1 (create_ok started started_ok))) as (_ & _ & [a Ha]). exists a. split; [exact Ha|].
  destruct (oid_life_safe addresses 4096 started live0 ∅ OBJARRAY_FID a (reach_start _ _ _ started_ok) Ha) as (H1 & _ & _ & H2 & _). split; [exact H1|exact H2].
Defined.

(** Thread 1 creates a file, allocates one OID and exits; what else it had
    cached stays with it, and thread 2 gets an OID behind all of those. *)
Example exit_keeps_cache :
  ('(f, s, live) ← perform addresses 4096 (CreateFile 1 true) started live0;
   '(o, s, live) ← perform addresses 4096 (AllocOid 1 f) s live;
   '(_, s, live) ← perform addresses 4096 (Exit 1) s live;
   '(o', s, live) ← perform addresses 4096 (AllocOid 2 f) s live;
   Ok (o, o', live f))
  = Ok (63, 127, [127; 63]).
Proof. vm_compute. reflexivity. Qed.

End examples.
