(* ===== verification/OidDivergences.v ===== *)
(** * Where OID allocation does not do what it means to

    Concrete runs: a counter that wraps, OIDs that get dropped, an entry of a
    destroyed file, capacities near the limit. *)
From stdpp Require Import base numbers gmap functions list.
From Stdlib Require Import ZArith Lia.
From S2P Require Import Prelude Bits Dynarray SparseBitset ScHash OidAlloc OidManager.

Import oid_mgr sm_allocator.
Local Open Scope Z_scope.

Section runs.
#[local] Instance some_os : Os := {| mmap := fun _ => Some 4096; mprotect := fun _ _ _ => true |}.
#[local] Instance some_hash : BurtHash := fun x => wrap 32 (x * 2654435761).

Definition base_alloc : sm_allocator.t := fresh dynarray.dummy.

(** [l2_first_unused] is a [uint16_t]: taking bitmap 65535 makes it 0, which
    means that there is no L2, and never [L2_CAPACITY]. *)
Definition one_left : sm_allocator.t :=
  set_l1 (fun _ => 0x50007) (set_l1_size 1 (set_l2 (fun i => i) (set_l2_first_unused 65535 (set_l2_size 0
    (set_l2_loose_oids 20 base_alloc))))).

Example last_bitmap_drops_l2 :
  exists a, l2_valid one_left = true /\ drain_one 0 0 one_left = Ok a /\ l2_valid a = false.
Proof. eexists. split_and!; [done|reflexivity|done]. Qed.

(** What [_scavenge_l3] takes out of L3 and has not moved to L1 is gone. *)
Definition five_in_l3 : sm_allocator.t :=
  set_l3_words (fun i => if i =? 0 then 32 else 0) (set_l3_capacity 1 (set_l3_loose_oids 1 (set_l3_scan_hand 0 base_alloc))).

Example scavenge_l3_drops :
  exists left_ a, _scavenge_l3_to_l1 1 five_in_l3 = Ok (left_, a) /\ l1_size a = 0 /\ l3_loose_oids a = 0 /\ l3_words a 0 = 0.
Proof. eexists _, _. split; [vm_compute; reflexivity|]. by vm_compute. Qed.

(** The product by 5 is computed in 32 bits. *)
Example propose_shrinks : propose_capacity 1 (set_capacity_mark 900000000 base_alloc) = 51258176.
Proof. reflexivity. Qed.

Definition initial : oid_mgr.t := match create with Ok s => s | Throw _ => oid_mgr.mk ∅ ∅ (fun _ _ => 0) ∅ end.

(** [destroy_file] leaves the cache entries of the file; revoking the caches
    asks for its allocator. *)
Example destroyed_file_blocks_revoke :
  ('(f, s) ← create_file 1 true initial; '(_, s) ← alloc_oid 1 f s; s ← destroy_file 1 f s; thread_revoke_caches 1 s) =
  Throw illegal_argument.
Proof. vm_compute. reflexivity. Qed.

(** With all OIDs in use there is no larger capacity: [thread_allocate] gets no OID
    and reads in front of the cache. *)
Definition exhausted : oid_mgr.t :=
  put_allocator OBJARRAY_FID (set_hiwater_mark MAX_CAPACITY_MARK (set_capacity_mark MAX_CAPACITY_MARK base_alloc)) initial.

Example exhausted_reads_outside : thread_allocate 1 OBJARRAY_FID exhausted = Throw bad_address.
Proof. vm_compute. reflexivity. Qed.

End runs.
