(* ===== verification/WindowBuffer.v ===== *)
(** * A window over a stream of bytes ([dbcore/window-buffer.h], [dbcore/window-buffer.cpp])

    The buffer of the log: bytes of an endless stream, of which those from
    [_head] to [_tail] can be read and the following ones, up to [_size] bytes
    behind [_head], can be written.  The memory is one file mapped twice at
    adjacent addresses, so that every piece of the window is contiguous.
    Theorem: reads return what was written at the same place of the stream. *)
From stdpp Require Import base numbers list functions.
From Stdlib Require Import ZArith Lia.
From S2P Require Import Prelude.

Local Open Scope Z_scope.

(** ** The buffer *)

(** [_data] is address 0; [file] the bytes of the file behind both mappings. *)
(* src: dbcore/window-buffer.h:143-146 window_buffer *)
Record window_buffer := Window { _size : Z; _head : Z; _tail : Z; file : Z -> Z }.

(* src: dbcore/window-buffer.h:74-74 window_buffer::write_end *)
Definition write_end (w : window_buffer) : Z := u64 (_head w + _size w).
(* src: dbcore/window-buffer.h:84-86 window_buffer::available_to_write *)
Definition available_to_write (w : window_buffer) : Z := u64 (write_end w - _tail w).
(* src: dbcore/window-buffer.h:90-92 window_buffer::available_to_read *)
Definition available_to_read (w : window_buffer) : Z := u64 (_tail w - _head w).

(* src: dbcore/window-buffer.cpp:62-77 window_buffer::_get_ptr *)
Definition _get_ptr (w : window_buffer) (offset : Z) : Z := Z.land offset (u64 (_size w - 1)).

(** [None] is the null pointer. *)
(* src: dbcore/window-buffer.h:108-115 window_buffer::write_buf *)
Definition write_buf (w : window_buffer) (offset size : Z) : res (option Z) :=
  throw_if (offset <? _tail w) illegal_argument;;
  Ok (if write_end w <? u64 (offset + size) then None else Some (_get_ptr w offset)).

(* src: dbcore/window-buffer.h:122-129 window_buffer::read_buf *)
Definition read_buf (w : window_buffer) (offset size : Z) : res (option Z) :=
  throw_if (offset <? _head w) illegal_argument;;
  Ok (if _tail w <? u64 (offset + size) then None else Some (_get_ptr w offset)).

(* src: dbcore/window-buffer.cpp:79-87 window_buffer::advance_writer *)
Definition advance_writer (new_wbegin : Z) (w : window_buffer) : res window_buffer :=
  throw_if (new_wbegin <? _tail w) illegal_argument;;
  throw_if (write_end w <? new_wbegin) illegal_argument;;
  Ok (Window (_size w) (_head w) new_wbegin (file w)).

(* src: dbcore/window-buffer.cpp:89-97 window_buffer::advance_reader *)
Definition advance_reader (new_rbegin : Z) (w : window_buffer) : res window_buffer :=
  throw_if (new_rbegin <? _head w) illegal_argument;;
  throw_if (_tail w <? new_rbegin) illegal_argument;;
  Ok (Window (_size w) new_rbegin (_tail w) (file w)).

(** [mapped] is whether the system provides the file and its mappings. *)
(* src: dbcore/window-buffer.cpp:99-171 window_buffer::window_buffer *)
Definition new_window_buffer (mapped : bool) (bufsz start_offset : Z) : res window_buffer :=
  throw_if (negb (Z.land bufsz (u64 (bufsz - 1)) =? 0)) illegal_argument;;
  throw_if (negb mapped) os_error;;
  Ok (Window bufsz start_offset start_offset (fun _ => 0)).

(** Accesses through a pointer, which must stay in the mappings. *)
Fixpoint store_from (size p : Z) (data : list Z) (f : Z -> Z) : Z -> Z :=
  match data with
  | [] => f
  | v :: data => store_from size (p + 1) data (<[p mod size := v]> f)
  end.

Definition store (p : Z) (data : list Z) (w : window_buffer) : res window_buffer :=
  throw_if (2 * _size w <? p + Z.of_nat (length data)) bad_address;;
  Ok (Window (_size w) (_head w) (_tail w) (store_from (_size w) p data (file w))).

Definition load (p n : Z) (w : window_buffer) : res (list Z) :=
  throw_if (2 * _size w <? p + n) bad_address;;
  Ok ((fun k => file w ((p + k) mod _size w)) <$> seqZ 0 n).

(** ** Clients *)

(** A client writes to a piece of the window, makes bytes readable, reads a
    piece, or gives bytes back. *)
Inductive op := Write (off : Z) (data : list Z) | Publish (off : Z) | Read (off n : Z) | Consume (off : Z).

Inductive outcome (A : Type) := Error (e : error) | Null | Done (l : list A).
Arguments Error {_} _.
Arguments Null {_}.
Arguments Done {_} _.

Definition answer {A S} (s : S) (r : res (outcome A * S)) : outcome A * S :=
  match r with Ok x => x | Throw e => (Error e, s) end.

Definition exec (o : op) (w : window_buffer) : outcome Z * window_buffer :=
  answer w match o with
  | Write off data =>
      p ← write_buf w off (Z.of_nat (length data));
      match p with None => Ok (Null, w) | Some p => w ← store p data w; Ok (Done [], w) end
  | Publish off => w ← advance_writer off w; Ok (Done [], w)
  | Read off n =>
      p ← read_buf w off n;
      match p with None => Ok (Null, w) | Some p => l ← load p n w; Ok (Done l, w) end
  | Consume off => w ← advance_reader off w; Ok (Done [], w)
  end.

Fixpoint execs (os : list op) (w : window_buffer) : list (outcome Z) :=
  match os with
  | [] => []
  | o :: os => let '(r, w) := exec o w in r :: execs os w
  end.

(** ** The stream *)

(** What was written at each place of the stream, and where reading and writing
    start. *)
Record stream := Stream { rb : Z; wb : Z; byte : Z -> option Z }.

Fixpoint write_from (off : Z) (data : list Z) (b : Z -> option Z) : Z -> option Z :=
  match data with
  | [] => b
  | v :: data => write_from (off + 1) data (<[off := Some v]> b)
  end.

Definition spec (size : Z) (o : op) (s : stream) : outcome (option Z) * stream :=
  match o with
  | Write off data =>
      if off <? wb s then (Error illegal_argument, s) else
      if rb s + size <? off + Z.of_nat (length data) then (Null, s) else
      (Done [], Stream (rb s) (wb s) (write_from off data (byte s)))
  | Publish off =>
      if (off <? wb s) || (rb s + size <? off) then (Error illegal_argument, s) else (Done [], Stream (rb s) off (byte s))
  | Read off n =>
      if off <? rb s then (Error illegal_argument, s) else
      if wb s <? off + n then (Null, s) else (Done (byte s <$> seqZ off n), s)
  | Consume off =>
      if (off <? rb s) || (wb s <? off) then (Error illegal_argument, s) else (Done [], Stream off (wb s) (byte s))
  end.

Fixpoint specs (size : Z) (os : list op) (s : stream) : list (outcome (option Z)) :=
  match os with
  | [] => []
  | o :: os => let '(r, s) := spec size o s in r :: specs size os s
  end.

(** The same outcome; where something was written, that is what was read. *)
Definition agrees (r : outcome Z) (r' : outcome (option Z)) : Prop :=
  match r, r' with
  | Error e, Error e' => e = e'
  | Null, Null => True
  | Done l, Done l' => Forall2 (fun v x => forall v', x = Some v' -> v = v') l l'
  | _, _ => False
  end.

(** Places of the stream that 64 bits can count. *)
Definition op_ok (o : op) : Prop :=
  match o with
  | Write off data => 0 <= off /\ off + Z.of_nat (length data) < 2 ^ 63
  | Read off n => 0 <= off /\ 0 <= n /\ off + n < 2 ^ 63
  | Publish off | Consume off => 0 <= off < 2 ^ 63
  end.

(** ** The buffer is a window of the stream *)

Lemma mod_apart size x y : 0 < size -> x < y < x + size -> x mod size <> y mod size.
Proof.
  intros Hs Hxy E. assert ((y - x) mod size = 0) as H by (by rewrite Zminus_mod, E, Z.sub_diag).
  rewrite Z.mod_small in H; lia.
Qed.

Section cells.
Context (size : Z) (Hs : 0 < size).

Lemma store_out data : forall p f x, p + Z.of_nat (length data) <= x < p + size \/ p - size + Z.of_nat (length data) <= x < p ->
  store_from size p data f (x mod size) = f (x mod size).
Proof.
  induction data as [|v data IH]; intros p f x Hx; [done|]. cbn [store_from length] in *. rewrite IH by lia.
  apply fn_lookup_insert_ne. destruct Hx; [|apply not_eq_sym]; apply mod_apart; lia.
Qed.

(** Only the remainder of the address counts. *)
Lemma store_cong data : forall p p' f, p mod size = p' mod size -> store_from size p data f = store_from size p' data f.
Proof.
  induction data as [|v data IH]; intros p p' f E; [done|]. cbn [store_from]. rewrite E. apply IH. by rewrite Zplus_mod, E, <- Zplus_mod.
Qed.

Lemma store_in data : forall p f k v, data !! k = Some v -> Z.of_nat (length data) <= size ->
  store_from size p data f ((p + Z.of_nat k) mod size) = v.
Proof.
  induction data as [|u data IH]; intros p f k v Hk Hl; [done|]. cbn [store_from length] in *. destruct k as [|k].
  - injection Hk as ->. rewrite Z.add_0_r, store_out by lia. apply fn_lookup_insert.
  - replace (p + Z.of_nat (S k)) with (p + 1 + Z.of_nat k) by lia. apply IH; [done|lia].
Qed.
End cells.

Lemma write_out data : forall off b x, ~ (off <= x < off + Z.of_nat (length data)) -> write_from off data b x = b x.
Proof.
  induction data as [|v data IH]; intros off b x Hx; [done|]. cbn [write_from length] in *. rewrite IH by lia.
  apply fn_lookup_insert_ne. lia.
Qed.

Lemma write_in data : forall off b k v, data !! k = Some v -> write_from off data b (off + Z.of_nat k) = Some v.
Proof.
  induction data as [|u data IH]; intros off b k v Hk; [done|]. cbn [write_from]. destruct k as [|k].
  - injection Hk as ->. rewrite Z.add_0_r, write_out by lia. apply fn_lookup_insert.
  - replace (off + Z.of_nat (S k)) with (off + 1 + Z.of_nat k) by lia. by apply IH.
Qed.

Section window.
Context (k : Z) (Hk : 0 <= k <= 62).
Notation size := (2 ^ k).

Record window_of (w : window_buffer) (s : stream) : Prop := {
  wo_size : _size w = size;
  wo_head : _head w = rb s;
  wo_tail : _tail w = wb s;
  wo_range : 0 <= rb s <= wb s /\ wb s <= rb s + size /\ wb s < 2 ^ 63;
  wo_new x v : byte s x = Some v -> x < rb s + size;
  wo_bytes x v : rb s <= x -> byte s x = Some v -> file w (x mod size) = v;
}.

Lemma size_pos : 0 < size.
Proof. lia. Qed.
Lemma size_le : size <= 2 ^ 62.
Proof. apply Z.pow_le_mono_r; lia. Qed.

Context (w : window_buffer) (s : stream) (Hw : window_of w s).

Lemma write_end_eq : write_end w = rb s + size.
Proof.
  pose proof size_le. pose proof size_pos. destruct Hw as [H1 H2 H3 H4 _ _]. unfold write_end. rewrite H1, H2.
  apply wrap_small. unfold fits. lia.
Qed.

Lemma get_ptr_eq off : _get_ptr w off = off mod size.
Proof.
  pose proof size_le. pose proof size_pos. unfold _get_ptr. rewrite (wo_size _ _ Hw), wrap_small by (unfold fits; lia).
  apply land_mask. lia.
Qed.

(** A piece of the window is inside the two mappings. *)
Lemma piece_mapped off n : rb s <= off -> off + n <= rb s + size -> off mod size + n <= 2 * size.
Proof. intros H1 H2. pose proof (Z.mod_pos_bound off size size_pos). lia. Qed.

Lemma step_write off data : 0 <= off -> off + Z.of_nat (length data) < 2 ^ 63 ->
  let '(r, w') := exec (Write off data) w in let '(r', s') := spec size (Write off data) s in agrees r r' /\ window_of w' s'.
Proof.
  intros Ho Hl. pose proof Hw as [H1 H2 H3 H4 H5 H6]. pose proof size_pos. unfold exec, write_buf, spec. rewrite H3, write_end_eq.
  destruct (Z.ltb_spec off (wb s)); [by cbn|]. cbn [throw_if mbind res_bind]. rewrite (wrap_small 64) by (unfold fits; lia).
  destruct (Z.ltb_spec (rb s + size) (off + Z.of_nat (length data))); [by cbn|]. cbn [mbind res_bind]. unfold store.
  rewrite get_ptr_eq, H1. pose proof (piece_mapped off (Z.of_nat (length data)) ltac:(lia) ltac:(lia)).
  destruct (Z.ltb_spec (2 * size) (off mod size + Z.of_nat (length data))); [lia|]. cbn [throw_if mbind res_bind answer].
  split; [constructor|]. split; try done; cbn [rb wb byte file].
  - intros x v Hx. destruct (decide (off <= x < off + Z.of_nat (length data))); [lia|]. rewrite write_out in Hx by done. by eapply H5.
  - intros x v Hxr Hx.  destruct (decide (off <= x < off + Z.of_nat (length data))) as [Hin|Hout].
    + destruct (lookup_lt_is_Some_2 data (Z.to_nat (x - off))) as [u Hu]; [lia|].
      pose proof (write_in data off (byte s) _ _ Hu) as E. replace (off + Z.of_nat (Z.to_nat (x - off))) with x in E by lia.
      rewrite E in Hx. injection Hx as ->. pose proof (store_in size size_pos data (off mod size) (file w) _ _ Hu ltac:(lia)) as E'.
      rewrite <- E'. f_equal. rewrite Zplus_mod_idemp_l. f_equal. lia.
    + rewrite write_out in Hx by done. pose proof (H5 _ _ Hx). rewrite (store_cong size data _ off) by apply Zmod_mod. rewrite store_out by lia. by eapply H6.
Qed.

Lemma step_publish off : 0 <= off < 2 ^ 63 ->
  let '(r, w') := exec (Publish off) w in let '(r', s') := spec size (Publish off) s in agrees r r' /\ window_of w' s'.
Proof.
  intros Ho. pose proof Hw as [H1 H2 H3 H4 H5 H6]. unfold exec, advance_writer, spec. rewrite H3, write_end_eq.
  destruct (Z.ltb_spec off (wb s)); [by cbn|]. cbn [throw_if mbind res_bind orb].
  destruct (Z.ltb_spec (rb s + size) off); [by cbn|]. cbn [throw_if mbind res_bind answer].
  split; [constructor|]. split; try done. cbn. lia.
Qed.

Lemma step_consume off :
  let '(r, w') := exec (Consume off) w in let '(r', s') := spec size (Consume off) s in agrees r r' /\ window_of w' s'.
Proof.
  pose proof Hw as [H1 H2 H3 H4 H5 H6]. unfold exec, advance_reader, spec. rewrite H2, H3.
  destruct (Z.ltb_spec off (rb s)); [by cbn|]. cbn [throw_if mbind res_bind orb].
  destruct (Z.ltb_spec (wb s) off); [by cbn|]. cbn [throw_if mbind res_bind answer].
  split; [constructor|]. split; try done; cbn [rb wb byte file].
  - lia.
  - intros x v Hx. specialize (H5 _ _ Hx). lia.
  - intros x v Hxr. apply H6. lia.
Qed.

Lemma step_read off n : 0 <= off -> 0 <= n -> off + n < 2 ^ 63 ->
  let '(r, w') := exec (Read off n) w in let '(r', s') := spec size (Read off n) s in agrees r r' /\ window_of w' s'.
Proof.
  intros Ho Hn Hl. pose proof Hw as [H1 H2 H3 H4 H5 H6]. unfold exec, read_buf, spec. rewrite H2, H3.
  destruct (Z.ltb_spec off (rb s)); [by cbn|]. cbn [throw_if mbind res_bind]. rewrite (wrap_small 64) by (unfold fits; lia).
  destruct (Z.ltb_spec (wb s) (off + n)); [by cbn|]. cbn [mbind res_bind]. unfold load.
  rewrite get_ptr_eq, H1. pose proof (piece_mapped off n ltac:(lia) ltac:(lia)).
  destruct (Z.ltb_spec (2 * size) (off mod size + n)); [lia|]. cbn [throw_if mbind res_bind answer].
  split; [|done]. cbn [agrees]. apply Forall2_fmap, Forall2_same_length_lookup_2; [by rewrite !length_seqZ|].
  intros i a b Ha Hb v Hv. apply lookup_seqZ in Ha as [-> Hi], Hb as [-> _].
  rewrite Zplus_mod_idemp_l. apply H6; [lia|]. done.
Qed.

Lemma step_ok o : op_ok o ->
  let '(r, w') := exec o w in let '(r', s') := spec size o s in agrees r r' /\ window_of w' s'.
Proof.
  destruct o; cbn [op_ok].
  - intros [? ?]. by apply step_write.
  - apply step_publish.
  - intros (? & ? & ?). by apply step_read.
  - intros _. apply step_consume.
Qed.
End window.

Lemma execs_ok k os : 0 <= k <= 62 -> Forall op_ok os -> forall w s, window_of k w s -> Forall2 agrees (execs os w) (specs (2 ^ k) os s).
Proof.
  intros Hk. induction 1 as [|o os Ho Hos IH]; intros w s Hw; [constructor|]. cbn [execs specs].
  pose proof (step_ok k Hk w s Hw o Ho) as H. destruct (exec o w) as [r w'], (spec (2 ^ k) o s) as [r' s'].
  destruct H as [Ha Hw']. constructor; [done|by apply IH].
Qed.

Lemma new_window_ok k start : 0 <= k <= 62 -> 0 <= start < 2 ^ 63 ->
  exists w, new_window_buffer true (2 ^ k) start = Ok w /\ window_of k w (Stream start start (fun _ => None)).
Proof.
  intros Hk Hst. pose proof (size_le k Hk). pose proof (size_pos k Hk). unfold new_window_buffer.
  rewrite (wrap_small 64) by (unfold fits; lia). rewrite land_mask by lia. rewrite Z_mod_same_full. cbn.
  eexists. split; [done|]. split; try done. cbn. lia.
Qed.

(** C23: a buffer of any power of two bytes behaves as a
    window of the stream: over any sequence of writes anywhere in the writable
    part, publications, reads and releases, it refuses with an error or a null
    pointer exactly what does not fit, never leaves its mappings, and reads
    return, at every place that was written, what was written there. *)
Theorem window_buffer_refines k start os :
  0 <= k <= 62 -> 0 <= start < 2 ^ 63 -> Forall op_ok os ->
  exists w, new_window_buffer true (2 ^ k) start = Ok w /\
    available_to_read w = 0 /\ available_to_write w = 2 ^ k /\
    Forall2 agrees (execs os w) (specs (2 ^ k) os (Stream start start (fun _ => None))).
Proof.
  intros Hk Hst Hos. destruct (new_window_ok k start Hk Hst) as (w & E & Hw). exists w. split; [done|].
  pose proof (size_le k Hk). pose proof (size_pos k Hk).
  split_and!; [| |by apply execs_ok].
  - unfold available_to_read. rewrite (wo_head _ _ _ Hw), (wo_tail _ _ _ Hw). cbn. by rewrite Z.sub_diag.
  - unfold available_to_write. rewrite (write_end_eq k Hk w _ Hw), (wo_tail _ _ _ Hw). cbn [rb wb].
    replace (start + 2 ^ k - start) with (2 ^ k) by lia. apply wrap_small. unfold fits. lia.
Qed.

(** Eight bytes: a piece that wraps around, and one that does not fit. *)
Lemma window_buffer_refines_witness :
  let os := [Write 6 [1; 2; 3; 4]; Publish 10; Read 7 3; Read 9 2; Consume 8; Write 10 [5; 6; 7; 8; 9; 10]; Write 15 [1; 2]; Write 9 [1]] in
  exists w, new_window_buffer true 8 6 = Ok w /\
    execs os w = [Done []; Done []; Done [2; 3; 4]; Null; Done []; Done []; Null; Error illegal_argument] /\
    Forall2 agrees (execs os w) (specs 8 os (Stream 6 6 (fun _ => None))).
Proof.
  intros os. destruct (window_buffer_refines 3 6 os) as (w & E & _ & _ & H).
  - lia.
  - lia.
  - repeat constructor; cbn; lia.
  - exists w. split; [exact E|]. split; [|exact H]. injection E as <-. vm_compute. reflexivity.
Defined.
