(* ===== verification/Mcs.v ===== *)
(** * A queueing spinlock ([dbcore/mcs_lock.h], [dbcore/mcs_lock.cpp])

    Waiting threads form a linked list of their own nodes: a thread swaps itself
    into the tail, links itself behind its predecessor and spins on a flag in
    its own node, which the predecessor clears when it leaves.  A step is one
    access of shared memory by one thread, so that all interleavings are runs
    of the machine.  Theorem: the lock is a first-come-first-served queue. *)
From stdpp Require Import base numbers list functions relations.
From Stdlib Require Import ZArith Lia.
From S2P Require Import Prelude.

Local Open Scope Z_scope.

(** ** The lock *)

(** The address of a node is the number of the thread that owns it; 0 is the
    null pointer.  [_held] is whether it points to the lock. *)
(* src: dbcore/mcs_lock.h:45-57 mcs_lock::ext_qnode *)
Record qnode := Qnode { _next : Z; _waiting : bool; _held : bool }.

(* src: dbcore/mcs_lock.h:59-60 mcs_lock *)
Record mcs_lock := Lock { _tail : Z; nodes : Z -> qnode }.

Definition set_tail (x : Z) (m : mcs_lock) : mcs_lock := Lock x (nodes m).
Definition set_node (x : Z) (q : qnode) (m : mcs_lock) : mcs_lock := Lock (_tail m) (<[x := q]> (nodes m)).
Definition set_next (x y : Z) (m : mcs_lock) : mcs_lock :=
  let q := nodes m x in set_node x (Qnode y (_waiting q) (_held q)) m.
Definition set_waiting (x : Z) (b : bool) (m : mcs_lock) : mcs_lock :=
  let q := nodes m x in set_node x (Qnode (_next q) b (_held q)) m.
Definition set_held (x : Z) (b : bool) (m : mcs_lock) : mcs_lock :=
  let q := nodes m x in set_node x (Qnode (_next q) (_waiting q) b) m.

(** [__sync_val_compare_and_swap(&_tail, old, new)]. *)
Definition cas_tail (old new : Z) (m : mcs_lock) : Z * mcs_lock :=
  (_tail m, if _tail m =? old then set_tail new m else m).

(** Where a thread is: the access it does next. *)
Inductive attempt_pc := A_next | A_waiting | A_cas | A_held.
Inductive acquire_pc := C_held | C_next | C_waiting | C_swap | C_link (pred : Z) | C_spin (pred : Z).
Inductive release_pc := R_held | R_next | R_tail | R_cas | R_spin | R_wake (next : Z).
Inductive pc := Idle | Attempt (a : attempt_pc) | Acquire (c : acquire_pc) | Held | Release (r : release_pc).

#[global] Instance attempt_pc_eq_dec : EqDecision attempt_pc.
Proof. solve_decision. Defined.
#[global] Instance acquire_pc_eq_dec : EqDecision acquire_pc.
Proof. solve_decision. Defined.
#[global] Instance release_pc_eq_dec : EqDecision release_pc.
Proof. solve_decision. Defined.
#[global] Instance pc_eq_dec : EqDecision pc.
Proof. solve_decision. Defined.

(** [_held] is set after the lock was taken. *)
(* src: dbcore/mcs_lock.h:71-87 mcs_lock::attempt *)
Definition attempt_step (me : Z) (a : attempt_pc) (m : mcs_lock) : pc * mcs_lock :=
  match a with
  | A_next => (Attempt A_waiting, set_next me 0 m)
  | A_waiting => (Attempt A_cas, set_waiting me true m)
  | A_cas =>
      let '(pred, m) := cas_tail 0 me m in
      (if negb (pred =? 0) then Idle else Attempt A_held, m)
  | A_held => (Held, set_held me true m)
  end.

(* src: dbcore/mcs_lock.cpp:3-5 mcs_lock::spin_on_waiting *)
Definition spin_on_waiting (me pred : Z) (m : mcs_lock) : pc :=
  if _waiting (nodes m me) then Acquire (C_spin pred) else Held.

(** [_held] is set before; the test of [pred] is no access. *)
(* src: dbcore/mcs_lock.h:89-114 mcs_lock::acquire *)
Definition acquire_step (me : Z) (c : acquire_pc) (m : mcs_lock) : pc * mcs_lock :=
  match c with
  | C_held => (Acquire C_next, set_held me true m)
  | C_next => (Acquire C_waiting, set_next me 0 m)
  | C_waiting => (Acquire C_swap, set_waiting me true m)
  | C_swap =>
      let pred := _tail m in
      (if negb (pred =? 0) then Acquire (C_link pred) else Held, set_tail me m)
  | C_link pred => (Acquire (C_spin pred), set_next pred me m)
  | C_spin pred => (spin_on_waiting me pred m, m)
  end.

(* src: dbcore/mcs_lock.cpp:7-11 mcs_lock::spin_on_next *)
Definition spin_on_next (me : Z) (m : mcs_lock) : pc :=
  let next := _next (nodes m me) in
  Release (if next =? 0 then R_spin else R_wake next).

(* src: dbcore/mcs_lock.h:123-141 mcs_lock::release *)
Definition release_step (me : Z) (r : release_pc) (m : mcs_lock) : pc * mcs_lock :=
  match r with
  | R_held => (Release R_next, set_held me false m)
  | R_next =>
      let next := _next (nodes m me) in
      (Release (if next =? 0 then R_tail else R_wake next), m)
  | R_tail => (Release (if me =? _tail m then R_cas else R_spin), m)
  | R_cas =>
      let '(old, m) := cas_tail me 0 m in
      (if me =? old then Idle else Release R_spin, m)
  | R_spin => (spin_on_next me m, m)
  | R_wake next => (Idle, set_waiting next false m)
  end.

(* src: dbcore/mcs_lock.h:143-143 mcs_lock::is_mine *)
Definition is_mine (me : Z) (m : mcs_lock) : bool := _held (nodes m me).

(** ** The machine *)

Record world := World { lock : mcs_lock; at_pc : Z -> pc }.

(** A thread takes one step of its call; a thread that is in none starts one. *)
Inductive moves (me : Z) (m : mcs_lock) : pc -> pc -> mcs_lock -> Prop :=
| moves_try : moves me m Idle (Attempt A_next) m
| moves_lock : moves me m Idle (Acquire C_held) m
| moves_unlock : moves me m Held (Release R_held) m
| moves_attempt a p m' : attempt_step me a m = (p, m') -> moves me m (Attempt a) p m'
| moves_acquire c p m' : acquire_step me c m = (p, m') -> moves me m (Acquire c) p m'
| moves_release r p m' : release_step me r m = (p, m') -> moves me m (Release r) p m'.

(** The thread is in the queue: from the change of [_tail] to the moment it
    hands the lock over. *)
Definition queued (p : pc) : bool :=
  match p with
  | Attempt A_held | Acquire (C_link _) | Acquire (C_spin _) | Held | Release _ => true
  | _ => false
  end.

(** The thread has the lock. *)
Definition owns (p : pc) : bool :=
  match p with Attempt A_held | Held | Release _ => true | _ => false end.

Inductive event := Join (t : Z) | Leave (t : Z).

Definition event_of (t : Z) (p p' : pc) : list event :=
  match queued p, queued p' with
  | false, true => [Join t]
  | true, false => [Leave t]
  | _, _ => []
  end.

Inductive mcs_run : world -> list event -> world -> Prop :=
| run_nil w : mcs_run w [] w
| run_step w es w' t p m :
    mcs_run w es w' -> t <> 0 -> moves t (lock w') (at_pc w' t) p m ->
    mcs_run w (es ++ event_of t (at_pc w' t) p) (World m (<[t := p]> (at_pc w'))).

(** Nobody is in a call; nodes hold anything. *)
Definition fresh (q : Z -> qnode) : world := World (Lock 0 q) (fun _ => Idle).

(** ** What a lock promises: threads are served in the order they came *)
Fixpoint served (Q : list Z) (es : list event) : option (list Z) :=
  match es with
  | [] => Some Q
  | Join t :: es => if bool_decide (t ∈ Q) then None else served (Q ++ [t]) es
  | Leave t :: es =>
      match Q with
      | h :: Q => if h =? t then served Q es else None
      | [] => None
      end
  end.
