(* ===== verification/McsSafe.v ===== *)
(** * The lock is a queue ([dbcore/mcs_lock.h])

    The nodes of the threads that are in a call form the queue of the lock; who
    has the lock is its head, and the links and flags are right up to the steps
    that are under way. *)
From stdpp Require Import base numbers list functions relations.
From Stdlib Require Import ZArith Lia.
From S2P Require Import Prelude Mcs.

Local Open Scope Z_scope.

(** ** Neighbours in a list *)

Definition adj (a b : Z) (Q : list Z) : Prop := exists i, Q !! i = Some a /\ Q !! S i = Some b.

Lemma adj_snoc a b Q t : adj a b (Q ++ [t]) <-> adj a b Q \/ last Q = Some a /\ b = t.
Proof.
  split.
  - intros (i & Ha & Hb). apply lookup_lt_Some in Hb as Hl. rewrite length_app in Hl. cbn in Hl.
    rewrite lookup_app_l in Ha by lia. destruct (decide (S i < length Q)%nat) as [H|H].
    + left. exists i. by rewrite lookup_app_l in Hb by lia.
    + right. assert (S i = length Q) as E by lia. rewrite E, list_lookup_middle in Hb by done. injection Hb as ->.
      split; [|done]. rewrite last_lookup. by replace (Nat.pred (length Q)) with i by lia.
  - intros [(i & Ha & Hb)|[Hl ->]].
    + exists i. split; by apply lookup_app_l_Some.
    + rewrite last_lookup in Hl. apply lookup_lt_Some in Hl as Hlt. exists (Nat.pred (length Q)).
      split; [by apply lookup_app_l_Some|]. apply list_lookup_middle. lia.
Qed.

Lemma adj_cons a b t Q : NoDup (t :: Q) -> adj a b Q <-> adj a b (t :: Q) /\ a <> t.
Proof.
  intros [Ht Hn]%NoDup_cons. split.
  - intros (i & Ha & Hb). split; [by exists (S i)|]. intros ->. apply Ht. by eapply list_elem_of_lookup_2.
  - intros [([|i] & Ha & Hb) Hne]; [cbn in Ha; congruence|by exists i].
Qed.

Lemma adj_fst a b Q : adj a b Q -> a ∈ Q.
Proof. intros (i & Ha & _). by eapply list_elem_of_lookup_2. Qed.
Lemma adj_snd a b Q : adj a b Q -> b ∈ Q.
Proof. intros (i & _ & Hb). by eapply list_elem_of_lookup_2. Qed.
Lemma adj_next a b c Q : NoDup Q -> adj a b Q -> adj a c Q -> b = c.
Proof.
  intros Hn (i & Ha & Hb) (j & Ha' & Hc). pose proof (NoDup_lookup _ _ _ _ Hn Ha Ha') as ->. congruence.
Qed.
Lemma adj_prev a b c Q : NoDup Q -> adj a c Q -> adj b c Q -> a = b.
Proof.
  intros Hn (i & Ha & Hc) (j & Hb & Hc'). pose proof (NoDup_lookup _ _ _ _ Hn Hc Hc') as [= ->]. congruence.
Qed.
Lemma adj_head a b Q : NoDup Q -> adj a b Q -> head Q <> Some b.
Proof.
  intros Hn (i & _ & Hb) H. rewrite head_lookup in H. by pose proof (NoDup_lookup _ _ _ _ Hn Hb H).
Qed.
Lemma adj_last a b Q : NoDup Q -> adj a b Q -> last Q <> Some a.
Proof.
  intros Hn (i & Ha & Hb) H. rewrite last_lookup in H. apply lookup_lt_Some in Hb.
  pose proof (NoDup_lookup _ _ _ _ Hn Ha H). lia.
Qed.
Lemma adj_irrefl a Q : NoDup Q -> ~ adj a a Q.
Proof. intros Hn (i & Ha & Hb). pose proof (NoDup_lookup _ _ _ _ Hn Ha Hb). lia. Qed.

(** A head that is not the last has a successor; an element that is not the
    head a predecessor. *)
Lemma head_adj t Q : head Q = Some t -> last Q <> Some t -> exists n R, Q = t :: n :: R /\ adj t n Q.
Proof.
  destruct Q as [|h [|n R]]; [done| |]; cbn.
  - congruence.
  - intros [= ->] _. exists n, R. split; [done|]. by exists 0%nat.
Qed.
Lemma elem_adj t Q : t ∈ Q -> head Q = Some t \/ exists a, adj a t Q.
Proof.
  intros [[|i] Hi]%list_elem_of_lookup; [left; by rewrite head_lookup|right].
  destruct (lookup_lt_is_Some_2 Q i) as [a Ha]; [apply lookup_lt_Some in Hi; lia|]. by exists a, i.
Qed.

(** ** The invariant *)

Section invariant.
Context (Q : list Z) (w : world).
Let q (t : Z) : qnode := nodes (lock w) t.

(** What a thread knows of its own node and of the queue. *)
Definition knows (t : Z) (p : pc) : Prop :=
  match p with
  | Attempt A_waiting | Attempt A_cas => _next (q t) = 0
  | Acquire C_waiting => _next (q t) = 0 /\ _held (q t) = true
  | Acquire C_swap => _next (q t) = 0 /\ _waiting (q t) = true /\ _held (q t) = true
  | Acquire C_next | Acquire (C_link _) | Acquire (C_spin _) | Held | Release R_held => _held (q t) = true
  | Release R_spin => last Q <> Some t
  | Release (R_wake n) => adj t n Q /\ _next (q t) = n
  | _ => True
  end.

(** [b] is behind [a], and has or has not linked itself there yet. *)
Definition linked (a b : Z) : Prop :=
  _waiting (q b) = true /\
  (at_pc w b = Acquire (C_link a) /\ _next (q a) = 0 \/ at_pc w b = Acquire (C_spin a) /\ _next (q a) = b).

Record queue_inv : Prop := {
  qi_nodup : NoDup Q;
  qi_in t : t ∈ Q <-> queued (at_pc w t) = true;
  qi_null : 0 ∉ Q;
  qi_tail : _tail (lock w) = default 0 (last Q);
  qi_head t : head Q = Some t ->
    owns (at_pc w t) = true \/ (exists p, at_pc w t = Acquire (C_spin p)) /\ _waiting (q t) = false;
  qi_links a b : adj a b Q -> linked a b;
  qi_last t : last Q = Some t -> _next (q t) = 0;
  qi_knows t : t <> 0 -> knows t (at_pc w t);
}.
End invariant.

Lemma queue_fresh q : queue_inv [] (fresh q).
Proof.
  split; try done; [constructor|..].
  - intros t. cbn. split; [by intros ?%elem_of_nil|done].
  - by intros ?%elem_of_nil.
  - by intros a b (i & Ha & _).
Qed.

(** ** Steps *)

Definition next_world (w : world) (t : Z) (p : pc) (m : mcs_lock) : world := World m (<[t := p]> (at_pc w)).

Section steps.
Context (Q : list Z) (w : world) (t : Z).
Hypothesis (Hi : queue_inv Q w) (Ht : t <> 0).
Notation m := (lock w).

Lemma pc_here p m' : at_pc (next_world w t p m') t = p.
Proof. apply fn_lookup_insert. Qed.
Lemma pc_other p m' x : x <> t -> at_pc (next_world w t p m') x = at_pc w x.
Proof. intros H. by apply fn_lookup_insert_ne. Qed.

(** Only the head has the lock. *)
Lemma owner_head x : owns (at_pc w x) = true -> head Q = Some x.
Proof.
  intros Ho. assert (x ∈ Q) as Hx by (apply Hi; by destruct (at_pc w x) as [|[]| | |]).
  destruct (elem_adj x Q Hx) as [|(a & Ha)]; [done|]. destruct (qi_links _ _ Hi _ _ Ha) as [_ [[E _]|[E _]]]; by rewrite E in Ho.
Qed.

(** A step that changes no more than the thread's own node. *)
Lemma step_local p m' :
  _tail m' = _tail m -> (forall x, x <> t -> nodes m' x = nodes m x) -> queued p = queued (at_pc w t) ->
  (t ∈ Q -> _next (nodes m' t) = _next (nodes m t) /\ _waiting (nodes m' t) = _waiting (nodes m t) /\
     (owns p = true /\ head Q = Some t \/ p = at_pc w t)) ->
  knows Q (next_world w t p m') t p -> queue_inv Q (next_world w t p m').
Proof.
  intros Htl Hoth Hq HQ Hk. pose proof Hi as [Hn Hin H0 Htail Hh Hl Hla Hkn].
  assert (forall x, x ∈ Q -> _next (nodes m' x) = _next (nodes m x) /\ _waiting (nodes m' x) = _waiting (nodes m x)) as Hsame.
  { intros x Hx. destruct (decide (x = t)) as [->|Hne]; [|by rewrite Hoth]. destruct (HQ Hx) as (? & ? & _). done. }
  split; [done| |done|by rewrite <- Htail| | | |].
  - intros x. destruct (decide (x = t)) as [->|Hne]; [rewrite pc_here, Hq|rewrite pc_other by done]; apply Hin.
  - intros x Hx. assert (x ∈ Q) as HxQ by (by apply head_Some_elem_of). cbn [lock next_world]. rewrite (proj2 (Hsame x HxQ)).
    destruct (decide (x = t)) as [->|Hne]; [|rewrite pc_other by done; by apply Hh].
    rewrite pc_here. destruct (HQ HxQ) as (_ & _ & [[? _]| ->]); [by left|by apply Hh].
  - intros a b Hab. unfold linked. cbn [lock next_world]. rewrite (proj1 (Hsame a (adj_fst _ _ _ Hab))), (proj2 (Hsame b (adj_snd _ _ _ Hab))).
    enough (at_pc (next_world w t p m') b = at_pc w b) as -> by (by apply Hl).
    destruct (decide (b = t)) as [->|Hne]; [|by apply pc_other]. rewrite pc_here.
    destruct (HQ (adj_snd _ _ _ Hab)) as (_ & _ & [[_ E]|E]); [by destruct (adj_head _ _ _ Hn Hab)|done].
  - intros x Hx. cbn [lock next_world]. rewrite (proj1 (Hsame x ltac:(by apply last_Some_elem_of))). by apply Hla.
  - intros x Hx. destruct (decide (x = t)) as [->|Hne]; [by rewrite pc_here|]. rewrite pc_other by done.
    specialize (Hkn x Hx). unfold knows in *. cbn [lock next_world]. by rewrite Hoth.
Qed.

(** The thread becomes the last of the queue. *)
Lemma step_join p :
  t ∉ Q -> _next (nodes m t) = 0 -> queued p = true ->
  (Q = [] -> owns p = true) -> (forall a, last Q = Some a -> p = Acquire (C_link a) /\ _waiting (nodes m t) = true) ->
  knows (Q ++ [t]) w t p -> queue_inv (Q ++ [t]) (next_world w t p (set_tail t m)).
Proof.
  intros HtQ Hnx Hq Hfst Hlst Hk. pose proof Hi as [Hn Hin H0 Htail Hh Hl Hla Hkn].
  split.
  - apply NoDup_app. split; [done|]. split; [|apply NoDup_singleton]. by intros x Hx ->%list_elem_of_singleton.
  - intros x. rewrite elem_of_app, list_elem_of_singleton. destruct (decide (x = t)) as [->|Hne]; [rewrite pc_here|rewrite pc_other by done].
    + rewrite Hq. tauto.
    + rewrite Hin. tauto.
  - rewrite elem_of_app, list_elem_of_singleton. naive_solver.
  - by rewrite last_snoc.
  - intros x Hx. destruct Q as [|h R].
    + cbn in Hx. injection Hx as <-. rewrite pc_here. left. auto.
    + cbn in Hx. injection Hx as ->. rewrite pc_other by (intros ->; apply HtQ; by left). by apply Hh.
  - intros a b [Hab|[Ha ->]]%adj_snoc.
    + pose proof (adj_snd _ _ _ Hab). unfold linked. rewrite pc_other by (intros ->; done). by apply Hl.
    + destruct (Hlst a Ha) as [-> Hw]. split; [done|]. left. rewrite pc_here. split; [done|]. by apply Hla.
  - intros x. rewrite last_snoc. by intros [= <-].
  - intros x Hx. destruct (decide (x = t)) as [->|Hne]; [by rewrite pc_here|]. rewrite pc_other by done.
    specialize (Hkn x Hx). unfold knows in *. cbn [lock next_world set_tail nodes]. destruct (at_pc w x) as [|[]|[]| |[]]; try done.
    + rewrite last_snoc. congruence.
    + by rewrite adj_snoc; destruct Hkn; auto.
Qed.

(** The thread links itself behind its predecessor. *)
Lemma step_link pred :
  at_pc w t = Acquire (C_link pred) -> queue_inv Q (next_world w t (Acquire (C_spin pred)) (set_next pred t m)).
Proof.
  intros Hp. pose proof Hi as [Hn Hin H0 Htail Hh Hl Hla Hkn].
  assert (adj pred t Q) as Hadj.
  { destruct (elem_adj t Q) as [H|(a & Ha)]; [apply Hin; by rewrite Hp| |].
    - destruct (Hh t H) as [E|[[p E] _]]; by rewrite Hp in E.
    - destruct (Hl _ _ Ha) as [_ [[E _]|[E _]]]; rewrite Hp in E; congruence. }
  assert (pred <> t) as Hne by (intros ->; by apply (adj_irrefl t Q)).
  assert (forall x, x <> pred -> nodes (set_next pred t m) x = nodes m x) as Hoth by (intros x Hx; by apply fn_lookup_insert_ne).
  assert (nodes (set_next pred t m) pred = Qnode t (_waiting (nodes m pred)) (_held (nodes m pred))) as Hpn by apply fn_lookup_insert.
  split; [done| |done|done| | | |].
  - intros x. destruct (decide (x = t)) as [->|Hx]; [rewrite pc_here|by rewrite pc_other by done].
    rewrite Hin, Hp. done.
  - intros x Hx. assert (x <> t) as Hxt by (intros ->; by apply (adj_head _ _ _ Hn Hadj)). rewrite pc_other by done.
    cbn [lock next_world]. destruct (decide (x = pred)) as [->|Hxp]; [rewrite Hpn|rewrite Hoth by done]; by apply Hh.
  - intros a b Hab. unfold linked. cbn [lock next_world]. destruct (Hl _ _ Hab) as [Hw Hor]. split.
    { destruct (decide (b = pred)) as [->|]; [by rewrite Hpn|by rewrite Hoth]. }
    destruct (decide (b = t)) as [->|Hb].
    + right. rewrite pc_here. assert (a = pred) as -> by (by apply (adj_prev a pred t Q)). by rewrite Hpn.
    + rewrite pc_other by done. rewrite Hoth; [done|]. intros ->. apply Hb. by apply (adj_next pred b t Q).
  - intros x Hx. cbn [lock next_world]. rewrite Hoth; [by apply Hla|]. intros ->. by apply (adj_last _ _ _ Hn Hadj).
  - intros x Hx. destruct (decide (x = t)) as [->|Hxt].
    + rewrite pc_here. specialize (Hkn t Ht). rewrite Hp in Hkn. unfold knows in *. cbn [lock next_world]. by rewrite Hoth.
    + rewrite pc_other by done. specialize (Hkn x Hx). unfold knows in *. cbn [lock next_world].
      destruct (decide (x = pred)) as [->|Hxp]; [|by rewrite Hoth]. rewrite Hpn.
      assert (pred ∈ Q) as HpQ%Hin by (by eapply adj_fst). destruct (Hl _ _ Hadj) as [_ [[_ E]|[E _]]]; [|by rewrite Hp in E].
      destruct (at_pc w pred) as [|[]|[]| |[]]; try done. destruct Hkn as [Hk1 Hk2]. split; [done|]. cbn. by apply (adj_next pred t next Q).
Qed.

(** Whoever else knows something of the queue has the lock. *)
Lemma knows_other Q' m' x : x <> t -> x <> 0 -> owns (at_pc w t) = true -> nodes m' x = nodes m x ->
  knows Q' (next_world w t Idle m') x (at_pc w x).
Proof.
  intros Hne Hx Ho Hm. pose proof (qi_knows _ _ Hi x Hx) as Hk.
  assert (owns (at_pc w x) = false) as Hf.
  { apply not_true_is_false. intros Hox. pose proof (owner_head _ Ho). pose proof (owner_head _ Hox). congruence. }
  unfold knows in *. cbn [lock next_world]. rewrite Hm. by destruct (at_pc w x) as [|[]|[]| |[]].
Qed.

(** The thread leaves an empty queue behind. *)
Lemma step_leave : Q = [t] -> owns (at_pc w t) = true -> queue_inv [] (next_world w t Idle (set_tail 0 m)).
Proof.
  intros HQ Ho. split; try done; [constructor| |by intros ?%elem_of_nil|by intros a b (i & Ha & _)|].
  - intros x. destruct (decide (x = t)) as [->|Hne]; [rewrite pc_here|rewrite pc_other by done].
    + split; [by intros ?%elem_of_nil|done].
    + rewrite <- (qi_in _ _ Hi x), HQ, list_elem_of_singleton, elem_of_nil. naive_solver.
  - intros x Hx. destruct (decide (x = t)) as [->|Hne]; [by rewrite pc_here|rewrite pc_other by done]. by apply knows_other.
Qed.

(** The thread hands the lock to the next one. *)
Lemma step_wake n :
  at_pc w t = Release (R_wake n) -> exists R, Q = t :: n :: R /\ queue_inv (n :: R) (next_world w t Idle (set_waiting n false m)).
Proof.
  intros Hp. pose proof Hi as [Hn Hin H0 Htail Hh Hl Hla Hkn]. pose proof (Hkn t Ht) as Hk. rewrite Hp in Hk. destruct Hk as [Hadj Hnx].
  assert (owns (at_pc w t) = true) as Ho by (by rewrite Hp).
  destruct (head_adj t Q (owner_head _ Ho) (adj_last _ _ _ Hn Hadj)) as (n' & R & HQ & Hadj').
  pose proof (adj_next _ _ _ _ Hn Hadj' Hadj) as ->. exists R. split; [done|]. pose proof Hn as Hn'. rewrite HQ in Hn'.
  apply NoDup_cons in Hn' as Hn2. destruct Hn2 as [HtR HnR].
  assert (n <> t) as Hnt by (intros ->; apply HtR; by left). assert (head (n :: R) = Some n) as Hhd by done.
  assert (forall x, nodes (set_waiting n false m) x = nodes m x \/ x = n) as Hoth.
  { intros x. destruct (decide (x = n)); [by right|left]. by apply fn_lookup_insert_ne. }
  assert (nodes (set_waiting n false m) n = Qnode (_next (nodes m n)) false (_held (nodes m n))) as Hnn by apply fn_lookup_insert.
  assert (at_pc w n = Acquire (C_spin t)) as Hpn.
  { destruct (Hl _ _ Hadj) as [_ [[_ E]|[E _]]]; [|done]. apply adj_snd in Hadj. destruct H0. by rewrite <- E, Hnx. }
  assert (forall a b, adj a b (n :: R) -> adj a b Q) as Hsub by (intros a b Hab; rewrite HQ; by apply (adj_cons a b t (n :: R) Hn')).
  split.
  - done.
  - intros x. destruct (decide (x = t)) as [->|Hne]; [rewrite pc_here; by split|rewrite pc_other by done].
    rewrite <- Hin, HQ, (elem_of_cons _ x t). tauto.
  - intros H. apply H0. rewrite HQ. by right.
  - cbn [lock next_world _tail set_waiting set_node]. rewrite Htail, HQ. done.
  - intros x. rewrite Hhd. intros [= <-]. right. rewrite pc_other by done. cbn [lock next_world]. rewrite Hnn. split; [by eexists|done].
  - intros a b Hab. assert (b <> n) as Hb by (intros ->; by apply (adj_head _ _ _ HnR Hab)).
    assert (b <> t) as Hbt by (intros ->; apply HtR; by eapply adj_snd). unfold linked. rewrite pc_other by done.
    cbn [lock next_world]. destruct (Hoth b) as [->|]; [|done].
    assert (_next (nodes (set_waiting n false m) a) = _next (nodes m a)) as -> by (destruct (Hoth a) as [->| ->]; [done|by rewrite Hnn]).
    by apply Hl, Hsub.
  - intros x Hx. cbn [lock next_world].
    assert (_next (nodes (set_waiting n false m) x) = _next (nodes m x)) as -> by (destruct (Hoth x) as [->| ->]; [done|by rewrite Hnn]).
    apply Hla. by rewrite HQ.
  - intros x Hx. destruct (decide (x = t)) as [->|Hne]; [by rewrite pc_here|rewrite pc_other by done].
    destruct (Hoth x) as [E| ->]; [by apply knows_other|]. rewrite Hpn. pose proof (Hkn n Hx) as Hk. rewrite Hpn in Hk.
    unfold knows in *. cbn [lock next_world]. by rewrite Hnn.
Qed.
End steps.

Lemma node_here x q m : nodes (set_node x q m) x = q.
Proof. apply fn_lookup_insert. Qed.
Lemma node_other x q m y : y <> x -> nodes (set_node x q m) y = nodes m y.
Proof. intros H. by apply fn_lookup_insert_ne. Qed.

Ltac node := cbn [knows lock next_world]; unfold set_next, set_waiting, set_held; rewrite ?node_here.

Section machine.
Context (Q : list Z) (w : world) (t : Z).
Hypothesis (Hi : queue_inv Q w) (Ht : t <> 0).
Notation m := (lock w).
Notation p0 := (at_pc w t).

Lemma tail_empty : _tail m = 0 <-> Q = [].
Proof.
  rewrite (qi_tail _ _ Hi). split; [|by intros ->]. destruct (last Q) as [x|] eqn:E; [|by apply last_None in E].
  cbn. intros ->. apply last_Some_elem_of in E. by destruct (qi_null _ _ Hi).
Qed.

Lemma tail_last x : x <> 0 -> _tail m = x <-> last Q = Some x.
Proof.
  intros Hx. rewrite (qi_tail _ _ Hi). split; [|by intros ->]. destruct (last Q); cbn; congruence.
Qed.

Definition follows (p : pc) (m' : mcs_lock) : Prop :=
  exists Q', served Q (event_of t p0 p) = Some Q' /\ queue_inv Q' (next_world w t p m').

(** Before the thread joins, and while it has the lock. *)
Lemma follows_outside p q : queued p0 = false -> queued p = false -> knows Q (next_world w t p (set_node t q m)) t p ->
  follows p (set_node t q m).
Proof.
  intros H1 H2 Hk. exists Q. unfold event_of. rewrite H1, H2. split; [done|]. apply step_local; try done.
  - intros x Hx. by apply node_other.
  - by rewrite H1, H2.
  - intros Hin%(qi_in _ _ Hi). congruence.
Qed.

Lemma follows_outside_pure p : queued p0 = false -> queued p = false -> knows Q (next_world w t p m) t p -> follows p m.
Proof.
  intros H1 H2 Hk. exists Q. unfold event_of. rewrite H1, H2. split; [done|]. apply step_local; try done.
  - by rewrite H1, H2.
  - intros Hin%(qi_in _ _ Hi). congruence.
Qed.

Lemma owns_queued p : owns p = true -> queued p = true.
Proof. by destruct p as [|[]|[]| |]. Qed.

Lemma follows_owner p m' : queued p0 = true -> head Q = Some t -> owns p = true -> _tail m' = _tail m ->
  (forall x, x <> t -> nodes m' x = nodes m x) -> _next (nodes m' t) = _next (nodes m t) ->
  _waiting (nodes m' t) = _waiting (nodes m t) -> knows Q (next_world w t p m') t p -> follows p m'.
Proof.
  intros H1 Hh H2 Htl Hoth Hx Hw Hk. exists Q. unfold event_of. rewrite H1, (owns_queued p) by done. split; [done|].
  apply step_local; try done; [by rewrite H1, owns_queued|]. intros _. auto.
Qed.

Lemma follows_join p : queued p0 = false -> _next (nodes m t) = 0 -> queued p = true ->
  (Q = [] -> owns p = true) -> (forall a, last Q = Some a -> p = Acquire (C_link a) /\ _waiting (nodes m t) = true) ->
  knows (Q ++ [t]) w t p -> follows p (set_tail t m).
Proof.
  intros H1 Hx H2 Hf Hl Hk. assert (t ∉ Q) as HtQ by (rewrite (qi_in _ _ Hi); congruence).
  exists (Q ++ [t]). split; [|by apply step_join]. unfold event_of. rewrite H1, H2. cbn. by rewrite bool_decide_false.
Qed.

Lemma attempt_follows a p m' : p0 = Attempt a -> attempt_step t a m = (p, m') -> follows p m'.
Proof.
  intros Hp E. pose proof (qi_knows _ _ Hi t Ht) as Hk. rewrite Hp in Hk.
  destruct a; cbn [attempt_step cas_tail knows] in E, Hk; injection E as <- <-.
  - apply follows_outside; [by rewrite Hp|done|]. by node.
  - apply follows_outside; [by rewrite Hp|done|]. by node.
  - destruct (Z.eqb_spec (_tail m) 0) as [Hz|Hz]; cbn [negb].
    + apply tail_empty in Hz. apply follows_join; try done; [by rewrite Hp|]. by rewrite Hz.
    + apply follows_outside_pure; by rewrite ?Hp.
  - apply follows_owner; try done; try (by rewrite Hp).
    + apply (owner_head Q w Hi). by rewrite Hp.
    + intros x Hx. by apply node_other.
    + by node.
    + by node.
    + by node.
Qed.

Lemma acquire_follows c p m' : p0 = Acquire c -> acquire_step t c m = (p, m') -> follows p m'.
Proof.
  intros Hp E. pose proof (qi_knows _ _ Hi t Ht) as Hk. rewrite Hp in Hk.
  destruct c; cbn [acquire_step knows] in E, Hk; injection E as <- <-.
  - apply follows_outside; [by rewrite Hp|done|]. by node.
  - apply follows_outside; [by rewrite Hp|done|]. by node.
  - apply follows_outside; [by rewrite Hp|done|]. node. naive_solver.
  - destruct Hk as (K1 & K2 & K3). destruct (Z.eqb_spec (_tail m) 0) as [Hz|Hz]; cbn [negb].
    + apply tail_empty in Hz. apply follows_join; try done; [by rewrite Hp|]. by rewrite Hz.
    + apply follows_join; try done; [by rewrite Hp|by intros ?%tail_empty|]. intros a Ha.
      split; [|done]. by rewrite (qi_tail _ _ Hi), Ha.
  - exists Q. unfold event_of. rewrite Hp. split; [done|]. by apply step_link.
  - unfold spin_on_waiting. destruct (_waiting (nodes m t)) eqn:Hw.
    + exists Q. unfold event_of. rewrite Hp. split; [done|]. apply step_local; try done; [by rewrite Hp|by rewrite Hp; auto].
    + apply follows_owner; try done; [by rewrite Hp|]. destruct (elem_adj t Q) as [H|(a & Ha)]; [apply Hi; by rewrite Hp|done|].
      destruct (qi_links _ _ Hi _ _ Ha) as [Hw' _]. congruence.
Qed.

Lemma release_follows r p m' : p0 = Release r -> release_step t r m = (p, m') -> follows p m'.
Proof.
  intros Hp E. pose proof (qi_knows _ _ Hi t Ht) as Hk. rewrite Hp in Hk.
  assert (owns p0 = true) as Ho by (by rewrite Hp). pose proof (owner_head Q w Hi t Ho) as Hh.
  assert (queued p0 = true) as Hq by (by rewrite Hp).
  assert (_next (nodes m t) <> 0 -> adj t (_next (nodes m t)) Q) as Hnext.
  { intros Hx. destruct (head_adj t Q Hh) as (n & R & HQ & Hadj); [by intros ?%(qi_last _ _ Hi)|].
    destruct (qi_links _ _ Hi _ _ Hadj) as [_ [[_ ?]|[_ ->]]]; done. }
  destruct r; cbn [release_step cas_tail knows] in E, Hk; injection E as <- <-.
  - apply follows_owner; try done; [intros x Hx; by apply node_other|by node..].
  - apply follows_owner; try done. cbn [knows lock next_world]. destruct (Z.eqb_spec (_next (nodes m t)) 0); [done|]. auto.
  - apply follows_owner; try done. destruct (Z.eqb_spec t (_tail m)) as [E|E]; [done|]. cbn [knows]. intros H%tail_last; done.
  - destruct (Z.eqb_spec (_tail m) t) as [E|E].
    + rewrite E, Z.eqb_refl. apply tail_last in E; [|done]. assert (Q = [t]) as HQ.
      { destruct (decide (Q = [t])) as [|Hne]; [done|]. destruct Q as [|h [|n R]]; cbn in Hh, E; [done|congruence|].
        injection Hh as ->. pose proof (qi_nodup _ _ Hi) as [Hn _]%NoDup_cons. destruct Hn. by apply last_Some_elem_of. }
      exists []. split; [|by apply (step_leave Q)]. unfold event_of. rewrite Hq, HQ. cbn. by rewrite Z.eqb_refl.
    + destruct (Z.eqb_spec t (_tail m)); [done|]. apply follows_owner; try done. cbn [knows]. intros H%tail_last; done.
  - apply follows_owner; try done. unfold spin_on_next. cbn [knows lock next_world]. destruct (Z.eqb_spec (_next (nodes m t)) 0); [done|]. auto.
  - destruct (step_wake Q w t Hi Ht next Hp) as (R & HQ & HR). exists (next :: R). split; [|done].
    unfold event_of. rewrite Hq, HQ. cbn. by rewrite Z.eqb_refl.
Qed.

Lemma moves_follow p m' : moves t m p0 p m' -> follows p m'.
Proof.
  intros H. pose proof (qi_knows _ _ Hi t Ht) as Hk. inversion H as [E|E|E|a ? ? E1 E|c ? ? E1 E|r ? ? E1 E]; subst.
  - apply follows_outside_pure; by rewrite <- ?E.
  - apply follows_outside_pure; by rewrite <- ?E.
  - rewrite <- E in Hk. apply follows_owner; try done; [by rewrite <- E|apply (owner_head Q w Hi); by rewrite <- E].
  - by eapply attempt_follows.
  - by eapply acquire_follows.
  - by eapply release_follows.
Qed.
End machine.

(** ** Runs *)

Lemma served_app es es' : forall Q, served Q (es ++ es') = served Q es ≫= fun Q' => served Q' es'.
Proof.
  induction es as [|[t|t] es IH]; intros Q; [done| |]; cbn.
  - by destruct (bool_decide _).
  - destruct Q as [|h Q]; [done|]. by destruct (h =? t).
Qed.

Lemma run_inv q es w : mcs_run (fresh q) es w -> exists Q, served [] es = Some Q /\ queue_inv Q w.
Proof.
  intros H. remember (fresh q) as w0 eqn:E. induction H as [|w es w' t p m H IH Ht Hm]; subst.
  - exists []. split; [done|apply queue_fresh].
  - destruct (IH eq_refl) as (Q & HQ & Hi). destruct (moves_follow Q w' t Hi Ht p m Hm) as (Q' & HQ' & Hi').
    exists Q'. split; [|done]. by rewrite served_app, HQ.
Qed.

(** How many accesses a call has left, not counting turns of its loops. *)
Definition rank (p : pc) : nat :=
  match p with
  | Attempt A_next => 13 | Attempt A_waiting => 12 | Attempt A_cas => 11 | Attempt A_held => 9
  | Acquire C_held => 14 | Acquire C_next => 13 | Acquire C_waiting => 12 | Acquire C_swap => 11
  | Acquire (C_link _) => 10 | Acquire (C_spin _) => 9
  | Held => 8
  | Release R_held => 7 | Release R_next => 6 | Release R_tail => 5 | Release R_cas => 4 | Release R_spin => 3
  | Release (R_wake _) => 2
  | Idle => 0
  end.

(** The thread's next access ends a loop or is in none. *)
Definition advances (w : world) (t : Z) : Prop :=
  exists p m, moves t (lock w) (at_pc w t) p m /\ (rank p < rank (at_pc w t))%nat.

Lemma moves_rank t m p p' m' : moves t m p p' m' -> p <> Idle -> (rank p' <= rank p)%nat.
Proof.
  intros [| | |a q n E|c q n E|r q n E] Hp; try done; [cbn; lia|..].
  - destruct a; cbn in E; injection E as <- <-; try (cbn; lia). destruct (_ =? _); cbn; lia.
  - destruct c; cbn in E; injection E as <- <-; try (cbn; lia).
    + destruct (_ =? _); cbn; lia.
    + unfold spin_on_waiting. destruct (_waiting _); cbn; lia.
  - destruct r; cbn in E; injection E as <- <-; unfold spin_on_next; try destruct (_ =? _); cbn; lia.
Qed.

Lemma somebody_advances Q w : queue_inv Q w -> Q <> [] -> exists t, t ∈ Q /\ (at_pc w t = Held \/ advances w t).
Proof.
  intros Hi HQ. destruct (head Q) as [h|] eqn:Hh; [|by destruct Q]. assert (h ∈ Q) as HhQ by (by apply head_Some_elem_of).
  destruct (qi_head _ _ Hi h Hh) as [Ho|[[p Hp] Hw]].
  2:{ exists h. split; [done|]. right. eexists _, _. rewrite Hp. split; [by constructor|]. unfold spin_on_waiting. rewrite Hw. cbn. lia. }
  destruct (decide (at_pc w h = Release R_spin /\ _next (nodes (lock w) h) = 0)) as [[Hp Hx]|Hno].
  - assert (h <> 0) as H0 by (intros ->; by destruct (qi_null _ _ Hi)).
    pose proof (qi_knows _ _ Hi h H0) as Hk. rewrite Hp in Hk. destruct (head_adj h Q Hh Hk) as (n & R & _ & Hadj).
    exists n. split; [by eapply adj_snd|]. right. destruct (qi_links _ _ Hi _ _ Hadj) as [_ [[E _]|[_ E]]].
    + eexists _, _. rewrite E. split; [by constructor|]. cbn. lia.
    + apply adj_snd in Hadj. destruct (qi_null _ _ Hi). by rewrite <- Hx, E.
  - exists h. split; [done|]. destruct (at_pc w h) as [|[]| | |r] eqn:Hp; try done; [right|by left|right].
    + eexists _, _. rewrite Hp. split; [by constructor|]. cbn. lia.
    + eexists _, _. rewrite Hp. split; [constructor; apply surjective_pairing|]. destruct r; cbn; unfold spin_on_next.
      all: try destruct (Z.eqb_spec (_next (nodes (lock w) h)) 0); try destruct (_ =? _); cbn; try lia. naive_solver.
Qed.

(** C22: in every interleaving of the accesses of any number of
    threads, the lock serves them in the order of their changes of the tail:
    the thread that has it is the earliest of those that joined and did not
    leave -- so there is at most one --, and its node says so.  While anybody
    waits, some thread of the queue is in its critical section or can leave the
    loop it is in; no step goes back in a call, so nobody is stuck for good. *)
Theorem mcs_lock_correct q es w :
  mcs_run (fresh q) es w ->
  exists Q, served [] es = Some Q /\ (forall t, t ∈ Q <-> queued (at_pc w t) = true) /\
    (forall t, owns (at_pc w t) = true -> head Q = Some t) /\
    (forall t, at_pc w t = Held -> is_mine t (lock w) = true) /\
    (Q <> [] -> exists t, t ∈ Q /\ (at_pc w t = Held \/ advances w t)) /\
    (forall t p m, at_pc w t <> Idle -> moves t (lock w) (at_pc w t) p m -> (rank p <= rank (at_pc w t))%nat).
Proof.
  intros (Q & HQ & Hi)%run_inv. exists Q. split; [done|]. split_and!.
  - apply Hi.
  - by apply owner_head.
  - intros t Hp. assert (t <> 0) as Ht.
    { intros ->. apply (qi_null _ _ Hi), Hi. by rewrite Hp. }
    pose proof (qi_knows _ _ Hi t Ht) as Hk. by rewrite Hp in Hk.
  - by apply somebody_advances.
  - intros t p m Hp Hm. by eapply moves_rank.
Qed.

(** ** A run *)
Module McsExample.

(** The step of a thread that locks and unlocks again and again. *)
Definition turn (t : Z) (w : world) : pc * mcs_lock :=
  match at_pc w t with
  | Idle => (Acquire C_held, lock w)
  | Held => (Release R_held, lock w)
  | Attempt a => attempt_step t a (lock w)
  | Acquire c => acquire_step t c (lock w)
  | Release r => release_step t r (lock w)
  end.

Fixpoint play (ts : list Z) (es : list event) (w : world) : list event * world :=
  match ts with
  | [] => (es, w)
  | t :: ts => play ts (es ++ event_of t (at_pc w t) (fst (turn t w))) (next_world w t (fst (turn t w)) (snd (turn t w)))
  end.

Lemma play_run w0 ts : Forall (fun t => t <> 0) ts -> forall es w,
  mcs_run w0 es w -> mcs_run w0 (fst (play ts es w)) (snd (play ts es w)).
Proof.
  induction 1 as [|t ts Ht Hts IH]; intros es w Hr; [done|]. cbn [play]. apply IH. apply run_step; [done|done|].
  unfold turn. destruct (at_pc w t); constructor; apply surjective_pairing.
Qed.

(** Thread 1 takes the lock, thread 2 queues up, thread 1 hands over. *)
Definition schedule : list Z := [1; 1; 1; 1; 1; 2; 2; 2; 2; 2; 2; 2; 1; 1; 1; 1; 2].
Definition final : list event * world := play schedule [] (fresh (fun _ => Qnode 7 false false)).

Lemma mcs_lock_correct_witness :
  fst final = [Join 1; Join 2; Leave 1] /\ at_pc (snd final) 2 = Held /\ is_mine 2 (lock (snd final)) = true /\
  exists Q, served [] (fst final) = Some Q /\ head Q = Some 2.
Proof.
  destruct (mcs_lock_correct (fun _ => Qnode 7 false false) (fst final) (snd final)) as (Q & HQ & _ & Hh & Hm & _).
  - apply play_run; [repeat (constructor; [lia|]); constructor|constructor].
  - split; [vm_compute; reflexivity|]. split; [vm_compute; reflexivity|]. split; [apply Hm; vm_compute; reflexivity|].
    exists Q. split; [exact HQ|]. apply Hh. vm_compute. reflexivity.
Defined.
End McsExample.
