(* ===== verification/Bytes.v ===== *)
(** * Byte-addressed memory

    What the log writes is read back byte by byte -- by checksums, by the
    disk, by recovery -- so its blocks are modelled as bytes.  A memory maps
    addresses to bytes; integers are stored little-endian, as on x86. *)
From stdpp Require Import base numbers list.
From Stdlib Require Import ZArith Lia.
From S2P Require Import Prelude Adler.

Local Open Scope Z_scope.

Definition mem8 : Type := Z -> Z.

(** The [n] bytes at [a]. *)
Definition get (m : mem8) (a n : Z) : list Z := (fun i => m (a + i)) <$> seqZ 0 n.

(** Storing the bytes [l] at [a]. *)
Definition put (m : mem8) (a : Z) (l : list Z) : mem8 := fun x =>
  if (a <=? x) && (x <? a + len l) then nth (Z.to_nat (x - a)) l 0 else m x.

Fixpoint le_bytes (n : nat) (v : Z) : list Z :=
  match n with O => [] | S n => v mod 256 :: le_bytes n (v / 256) end.

Fixpoint le_value (l : list Z) : Z :=
  match l with [] => 0 | d :: l => d + 256 * le_value l end.

(** Loads and stores of unsigned integers of [n] bytes. *)
Definition rd (n : nat) (m : mem8) (a : Z) : Z := le_value (get m a (Z.of_nat n)).
Definition wr (n : nat) (m : mem8) (a v : Z) : mem8 := put m a (le_bytes n v).

(** Every address holds a byte. *)
Definition wf8 (m : mem8) : Prop := forall a, 0 <= m a < 256.

(** ** Laws *)

Lemma len_get m a n : 0 <= n -> len (get m a n) = n.
Proof. intros. unfold len, get. rewrite length_fmap, length_seqZ. lia. Qed.

Lemma get_nil m a : get m a 0 = [].
Proof. done. Qed.

Lemma get_app m a n k : 0 <= n -> 0 <= k -> get m a (n + k) = get m a n ++ get m (a + n) k.
Proof.
  intros Hn Hk. unfold get. rewrite seqZ_app by lia. rewrite fmap_app. f_equal.
  replace (0 + n) with (0 + n) by lia.
  apply list_eq. intros i. rewrite !list_lookup_fmap.
  destruct (decide (Z.of_nat i < k)).
  - rewrite !lookup_seqZ_lt by lia. cbn. do 2 f_equal. lia.
  - rewrite !lookup_seqZ_ge by lia. done.
Qed.

Lemma get_ext m m' a n : (forall x, a <= x < a + n -> m x = m' x) -> get m a n = get m' a n.
Proof.
  intros H. unfold get. apply list_fmap_ext. intros i x Hx%list_elem_of_lookup_2.
  apply elem_of_seqZ in Hx. apply H. lia.
Qed.

Lemma bytes_get m a n : wf8 m -> bytes (get m a n).
Proof. intros H. apply Forall_fmap, Forall_forall. intros x _. apply H. Qed.

Lemma put_out m a l x : x < a \/ a + len l <= x -> put m a l x = m x.
Proof. intros H. unfold put. destruct (Z.leb_spec a x), (Z.ltb_spec x (a + len l)); done || lia. Qed.

Lemma put_in m a l x : a <= x < a + len l -> put m a l x = nth (Z.to_nat (x - a)) l 0.
Proof. intros H. unfold put. destruct (Z.leb_spec a x), (Z.ltb_spec x (a + len l)); done || lia. Qed.

Lemma get_put_same m a l : get (put m a l) a (len l) = l.
Proof.
  apply list_eq. intros i. unfold get. rewrite list_lookup_fmap.
  destruct (decide (i < length l)%nat) as [Hi|Hi].
  - rewrite lookup_seqZ_lt by (unfold len; lia). cbn. rewrite put_in by (unfold len; lia).
    replace (Z.to_nat (a + (0 + Z.of_nat i) - a)) with i by lia.
    rewrite nth_lookup. destruct (lookup_lt_is_Some_2 l i Hi) as [x ->]. done.
  - rewrite lookup_seqZ_ge by (unfold len; lia). by rewrite lookup_ge_None_2 by lia.
Qed.

Lemma get_put_out m a l b n : b + n <= a \/ a + len l <= b -> get (put m a l) b n = get m b n.
Proof. intros H. apply get_ext. intros x Hx. apply put_out. lia. Qed.

Lemma len_le n v : len (le_bytes n v) = Z.of_nat n.
Proof. revert v. induction n as [|n IH]; intros v; [done|]. cbn [le_bytes]. rewrite len_cons, IH. lia. Qed.

Lemma bytes_le n v : bytes (le_bytes n v).
Proof.
  revert v. induction n as [|n IH]; intros v; [by apply Forall_nil|]. apply Forall_cons. split; [|apply IH].
  apply Z.mod_pos_bound. lia.
Qed.

Lemma le_value_bytes n v : le_value (le_bytes n v) = wrap (8 * Z.of_nat n) v.
Proof.
  revert v. induction n as [|n IH]; intros v.
  - unfold wrap. change (2 ^ (8 * Z.of_nat 0)) with 1. by rewrite Z.mod_1_r.
  - cbn [le_bytes le_value]. rewrite IH. unfold wrap.
    replace (8 * Z.of_nat (S n)) with (8 + 8 * Z.of_nat n) by lia. rewrite Z.pow_add_r by lia.
    change (2 ^ 8) with 256. pose proof (Z.pow_pos_nonneg 2 (8 * Z.of_nat n) ltac:(lia) ltac:(lia)).
    rewrite Z.rem_mul_r by lia. lia.
Qed.

Lemma le_value_fits l : bytes l -> fits (8 * len l) (le_value l).
Proof.
  induction 1 as [|d l Hd Hl IH]; [by split|]. rewrite len_cons. cbn [le_value].
  unfold fits in *. pose proof (len_nonneg l). replace (8 * (len l + 1)) with (8 + 8 * len l) by lia.
  rewrite Z.pow_add_r by lia. change (2 ^ 8) with 256. lia.
Qed.

Lemma le_bytes_value l : bytes l -> le_bytes (length l) (le_value l) = l.
Proof.
  induction 1 as [|d l Hd Hl IH]; [done|]. cbn [length le_bytes le_value].
  rewrite (Z.mul_comm 256), Z.mod_add, Z.div_add by lia.
  rewrite Z.mod_small, Z.div_small by lia. by rewrite Z.add_0_l, IH.
Qed.

Lemma rd_wr_same n m a v : rd n (wr n m a v) a = wrap (8 * Z.of_nat n) v.
Proof.
  unfold rd, wr. rewrite <- (len_le n v) at 1. by rewrite get_put_same, le_value_bytes.
Qed.

Lemma rd_put_out n m a l b : b + Z.of_nat n <= a \/ a + len l <= b -> rd n (put m a l) b = rd n m b.
Proof. intros. unfold rd. by rewrite get_put_out. Qed.

Lemma rd_wr_out n k m a v b : b + Z.of_nat n <= a \/ a + Z.of_nat k <= b -> rd n (wr k m a v) b = rd n m b.
Proof. intros. apply rd_put_out. by rewrite len_le. Qed.

Lemma get_wr_out k m a v b n : b + n <= a \/ a + Z.of_nat k <= b -> get (wr k m a v) b n = get m b n.
Proof. intros. apply get_put_out. by rewrite len_le. Qed.

Lemma wf8_put m a l : wf8 m -> bytes l -> wf8 (put m a l).
Proof.
  intros Hm Hl x. unfold put. destruct ((a <=? x) && (x <? a + len l)) eqn:E; [|apply Hm].
  apply andb_true_iff in E as [H1%Z.leb_le H2%Z.ltb_lt]. unfold bytes in Hl.
  rewrite (Forall_nth _ 0) in Hl. apply Hl. unfold len in H2. lia.
Qed.

Lemma wf8_wr n m a v : wf8 m -> wf8 (wr n m a v).
Proof. intros. apply wf8_put; [done|apply bytes_le]. Qed.

Lemma rd_fits n m a : wf8 m -> fits (8 * Z.of_nat n) (rd n m a).
Proof.
  intros H. unfold rd. pose proof (le_value_fits _ (bytes_get m a (Z.of_nat n) H)) as F.
  by rewrite len_get in F by lia.
Qed.

(** Disjoint address ranges. *)
Definition apart (a n b k : Z) : Prop := a + n <= b \/ b + k <= a.

Create HintDb bytes.
#[export] Hint Resolve wf8_wr wf8_put bytes_le bytes_get : bytes.

(** Sends a load past the stores that do not touch it. *)
Ltac frame :=
  repeat match goal with
    | |- context [get (wr ?k ?m ?a ?v) ?b ?n] => rewrite (get_wr_out k m a v b n) by lia
    | |- context [get (put ?m ?a ?l) ?b ?n] => rewrite (get_put_out m a l b n) by lia
    | |- context [rd ?n (wr ?k ?m ?a ?v) ?b] => rewrite (rd_wr_out n k m a v b) by lia
    | |- context [rd ?n (put ?m ?a ?l) ?b] => rewrite (rd_put_out n m a l b) by lia
    end.
