(* ===== verification/LogBlock.v ===== *)
(** * Log blocks ([dbcore/sm-log-defs.h])

    The layout of log records and log blocks in memory and on disk: a header
    of 16 bytes, [nrec] records and a skip record of 16 bytes each, then the
    payloads, packed.  A block is given by the memory and its address. *)
From stdpp Require Import base numbers list.
From Stdlib Require Import ZArith Lia.
From S2P Require Import Prelude FatPtr SizeEncode Adler Bytes.

Local Open Scope Z_scope.

(* src: dbcore/sm-log-defs.h:75-79 LOG_FLAG_HAS_PAYLOAD *)
Definition LOG_FLAG_HAS_PAYLOAD : Z := 0x80.
(* src: dbcore/sm-log-defs.h:81-87 LOG_FLAG_IS_EXT *)
Definition LOG_FLAG_IS_EXT : Z := 0x40.
(* src: dbcore/sm-log-defs.h:89-94 LOG_FLAG_HAS_LSN *)
Definition LOG_FLAG_HAS_LSN : Z := 0x20.

(* src: dbcore/sm-log-defs.h:97-101 LOG_NOP *)
Definition LOG_NOP : Z := 0.
(* src: dbcore/sm-log-defs.h:103-107 LOG_COMMENT *)
Definition LOG_COMMENT : Z := Z.lor LOG_NOP LOG_FLAG_HAS_PAYLOAD.
(* src: dbcore/sm-log-defs.h:109-114 LOG_INSERT *)
Definition LOG_INSERT : Z := Z.lor LOG_FLAG_HAS_PAYLOAD 1.
(* src: dbcore/sm-log-defs.h:115-115 LOG_INSERT_EXT *)
Definition LOG_INSERT_EXT : Z := Z.lor LOG_FLAG_IS_EXT LOG_INSERT.
(* src: dbcore/sm-log-defs.h:116-116 LOG_INSERT_INDEX *)
Definition LOG_INSERT_INDEX : Z := Z.lor LOG_FLAG_HAS_PAYLOAD 2.
(* src: dbcore/sm-log-defs.h:118-119 LOG_UPDATE *)
Definition LOG_UPDATE : Z := Z.lor LOG_FLAG_HAS_PAYLOAD 3.
(* src: dbcore/sm-log-defs.h:120-120 LOG_UPDATE_EXT *)
Definition LOG_UPDATE_EXT : Z := Z.lor LOG_FLAG_IS_EXT LOG_UPDATE.
(* src: dbcore/sm-log-defs.h:122-123 LOG_DELETE *)
Definition LOG_DELETE : Z := 4.
(* src: dbcore/sm-log-defs.h:125-130 LOG_RELOCATE *)
Definition LOG_RELOCATE : Z := Z.lor (Z.lor LOG_FLAG_HAS_PAYLOAD LOG_FLAG_IS_EXT) 5.
(* src: dbcore/sm-log-defs.h:132-136 LOG_OVERFLOW *)
Definition LOG_OVERFLOW : Z := Z.lor LOG_FLAG_HAS_LSN 6.
(* src: dbcore/sm-log-defs.h:138-141 LOG_SKIP *)
Definition LOG_SKIP : Z := Z.lor LOG_FLAG_HAS_LSN 7.
(* src: dbcore/sm-log-defs.h:143-147 LOG_FAT_SKIP *)
Definition LOG_FAT_SKIP : Z := Z.lor LOG_SKIP LOG_FLAG_HAS_PAYLOAD.
(* src: dbcore/sm-log-defs.h:149-151 LOG_CHKPT *)
Definition LOG_CHKPT : Z := Z.lor LOG_FLAG_HAS_PAYLOAD 8.
(* src: dbcore/sm-log-defs.h:153-156 LOG_FID *)
Definition LOG_FID : Z := Z.lor LOG_FLAG_HAS_PAYLOAD 9.

Definition flagged (type flag : Z) : bool := negb (Z.land type flag =? 0).

(** The fields of a [log_record], 16 bytes: type, size code, alignment,
    payload end, and a union of an LSN and an FID with an OID. *)
Module log_record.
(* src: dbcore/sm-log-defs.h:200-200 log_record *)
Definition sizeof : Z := 16.
Section fields.
Context (m : mem8) (r : Z).
(* src: dbcore/sm-log-defs.h:160-161 log_record::type *)
Definition type : Z := rd 1 m r.
(* src: dbcore/sm-log-defs.h:163-164 log_record::size_code *)
Definition size_code : Z := rd 1 m (r + 1).
(* src: dbcore/sm-log-defs.h:166-173 log_record::size_align_bits *)
Definition size_align_bits : Z := sext 16 (rd 2 m (r + 2)).
(* src: dbcore/sm-log-defs.h:175-179 log_record::payload_end *)
Definition payload_end : Z := rd 4 m (r + 4).
(* src: dbcore/sm-log-defs.h:182-187 log_record::next_lsn, prev_lsn *)
Definition next_lsn : LSN.t := LSN.mk (rd 8 m (r + 8)).
(* src: dbcore/sm-log-defs.h:190-191 log_record::fid *)
Definition fid : Z := rd 4 m (r + 8).
(* src: dbcore/sm-log-defs.h:192-193 log_record::oid *)
Definition oid : Z := rd 4 m (r + 12).
End fields.
Definition set_type (m : mem8) (r v : Z) : mem8 := wr 1 m r v.
Definition set_size_code (m : mem8) (r v : Z) : mem8 := wr 1 m (r + 1) v.
Definition set_size_align_bits (m : mem8) (r v : Z) : mem8 := wr 2 m (r + 2) v.
Definition set_payload_end (m : mem8) (r v : Z) : mem8 := wr 4 m (r + 4) v.
Definition set_next_lsn (m : mem8) (r : Z) (v : LSN.t) : mem8 := wr 8 m (r + 8) (LSN._val v).
Definition set_fid (m : mem8) (r v : Z) : mem8 := wr 4 m (r + 8) v.
Definition set_oid (m : mem8) (r v : Z) : mem8 := wr 4 m (r + 12) v.
End log_record.

Module log_block.
(** [size] and the address of [records[i]], of which [data] follows the
    record. *)
(* src: dbcore/sm-log-defs.h:254-256 log_block::records *)
Definition records (b i : Z) : Z := b + 16 + log_record.sizeof * i.
(* src: dbcore/sm-log-defs.h:258-264 log_block::size *)
Definition size (nrec payload_bytes : Z) : Z := u64 (records 0 nrec + log_record.sizeof + payload_bytes).
(* src: dbcore/sm-log-defs.h:266-274 log_block::wrapped_size *)
Definition wrapped_size (nrec payload_bytes : Z) : Z := size 0 (size nrec payload_bytes).

Section fields.
Context (m : mem8) (b : Z).
(* src: dbcore/sm-log-defs.h:224-236 log_block::checksum *)
Definition checksum : Z := rd 4 m b.
(* src: dbcore/sm-log-defs.h:238-245 log_block::nrec *)
Definition nrec : Z := rd 4 m (b + 4).
(* src: dbcore/sm-log-defs.h:247-252 log_block::lsn *)
Definition lsn : LSN.t := LSN.mk (rd 8 m (b + 8)).
(* src: dbcore/sm-log-defs.h:276-278 log_block::payload_begin *)
Definition payload_begin : Z := records b nrec + log_record.sizeof.
(* src: dbcore/sm-log-defs.h:280-282 log_block::payload_end *)
Definition payload_end : Z := payload_begin + log_record.payload_end m (records b nrec).
(* src: dbcore/sm-log-defs.h:284-289 log_block::payload_offset *)
Definition payload_offset (i : Z) : res Z :=
  throw_if (negb (i <=? nrec)) illegal_argument;;
  Ok (if i =? 0 then 0 else log_record.payload_end m (records b (i - 1))).
(* src: dbcore/sm-log-defs.h:291-294 log_block::payload *)
Definition payload (i : Z) : res Z := o ← payload_offset i; Ok (payload_begin + o).
(* src: dbcore/sm-log-defs.h:296-300 log_block::payload_size *)
Definition payload_size (i : Z) : res Z :=
  throw_if (negb (i <=? nrec)) illegal_argument;;
  o ← payload_offset i;
  Ok (u32 (log_record.payload_end m (records b i) - o)).
(* src: dbcore/sm-log-defs.h:302-304 log_block::checksum_begin *)
Definition checksum_begin : Z := b + 4.
(* src: dbcore/sm-log-defs.h:306-312 log_block::body_checksum *)
Definition body_checksum : res Z :=
  let begin := checksum_begin in
  adler32 begin (get m begin (payload_begin - begin)) ADLER32_CSUM_INIT.
(* src: dbcore/sm-log-defs.h:314-317 log_block::full_checksum *)
Definition full_checksum : res Z :=
  let begin := checksum_begin in
  adler32 begin (get m begin (payload_end - begin)) ADLER32_CSUM_INIT.
(* src: dbcore/sm-log-defs.h:319-332 log_block::payload_lsn *)
Definition payload_lsn (i : Z) : res LSN.t :=
  p ← payload i;
  Ok (LSN.make (u64 (LSN.offset lsn + (p - b))) (LSN.segment lsn) (log_record.size_code m (records b i))).
(* src: dbcore/sm-log-defs.h:334-336 log_block::next_lsn *)
Definition next_lsn : LSN.t := log_record.next_lsn m (records b nrec).
End fields.
Definition set_checksum (m : mem8) (b v : Z) : mem8 := wr 4 m b v.
Definition set_nrec (m : mem8) (b v : Z) : mem8 := wr 4 m (b + 4) v.
Definition set_lsn (m : mem8) (b : Z) (v : LSN.t) : mem8 := wr 8 m (b + 8) (LSN._val v).
End log_block.

(* src: dbcore/sm-log-defs.h:388-391 MIN_LOG_BLOCK_SIZE *)
Definition MIN_LOG_BLOCK_SIZE : Z := log_block.size 0 0.

(* src: dbcore/sm-log-defs.h:393-407 fill_skip_record *)
Definition fill_skip_record (m : mem8) (r : Z) (next_lsn : LSN.t) (payload_end : Z) (has_payload : bool) : mem8 :=
  let m := log_record.set_type m r (if has_payload then LOG_FAT_SKIP else LOG_SKIP) in
  let m := log_record.set_size_code m r INVALID_SIZE_CODE in
  let m := log_record.set_size_align_bits m r (-1) in
  let m := log_record.set_payload_end m r payload_end in
  log_record.set_next_lsn m r next_lsn.

(** A new block, as [allocate] leaves it: LSN, number of records, and the skip
    record that ends it. *)
(* src: dbcore/sm-log-alloc.cpp:398-401 sm_log_alloc_mgr::allocate *)
Definition format_block (m : mem8) (b : Z) (lsn : LSN.t) (nrec : Z) (next_lsn : LSN.t) (payload_bytes : Z) : mem8 :=
  let m := log_block.set_lsn m b lsn in
  let m := log_block.set_nrec m b nrec in
  fill_skip_record m (log_block.records b nrec) next_lsn payload_bytes false.

(** Turning a block into an empty one: the skip record moves to the front. *)
(* src: dbcore/sm-log-alloc.cpp:440-454 sm_log_alloc_mgr::discard *)
Definition discard_block (m : mem8) (b : Z) : res mem8 :=
  let nrec := log_block.nrec m b in
  let m := put m (log_block.records b 0) (get m (log_block.records b nrec) log_record.sizeof) in
  let m := log_record.set_payload_end m (log_block.records b 0) 0 in
  let m := log_block.set_nrec m b 0 in
  c ← log_block.full_checksum m b;
  Ok (log_block.set_checksum m b c).
