(* ===== verification/TxLog.v ===== *)
(** * The log of a transaction ([dbcore/sm-tx-log.cpp])

    A transaction stages its log records as requests and writes them into one
    block when it commits; when they outgrow a block it spills them into an
    overflow block first.  The allocation of log space is the class
    [LogSpace].  Only the thread that created the object may use it
    ([get_log_impl]), so there is nothing concurrent here. *)
From stdpp Require Import base numbers functions list.
From Stdlib Require Import ZArith Lia.
From S2P Require Import Prelude FatPtr SizeEncode Adler Bytes LogBlock.

Local Open Scope Z_scope.

(* src: dbcore/sm-log-recover.h:41-45 sm_log_recover_mgr::MAX_BLOCK_SIZE *)
Definition MAX_BLOCK_SIZE : Z := 512 * 1024.
(* src: dbcore/sm-log-recover.h:46-46 sm_log_recover_mgr::MAX_BLOCK_RECORDS *)
Definition MAX_BLOCK_RECORDS : Z := 254.

(** [align_up] at [uint32_t]. *)
(* src: dbcore/sm-defs.h:144-150 align_up *)
Definition align_up32 (val : Z) : Z := Z.land (u32 (val + DEFAULT_ALIGNMENT - 1)) (u32 (- DEFAULT_ALIGNMENT)).

(* src: dbcore/sm-log-offset.cpp:7-21 sm_log_offset_mgr::lsn2ptr *)
Definition lsn2ptr (lsn : LSN.t) (is_ext : bool) : fat_ptr.t :=
  let offset := LSN.offset lsn in
  let flags := if is_ext then fat_ptr.ASI_EXT_FLAG else fat_ptr.ASI_LOG_FLAG in
  let flags := Z.lor flags (LSN.flags lsn) in
  fat_ptr.make offset (LSN.size_code lsn) (u16 flags).

(** The fields of a [log_request] that the code uses. *)
(* src: dbcore/sm-log-defs.h:353-386 log_request *)
Record log_request := mk_request {
  extra_ptr : fat_ptr.t;
  fid : Z;
  oid : Z;
  payload_ptr : fat_ptr.t;
  payload_size : Z;
  size_align_bits : Z;
  type : Z;
  pdest : Z }.

(* src: dbcore/sm-tx-log.cpp:71-83 make_log_request *)
Definition make_log_request (ty f o : Z) (ptr : fat_ptr.t) (abits : Z) : log_request :=
  mk_request NULL_PTR f o ptr (u32 (decode_size_aligned (fat_ptr.size_code ptr) abits)) (sext 16 abits) ty 0.

(** [req] is a local variable at address [sp], [extra_ptr] its first field,
    [fid] and [oid] the next ones. *)
(* src: dbcore/sm-tx-log.cpp:62-69 format_extra_ptr *)
Definition format_extra_ptr (m : mem8) (sp : Z) (req : log_request) : mem8 * log_request :=
  let p := payload_ptr req in
  (put m sp (le_bytes 8 (fat_ptr._ptr p) ++ le_bytes 4 (fid req) ++ le_bytes 4 (oid req)),
   mk_request p (fid req) (oid req) (fat_ptr.make sp (fat_ptr.size_code p) 0) (align_up 8 DEFAULT_ALIGNMENT)
     (size_align_bits req) (type req) (pdest req)).

Definition set_pdest (p : Z) (req : log_request) : log_request :=
  mk_request (extra_ptr req) (fid req) (oid req) (payload_ptr req) (payload_size req)
    (size_align_bits req) (type req) p.
Definition set_type (ty : Z) (req : log_request) : log_request :=
  mk_request (extra_ptr req) (fid req) (oid req) (payload_ptr req) (payload_size req)
    (size_align_bits req) ty (pdest req).
Definition set_payload_ptr (p : fat_ptr.t) (req : log_request) : log_request :=
  mk_request (extra_ptr req) (fid req) (oid req) p (payload_size req)
    (size_align_bits req) (type req) (pdest req).

(** [_commit_block]: [NULL], the mark [ENTERING_PRECOMMIT], or a block. *)
(* src: dbcore/sm-tx-log.cpp:287-292 ENTERING_PRECOMMIT *)
Inductive commit_block := NoBlock | ENTERING_PRECOMMIT | At (b : Z).

(** The object, with the thread's [tls_log_requests]. *)
(* src: dbcore/sm-log-impl.h:75-88 sm_tx_log_impl *)
Record tx_log := mk_tx {
  tls_log_requests : Z -> log_request;
  _nreq : Z;
  _payload_bytes : Z;
  _prev_overflow : LSN.t;
  _commit_block : commit_block }.

(* src: dbcore/sm-log-impl.h:75-82 sm_tx_log_impl::sm_tx_log_impl *)
Definition new_tx (reqs : Z -> log_request) : tx_log := mk_tx reqs 0 0 INVALID_LSN NoBlock.

Definition set_commit_block (c : commit_block) (t : tx_log) : tx_log :=
  mk_tx (tls_log_requests t) (_nreq t) (_payload_bytes t) (_prev_overflow t) c.

(** ** Filling a block *)

(** A store through [pdest]. *)
Definition store_ptr (m : mem8) (a : Z) (p : fat_ptr.t) : mem8 := wr 8 m a (fat_ptr._ptr p).

(* src: dbcore/sm-tx-log.cpp:239-247 sm_tx_log_impl::_populate_block *)
Definition link_overflow (t : tx_log) (b : Z) (m : mem8) : Z * mem8 :=
  if LSN.neqb (_prev_overflow t) INVALID_LSN then
    let r := log_block.records b 0 in
    let m := log_record.set_type m r LOG_OVERFLOW in
    let m := log_record.set_size_code m r INVALID_SIZE_CODE in
    let m := log_record.set_size_align_bits m r 0 in
    let m := log_record.set_payload_end m r 0 in
    (1, log_record.set_next_lsn m r (_prev_overflow t))
  else (0, m).

(** One turn of the loop: the memory, the end of the payloads so far, and
    their checksum. *)
(* src: dbcore/sm-tx-log.cpp:250-278 sm_tx_log_impl::_populate_block *)
Definition populate_record (b i : Z) (it : log_request) (s : mem8 * Z * Z) : res (mem8 * Z * Z) :=
  let '(m, payload_end, csum_payload) := s in
  let r := log_block.records b i in
  let m := log_record.set_type m r (type it) in
  let m := log_record.set_fid m r (fid it) in
  let m := log_record.set_oid m r (oid it) in
  if flagged (type it) LOG_FLAG_HAS_PAYLOAD then
    let m := log_record.set_size_code m r (fat_ptr.size_code (payload_ptr it)) in
    let m := log_record.set_size_align_bits m r (size_align_bits it) in
    m ← (if pdest it =? 0 then Ok m
         else l ← log_block.payload_lsn m b i;
              Ok (store_ptr m (pdest it) (lsn2ptr l (flagged (type it) LOG_FLAG_IS_EXT))));
    let dest := log_block.payload_begin m b + payload_end in
    let src := fat_ptr.offset (payload_ptr it) in
    '(csum_payload, data) ← adler32_memcpy dest src (get m src (payload_size it)) csum_payload;
    let m := put m dest data in
    let payload_end := u32 (payload_end + payload_size it) in
    Ok (log_record.set_payload_end m r payload_end, payload_end, csum_payload)
  else
    let m := log_record.set_size_code m r INVALID_SIZE_CODE in
    let m := log_record.set_size_align_bits m r (-1) in
    Ok (log_record.set_payload_end m r payload_end, payload_end, csum_payload).

(** [while (i < _nreq)], for [n] more records. *)
(* src: dbcore/sm-tx-log.cpp:249-252 sm_tx_log_impl::_populate_block *)
Fixpoint populate_records (n : nat) (reqs : Z -> log_request) (b i : Z) (s : mem8 * Z * Z) : res (mem8 * Z * Z) :=
  match n with
  | O => Ok s
  | S n => s ← populate_record b i (reqs i) s; populate_records n reqs b (i + 1) s
  end.

(* src: dbcore/sm-tx-log.cpp:232-285 sm_tx_log_impl::_populate_block *)
Definition _populate_block (t : tx_log) (b : Z) (m : mem8) : res mem8 :=
  let '(i, m) := link_overflow t b m in
  '(m, payload_end, csum_payload) ←
    populate_records (Z.to_nat (_nreq t - i)) (tls_log_requests t) b i (m, 0, ADLER32_CSUM_INIT);
  csum ← log_block.body_checksum m b;
  Ok (log_block.set_checksum m b (adler32_merge csum csum_payload payload_end)).

(** ** Staging requests *)

(** What [allocate] hands out for a block of the given size, after blocks of
    the sizes in the list: the address in the log buffer, the LSN of the block,
    and the LSN of the block behind it. *)
Class LogSpace := { grant : list Z -> Z -> Z * LSN.t * LSN.t }.

(** The memory, the transaction's object, [tls_log_space_used], the sizes of
    the blocks that were allocated, and the blocks that were released. *)
Record st := mk_st {
  mem : mem8;
  tx : tx_log;
  tls_log_space_used : bool;
  granted : list Z;
  released : list Z }.

Definition set_mem (m : mem8) (s : st) : st := mk_st m (tx s) (tls_log_space_used s) (granted s) (released s).
Definition set_tx (t : tx_log) (s : st) : st := mk_st (mem s) t (tls_log_space_used s) (granted s) (released s).
Definition set_used (u : bool) (s : st) : st := mk_st (mem s) (tx s) u (granted s) (released s).
(** [_lm.release(a)]. *)
Definition release (b : Z) (s : st) : st :=
  mk_st (mem s) (tx s) (tls_log_space_used s) (granted s) (released s ++ [b]).

Section txlog.
Context `{LS : LogSpace}.

(** [_lm.allocate(nrec, payload_bytes)]. *)
Definition allocate (nrec payload_bytes : Z) (s : st) : Z * st :=
  let nbytes := log_block.size nrec payload_bytes in
  let '(b, lsn, next_lsn) := grant (granted s) nbytes in
  (b, mk_st (format_block (mem s) b lsn nrec next_lsn payload_bytes) (tx s) (tls_log_space_used s)
        (granted s ++ [nbytes]) (released s)).

(** [_lm.discard(a)]. *)
Definition discard_alloc (b : Z) (s : st) : res st :=
  m ← discard_block (mem s) b; Ok (release b (set_mem m s)).

(* src: dbcore/sm-tx-log.cpp:294-325 sm_tx_log_impl::spill_overflow *)
Definition spill_overflow (s : st) : res st :=
  let inner_nreq := _nreq (tx s) in
  let pbytes := log_block.size inner_nreq (_payload_bytes (tx s)) in
  let '(b, s) := allocate 0 pbytes s in
  let m := log_record.set_type (mem s) (log_block.records b 0) LOG_FAT_SKIP in
  inner ← log_block.payload m b 0;
  inner_lsn ← log_block.payload_lsn m b 0;
  let m := log_block.set_nrec m inner inner_nreq in
  let m := log_block.set_lsn m inner inner_lsn in
  let m := fill_skip_record m (log_block.records inner inner_nreq) INVALID_LSN (_payload_bytes (tx s)) false in
  m ← _populate_block (tx s) inner m;
  csum ← log_block.body_checksum m b;
  let m := log_block.set_checksum m b (adler32_merge csum (log_block.checksum m inner) pbytes) in
  let t := mk_tx (tls_log_requests (tx s)) 1 0 (log_block.lsn m inner) (_commit_block (tx s)) in
  Ok (release b (set_tx t (set_mem m s))).

(** The recursion [return add_request(req)] follows a spill; [n] bounds it. *)
(* src: dbcore/sm-tx-log.cpp:213-230 sm_tx_log_impl::add_request *)
Fixpoint add_request (n : nat) (req : log_request) (s : st) : res st :=
  let t := tx s in
  let new_nreq := u64 (_nreq t + 1) in
  let too_many := MAX_BLOCK_RECORDS <? new_nreq in
  let new_payload_bytes := u64 (_payload_bytes t + align_up32 (payload_size req)) in
  let bsize := log_block.wrapped_size (u32 new_nreq) new_payload_bytes in
  let too_big := MAX_BLOCK_SIZE <? bsize in
  if too_many || too_big then
    match n with
    | O => Throw Spinning
    | S n => s ← spill_overflow s; add_request n req s
    end
  else
    Ok (set_tx (mk_tx (<[_nreq t := req]> (tls_log_requests t)) new_nreq new_payload_bytes
                  (_prev_overflow t) (_commit_block t)) s).

(** Storing a large payload in a block of its own; [sp] is the address of the
    local variable [req]. *)
(* src: dbcore/sm-tx-log.cpp:178-205 sm_tx_log_impl::add_payload_request *)
Definition store_external (sp : Z) (p : fat_ptr.t) (abits pd : Z) (req : log_request) (s : st)
    : res (Z * log_request * st) :=
  let psize := payload_size req in
  let '(b, s) := allocate 0 psize s in
  let r := log_block.records b 0 in
  let m := log_record.set_type (mem s) r LOG_FAT_SKIP in
  let m := log_record.set_size_code m r (fat_ptr.size_code p) in
  let m := log_record.set_size_align_bits m r abits in
  csum ← log_block.body_checksum m b;
  let src := fat_ptr.offset p in
  let dest := log_block.payload_begin m b in
  '(csum, data) ← adler32_memcpy dest src (get m src psize) csum;
  let m := log_block.set_checksum (put m dest data) b csum in
  let req := set_type (Z.lor (type req) LOG_FLAG_IS_EXT) req in
  l ← log_block.payload_lsn m b 0;
  let p := lsn2ptr l false in
  let '(m, req) := format_extra_ptr m sp (set_payload_ptr p req) in
  let '(pd, m) := if pd =? 0 then (pd, m) else (0, store_ptr m pd p) in
  Ok (pd, req, release b (set_mem m s)).

(* src: dbcore/sm-tx-log.cpp:161-211 sm_tx_log_impl::add_payload_request *)
Definition add_payload_request (n : nat) (sp ty f o : Z) (p : fat_ptr.t) (abits pd : Z) (s : st) : res st :=
  let req := make_log_request ty f o p abits in
  let psize := payload_size req in
  throw_if (2 ^ 32 - 1 <? psize) illegal_argument;;
  '(pd, req, s) ← (if MAX_BLOCK_SIZE <? log_block.wrapped_size 8 (u64 (8 * psize))
                   then store_external sp p abits pd req s else Ok (pd, req, s));
  add_request n (set_pdest pd req) s.

(** ** The interface *)

(** [get_log_impl]: the object has to be in use. *)
(* src: dbcore/sm-tx-log.cpp:21-28 get_log_impl *)
Definition get_log_impl (s : st) : res unit := throw_if (negb (tls_log_space_used s)) assertion_failure.

(* src: dbcore/sm-tx-log.cpp:153-159 sm_tx_log_impl::alloc_storage *)
Definition alloc_storage (s : st) : res st :=
  throw_if (tls_log_space_used s) assertion_failure;; Ok (set_used true s).

(* src: dbcore/sm-log.cpp:79-85 sm_log::new_tx_log *)
Definition new_tx_log (s : st) : res st :=
  s ← alloc_storage s; Ok (set_tx (new_tx (tls_log_requests (tx s))) s).

(* src: dbcore/sm-tx-log.cpp:31-35 sm_tx_log::log_insert_index *)
Definition log_insert_index (n : nat) (sp f o : Z) (ptr : fat_ptr.t) (abits pd : Z) (s : st) : res st :=
  get_log_impl s;; add_payload_request n sp LOG_INSERT_INDEX f o ptr abits pd s.
(* src: dbcore/sm-tx-log.cpp:37-40 sm_tx_log::log_insert *)
Definition log_insert (n : nat) (sp f o : Z) (ptr : fat_ptr.t) (abits pd : Z) (s : st) : res st :=
  get_log_impl s;; add_payload_request n sp LOG_INSERT f o ptr abits pd s.
(* src: dbcore/sm-tx-log.cpp:42-45 sm_tx_log::log_update *)
Definition log_update (n : nat) (sp f o : Z) (ptr : fat_ptr.t) (abits pd : Z) (s : st) : res st :=
  get_log_impl s;; add_payload_request n sp LOG_UPDATE f o ptr abits pd s.
(** [name] and [length] are the characters of the string, [buf] what [malloc]
    returns. *)
(* src: dbcore/sm-tx-log.cpp:47-60 sm_tx_log::log_fid *)
Definition log_fid (n : nat) (sp f name length buf : Z) (s : st) : res st :=
  let size := align_up length DEFAULT_ALIGNMENT + 1 in
  match encode_size_aligned size DEFAULT_ALIGNMENT_BITS with
  | Some (size_code, size) =>
      let m := put (mem s) buf (replicate (Z.to_nat size) 0) in
      let m := put m buf (get m name (size - 1)) in
      let s := set_mem m s in
      get_log_impl s;;
      add_payload_request n sp LOG_FID f 0 (fat_ptr.make buf size_code 0) DEFAULT_ALIGNMENT_BITS 0 s
  | None => Throw Spinning
  end.
(* src: dbcore/sm-tx-log.cpp:85-90 sm_tx_log::log_relocate *)
Definition log_relocate (n : nat) (sp f o : Z) (ptr : fat_ptr.t) (abits : Z) (s : st) : res st :=
  let '(m, req) := format_extra_ptr (mem s) sp (make_log_request LOG_RELOCATE f o ptr abits) in
  get_log_impl s;; add_request n req (set_mem m s).
(* src: dbcore/sm-tx-log.cpp:92-96 sm_tx_log::log_delete *)
Definition log_delete (n : nat) (f o : Z) (s : st) : res st :=
  let req := make_log_request LOG_DELETE f o NULL_PTR 0 in
  get_log_impl s;; add_request n req s.

(* src: dbcore/sm-tx-log.cpp:327-352 sm_tx_log_impl::_install_commit_block *)
Definition _install_commit_block (a : commit_block) (s : st) : res (commit_block * st) :=
  match a with
  | ENTERING_PRECOMMIT =>
      let '(b, s) := allocate (u32 (_nreq (tx s))) (_payload_bytes (tx s)) s in
      match _commit_block (tx s) with
      | ENTERING_PRECOMMIT => Ok (At b, set_tx (set_commit_block (At b) (tx s)) s)
      | tmp => s ← discard_alloc b s; Ok (tmp, s)
      end
  | _ => Ok (a, s)
  end.

(* src: dbcore/sm-tx-log.cpp:354-371 sm_tx_log_impl::enter_precommit *)
Definition enter_precommit (s : st) : res st :=
  let s := set_tx (set_commit_block ENTERING_PRECOMMIT (tx s)) s in
  r ← _install_commit_block ENTERING_PRECOMMIT s; Ok (snd r).

(** Following [_commit_block]. *)
Definition commit_addr (s : st) : res Z :=
  match _commit_block (tx s) with At b => Ok b | _ => Throw bad_address end.

(* src: dbcore/sm-tx-log.cpp:98-118 sm_tx_log::get_clsn *)
Definition get_clsn (s : st) : res (LSN.t * st) :=
  get_log_impl s;;
  match _commit_block (tx s) with
  | NoBlock => Ok (INVALID_LSN, s)
  | a =>
      '(a, s) ← _install_commit_block a s;
      match a with At b => Ok (log_block.next_lsn (mem s) b, s) | _ => Throw bad_address end
  end.

(* src: dbcore/sm-tx-log.cpp:120-126 sm_tx_log::pre_commit *)
Definition pre_commit (s : st) : res (LSN.t * st) :=
  get_log_impl s;;
  s ← match _commit_block (tx s) with NoBlock => enter_precommit s | _ => Ok s end;
  b ← commit_addr s;
  Ok (log_block.next_lsn (mem s) b, s).

(** The LSN of the block goes to [pdest] if there is one; the result is the
    commit LSN and that LSN. *)
(* src: dbcore/sm-tx-log.cpp:128-143 sm_tx_log::commit *)
Definition commit (s : st) : res (LSN.t * LSN.t * st) :=
  '(clsn, s) ← pre_commit s;
  get_log_impl s;;
  b ← commit_addr s;
  m ← _populate_block (tx s) b (mem s);
  Ok (clsn, log_block.lsn m b, set_used false (release b (set_mem m s))).

(* src: dbcore/sm-tx-log.cpp:145-151 sm_tx_log::discard *)
Definition discard (s : st) : res st :=
  get_log_impl s;;
  s ← match _commit_block (tx s) with
      | NoBlock => Ok s
      | At b => discard_alloc b s
      | ENTERING_PRECOMMIT => Throw bad_address
      end;
  Ok (set_used false s).

End txlog.
