(* ===== verification/TxLogSpec.v ===== *)
(** * What a filled block contains

    [_populate_block] against its specification: the records and payloads of
    the staged requests, in order, under a checksum that recovery accepts. *)
From stdpp Require Import base numbers functions list.
From Stdlib Require Import ZArith Lia.
From S2P Require Import Prelude FatPtr SizeEncode Adler Bytes LogBlock TxLog.

Local Open Scope Z_scope.

(** ** Records as bytes *)

Lemma get_wr_same n m a v k : k = Z.of_nat n -> get (wr n m a v) a k = le_bytes n v.
Proof. intros ->. unfold wr. rewrite <- (len_le n v) at 1. apply get_put_same. Qed.

(** The sixteen bytes of a record. *)
Definition record_bytes (ty sc ab pe f o : Z) : list Z :=
  le_bytes 1 ty ++ le_bytes 1 sc ++ le_bytes 2 ab ++ le_bytes 4 pe ++ le_bytes 4 f ++ le_bytes 4 o.

Lemma get_record m r :
  get m r 16 = get m r 1 ++ get m (r + 1) 1 ++ get m (r + 2) 2 ++ get m (r + 4) 4 ++
               get m (r + 8) 4 ++ get m (r + 12) 4.
Proof.
  change 16 with (1 + (1 + (2 + (4 + (4 + 4))))). rewrite !get_app by lia.
  by rewrite <- !Z.add_assoc.
Qed.

Lemma rd_of_get n m a l : get m a (Z.of_nat n) = l -> rd n m a = le_value l.
Proof. intros <-. done. Qed.

Lemma app_inj_len (l1 l2 k1 k2 : list Z) : len l1 = len k1 -> l1 ++ l2 = k1 ++ k2 -> l1 = k1 /\ l2 = k2.
Proof. intros H. apply app_inj_1. unfold len in H. lia. Qed.

Lemma record_fields m r ty sc ab pe f o :
  get m r 16 = record_bytes ty sc ab pe f o ->
  log_record.type m r = u8 ty /\ log_record.size_code m r = u8 sc /\
  log_record.size_align_bits m r = sext 16 ab /\ log_record.payload_end m r = u32 pe /\
  log_record.fid m r = u32 f /\ log_record.oid m r = u32 o.
Proof.
  rewrite get_record. unfold record_bytes. intros H.
  repeat (apply app_inj_len in H as [?H H]; [|by rewrite len_get, len_le by lia]).
  unfold log_record.type, log_record.size_code, log_record.size_align_bits, log_record.payload_end,
    log_record.fid, log_record.oid.
  repeat match goal with
    | E : get _ ?a ?n = le_bytes ?k _ |- _ => apply (rd_of_get k) in E; rewrite le_value_bytes in E; rewrite E; clear E
    end.
  split_and!; try done. unfold sext, wrap. change (8 * Z.of_nat 2) with 16. by rewrite Z.mod_mod.
Qed.

(** ** Staged requests *)

Definition has_payload (it : log_request) : bool := flagged (type it) LOG_FLAG_HAS_PAYLOAD.
Definition src (it : log_request) : Z := fat_ptr.offset (payload_ptr it).
(** The number of payload bytes, and the bytes. *)
Definition psize (it : log_request) : Z := if has_payload it then payload_size it else 0.
Definition data (m : mem8) (it : log_request) : list Z := get m (src it) (psize it).

Definition code_of (it : log_request) : Z :=
  if has_payload it then fat_ptr.size_code (payload_ptr it) else INVALID_SIZE_CODE.
Definition abits_of (it : log_request) : Z := if has_payload it then size_align_bits it else -1.

(** The record of [it] whose payload ends at [pe]. *)
Definition encode (it : log_request) (pe : Z) : list Z :=
  record_bytes (type it) (code_of it) (abits_of it) pe (fid it) (oid it).

(** Where the payloads of the first [k] of the requests end, and what they
    are. *)
Definition ends (its : list log_request) : Z := foldr (fun it n => psize it + n) 0 its.
Definition datas (m : mem8) (its : list log_request) : list Z := its ≫= data m.

Lemma ends_app l1 l2 : ends (l1 ++ l2) = ends l1 + ends l2.
Proof. unfold ends. induction l1 as [|x l IH]; cbn; lia. Qed.

Lemma ends_one it : ends [it] = psize it.
Proof. unfold ends. cbn. lia. Qed.

Lemma datas_app m l1 l2 : datas m (l1 ++ l2) = datas m l1 ++ datas m l2.
Proof. apply bind_app. Qed.

Lemma datas_one m it : datas m [it] = data m it.
Proof. unfold datas. cbn. apply app_nil_r. Qed.

(** A request whose memory lies outside [[lo, hi)]. *)
Record good_req (lo hi : Z) (it : log_request) : Prop := {
  good_size : 0 <= payload_size it < 2 ^ 31;
  good_empty : has_payload it = false -> payload_size it = 0;
  good_mod : payload_size it mod 16 = 0;
  good_align : has_payload it = true -> src it mod 16 = 0;
  good_src : has_payload it = true -> apart (src it) (payload_size it) lo (hi - lo);
  good_dest : pdest it <> 0 -> apart (pdest it) 8 lo (hi - lo) }.

Lemma psize_eq lo hi it : good_req lo hi it -> psize it = payload_size it.
Proof. intros H. unfold psize. destruct (has_payload it) eqn:E; [done|]. by rewrite (good_empty _ _ _ H E). Qed.

Lemma ends_nonneg lo hi its : Forall (good_req lo hi) its -> 0 <= ends its /\ ends its mod 16 = 0.
Proof.
  induction 1 as [|it its H _ IH]; [done|]. change (ends (it :: its)) with (psize it + ends its).
  rewrite (psize_eq lo hi) by done. destruct H. split; [lia|]. rewrite Z.add_mod by lia.
  by rewrite good_mod0, (proj2 IH).
Qed.

Lemma len_datas lo hi m its : Forall (good_req lo hi) its -> len (datas m its) = ends its.
Proof.
  induction 1 as [|it its H Hf IH]; [done|]. change (datas m (it :: its)) with (data m it ++ datas m its).
  rewrite len_app, IH. unfold data. rewrite len_get; [done|]. rewrite (psize_eq lo hi) by done. apply H.
Qed.

(** Stores through [pdest] hit no payload and do not overwrite each other. *)
Record no_clash (its : list log_request) : Prop := {
  clash_src x y : x ∈ its -> y ∈ its -> pdest x <> 0 -> has_payload y = true ->
    apart (pdest x) 8 (src y) (payload_size y);
  clash_dest i j x y : its !! i = Some x -> its !! j = Some y -> i <> j ->
    pdest x <> 0 -> pdest y <> 0 -> apart (pdest x) 8 (pdest y) 8 }.

(** ** One turn of the loop *)

(** The part of the record that does not depend on the payload. *)
Definition write_head (m : mem8) (r : Z) (it : log_request) : mem8 :=
  let m := log_record.set_type m r (type it) in
  let m := log_record.set_fid m r (fid it) in
  let m := log_record.set_oid m r (oid it) in
  let m := log_record.set_size_code m r (code_of it) in
  log_record.set_size_align_bits m r (abits_of it).

Ltac unfold_sets :=
  unfold log_record.set_type, log_record.set_fid, log_record.set_oid, log_record.set_size_code,
    log_record.set_size_align_bits, log_record.set_payload_end, log_record.set_next_lsn, store_ptr,
    log_block.set_checksum, log_block.set_nrec, log_block.set_lsn in *.

Lemma write_head_out m r it a n : apart a n r 16 -> get (write_head m r it) a n = get m a n.
Proof. intros H. unfold write_head, apart in *. unfold_sets. by frame. Qed.

Lemma write_head_at m r it x : x < r \/ r + 16 <= x -> write_head m r it x = m x.
Proof. intros H. unfold write_head. unfold_sets. unfold wr. by rewrite !put_out by (rewrite len_le; lia). Qed.

Lemma wf8_write_head m r it : wf8 m -> wf8 (write_head m r it).
Proof. intros. unfold write_head. unfold_sets. auto 8 with bytes. Qed.

Lemma get_split m m' a n k : 0 <= n -> 0 <= k ->
  get m a (n + k) = get m' a (n + k) -> get m a n = get m' a n /\ get m (a + n) k = get m' (a + n) k.
Proof. intros Hn Hk. rewrite !get_app by lia. apply app_inj_len. by rewrite !len_get. Qed.

(** With the payload end, whatever was stored elsewhere in between. *)
Lemma record_written m m' r it pe :
  get m' r 4 = get (write_head m r it) r 4 -> get m' (r + 8) 8 = get (write_head m r it) (r + 8) 8 ->
  get (log_record.set_payload_end m' r pe) r 16 = encode it pe.
Proof.
  intros H1 H2. apply (get_split _ _ _ 1 3) in H1 as [H11 H12]; [|lia..].
  apply (get_split _ _ _ 1 2) in H12 as [H12 H13]; [|lia..].
  apply (get_split _ _ _ 4 4) in H2 as [H21 H22]; [|lia..].
  rewrite <- !Z.add_assoc in *. change (1 + 1) with 2 in *. change (8 + 4) with 12 in *.
  rewrite get_record. unfold log_record.set_payload_end. frame.
  rewrite (get_wr_same 4 m' (r + 4)) by done.
  rewrite H11, H12, H13, H21, H22.
  unfold encode, record_bytes, write_head. unfold_sets. frame.
  by rewrite !get_wr_same by done.
Qed.

Lemma code_fits it : fits 8 (code_of it).
Proof. unfold code_of, fat_ptr.size_code. destruct (has_payload it); [apply wrap_fits; lia|by split]. Qed.

Lemma lsn2ptr_fits l e : fits 64 (fat_ptr._ptr (lsn2ptr l e)).
Proof.
  assert (forall w x, 0 <= w <= 64 -> fits 64 (wrap w x)) as Hw.
  { intros w x Hw. pose proof (wrap_fits w x ltac:(lia)) as [H1 H2]. split; [done|].
    pose proof (Z.pow_le_mono_r 2 w 64 ltac:(lia) ltac:(lia)). lia. }
  unfold lsn2ptr, fat_ptr.make. cbn [fat_ptr._ptr]. unfold LSN.size_code.
  apply lor_fits; [lia| |apply Hw; lia]. apply lor_fits; [lia|apply Hw; lia..].
Qed.

(** ** The loop *)

Section fill.
(** A block of [N] records at [b], in [[lo, hi)], with [P] bytes of payload;
    the requests start at record [i0]. *)
Context (lo hi b N P i0 : Z) (m0 : mem8).
Definition body : Z := b + 32 + 16 * N.

Record blank : Prop := {
  blank_wf : wf8 m0;
  blank_lo : lo <= b;
  blank_hi : body + P <= hi;
  blank_align : b mod 16 = 0;
  blank_N : 0 <= N < 2 ^ 31;
  blank_P : 0 <= P < 2 ^ 31;
  blank_i0 : 0 <= i0 <= 1;
  blank_nrec : log_block.nrec m0 b = N;
  blank_end : log_record.payload_end m0 (log_block.records b N) = P }.

(** Where the payload of [it] goes when [done] came before it. *)
Definition place (done : list log_request) (it : log_request) : LSN.t :=
  LSN.make (u64 (LSN.offset (log_block.lsn m0 b) + (body - b + ends done)))
    (LSN.segment (log_block.lsn m0 b)) (code_of it).

Definition in_dest (done : list log_request) (x : Z) : Prop :=
  exists it, it ∈ done /\ has_payload it = true /\ pdest it <> 0 /\ pdest it <= x < pdest it + 8.

(** After the requests [done]. *)
Record filled (done : list log_request) (m : mem8) (pe cs : Z) : Prop := {
  filled_wf : wf8 m;
  filled_head : get m (b + 4) (12 + 16 * i0) = get m0 (b + 4) (12 + 16 * i0);
  filled_skip : get m (log_block.records b N) 16 = get m0 (log_block.records b N) 16;
  filled_pe : pe = ends done;
  filled_cs : cs = adler_ref (datas m0 done) ADLER32_CSUM_INIT;
  filled_data : get m body pe = datas m0 done;
  filled_recs k it : done !! k = Some it ->
    get m (log_block.records b (i0 + Z.of_nat k)) 16 = encode it (ends (take (S k) done));
  filled_dests k it : done !! k = Some it -> has_payload it = true -> pdest it <> 0 ->
    rd 8 m (pdest it) = fat_ptr._ptr (lsn2ptr (place (take k done) it) (flagged (type it) LOG_FLAG_IS_EXT));
  filled_out x : x < b \/ body + P <= x -> ~ in_dest done x -> m x = m0 x }.

Lemma rd_get_eq n m m' a : get m a (Z.of_nat n) = get m' a (Z.of_nat n) -> rd n m a = rd n m' a.
Proof. intros H. unfold rd. by rewrite H. Qed.

Lemma head_split m : 0 <= i0 -> get m (b + 4) (12 + 16 * i0) = get m0 (b + 4) (12 + 16 * i0) ->
  log_block.nrec m b = log_block.nrec m0 b /\ log_block.lsn m b = log_block.lsn m0 b /\
  get m (b + 16) (16 * i0) = get m0 (b + 16) (16 * i0).
Proof.
  intros Hi H. replace (12 + 16 * i0) with (4 + (8 + 16 * i0)) in H by lia.
  apply get_split in H as [H1 H]; [|lia..]. apply get_split in H as [H2 H]; [|lia..].
  replace (b + 4 + 4) with (b + 8) in * by lia. replace (b + 8 + 8) with (b + 16) in * by lia.
  split_and!; [by apply rd_get_eq| |done]. unfold log_block.lsn. by rewrite (rd_get_eq 8 m m0).
Qed.

(** The payload that is written next starts where the last record says. *)
Lemma filled_offset done m pe cs it :
  blank -> (i0 = 1 -> log_record.payload_end m0 (log_block.records b 0) = 0) ->
  filled done m pe cs -> pe < 2 ^ 32 -> 0 <= pe -> i0 + Z.of_nat (length done) < N ->
  let i := i0 + Z.of_nat (length done) in
  log_block.payload_offset (write_head m (log_block.records b i) it) b i = Ok pe.
Proof.
  intros HB H1 H Hpe Hpe0 Hi i. pose proof (blank_i0 HB). unfold log_block.payload_offset.
  destruct (head_split m ltac:(lia) (filled_head _ _ _ _ H)) as (En & _ & E0).
  assert (log_block.nrec (write_head m (log_block.records b i) it) b = N) as ->.
  { rewrite <- (blank_nrec HB), <- En. apply rd_get_eq, write_head_out. unfold apart, log_block.records, log_record.sizeof. lia. }
  destruct (Z.leb_spec i N); [|lia]. cbn [negb throw_if mbind res_bind]. f_equal.
  destruct (Z.eqb_spec i 0) as [Ei|Ei].
  { rewrite (filled_pe _ _ _ _ H). destruct done; [done|]. subst i. cbn in Ei. lia. }
  assert (log_record.payload_end (write_head m (log_block.records b i) it) (log_block.records b (i - 1))
          = log_record.payload_end m (log_block.records b (i - 1))) as ->.
  { apply rd_get_eq, write_head_out. unfold apart, log_block.records, log_record.sizeof. lia. }
  destruct done as [|y done' _] using rev_ind.
  - assert (i0 = 1) as -> by (subst i; cbn in *; lia). subst i. change (1 + Z.of_nat (length (@nil log_request)) - 1) with 0.
    rewrite (filled_pe _ _ _ _ H). change (ends []) with 0. transitivity (log_record.payload_end m0 (log_block.records b 0)); [|by apply H1].
    unfold log_block.records, log_record.sizeof. replace (b + 16 + 16 * 0) with (b + 16) by lia.
    apply (get_split _ _ _ 4 12) in E0 as [_ E0]; [|lia..]. apply (get_split _ _ _ 4 8) in E0 as [E0 _]; [|lia..].
    by apply rd_get_eq.
  - rewrite length_app in *. cbn [length] in *.
    assert ((done' ++ [y]) !! length done' = Some y) as E by (by rewrite lookup_app_r, Nat.sub_diag by lia).
    apply (filled_recs _ _ _ _ H), record_fields in E. replace (i - 1) with (i0 + Z.of_nat (length done')) by (subst i; rewrite length_app; cbn [length]; lia).
    destruct E as (_ & _ & _ & -> & _). rewrite take_ge by (rewrite length_app; cbn; lia).
    rewrite <- (filled_pe _ _ _ _ H). apply wrap_small. by split.
Qed.

(** What one turn may change: its record, its payload, and its [pdest]. *)
Record turn (done : list log_request) (it : log_request) (m m' : mem8) : Prop := {
  turn_wf : wf8 m';
  turn_in x : b <= x < body + P -> let r := log_block.records b (i0 + Z.of_nat (length done)) in
    x < r \/ r + 16 <= x -> x < body + ends done \/ body + ends done + psize it <= x -> m' x = m x;
  turn_out x : x < b \/ body + P <= x -> ~ in_dest [it] x -> m' x = m x;
  turn_rec : get m' (log_block.records b (i0 + Z.of_nat (length done))) 16 = encode it (ends done + psize it);
  turn_data : get m' (body + ends done) (psize it) = data m0 it;
  turn_dest : has_payload it = true -> pdest it <> 0 ->
    rd 8 m' (pdest it) = fat_ptr._ptr (lsn2ptr (place done it) (flagged (type it) LOG_FLAG_IS_EXT)) }.

Lemma in_dest_app d it x : in_dest (d ++ [it]) x <-> in_dest d x \/ in_dest [it] x.
Proof.
  unfold in_dest. setoid_rewrite elem_of_app. split.
  - intros (y & [Hy|Hy] & ?); [left|right]; by exists y.
  - intros [(y & Hy & ?)|(y & Hy & ?)]; exists y; auto.
Qed.

Lemma filled_turn done it m m' pe cs :
  blank -> filled done m pe cs -> turn done it m m' ->
  Forall (good_req lo hi) (done ++ [it]) -> no_clash (done ++ [it]) ->
  ends (done ++ [it]) <= P -> i0 + Z.of_nat (length done) < N -> bytes (datas m0 (done ++ [it])) ->
  filled (done ++ [it]) m' (ends (done ++ [it])) (adler_ref (datas m0 (done ++ [it])) ADLER32_CSUM_INIT).
Proof.
  intros HB H T Hg Hc He Hi Hb. pose proof Hg as [Hg1 Hg2]%Forall_app. apply Forall_cons in Hg2 as [Hg2 _].
  pose proof (ends_nonneg _ _ _ Hg1) as [He0 _]. pose proof (psize_eq _ _ _ Hg2) as Ep.
  pose proof (good_size _ _ _ Hg2) as Hs. rewrite <- Ep in Hs.
  rewrite ends_app, ends_one in *. destruct HB, H. destruct T as [T1 T2 T3 T4 T5 T6].
  split; unfold log_block.records, log_record.sizeof, body in *; try done.
  - rewrite <- filled_head0. apply get_ext. intros x Hx. apply T2; lia.
  - rewrite <- filled_skip0. apply get_ext. intros x Hx. apply T2; lia.
  - by rewrite ends_app, ends_one.
  - rewrite get_app by lia. rewrite datas_app, datas_one, <- filled_data0, <- T5, filled_pe0. f_equal.
    apply get_ext. intros x Hx. apply T2; lia.
  - intros k x [Hk|[Hk Hx]]%lookup_app_Some.
    + pose proof (lookup_lt_Some _ _ _ Hk). rewrite take_app_le by lia. rewrite <- (filled_recs0 k x Hk).
      apply get_ext. intros y Hy. apply T2; lia.
    + destruct (k - length done)%nat eqn:Ek; [|done]. cbn in Hx. simplify_eq.
      replace k with (length done) by lia. rewrite T4, take_ge by (rewrite length_app; cbn; lia).
      by rewrite ends_app, ends_one.
  - intros k x [Hk|[Hk Hx]]%lookup_app_Some Hp Hd.
    + pose proof (lookup_lt_Some _ _ _ Hk). rewrite take_app_le by lia. rewrite <- (filled_dests0 k x Hk Hp Hd).
      unfold rd. f_equal. apply get_ext. intros y Hy.
      assert (apart (pdest x) 8 lo (hi - lo)) as Ha.
      { eapply good_dest; [|done]. eapply Forall_lookup_1; [exact Hg1|done]. }
      unfold apart in Ha. change (Z.of_nat 8) with 8 in Hy. apply T3; [lia|].
      intros (z & ->%list_elem_of_singleton & _ & Hz & Hzy).
      assert (apart (pdest x) 8 (pdest it) 8) as Ha'.
      { eapply (clash_dest _ Hc k (length done)); [by apply lookup_app_l_Some|by rewrite lookup_app_r, Nat.sub_diag by lia|lia|done..]. }
      unfold apart in Ha'. lia.
    + destruct (k - length done)%nat eqn:Ek; [|done]. cbn in Hx. simplify_eq.
      replace k with (length done) by lia. rewrite take_app_length. by apply T6.
  - intros x Hx Hn. rewrite in_dest_app in Hn. rewrite T3, filled_out0; [done|lia|tauto|lia|tauto].
Qed.

(** The memory that one turn leaves. *)
Definition after_store (done : list log_request) (it : log_request) (m : mem8) : mem8 :=
  let m := write_head m (log_block.records b (i0 + Z.of_nat (length done))) it in
  if has_payload it && negb (pdest it =? 0)
  then store_ptr m (pdest it) (lsn2ptr (place done it) (flagged (type it) LOG_FLAG_IS_EXT)) else m.

Definition after_turn (done : list log_request) (it : log_request) (m : mem8) : mem8 :=
  log_record.set_payload_end (put (after_store done it m) (body + ends done) (data m0 it))
    (log_block.records b (i0 + Z.of_nat (length done))) (ends done + psize it).

Lemma after_store_out done it m x :
  let r := log_block.records b (i0 + Z.of_nat (length done)) in
  x < r \/ r + 16 <= x -> ~ in_dest [it] x -> after_store done it m x = m x.
Proof.
  intros r Hr Hn. unfold after_store. fold r.
  destruct (has_payload it) eqn:Ep, (Z.eqb_spec (pdest it) 0); cbn [andb negb]; try (by apply write_head_at).
  unfold store_ptr, wr. rewrite put_out; [by apply write_head_at|]. rewrite len_le. change (Z.of_nat 8) with 8.
  destruct (Z.lt_ge_cases x (pdest it)); [by left|]. destruct (Z.le_gt_cases (pdest it + 8) x); [by right|].
  exfalso. apply Hn. exists it. split_and!; [by apply list_elem_of_singleton|done..|lia].
Qed.

(** The [pdest] of a good request is not in the block. *)
Lemma dest_outside it x :
  blank -> good_req lo hi it -> in_dest [it] x -> x < b \/ body + P <= x.
Proof.
  intros HB Hg (y & ->%list_elem_of_singleton & _ & Hz & Hx). pose proof (good_dest _ _ _ Hg Hz) as Ha.
  destruct HB. unfold apart in Ha. lia.
Qed.

(** In the block, the store through [pdest] changes nothing. *)
Lemma after_store_in done it m x :
  blank -> good_req lo hi it -> b <= x < body + P ->
  after_store done it m x = write_head m (log_block.records b (i0 + Z.of_nat (length done))) it x.
Proof.
  intros HB Hg Hx. unfold after_store.
  destruct (has_payload it), (Z.eqb_spec (pdest it) 0); cbn [andb negb]; try done.
  unfold store_ptr, wr. apply put_out. rewrite len_le. change (Z.of_nat 8) with 8.
  pose proof (good_dest _ _ _ Hg ltac:(done)) as Ha. destruct HB. unfold apart in Ha. lia.
Qed.

Lemma after_turn_ok done it m pe cs :
  blank -> filled done m pe cs -> Forall (good_req lo hi) (done ++ [it]) ->
  ends (done ++ [it]) <= P -> i0 + Z.of_nat (length done) < N -> bytes (data m0 it) ->
  turn done it m (after_turn done it m).
Proof.
  intros HB H Hg He Hi Hb. pose proof Hg as [Hg1 Hg2]%Forall_app. apply Forall_cons in Hg2 as [Hg2 _].
  pose proof (ends_nonneg _ _ _ Hg1) as [He0 _]. pose proof (psize_eq _ _ _ Hg2) as Ep.
  pose proof (good_size _ _ _ Hg2) as Hs. rewrite <- Ep in Hs. rewrite ends_app, ends_one in He.
  assert (len (data m0 it) = psize it) as Hl by (unfold data; rewrite len_get; lia).
  pose proof (fun x => dest_outside it x HB Hg2) as Hd. pose proof (fun x => after_store_in done it m x HB Hg2) as Has.
  destruct HB.
  assert (wf8 (after_store done it m)) as Hw.
  { unfold after_store, store_ptr. pose proof (filled_wf _ _ _ _ H).
    destruct (_ && _); auto using wf8_write_head with bytes. }
  unfold log_block.records, log_record.sizeof, body in *.
  assert (forall x, b <= x < b + 32 + 16 * N + P -> ~ in_dest [it] x) as Hin by (intros x Hx Hn; apply Hd in Hn; lia).
  assert (forall x, x < b + 16 + 16 * (i0 + Z.of_nat (length done)) \/
      b + 16 + 16 * (i0 + Z.of_nat (length done)) + 16 <= x ->
      x < b + 32 + 16 * N + ends done \/ b + 32 + 16 * N + ends done + psize it <= x -> ~ in_dest [it] x ->
      after_turn done it m x = m x) as Hout.
  { intros x Hx1 Hx2 Hn. unfold after_turn, log_block.records, log_record.sizeof, body. unfold_sets.
    unfold wr. rewrite !put_out by (rewrite ?len_le, ?Hl; lia). by apply after_store_out. }
  split; unfold log_block.records, log_record.sizeof, body in *.
  - unfold after_turn. unfold_sets. auto with bytes.
  - intros x Hx Hr Hp. apply Hout; [done..|]. by apply Hin.
  - intros x Hx Hn. apply Hout; [lia..|done].
  - unfold after_turn, log_block.records, log_record.sizeof, body. apply (record_written m).
    + frame. apply get_ext. intros x Hx. apply Has. lia.
    + frame. apply get_ext. intros x Hx. apply Has. lia.
  - unfold after_turn, log_block.records, log_record.sizeof, body. unfold_sets. frame. rewrite <- Hl. apply get_put_same.
  - intros Eh En. pose proof (good_dest _ _ _ Hg2 En) as Ha. unfold apart in Ha.
    unfold after_turn, log_block.records, log_record.sizeof, body. unfold_sets. change (Z.of_nat 8) with 8 in *.
    rewrite rd_wr_out, rd_put_out by lia. unfold after_store. rewrite Eh. destruct (Z.eqb_spec (pdest it) 0); [done|].
    cbn [andb negb]. unfold store_ptr. rewrite rd_wr_same. apply wrap_small, lsn2ptr_fits.
Qed.

Lemma data_now done it m pe cs :
  blank -> filled done m pe cs -> Forall (good_req lo hi) (done ++ [it]) -> no_clash (done ++ [it]) ->
  i0 + Z.of_nat (length done) < N -> get (after_store done it m) (src it) (psize it) = data m0 it.
Proof.
  intros HB H Hg Hc Hi. pose proof Hg as [_ Hg2]%Forall_app. apply Forall_cons in Hg2 as [Hg2 _].
  unfold data, psize. destruct (has_payload it) eqn:Eh; [|done].
  pose proof (good_src _ _ _ Hg2 Eh) as Ha. unfold apart in Ha.
  assert (forall d x, d ⊆ done ++ [it] -> in_dest d x -> src it <= x < src it + payload_size it -> False) as Hn.
  { intros d x Hd (y & Hy & _ & Hy0 & Hyx) Hx. destruct (clash_src _ Hc y it); [by apply Hd| |done|done|lia|lia].
    apply elem_of_app. right. by apply list_elem_of_singleton. }
  assert (lo <= b /\ body + P <= hi /\ 0 <= P /\ 0 <= i0) as (Hlo & Hhi & HP & Hi0) by (destruct HB; lia).
  apply get_ext. intros x Hx. rewrite after_store_out, (filled_out _ _ _ _ H); [done|lia| | |].
  - intros Hd. apply (Hn done x); [|done|done]. intros y Hy. apply elem_of_app. by left.
  - unfold log_block.records, log_record.sizeof, body in *. lia.
  - intros Hd. apply (Hn [it] x); [|done|done]. intros y Hy. apply elem_of_app. by right.
Qed.

Lemma store_eq done it m pe cs :
  blank -> (i0 = 1 -> log_record.payload_end m0 (log_block.records b 0) = 0) -> filled done m pe cs ->
  0 <= pe < 2 ^ 32 -> i0 + Z.of_nat (length done) < N -> has_payload it = true ->
  let r := log_block.records b (i0 + Z.of_nat (length done)) in
  (if pdest it =? 0 then Ok (write_head m r it)
   else l ← log_block.payload_lsn (write_head m r it) b (i0 + Z.of_nat (length done));
        Ok (store_ptr (write_head m r it) (pdest it) (lsn2ptr l (flagged (type it) LOG_FLAG_IS_EXT))))
  = Ok (after_store done it m).
Proof.
  intros HB H1 H Hpe Hi Eh r. unfold after_store. rewrite Eh. destruct (Z.eqb_spec (pdest it) 0); [done|].
  cbn [andb negb]. fold r. unfold log_block.payload_lsn, log_block.payload.
  subst r. rewrite (filled_offset done m pe cs it) by (done || lia). cbn [mbind res_bind].
  set (r := log_block.records b _). pose proof (blank_i0 HB).
  destruct (head_split m ltac:(lia) (filled_head _ _ _ _ H)) as (En & El & _).
  assert (log_block.nrec (write_head m r it) b = N) as En'.
  { rewrite <- (blank_nrec HB), <- En. apply rd_get_eq, write_head_out. unfold apart, r, log_block.records, log_record.sizeof. lia. }
  assert (log_block.lsn (write_head m r it) b = log_block.lsn m0 b) as ->.
  { rewrite <- El. unfold log_block.lsn. f_equal. apply rd_get_eq, write_head_out.
    unfold apart, r, log_block.records, log_record.sizeof. lia. }
  unfold log_block.payload_begin. rewrite En'. do 3 f_equal. unfold place. f_equal.
  - rewrite (filled_pe _ _ _ _ H). unfold body, log_block.records, log_record.sizeof. do 2 f_equal. lia.
  - assert (log_record.size_code (write_head m r it) r = u8 (code_of it)) as ->; [|apply wrap_small, code_fits].
    unfold log_record.size_code, write_head. unfold_sets. frame. by rewrite rd_wr_same.
Qed.

Lemma turn_ext done it m m' m'' : turn done it m m' -> (forall x, m'' x = m' x) -> turn done it m m''.
Proof.
  intros [T1 T2 T3 T4 T5 T6] E. split.
  - intros x. rewrite E. apply T1.
  - intros x. rewrite E. apply T2.
  - intros x. rewrite E. apply T3.
  - rewrite <- T4. by apply get_ext.
  - rewrite <- T5. by apply get_ext.
  - intros H1 H2. rewrite <- T6 by done. by apply rd_get_eq, get_ext.
Qed.

Lemma put_ext m m' a l x : (forall x, m x = m' x) -> put m a l x = put m' a l x.
Proof. intros E. unfold put. by rewrite E. Qed.

Lemma populate_record_eq done it m pe cs :
  blank -> (i0 = 1 -> log_record.payload_end m0 (log_block.records b 0) = 0) -> filled done m pe cs ->
  Forall (good_req lo hi) (done ++ [it]) -> no_clash (done ++ [it]) -> ends (done ++ [it]) <= P ->
  i0 + Z.of_nat (length done) < N -> exists m',
  populate_record b (i0 + Z.of_nat (length done)) it (m, pe, cs)
  = Ok (m', ends (done ++ [it]), adler_ref (datas m0 (done ++ [it])) ADLER32_CSUM_INIT) /\
  turn done it m m'.
Proof.
  intros HB H1 H Hg Hc He Hi.
  assert (bytes (data m0 it)) as Hbt by (apply bytes_get, HB).
  pose proof (after_turn_ok done it m pe cs HB H Hg He Hi Hbt) as HT.
  pose proof (data_now done it m pe cs HB H Hg Hc Hi) as Hd.
  pose proof Hg as [Hg1 Hg2]%Forall_app. apply Forall_cons in Hg2 as [Hg2 _].
  pose proof (ends_nonneg _ _ _ Hg1) as [He0 Hem]. pose proof (good_size _ _ _ Hg2) as Hs.
  pose proof (psize_eq _ _ _ Hg2) as Ep. pose proof (blank_P HB). pose proof (blank_N HB).
  rewrite ends_app, ends_one, datas_app, datas_one in *. pose proof (filled_pe _ _ _ _ H) as ->.
  pose proof (filled_cs _ _ _ _ H) as ->.
  rewrite adler_ref_app by (unfold fits, ADLER32_CSUM_INIT; lia).
  unfold populate_record. set (r := log_block.records b (i0 + Z.of_nat (length done))) in *.
  fold (has_payload it). destruct (has_payload it) eqn:Eh.
  - assert (log_record.set_size_align_bits (log_record.set_size_code (log_record.set_oid (log_record.set_fid
      (log_record.set_type m r (type it)) r (fid it)) r (oid it)) r (fat_ptr.size_code (payload_ptr it))) r
      (size_align_bits it) = write_head m r it) as -> by (unfold write_head, code_of, abits_of; by rewrite Eh).
    subst r. rewrite (store_eq done it m (ends done) _) by (done || lia). cbn [mbind res_bind].
    fold (src it). rewrite <- Ep, Hd.
    assert (log_block.payload_begin (after_store done it m) b = body) as ->.
    { unfold log_block.payload_begin. assert (log_block.nrec (after_store done it m) b = N) as ->; [|unfold body, log_block.records, log_record.sizeof; lia].
      rewrite <- (blank_nrec HB). destruct (head_split m) as [<- _]; [apply HB|apply H|]. apply rd_get_eq, get_ext.
      intros x Hx. rewrite after_store_in by (done || (unfold body; lia)). apply write_head_at.
      pose proof (blank_i0 HB). unfold log_block.records, log_record.sizeof. lia. }
    rewrite memcpy_ok; [|apply adler_ref_fits|done|].
    2:{ rewrite (good_align _ _ _ Hg2 Eh). unfold body. pose proof (blank_align HB).
        replace (b + 32 + 16 * N + ends done) with (b + ends done + (2 + N) * 16) by lia. rewrite Z.mod_add by lia.
        rewrite Z.add_mod, Hem by lia. by replace (b mod 16) with 0. }
    cbn [mbind res_bind]. rewrite (wrap_small 32) by (unfold fits; lia). eexists. split; [done|exact HT].
  - assert (psize it = 0) as E0 by (unfold psize; by rewrite Eh).
    assert (data m0 it = []) as E1 by (unfold data; by rewrite E0). rewrite E1, E0, Z.add_0_r in *.
    rewrite <- adler_ref_app, app_nil_r by (unfold fits, ADLER32_CSUM_INIT; lia).
    eexists. split; [reflexivity|]. eapply turn_ext; [exact HT|]. intros x. unfold after_turn, after_store.
    rewrite Eh, E0, E1, Z.add_0_r. cbn [andb]. unfold log_record.set_payload_end, wr.
    apply put_ext. intros y. rewrite put_out by (change (len []) with 0; lia).
    unfold write_head, code_of, abits_of. by rewrite Eh.
Qed.

Lemma no_clash_prefix l1 l2 : no_clash (l1 ++ l2) -> no_clash l1.
Proof.
  intros [H1 H2]. split.
  - intros x y Hx Hy. apply H1; apply elem_of_app; by left.
  - intros i j x y Hx Hy. apply H2; by apply lookup_app_l_Some.
Qed.

Lemma populate_records_ok reqs todo : forall done m pe cs,
  blank -> (i0 = 1 -> log_record.payload_end m0 (log_block.records b 0) = 0) -> filled done m pe cs ->
  Forall (good_req lo hi) (done ++ todo) -> no_clash (done ++ todo) -> ends (done ++ todo) <= P ->
  i0 + Z.of_nat (length (done ++ todo)) <= N ->
  (forall k it, todo !! k = Some it -> reqs (i0 + Z.of_nat (length done) + Z.of_nat k) = it) ->
  exists m', populate_records (length todo) reqs b (i0 + Z.of_nat (length done)) (m, pe, cs)
    = Ok (m', ends (done ++ todo), adler_ref (datas m0 (done ++ todo)) ADLER32_CSUM_INIT) /\
    filled (done ++ todo) m' (ends (done ++ todo)) (adler_ref (datas m0 (done ++ todo)) ADLER32_CSUM_INIT).
Proof.
  induction todo as [|it todo IH]; intros done m pe cs HB H1 H Hg Hc He Hi Hr.
  - rewrite app_nil_r in *. exists m. pose proof (filled_pe _ _ _ _ H) as <-. by rewrite <- (filled_cs _ _ _ _ H).
  - rewrite cons_middle, app_assoc in *. cbn [length populate_records].
    pose proof Hg as [Hg1 Hg3]%Forall_app. pose proof (no_clash_prefix _ _ Hc) as Hc1.
    assert (ends (done ++ [it]) <= P) as He1.
    { rewrite ends_app in He. pose proof (ends_nonneg _ _ _ Hg3). lia. }
    rewrite !length_app in Hi. cbn [length] in Hi.
    pose proof (Hr 0%nat it eq_refl) as Er. rewrite Z.add_0_r in Er. rewrite Er.
    destruct (populate_record_eq done it m pe cs) as (m' & -> & HT); [done..|lia|]. cbn [mbind res_bind].
    assert (bytes (datas m0 (done ++ [it]))) as Hb.
    { unfold bytes, datas. apply Forall_bind, Forall_forall. intros x _. apply bytes_get, HB. }
    pose proof (filled_turn done it m m' pe cs HB H HT Hg1 Hc1 He1 ltac:(lia) Hb) as H'.
    replace (i0 + Z.of_nat (length done) + 1) with (i0 + Z.of_nat (length (done ++ [it]))) by (rewrite length_app; cbn; lia).
    apply IH; [done..| |].
    + rewrite !length_app. cbn. lia.
    + intros k x Hk. rewrite length_app. cbn [length]. rewrite <- (Hr (S k) x Hk). f_equal. lia.
Qed.
End fill.
