(* ===== verification/TxLogSafe.v ===== *)
(** * A transaction's log block is what recovery expects

    From the staged requests to the committed block: [_populate_block] on a
    freshly formatted block, the invariant of the staging area, and commit. *)
From stdpp Require Import base numbers functions list.
From Stdlib Require Import ZArith Lia.
From S2P Require Import Prelude FatPtr SizeEncode Adler Bytes LogBlock TxLog TxLogSpec.

Local Open Scope Z_scope.

(** The first record that is not the link to an overflow block. *)
Definition first (t : tx_log) : Z := if LSN.neqb (_prev_overflow t) INVALID_LSN then 1 else 0.

Definition requests (t : tx_log) : list log_request :=
  tls_log_requests t <$> seqZ (first t) (_nreq t - first t).

(** The block at [b] in [m'], with LSN [l] and successor [n], holds the
    requests of [t]; [m] is the memory from which the payloads came. *)
Record holds (t : tx_log) (b : Z) (l n : LSN.t) (m m' : mem8) : Prop := {
  holds_sum : log_block.full_checksum m' b = Ok (log_block.checksum m' b);
  holds_nrec : log_block.nrec m' b = _nreq t;
  holds_lsn : log_block.lsn m' b = l;
  holds_next : log_block.next_lsn m' b = n;
  holds_end : log_block.payload_end m' b = b + log_block.size (_nreq t) (_payload_bytes t);
  holds_link : first t = 1 ->
    log_record.type m' (log_block.records b 0) = LOG_OVERFLOW /\
    log_record.size_code m' (log_block.records b 0) = INVALID_SIZE_CODE /\
    log_record.size_align_bits m' (log_block.records b 0) = 0 /\
    log_record.next_lsn m' (log_block.records b 0) = _prev_overflow t;
  holds_rec k it : requests t !! k = Some it ->
    let i := first t + Z.of_nat k in let r := log_block.records b i in
    log_record.type m' r = u8 (type it) /\ log_record.fid m' r = u32 (fid it) /\
    log_record.oid m' r = u32 (oid it) /\ log_record.size_code m' r = code_of it /\
    log_record.size_align_bits m' r = sext 16 (abits_of it) /\
    log_block.payload_size m' b i = Ok (psize it) /\
    (exists p, log_block.payload m' b i = Ok p /\ get m' p (psize it) = data m it /\
      log_block.payload_begin m' b <= p /\ p + psize it <= log_block.payload_end m' b) /\
    (has_payload it = true -> pdest it <> 0 -> exists l,
      log_block.payload_lsn m' b i = Ok l /\
      rd 8 m' (pdest it) = fat_ptr._ptr (lsn2ptr l (flagged (type it) LOG_FLAG_IS_EXT))) }.

(** The overflow link, before the loop. *)
Lemma link_get t b m m1 i a n :
  link_overflow t b m = (i, m1) -> apart a n (b + 16) 16 -> get m1 a n = get m a n.
Proof.
  unfold link_overflow, apart. intros E Ha. destruct (LSN.neqb _ _); simplify_eq; [|done].
  unfold log_block.records, log_record.sizeof. unfold_sets. by frame.
Qed.

Lemma link_at t b m m1 i x :
  link_overflow t b m = (i, m1) -> x < b + 16 \/ b + 32 <= x -> m1 x = m x.
Proof.
  unfold link_overflow. intros E Hx. destruct (LSN.neqb _ _); simplify_eq; [|done].
  unfold log_block.records, log_record.sizeof. unfold_sets. unfold wr. by rewrite !put_out by (rewrite len_le; lia).
Qed.

Lemma link_fst t b m : fst (link_overflow t b m) = first t.
Proof. unfold link_overflow, first. by destruct (LSN.neqb _ _). Qed.

Lemma link_wf t b m m1 i : link_overflow t b m = (i, m1) -> wf8 m -> wf8 m1.
Proof.
  unfold link_overflow. intros E H. destruct (LSN.neqb _ _); simplify_eq; [|done]. unfold_sets. auto 8 with bytes.
Qed.

Lemma link_rec t b m m1 i : link_overflow t b m = (i, m1) -> first t = 1 -> fits 64 (LSN._val (_prev_overflow t)) ->
  log_record.type m1 (log_block.records b 0) = LOG_OVERFLOW /\
  log_record.size_code m1 (log_block.records b 0) = INVALID_SIZE_CODE /\
  log_record.size_align_bits m1 (log_block.records b 0) = 0 /\
  log_record.payload_end m1 (log_block.records b 0) = 0 /\
  log_record.next_lsn m1 (log_block.records b 0) = _prev_overflow t.
Proof.
  unfold link_overflow, first. intros E H Hf. destruct (LSN.neqb _ _); simplify_eq.
  unfold log_record.type, log_record.size_code, log_record.size_align_bits, log_record.payload_end, log_record.next_lsn.
  unfold_sets. frame. rewrite !rd_wr_same.
  split_and!; [done..|]. rewrite wrap_small by done. by destruct (_prev_overflow t).
Qed.

(** A block as [allocate] returns it. *)
Record fresh (lo hi : Z) (t : tx_log) (b : Z) (m : mem8) : Prop := {
  fresh_wf : wf8 m;
  fresh_lo : lo <= b;
  fresh_hi : b + 32 + 16 * _nreq t + _payload_bytes t <= hi;
  fresh_align : b mod 16 = 0;
  fresh_nrec : log_block.nrec m b = _nreq t;
  fresh_end : log_record.payload_end m (log_block.records b (_nreq t)) = _payload_bytes t }.

(** The staging area: what [add_request] maintains. *)
Record staged (lo hi : Z) (t : tx_log) : Prop := {
  staged_nreq : first t <= _nreq t <= MAX_BLOCK_RECORDS;
  staged_lsn : fits 64 (LSN._val (_prev_overflow t));
  staged_bytes : _payload_bytes t = ends (requests t);
  staged_fits : log_block.wrapped_size (_nreq t) (_payload_bytes t) <= MAX_BLOCK_SIZE;
  staged_small : 0 <= _payload_bytes t < 2 ^ 31;
  staged_good : Forall (good_req lo hi) (requests t);
  staged_clash : no_clash (requests t) }.

Lemma first_range t : 0 <= first t <= 1.
Proof. unfold first. destruct (LSN.neqb _ _); lia. Qed.

Lemma length_requests lo hi t : staged lo hi t -> first t + Z.of_nat (length (requests t)) = _nreq t.
Proof. intros H. unfold requests. rewrite length_fmap, length_seqZ. pose proof (staged_nreq _ _ _ H). lia. Qed.

Lemma fresh_blank lo hi t b m m1 i :
  staged lo hi t -> fresh lo hi t b m -> link_overflow t b m = (i, m1) ->
  blank lo hi b (_nreq t) (_payload_bytes t) (first t) m1.
Proof.
  intros HS HF E. pose proof (first_range t) as Hf. destruct HF, (staged_nreq _ _ _ HS). unfold MAX_BLOCK_RECORDS in *.
  split; try done; try lia.
  - by eapply link_wf.
  - by apply (staged_small _ _ _ HS).
  - rewrite <- fresh_nrec0. eapply rd_get_eq, link_get; [done|]. unfold apart. lia.
  - assert (first t = 0 -> m1 = m) as Hm.
    { unfold link_overflow, first in *. intros. destruct (LSN.neqb _ _); by simplify_eq. }
    rewrite <- fresh_end0. destruct (Z.eq_dec (first t) 0) as [E0|]; [by rewrite Hm|].
    eapply rd_get_eq, link_get; [done|]. unfold apart, log_block.records, log_record.sizeof. lia.
Qed.

(** ** Reading the filled block *)

Section read.
Context (lo hi b N P i0 : Z) (m0 : mem8) (its : list log_request) (m : mem8).
Hypothesis HB : blank lo hi b N P i0 m0.
Hypothesis HF : filled b N P i0 m0 its m P (adler_ref (datas m0 its) ADLER32_CSUM_INIT).
Hypothesis Hg : Forall (good_req lo hi) its.

(** The checksum has been stored. *)
Definition m' (c : Z) : mem8 := log_block.set_checksum m b c.

Lemma sum_out c a n : b + 4 <= a \/ a + n <= b -> get (m' c) a n = get m a n.
Proof. intros H. unfold m', log_block.set_checksum. by frame. Qed.

Lemma final_nrec c : log_block.nrec (m' c) b = N.
Proof.
  rewrite <- (blank_nrec _ _ _ _ _ _ _ HB). destruct (head_split b i0 m0 m) as [<- _]; [apply HB|apply HF|].
  apply rd_get_eq, sum_out. lia.
Qed.

Lemma final_body c : log_block.payload_begin (m' c) b = body b N.
Proof. unfold log_block.payload_begin. rewrite final_nrec. unfold body, log_block.records, log_record.sizeof. lia. Qed.

Lemma final_skip c : get (m' c) (log_block.records b N) 16 = get m0 (log_block.records b N) 16.
Proof.
  rewrite sum_out; [apply HF|]. pose proof (blank_N _ _ _ _ _ _ _ HB). unfold log_block.records, log_record.sizeof. lia.
Qed.

Lemma final_end c : log_block.payload_end (m' c) b = body b N + P.
Proof.
  unfold log_block.payload_end. rewrite final_body, final_nrec. f_equal. rewrite <- (blank_end _ _ _ _ _ _ _ HB).
  pose proof (final_skip c) as E. apply (get_split _ _ _ 4 12) in E as [_ E]; [|lia..].
  apply (get_split _ _ _ 4 8) in E as [E _]; [|lia..]. by apply rd_get_eq.
Qed.

Lemma final_next c : log_block.next_lsn (m' c) b = log_record.next_lsn m0 (log_block.records b N).
Proof.
  unfold log_block.next_lsn, log_record.next_lsn. rewrite final_nrec. f_equal.
  pose proof (final_skip c) as E. apply (get_split _ _ _ 8 8) in E as [_ E]; [|lia..]. by apply rd_get_eq.
Qed.

(** The checksum that [_populate_block] computes is the one that recovery
    computes. *)
Lemma final_sum : exists c0, log_block.body_checksum m b = Ok c0 /\
  let c := adler32_merge c0 (adler_ref (datas m0 its) ADLER32_CSUM_INIT) P in
  fits 32 c /\ log_block.full_checksum (m' c) b = Ok (log_block.checksum (m' c) b).
Proof.
  assert (fits 32 ADLER32_CSUM_INIT) as F1 by (unfold fits, ADLER32_CSUM_INIT; lia).
  pose proof (blank_N _ _ _ _ _ _ _ HB). pose proof (blank_P _ _ _ _ _ _ _ HB).
  assert (log_block.payload_begin m b = body b N) as Eb.
  { unfold log_block.payload_begin. destruct (head_split b i0 m0 m) as [-> _]; [apply HB|apply HF|].
    rewrite (blank_nrec _ _ _ _ _ _ _ HB). unfold body, log_block.records, log_record.sizeof. lia. }
  unfold log_block.body_checksum, log_block.full_checksum, log_block.checksum_begin. rewrite Eb.
  set (l := get m (b + 4) (body b N - (b + 4))). exists (adler_ref l ADLER32_CSUM_INIT).
  assert (len (datas m0 its) = P) as El by (by rewrite (len_datas lo hi), <- (filled_pe _ _ _ _ _ _ _ _ _ HF)).
  assert (bytes (datas m0 its)) as Hb.
  { unfold bytes, datas. apply Forall_bind, Forall_forall. intros x _. apply bytes_get, HB. }
  rewrite adler32_ok by (done || apply bytes_get, HF). split; [done|]. set (c := adler32_merge _ _ _).
  assert (c = adler_ref (l ++ datas m0 its) ADLER32_CSUM_INIT) as Ec.
  { subst c. rewrite <- El at 1. apply merge_spec; [done..|lia]. }
  split; [rewrite Ec; apply adler_ref_fits|]. rewrite final_end.
  replace (body b N + P - (b + 4)) with (body b N - (b + 4) + P) by lia.
  rewrite get_app by (unfold body; lia). replace (b + 4 + (body b N - (b + 4))) with (body b N) by lia.
  rewrite !sum_out by (unfold body; lia). fold l. rewrite (filled_data _ _ _ _ _ _ _ _ _ HF).
  rewrite adler32_ok; [|done|apply Forall_app; split; [apply bytes_get, HF|done]].
  rewrite <- Ec. f_equal. unfold log_block.checksum, m', log_block.set_checksum. rewrite rd_wr_same.
  symmetry. apply wrap_small. rewrite Ec. apply adler_ref_fits.
Qed.

Hypothesis Hlen : i0 + Z.of_nat (length its) = N.
Hypothesis Hlink : i0 = 1 -> log_record.payload_end m0 (log_block.records b 0) = 0.

Lemma ends_take k : 0 <= ends (take k its) <= P.
Proof.
  assert (P = ends (take k its) + ends (drop k its)) as EP by (rewrite <- ends_app, take_drop; apply HF).
  pose proof (ends_nonneg lo hi (take k its)) as [? _]; [by apply Forall_take|].
  pose proof (ends_nonneg lo hi (drop k its)) as [? _]; [by apply Forall_drop|]. lia.
Qed.

Lemma final_record c k it : its !! k = Some it ->
  get (m' c) (log_block.records b (i0 + Z.of_nat k)) 16 = encode it (ends (take (S k) its)).
Proof.
  intros Hk. rewrite sum_out; [by apply HF|]. pose proof (blank_i0 _ _ _ _ _ _ _ HB).
  unfold log_block.records, log_record.sizeof. lia.
Qed.

Lemma final_offset c k : (k <= length its)%nat ->
  log_block.payload_offset (m' c) b (i0 + Z.of_nat k) = Ok (ends (take k its)).
Proof.
  intros Hk. unfold log_block.payload_offset. rewrite final_nrec. destruct (Z.leb_spec (i0 + Z.of_nat k) N); [|lia].
  cbn [negb throw_if mbind res_bind]. f_equal. pose proof (blank_i0 _ _ _ _ _ _ _ HB).
  pose proof (blank_P _ _ _ _ _ _ _ HB). pose proof (ends_take k).
  destruct k as [|k].
  - rewrite take_0. change (ends []) with 0. destruct (Z.eqb_spec (i0 + Z.of_nat 0) 0); [done|].
    assert (i0 = 1) as -> by lia. change (1 + Z.of_nat 0 - 1) with 0.
    transitivity (log_record.payload_end m0 (log_block.records b 0)); [|by apply Hlink].
    transitivity (log_record.payload_end m (log_block.records b 0)).
    + apply rd_get_eq, sum_out. unfold log_block.records, log_record.sizeof. lia.
    + destruct (head_split b 1 m0 m) as (_ & _ & E); [lia|apply HF|]. unfold log_block.records, log_record.sizeof.
      replace (b + 16 + 16 * 0) with (b + 16) by lia.
      apply (get_split _ _ _ 4 12) in E as [_ E]; [|lia..]. apply (get_split _ _ _ 4 8) in E as [E _]; [|lia..].
      by apply rd_get_eq.
  - destruct (Z.eqb_spec (i0 + Z.of_nat (S k)) 0); [lia|].
    replace (i0 + Z.of_nat (S k) - 1) with (i0 + Z.of_nat k) by lia.
    destruct (lookup_lt_is_Some_2 its k Hk) as [it Hit].
    apply (final_record c), record_fields in Hit as (_ & _ & _ & -> & _). apply wrap_small. unfold fits. lia.
Qed.

Lemma final_fields c k it : its !! k = Some it ->
  let i := i0 + Z.of_nat k in let r := log_block.records b i in
  log_record.type (m' c) r = u8 (type it) /\ log_record.fid (m' c) r = u32 (fid it) /\
  log_record.oid (m' c) r = u32 (oid it) /\ log_record.size_code (m' c) r = code_of it /\
  log_record.size_align_bits (m' c) r = sext 16 (abits_of it) /\ log_block.payload_size (m' c) b i = Ok (psize it) /\
  (exists p, log_block.payload (m' c) b i = Ok p /\ get (m' c) p (psize it) = data m0 it /\
    log_block.payload_begin (m' c) b <= p /\ p + psize it <= log_block.payload_end (m' c) b) /\
  (has_payload it = true -> pdest it <> 0 -> exists l, log_block.payload_lsn (m' c) b i = Ok l /\
    rd 8 (m' c) (pdest it) = fat_ptr._ptr (lsn2ptr l (flagged (type it) LOG_FLAG_IS_EXT))).
Proof.
  intros Hk i r. pose proof (lookup_lt_Some _ _ _ Hk) as Hlt.
  assert (good_req lo hi it) as Hgi by (by eapply Forall_lookup_1).
  pose proof (record_fields _ _ _ _ _ _ _ _ (final_record c k it Hk)) as (E1 & E2 & E3 & E4 & E5 & E6).
  rewrite (wrap_small 8) in E2 by apply code_fits.
  pose proof (final_offset c k ltac:(lia)) as Eo. pose proof (ends_take k). pose proof (ends_take (S k)).
  pose proof (blank_P _ _ _ _ _ _ _ HB). pose proof (blank_N _ _ _ _ _ _ _ HB). pose proof (good_size _ _ _ Hgi).
  pose proof (psize_eq _ _ _ Hgi) as Ep.
  assert (ends (take (S k) its) = ends (take k its) + psize it) as Es by (by rewrite (take_S_r _ _ it), ends_app, ends_one).
  split_and!; [done..| | |].
  - unfold log_block.payload_size. rewrite final_nrec. destruct (Z.leb_spec i N); [|subst i; lia].
    cbn [negb throw_if mbind res_bind]. subst i. rewrite Eo. cbn [mbind res_bind]. rewrite E4. f_equal.
    rewrite !wrap_small; [lia|unfold fits; lia..|]. rewrite wrap_small by (unfold fits; lia). unfold fits. lia.
  - exists (body b N + ends (take k its)). split.
    + unfold log_block.payload. subst i. rewrite Eo, final_body. done.
    + rewrite final_body, final_end. split; [|lia]. rewrite sum_out by (unfold body; lia). pose proof (filled_data _ _ _ _ _ _ _ _ _ HF) as Ed.
      rewrite <- (take_drop k its), datas_app in Ed. rewrite (drop_S its it k Hk) in Ed.
      change (datas m0 (it :: drop (S k) its)) with (data m0 it ++ datas m0 (drop (S k) its)) in Ed.
      replace P with (ends (take k its) + (psize it + (P - ends (take (S k) its)))) in Ed by lia.
      rewrite !get_app in Ed by lia. apply app_inj_len in Ed as [_ Ed].
      2:{ rewrite len_get, (len_datas lo hi) by (lia || by apply Forall_take). done. }
      apply app_inj_len in Ed as [Ed _]; [done|]. unfold data. by rewrite !len_get by lia.
  - intros Eh En. eexists. split.
    + unfold log_block.payload_lsn, log_block.payload. subst i. rewrite Eo. cbn [mbind res_bind]. reflexivity.
    + pose proof (good_dest _ _ _ Hgi En) as Ha. unfold apart in Ha.
      pose proof (blank_lo _ _ _ _ _ _ _ HB). pose proof (blank_hi _ _ _ _ _ _ _ HB).
      rewrite (rd_get_eq 8 (m' c) m) by (apply sum_out; unfold body in *; change (Z.of_nat 8) with 8; lia).
      rewrite (filled_dests _ _ _ _ _ _ _ _ _ HF k it Hk Eh En). do 2 f_equal. unfold place.
      rewrite final_body. fold r. rewrite E2.
      assert (log_block.lsn (m' c) b = log_block.lsn m0 b) as ->.
      { destruct (head_split b i0 m0 m) as (_ & <- & _); [apply HB|apply HF|]. unfold log_block.lsn. f_equal.
        apply rd_get_eq, sum_out. lia. }
      do 2 f_equal. lia.
Qed.
End read.

(** ** [_populate_block] *)

Lemma filled_start b N P i0 m0 : wf8 m0 -> filled b N P i0 m0 [] m0 0 ADLER32_CSUM_INIT.
Proof. intros H. by split. Qed.

Lemma data_link lo hi t b m m1 i it :
  link_overflow t b m = (i, m1) -> good_req lo hi it -> lo <= b -> b + 32 <= hi -> data m1 it = data m it.
Proof.
  intros E Hg Hlo Hhi. unfold data, psize. destruct (has_payload it) eqn:Eh; [|done].
  apply get_ext. intros x Hx. apply (link_at _ _ _ _ _ _ E). pose proof (good_src _ _ _ Hg Eh) as Ha.
  unfold apart in Ha. lia.
Qed.

Lemma populate_ok lo hi t b m :
  staged lo hi t -> fresh lo hi t b m -> exists m',
    _populate_block t b m = Ok m' /\ holds t b (log_block.lsn m b) (log_block.next_lsn m b) m m' /\ wf8 m' /\
    (forall x, x < b \/ b + 32 + 16 * _nreq t + _payload_bytes t <= x -> ~ in_dest (requests t) x -> m' x = m x).
Proof.
  intros HS HF. unfold _populate_block. destruct (link_overflow t b m) as [i m1] eqn:E.
  assert (i = first t) as -> by (rewrite <- (link_fst t b m); by rewrite E).
  pose proof (fresh_blank _ _ _ _ _ _ _ HS HF E) as HB. pose proof (first_range t) as Hf.
  pose proof (length_requests _ _ _ HS) as Hlen. pose proof (staged_nreq _ _ _ HS) as Hn.
  assert (first t = 1 -> log_record.payload_end m1 (log_block.records b 0) = 0) as Hlink.
  { intros H1. by apply (link_rec t b m m1 _ E H1), (staged_lsn _ _ _ HS). }
  destruct (populate_records_ok lo hi b (_nreq t) (_payload_bytes t) (first t) m1 (tls_log_requests t) (requests t)
    [] m1 0 ADLER32_CSUM_INIT HB Hlink) as (m2 & E2 & H2).
  { apply filled_start, HB. }
  { apply (staged_good _ _ _ HS). } { apply (staged_clash _ _ _ HS). }
  { cbn [app]. rewrite (staged_bytes _ _ _ HS). done. } { cbn [app]. lia. }
  { intros k it Hk. unfold requests in Hk. rewrite list_lookup_fmap in Hk. apply fmap_Some in Hk as (j & Hj & ->).
    apply lookup_seqZ in Hj as [-> _]. cbn [length]. f_equal. lia. }
  cbn [app length] in *. rewrite Z.add_0_r in E2.
  replace (Z.to_nat (_nreq t - first t)) with (length (requests t)) by lia. rewrite E2. cbn [mbind res_bind].
  rewrite <- (staged_bytes _ _ _ HS) in *.
  destruct (final_sum lo hi b (_nreq t) (_payload_bytes t) (first t) m1 (requests t) m2 HB H2 (staged_good _ _ _ HS))
    as (c0 & Ec0 & Hc & Hsum). rewrite Ec0. cbn [mbind res_bind].
  set (c := adler32_merge c0 (adler_ref (datas m1 (requests t)) ADLER32_CSUM_INIT) (_payload_bytes t)) in *.
  change (log_block.set_checksum m2 b c) with (m' b m2 c). eexists. split; [done|].
  assert (b + 32 <= hi) as Hhi by (pose proof (fresh_hi _ _ _ _ _ HF); pose proof (staged_small _ _ _ HS); lia).
  pose proof (fresh_lo _ _ _ _ _ HF) as Hlo. destruct (head_split b (first t) m1 m2) as (_ & El & E0); [lia|apply H2|].
  split; [split|split].
  - exact Hsum.
  - by eapply final_nrec.
  - transitivity (log_block.lsn m2 b); [|rewrite El]; unfold log_block.lsn; f_equal.
    + apply rd_get_eq, sum_out. lia.
    + eapply rd_get_eq, link_get; [exact E|]. unfold apart. lia.
  - rewrite (final_next _ _ _ _ _ _ _ _ _ HB H2). unfold log_block.next_lsn, log_record.next_lsn.
    rewrite (fresh_nrec _ _ _ _ _ HF). f_equal. apply rd_get_eq. destruct (Z.eq_dec (first t) 0) as [Z0|Z0].
    + unfold link_overflow, first in *. by destruct (LSN.neqb _ _); simplify_eq.
    + eapply link_get; [exact E|]. unfold apart, log_block.records, log_record.sizeof. lia.
  - rewrite (final_end _ _ _ _ _ _ _ _ _ HB H2). unfold body, log_block.size, log_block.records, log_record.sizeof.
    pose proof (staged_small _ _ _ HS). unfold MAX_BLOCK_RECORDS in *. rewrite wrap_small by (unfold fits; lia). lia.
  - intros H1. destruct (link_rec t b m m1 _ E H1 (staged_lsn _ _ _ HS)) as (L1 & L2 & L3 & _ & L4).
    rewrite H1 in E0. replace (b + 16) with (log_block.records b 0) in E0 by (unfold log_block.records, log_record.sizeof; lia).
    assert (get (m' b m2 c) (log_block.records b 0) 16 = get m1 (log_block.records b 0) 16) as E3.
    { rewrite sum_out; [exact E0|]. unfold log_block.records, log_record.sizeof. lia. }
    split_and!; [rewrite <- L1|rewrite <- L2|etransitivity; [|exact L3]|rewrite <- L4].
    + apply (get_split _ _ _ 1 15) in E3 as [E3 _]; [|lia..]. by apply rd_get_eq.
    + apply (get_split _ _ _ 1 15) in E3 as [_ E3]; [|lia..]. apply (get_split _ _ _ 1 14) in E3 as [E3 _]; [|lia..].
      by apply rd_get_eq.
    + apply (get_split _ _ _ 2 14) in E3 as [_ E3]; [|lia..]. apply (get_split _ _ _ 2 12) in E3 as [E3 _]; [|lia..].
      unfold log_record.size_align_bits. f_equal. by apply rd_get_eq.
    + apply (get_split _ _ _ 8 8) in E3 as [_ E3]; [|lia..]. unfold log_record.next_lsn. f_equal. by apply rd_get_eq.
  - intros k it Hk. rewrite <- (data_link lo hi t b m m1 _ it E) by (done || by eapply Forall_lookup_1, Hk; apply HS).
    eapply final_fields; [exact HB|exact H2|apply HS|exact Hlen|exact Hlink|exact Hk].
  - unfold m', log_block.set_checksum. apply wf8_wr, H2.
  - intros x Hx Hx'. unfold m', log_block.set_checksum, wr.
    rewrite put_out by (rewrite len_le; pose proof (staged_small _ _ _ HS); lia).
    rewrite (filled_out _ _ _ _ _ _ _ _ _ H2) by (done || (unfold body; lia)).
    apply (link_at _ _ _ _ _ _ E). pose proof (staged_small _ _ _ HS). lia.
Qed.

(** Only the block itself and the [pdest]s matter. *)
Lemma holds_frame lo hi t b l n m m' m'' :
  staged lo hi t -> holds t b l n m m' ->
  (forall x, b <= x < b + log_block.size (_nreq t) (_payload_bytes t) -> m'' x = m' x) ->
  (forall x, in_dest (requests t) x -> m'' x = m' x) ->
  holds t b l n m m''.
Proof.
  intros HS [H1 H2 H3 H4 H5 H6 H7] Hb Hd. pose proof (staged_nreq _ _ _ HS) as Hn. pose proof (first_range t) as Hf.
  pose proof (staged_small _ _ _ HS) as Hs. pose proof (length_requests _ _ _ HS) as Hlen.
  assert (log_block.size (_nreq t) (_payload_bytes t) = 32 + 16 * _nreq t + _payload_bytes t) as Es.
  { unfold log_block.size, log_block.records, log_record.sizeof. unfold MAX_BLOCK_RECORDS in *. rewrite wrap_small by (unfold fits; lia). lia. }
  rewrite Es in *.
  assert (forall k a, b <= a -> a + Z.of_nat k <= b + (32 + 16 * _nreq t + _payload_bytes t) -> rd k m'' a = rd k m' a) as Hr.
  { intros k a Ha1 Ha2. apply rd_get_eq, get_ext. intros x Hx. apply Hb. lia. }
  assert (forall i, 0 <= i <= _nreq t -> log_record.payload_end m'' (log_block.records b i)
    = log_record.payload_end m' (log_block.records b i)) as Epe.
  { intros i Hi. unfold log_record.payload_end, log_block.records, log_record.sizeof. apply Hr; lia. }
  assert (log_block.nrec m'' b = log_block.nrec m' b) as En by (apply Hr; lia).
  assert (log_block.lsn m'' b = log_block.lsn m' b) as El by (unfold log_block.lsn; f_equal; apply Hr; lia).
  assert (log_block.payload_begin m'' b = log_block.payload_begin m' b) as Eb by (unfold log_block.payload_begin; by rewrite En).
  assert (log_block.payload_end m'' b = log_block.payload_end m' b) as Ee.
  { unfold log_block.payload_end. by rewrite Eb, En, H2, Epe by lia. }
  assert (forall i, 0 <= i <= _nreq t -> log_block.payload_offset m'' b i = log_block.payload_offset m' b i) as Eo.
  { intros i Hi. unfold log_block.payload_offset. rewrite En. destruct (Z.eqb_spec i 0); [done|]. by rewrite Epe by lia. }
  assert (forall i, 0 <= i <= _nreq t -> log_block.payload m'' b i = log_block.payload m' b i) as Ep.
  { intros i Hi. unfold log_block.payload. by rewrite Eo, Eb by lia. }
  split.
  - unfold log_block.checksum. rewrite Hr by lia. fold (log_block.checksum m' b). rewrite <- H1.
    unfold log_block.full_checksum. rewrite Ee, H5. f_equal. apply get_ext. unfold log_block.checksum_begin.
    intros x Hx. apply Hb. lia.
  - by rewrite En.
  - by rewrite El.
  - rewrite <- H4. unfold log_block.next_lsn, log_record.next_lsn. rewrite En, H2. f_equal.
    apply Hr; unfold log_block.records, log_record.sizeof; lia.
  - by rewrite Ee, Es.
  - intros E1. destruct (H6 E1) as (L1 & L2 & L3 & L4).
    rewrite <- L1, <- L2, <- L4. revert L3. unfold log_record.type, log_record.size_code, log_record.size_align_bits, log_record.next_lsn, log_block.records, log_record.sizeof.
    intros L3. split_and!; [| |etransitivity; [|exact L3]; f_equal|f_equal]; apply Hr; lia.
  - intros k it Hk i r. pose proof (lookup_lt_Some _ _ _ Hk) as Hlt.
    destruct (H7 k it Hk) as (R1 & R2 & R3 & R3a & R3b & R4 & (p & R5 & R6 & R7 & R8) & R9). fold i r in R1, R2, R3, R3a, R3b, R4, R5, R9.
    assert (0 <= i < _nreq t) as Hi by (subst i; lia).
    assert (good_req lo hi it) as Hgi by (eapply Forall_lookup_1; [apply HS|done]).
    unfold log_record.type, log_record.fid, log_record.oid, log_record.size_code, log_record.size_align_bits, log_block.payload_size in *.
    rewrite !Hr by (subst r; unfold log_block.records, log_record.sizeof; lia).
    rewrite En, Eo, Ep by lia. fold r in R4 |- *. unfold r at 6. rewrite Epe by lia.
    split_and!; [done..| |].
    + exists p. rewrite Eb, Ee. split_and!; [done| |done..]. rewrite <- R6. apply get_ext. intros x Hx. apply Hb.
      pose proof (good_size _ _ _ Hgi). rewrite (psize_eq _ _ _ Hgi) in *. revert R7. unfold log_block.payload_begin.
      rewrite H2. unfold log_block.records, log_record.sizeof. lia.
    + intros Eh Ed. destruct (R9 Eh Ed) as (q & Q1 & Q2). exists q. split.
      * rewrite <- Q1. unfold log_block.payload_lsn, log_record.size_code. rewrite Ep, El by lia.
        fold r. rewrite (Hr 1%nat (r + 1)) by (subst r; unfold log_block.records, log_record.sizeof; lia). done.
      * rewrite <- Q2. apply rd_get_eq, get_ext. intros x Hx. apply Hd. exists it.
        split_and!; [by eapply list_elem_of_lookup_2|done..|lia|change (Z.of_nat 8) with 8 in *; lia].
Qed.
