(* ===== verification/TxLogCommit.v ===== *)
(** * Staging, spilling and committing a transaction's log

    The operations of the transaction's log keep its invariant, and what they
    release to the log is readable: the committed block, and every overflow
    block on the way. *)
From stdpp Require Import base numbers functions list.
From Stdlib Require Import ZArith Lia.
From S2P Require Import Prelude FatPtr SizeEncode Adler Bytes LogBlock TxLog TxLogSpec TxLogSafe.

Local Open Scope Z_scope.

Lemma block_bytes_eq n p : 0 <= n < 2 ^ 31 -> 0 <= p < 2 ^ 32 -> log_block.size n p = 32 + 16 * n + p.
Proof.
  intros. unfold log_block.size, log_block.records, log_record.sizeof. rewrite wrap_small by (unfold fits; lia). lia.
Qed.

Lemma wrapped_eq n p : 0 <= n < 2 ^ 31 -> 0 <= p < 2 ^ 31 -> log_block.wrapped_size n p = 64 + 16 * n + p.
Proof.
  intros. unfold log_block.wrapped_size. rewrite (block_bytes_eq n p) by lia.
  unfold log_block.size, log_block.records, log_record.sizeof. rewrite wrap_small by (unfold fits; lia). lia.
Qed.

Lemma skip_fields m r next p h : fits 32 p -> fits 64 (LSN._val next) ->
  log_record.payload_end (fill_skip_record m r next p h) r = p /\
  log_record.next_lsn (fill_skip_record m r next p h) r = next /\
  log_record.size_code (fill_skip_record m r next p h) r = INVALID_SIZE_CODE.
Proof.
  intros Hp Hn. unfold fill_skip_record, log_record.payload_end, log_record.next_lsn, log_record.size_code.
  unfold_sets. frame. rewrite !rd_wr_same, !wrap_small by done. by destruct next.
Qed.

Lemma skip_out m r next p h x : x < r \/ r + 16 <= x -> fill_skip_record m r next p h x = m x.
Proof. intros H. unfold fill_skip_record. unfold_sets. unfold wr. by rewrite !put_out by (rewrite len_le; lia). Qed.

Lemma skip_wf m r next p h : wf8 m -> wf8 (fill_skip_record m r next p h).
Proof. intros. unfold fill_skip_record. unfold_sets. auto 8 with bytes. Qed.

(** ** Formatting *)

Section format.
Context (m : mem8) (b : Z) (l next : LSN.t) (n p : Z).
Hypothesis Hn : 0 <= n < 2 ^ 31.
Hypothesis Hp : fits 32 p.
Hypothesis Hl : fits 64 (LSN._val l).
Hypothesis Hx : fits 64 (LSN._val next).

Lemma format_out x : x < b \/ b + 32 + 16 * n <= x -> format_block m b l n next p x = m x.
Proof.
  intros H. unfold format_block. rewrite skip_out by (unfold log_block.records, log_record.sizeof; lia).
  unfold_sets. unfold wr. by rewrite !put_out by (rewrite len_le; lia).
Qed.

Lemma format_wf : wf8 m -> wf8 (format_block m b l n next p).
Proof. intros. unfold format_block. apply skip_wf. unfold_sets. auto with bytes. Qed.

Lemma format_fields :
  log_block.nrec (format_block m b l n next p) b = n /\
  log_record.payload_end (format_block m b l n next p) (log_block.records b n) = p /\
  log_block.lsn (format_block m b l n next p) b = l /\
  log_block.next_lsn (format_block m b l n next p) b = next /\
  log_record.size_code (format_block m b l n next p) (log_block.records b n) = INVALID_SIZE_CODE.
Proof.
  assert (forall k a, a + Z.of_nat k <= b + 16 -> rd k (format_block m b l n next p) a
    = rd k (log_block.set_nrec (log_block.set_lsn m b l) b n) a) as Hh.
  { intros k a Ha. apply rd_get_eq, get_ext. intros x Hx'. unfold format_block. apply skip_out.
    unfold log_block.records, log_record.sizeof. lia. }
  assert (log_block.nrec (format_block m b l n next p) b = n) as En.
  { unfold log_block.nrec. rewrite Hh by lia. unfold_sets. rewrite rd_wr_same. apply wrap_small. unfold fits. lia. }
  unfold log_block.next_lsn. rewrite En. split_and!; [done|by apply skip_fields| |by apply skip_fields..].
  unfold log_block.lsn. rewrite Hh by lia. unfold_sets. frame. rewrite rd_wr_same, wrap_small by done. by destruct l.
Qed.
End format.

(** ** The invariant *)

Definition total (l : list Z) : Z := foldr Z.add 0 l.

Lemma total_app l1 l2 : total (l1 ++ l2) = total l1 + total l2.
Proof. unfold total. induction l1 as [|x l IH]; cbn; lia. Qed.

(** Log space is handed out in [[lo, hi)], aligned and without overlap, as long
    as there is enough of it. *)
Definition sizes (lo hi : Z) (l : list Z) : Prop :=
  Forall (fun z => 32 <= z <= MAX_BLOCK_SIZE /\ z mod 16 = 0) l /\ total l <= hi - lo.

Class LogSpaceLaws (lo hi : Z) `{LS : LogSpace} : Prop := {
  grant_in hist sz b l next : grant hist sz = (b, l, next) -> sizes lo hi (hist ++ [sz]) ->
    lo <= b /\ b + sz <= hi /\ b mod 16 = 0 /\ fits 64 (LSN._val l) /\ fits 64 (LSN._val next);
  grant_apart hist sz b l next hist' sz' b' l' next' :
    grant hist sz = (b, l, next) -> grant hist' sz' = (b', l', next') ->
    hist ++ [sz] `prefix_of` hist' -> sizes lo hi (hist' ++ [sz']) -> apart b sz b' sz' }.

Section staging.
Context (lo hi : Z) `{LL : LogSpaceLaws lo hi}.

(** Ready for more requests, with space for [k] more blocks. *)
Record ready (k : nat) (s : st) : Prop := {
  ready_used : tls_log_space_used s = true;
  ready_wf : wf8 (mem s);
  ready_block : _commit_block (tx s) = NoBlock;
  ready_staged : staged lo hi (tx s);
  ready_sizes : sizes lo hi (granted s);
  ready_room : total (granted s) + Z.of_nat k * MAX_BLOCK_SIZE <= hi - lo }.

(** Allocation changes nothing that a request refers to. *)
Lemma data_kept m m' it : good_req lo hi it -> (forall x, x < lo \/ hi <= x -> m' x = m x) -> data m' it = data m it.
Proof.
  intros Hg H. unfold data, psize. destruct (has_payload it) eqn:Eh; [|done]. apply get_ext. intros x Hx.
  pose proof (good_src _ _ _ Hg Eh) as Ha. unfold apart in Ha. apply H. lia.
Qed.

Lemma holds_data t b l n m1 m m' :
  staged lo hi t -> holds t b l n m1 m' -> (forall x, x < lo \/ hi <= x -> m1 x = m x) -> holds t b l n m m'.
Proof.
  intros HS [H1 H2 H3 H4 H5 H6 H7] H. split; try done.
  intros k it Hk. rewrite <- (data_kept m m1 it); [by apply H7| |done]. eapply Forall_lookup_1; [apply HS|done].
Qed.

Lemma ready_more k s sz :
  ready (S k) s -> 32 <= sz <= MAX_BLOCK_SIZE -> sz mod 16 = 0 ->
  sizes lo hi (granted s ++ [sz]) /\ total (granted s ++ [sz]) + Z.of_nat k * MAX_BLOCK_SIZE <= hi - lo.
Proof.
  intros HR Hs Hm. pose proof (ready_room _ _ HR) as Hr. destruct (ready_sizes _ _ HR) as [Hf _]. unfold sizes.
  rewrite total_app. change (total [sz]) with (sz + 0). unfold MAX_BLOCK_SIZE in *.
  split; [|lia]. split; [|lia]. apply Forall_app. split; [done|]. by apply Forall_singleton.
Qed.

Lemma alloc_ok k s n p b s1 :
  allocate n p s = (b, s1) -> ready (S k) s -> 0 <= n <= MAX_BLOCK_RECORDS -> 0 <= p -> p mod 16 = 0 ->
  32 + 16 * n + p <= MAX_BLOCK_SIZE ->
  exists l next,
    s1 = mk_st (format_block (mem s) b l n next p) (tx s) true (granted s ++ [32 + 16 * n + p]) (released s) /\
    grant (granted s) (32 + 16 * n + p) = (b, l, next) /\ lo <= b /\ b + 32 + 16 * n + p <= hi /\ b mod 16 = 0 /\
    fits 64 (LSN._val l) /\ fits 64 (LSN._val next) /\ wf8 (mem s1) /\
    sizes lo hi (granted s1) /\ total (granted s1) + Z.of_nat k * MAX_BLOCK_SIZE <= hi - lo /\
    (forall x, x < b \/ b + 32 + 16 * n <= x -> mem s1 x = mem s x).
Proof.
  unfold allocate. intros E HR Hn Hp Hm Hs. unfold MAX_BLOCK_RECORDS in *.
  rewrite block_bytes_eq in E by (unfold MAX_BLOCK_SIZE in *; lia). destruct (grant _ _) as [[b' l] next] eqn:Eg. simplify_eq.
  destruct (ready_more k s (32 + 16 * n + p) HR) as [Hz Hr]; [lia| |].
  { replace (32 + 16 * n + p) with (p + (2 + n) * 16) by lia. by rewrite Z.mod_add by lia. }
  destruct (grant_in _ _ _ _ _ Eg Hz) as (Hlo & Hhi & Hal & Hl & Hx).
  exists l, next. rewrite (ready_used _ _ HR). split; [done|]. cbn [mem granted]. do 6 (split; [done || lia|]).
  split; [apply format_wf, HR|]. do 2 (split; [done|]). intros x Hx'. apply format_out; lia.
Qed.

(** The block that [allocate] returns for the staged requests. *)
Lemma alloc_fresh k s b s1 :
  ready (S k) s -> allocate (u32 (_nreq (tx s))) (_payload_bytes (tx s)) s = (b, s1) -> exists l next,
    let sz := log_block.size (_nreq (tx s)) (_payload_bytes (tx s)) in
    s1 = mk_st (mem s1) (tx s) true (granted s ++ [sz]) (released s) /\
    fresh lo hi (tx s) b (mem s1) /\ log_block.lsn (mem s1) b = l /\ log_block.next_lsn (mem s1) b = next /\
    grant (granted s) sz = (b, l, next) /\ sizes lo hi (granted s ++ [sz]) /\
    (forall x, x < b \/ b + sz <= x -> mem s1 x = mem s x).
Proof.
  intros HR E. pose proof (ready_staged _ _ HR) as HS. pose proof (staged_nreq _ _ _ HS) as Hn.
  pose proof (first_range (tx s)). pose proof (staged_small _ _ _ HS) as Hs. pose proof (staged_fits _ _ _ HS) as Hf.
  unfold MAX_BLOCK_RECORDS in Hn. rewrite wrapped_eq in Hf by lia. rewrite (wrap_small 32) in E by (unfold fits; lia).
  rewrite block_bytes_eq by lia. assert (_payload_bytes (tx s) mod 16 = 0) as Hm.
  { rewrite (staged_bytes _ _ _ HS). apply (ends_nonneg lo hi), HS. }
  apply (alloc_ok k) in E as (l & next & -> & Eg & Hlo & Hhi & Hal & Hl & Hx & Hw & Hz & _ & Ho);
    [|done|unfold MAX_BLOCK_RECORDS; lia|lia|done|lia].
  cbn [mem granted] in *. exists l, next.
  destruct (format_fields (mem s) b l next (_nreq (tx s)) (_payload_bytes (tx s))) as (E1 & E2 & E3 & E4 & _);
    [lia|unfold fits; lia|done..|].
  split_and!; [done|by split|done..|]. intros x Hx'. apply Ho. lia.
Qed.

(** ** Spilling *)

Lemma put_swap (m : mem8) a l1 b l2 x :
  apart a (len l1) b (len l2) -> put (put m a l1) b l2 x = put (put m b l2) a l1 x.
Proof.
  unfold put, apart. intros H.
  destruct (Z.leb_spec b x), (Z.ltb_spec x (b + len l2)), (Z.leb_spec a x), (Z.ltb_spec x (a + len l1)); cbn [andb]; done || lia.
Qed.

Lemma skip_ext m m' r next p h x :
  (forall x, m x = m' x) -> fill_skip_record m r next p h x = fill_skip_record m' r next p h x.
Proof. intros E. unfold fill_skip_record. unfold_sets. unfold wr. by do 5 (apply put_ext; clear x; intros x). Qed.

(** The inner block is formatted like an allocated one. *)
Lemma inner_format m b l n next p x :
  fill_skip_record (log_block.set_lsn (log_block.set_nrec m b n) b l) (log_block.records b n) next p false x
  = format_block m b l n next p x.
Proof.
  unfold format_block. apply skip_ext. intros y. unfold_sets. unfold wr. apply put_swap. unfold apart. rewrite !len_le. lia.
Qed.

Lemma fresh_ext t b m m' : fresh lo hi t b m -> (forall x, m' x = m x) -> fresh lo hi t b m'.
Proof.
  intros [H1 H2 H3 H4 H5 H6] E. split; try done.
  - intros x. by rewrite E.
  - rewrite <- H5. by apply rd_get_eq, get_ext.
  - rewrite <- H6. by apply rd_get_eq, get_ext.
Qed.

Lemma lsn_make_fits v g c : fits 8 c -> fits 64 (LSN._val (LSN.make v g c)).
Proof.
  intros [Hc1 Hc2]. unfold LSN.make. cbn [LSN._val]. repeat apply lor_fits; try lia; [apply wrap_fits; lia..|].
  unfold fits. lia.
Qed.

Lemma lsn_make_valid v g : LSN.neqb (LSN.make v g INVALID_SIZE_CODE) INVALID_LSN = true.
Proof.
  unfold LSN.neqb, LSN.eqb, LSN.make, INVALID_LSN. cbn [LSN._val]. apply negb_true_iff, Z.eqb_neq. intros E.
  apply (f_equal (fun z => Z.testbit z 0)) in E. rewrite Z.lor_spec, orb_comm in E. done.
Qed.

(** The block inside an empty one. *)
Lemma nested m b l :
  log_block.nrec m b = 0 -> log_block.lsn m b = l ->
  log_record.size_code m (log_block.records b 0) = INVALID_SIZE_CODE ->
  log_block.payload m b 0 = Ok (b + 32) /\
  log_block.payload_lsn m b 0 = Ok (LSN.make (u64 (LSN.offset l + 32)) (LSN.segment l) INVALID_SIZE_CODE).
Proof.
  intros H1 H2 H3. assert (log_block.payload m b 0 = Ok (b + 32)) as E.
  { unfold log_block.payload, log_block.payload_offset, log_block.payload_begin. rewrite H1.
    cbn [negb Z.leb Z.compare throw_if mbind res_bind Z.eqb]. f_equal. unfold log_block.records, log_record.sizeof. lia. }
  split; [done|]. unfold log_block.payload_lsn. rewrite E. cbn [mbind res_bind]. rewrite H2, H3. do 3 f_equal. lia.
Qed.

Lemma in_dest_out its x : Forall (good_req lo hi) its -> in_dest its x -> x < lo \/ hi <= x.
Proof.
  intros Hg (it & Hin & _ & Hd & Hx). rewrite Forall_forall in Hg. pose proof (good_dest _ _ _ (Hg _ Hin) Hd) as Ha.
  unfold apart in Ha. lia.
Qed.

Lemma body_checksum_ok m b : wf8 m -> exists c, log_block.body_checksum m b = Ok c.
Proof.
  intros H. unfold log_block.body_checksum. eexists. apply adler32_ok; [by split|by apply bytes_get].
Qed.

Lemma set_checksum_at m b c x : x < b \/ b + 4 <= x -> log_block.set_checksum m b c x = m x.
Proof. intros H. unfold log_block.set_checksum, wr. apply put_out. rewrite len_le. lia. Qed.

(** Filling the inner block, and then the checksum of the outer one. *)
Lemma spill_inner t m b il :
  staged lo hi t -> wf8 m -> lo <= b -> b + 64 + 16 * _nreq t + _payload_bytes t <= hi -> b mod 16 = 0 ->
  fits 64 (LSN._val il) -> exists m',
  _populate_block t (b + 32) (fill_skip_record
    (log_block.set_lsn (log_block.set_nrec m (b + 32) (_nreq t)) (b + 32) il)
    (log_block.records (b + 32) (_nreq t)) INVALID_LSN (_payload_bytes t) false) = Ok m' /\ wf8 m' /\
  (forall c, holds t (b + 32) il INVALID_LSN m (log_block.set_checksum m' b c)) /\
  (forall x, x < b + 32 \/ b + 64 + 16 * _nreq t + _payload_bytes t <= x -> ~ in_dest (requests t) x -> m' x = m x).
Proof.
  intros HS Hm Hlo Hhi Hal Hil. pose proof (staged_nreq _ _ _ HS) as Hn.
  pose proof (first_range t) as Hf. pose proof (staged_small _ _ _ HS) as Hs. unfold MAX_BLOCK_RECORDS in Hn.
  set (m5 := fill_skip_record _ _ _ _ _).
  destruct (format_fields m (b + 32) il INVALID_LSN (_nreq t) (_payload_bytes t)) as (G1 & G2 & G3 & G4 & _);
    [lia|unfold fits; lia|done|by split|].
  assert (forall x, m5 x = format_block m (b + 32) il (_nreq t) INVALID_LSN (_payload_bytes t) x) as H5
    by apply inner_format.
  assert (fresh lo hi t (b + 32) m5) as HF.
  { eapply fresh_ext; [|exact H5]. split; [by apply format_wf|lia|lia| |done|done].
    replace 32 with (2 * 16) by done. by rewrite Z.mod_add by lia. }
  destruct (populate_ok lo hi t (b + 32) m5 HS HF) as (m6 & -> & Hh & W6 & O6).
  exists m6. split; [done|]. split; [done|]. split.
  - intros c. assert (log_block.lsn m5 (b + 32) = il /\ log_block.next_lsn m5 (b + 32) = INVALID_LSN) as [Q1 Q2].
    { split; (etransitivity; [|eassumption]); unfold log_block.lsn, log_block.next_lsn, log_record.next_lsn, log_block.nrec;
        f_equal; [by apply rd_get_eq, get_ext|].
      rewrite (rd_get_eq 4 m5 _ _ (get_ext _ _ _ _ (fun x _ => H5 x))). by apply rd_get_eq, get_ext. }
    rewrite Q1, Q2 in Hh. eapply holds_data; [done| |].
    + eapply holds_frame; [exact HS|exact Hh| |]; intros x Hx; apply set_checksum_at; [lia|].
      apply in_dest_out in Hx; [lia|apply HS].
    + intros x Hx. rewrite H5. apply format_out; lia.
  - intros x Hx Hd. rewrite O6 by (lia || done). rewrite H5. apply format_out; lia.
Qed.

(** The outer block before the inner one is filled. *)
Lemma spill_outer k s : ready (S k) s -> exists b s1 l next il,
  let t := tx s in let sz := 64 + 16 * _nreq t + _payload_bytes t in
  allocate 0 (log_block.size (_nreq t) (_payload_bytes t)) s = (b, s1) /\
  s1 = mk_st (mem s1) t true (granted s ++ [sz]) (released s) /\
  grant (granted s) sz = (b, l, next) /\ sizes lo hi (granted s1) /\
  total (granted s1) + Z.of_nat k * MAX_BLOCK_SIZE <= hi - lo /\
  let m := log_record.set_type (mem s1) (log_block.records b 0) LOG_FAT_SKIP in
  log_block.payload m b 0 = Ok (b + 32) /\ log_block.payload_lsn m b 0 = Ok il /\
  fits 64 (LSN._val il) /\ LSN.neqb il INVALID_LSN = true /\ wf8 m /\
  lo <= b /\ b + sz <= hi /\ b mod 16 = 0 /\ (forall x, x < b \/ b + 32 <= x -> m x = mem s x).
Proof.
  intros HR. pose proof (ready_staged _ _ HR) as HS. pose proof (staged_nreq _ _ _ HS) as Hn.
  pose proof (first_range (tx s)) as Hf. pose proof (staged_small _ _ _ HS) as Hs. pose proof (staged_fits _ _ _ HS) as Hw.
  unfold MAX_BLOCK_RECORDS in Hn. rewrite wrapped_eq in Hw by lia.
  destruct (allocate 0 (log_block.size (_nreq (tx s)) (_payload_bytes (tx s))) s) as [b s1] eqn:E.
  pose proof E as E'. rewrite block_bytes_eq in E' by lia.
  apply (alloc_ok k) in E' as (l & next & -> & Eg & Hlo & Hhi & Hal & Hl & Hx & Hwf & Hz & Hr & Ho);
    [|done|unfold MAX_BLOCK_RECORDS; lia|lia| |lia].
  2:{ rewrite (staged_bytes _ _ _ HS). replace (32 + 16 * _nreq (tx s) + ends (requests (tx s)))
        with (ends (requests (tx s)) + (2 + _nreq (tx s)) * 16) by lia. rewrite Z.mod_add by lia.
      apply (ends_nonneg lo hi), HS. }
  replace (32 + 16 * 0 + (32 + 16 * _nreq (tx s) + _payload_bytes (tx s)))
    with (64 + 16 * _nreq (tx s) + _payload_bytes (tx s)) in * by lia.
  cbn [tx mem granted] in *.
  destruct (format_fields (mem s) b l next 0 (32 + 16 * _nreq (tx s) + _payload_bytes (tx s))) as (F1 & _ & F3 & _ & F5);
    [lia|unfold fits; lia|done..|].
  do 5 eexists. split; [exact E|]. split; [done|]. split; [exact Eg|]. do 2 (split; [done|]). cbn [mem].
  set (m1 := format_block _ _ _ _ _ _) in *. set (m2 := log_record.set_type m1 _ _).
  destruct (nested m2 b l) as [-> ->].
  { rewrite <- F1. subst m2. unfold log_block.nrec, log_block.records, log_record.sizeof. unfold_sets. by frame. }
  { rewrite <- F3. subst m2. unfold log_block.lsn, log_block.records, log_record.sizeof. unfold_sets. by frame. }
  { rewrite <- F5. subst m2. unfold log_record.size_code, log_block.records, log_record.sizeof. unfold_sets. by frame. }
  split; [done|]. split; [done|]. split; [by apply lsn_make_fits|]. split_and!; [| |lia|lia|done|].
  - apply lsn_make_valid.
  - subst m2. unfold_sets. auto with bytes.
  - intros x Hx'. rewrite <- Ho by lia. subst m2. unfold log_block.records, log_record.sizeof. unfold_sets. unfold wr.
    apply put_out. rewrite len_le. lia.
Qed.

Lemma staged_empty reqs l : fits 64 (LSN._val l) -> LSN.neqb l INVALID_LSN = true ->
  first (mk_tx reqs 1 0 l NoBlock) = 1 /\ requests (mk_tx reqs 1 0 l NoBlock) = [] /\
  staged lo hi (mk_tx reqs 1 0 l NoBlock).
Proof.
  intros Hl Hv. assert (first (mk_tx reqs 1 0 l NoBlock) = 1) as Ef by (unfold first; cbn [_prev_overflow]; by rewrite Hv).
  assert (requests (mk_tx reqs 1 0 l NoBlock) = []) as Er by (unfold requests; rewrite Ef; done).
  split; [done|]. split; [done|]. split; rewrite ?Er; cbn [_nreq _payload_bytes _prev_overflow]; try done; try (rewrite Ef; done).
  split; [intros x y Hx'; by apply elem_of_nil in Hx'|done].
Qed.

(** A block of the transaction lies in space that was handed out to it. *)
Definition owned (hist : list Z) (b n : Z) : Prop :=
  exists h sz b0 l next, grant h sz = (b0, l, next) /\ h ++ [sz] `prefix_of` hist /\ b0 <= b /\ b + n <= b0 + sz.

Definition block_size (t : tx_log) : Z := log_block.size (_nreq t) (_payload_bytes t).

Lemma block_size_eq t : staged lo hi t -> block_size t = 32 + 16 * _nreq t + _payload_bytes t.
Proof.
  intros HS. pose proof (staged_nreq _ _ _ HS). pose proof (first_range t). pose proof (staged_small _ _ _ HS).
  apply block_bytes_eq; unfold MAX_BLOCK_RECORDS in *; lia.
Qed.

(** The memory changed in the newest block and the [pdest]s only. *)
Definition changed (hist : list Z) (sz : Z) (its : list log_request) (m m' : mem8) : Prop :=
  exists b l next, grant hist sz = (b, l, next) /\
    (forall x, x < b \/ b + sz <= x -> ~ in_dest its x -> m' x = m x).

Lemma spill_ok k s : ready (S k) s -> exists s' inner l sz,
  spill_overflow s = Ok s' /\ ready k s' /\
  tx s' = mk_tx (tls_log_requests (tx s)) 1 0 l NoBlock /\ LSN.neqb l INVALID_LSN = true /\ requests (tx s') = [] /\
  holds (tx s) inner l INVALID_LSN (mem s) (mem s') /\
  granted s' = granted s ++ [sz] /\ owned (granted s') inner (block_size (tx s)) /\
  changed (granted s) sz (requests (tx s)) (mem s) (mem s').
Proof.
  intros HR. pose proof (ready_staged _ _ HR) as HS. pose proof (block_size_eq _ HS) as Ez.
  pose proof (staged_nreq _ _ _ HS). pose proof (first_range (tx s)). pose proof (staged_small _ _ _ HS).
  destruct (spill_outer k s HR) as (b & s1 & l & nx & il & E1 & Es & Eg & Hz & Hr & E2 & E3 & Hil & Hiv & Hw & Hlo & Hhi & Hal & Ho).
  unfold spill_overflow. rewrite E1, E2. cbn [mbind res_bind]. rewrite E3. cbn [mbind res_bind].
  assert (tx s1 = tx s) as Et by (by rewrite Es). rewrite Et. rewrite Z.add_assoc, Z.add_assoc in Hhi.
  destruct (spill_inner (tx s) _ b il HS Hw Hlo Hhi Hal Hil) as (m6 & -> & W6 & H6 & O6). cbn [mbind res_bind].
  destruct (body_checksum_ok m6 b W6) as [c ->]. cbn [mbind res_bind].
  set (c' := adler32_merge _ _ _). rewrite (holds_lsn _ _ _ _ _ _ (H6 c')), (ready_block _ _ HR).
  destruct (staged_empty (tls_log_requests (tx s)) il Hil Hiv) as (Ef & Er & HS').
  do 4 eexists. split; [reflexivity|]. cbn [tx mem release set_tx set_mem granted].
  split; [|split; [done|split; [done|split; [done|split; [|split; [by rewrite Es|split]]]]]].
  - split; cbn [tx mem tls_log_space_used release set_tx set_mem granted]; [by rewrite Es| |done..].
    unfold log_block.set_checksum. auto with bytes.
  - eapply holds_data; [done|apply H6|]. intros x Hx. apply Ho. lia.
  - exists (granted s), (64 + 16 * _nreq (tx s) + _payload_bytes (tx s)), b, l, nx. rewrite Es, Ez. split_and!; [done..|lia|lia].
  - exists b, l, nx. split; [done|]. intros x Hx Hd. rewrite set_checksum_at, O6, Ho by (done || lia). done.
Qed.

(** ** Staging a request *)

Lemma align_up32_id v : 0 <= v < 2 ^ 31 -> v mod 16 = 0 -> align_up32 v = v.
Proof.
  intros Hv Hm. unfold align_up32. change DEFAULT_ALIGNMENT with (2 ^ 4). rewrite (wrap_small 32 (_ - 1)) by (unfold fits; lia).
  transitivity (Z.land (v + 2 ^ 4 - 1) (Z.lnot (2 ^ 4 - 1))).
  - apply Z.bits_inj'. intros i Hi. rewrite !Z.land_spec. change (u32 (- 2 ^ 4)) with (wrap 32 (Z.lnot (2 ^ 4 - 1))).
    rewrite wrap_spec by lia. destruct (Z.ltb_spec i 32); [done|].
    by rewrite (testbit_above 32 (v + 2 ^ 4 - 1)) by (unfold fits; lia).
  - rewrite land_lnot_mask by lia. change (2 ^ 4) with 16. zlia.
Qed.

(** The staging area after one more request. *)
Definition staged_more (t : tx_log) (req : log_request) : tx_log :=
  mk_tx (<[_nreq t := req]> (tls_log_requests t)) (_nreq t + 1) (_payload_bytes t + payload_size req)
    (_prev_overflow t) (_commit_block t).

Lemma requests_more t req : first t <= _nreq t -> requests (staged_more t req) = requests t ++ [req].
Proof.
  intros Hn. unfold requests, staged_more. cbn [tls_log_requests _nreq]. change (first (mk_tx _ _ _ _ _)) with (first t).
  replace (_nreq t + 1 - first t) with (_nreq t - first t + 1) by lia. rewrite seqZ_app by lia. rewrite fmap_app. f_equal.
  - apply list_fmap_ext. intros i x Hx%list_elem_of_lookup_2. apply elem_of_seqZ in Hx.
    rewrite fn_lookup_insert_ne by lia. done.
  - replace (first t + (_nreq t - first t)) with (_nreq t) by lia. change (seqZ (_nreq t) 1) with [0 + _nreq t].
    rewrite Z.add_0_l, list_fmap_singleton. by rewrite fn_lookup_insert.
Qed.

Lemma staged_more_ok t req :
  staged lo hi t -> good_req lo hi req -> no_clash (requests t ++ [req]) -> _nreq t + 1 <= MAX_BLOCK_RECORDS ->
  log_block.wrapped_size (_nreq t + 1) (_payload_bytes t + payload_size req) <= MAX_BLOCK_SIZE ->
  0 <= _payload_bytes t + payload_size req < 2 ^ 31 -> staged lo hi (staged_more t req).
Proof.
  intros HS Hg Hc Hn Hw Hp. pose proof (staged_nreq _ _ _ HS) as Hn0. pose proof (requests_more t req (proj1 Hn0)) as Er.
  split; rewrite ?Er; cbn [staged_more _nreq _payload_bytes _prev_overflow]; try done.
  - change (first (staged_more t req)) with (first t). lia.
  - apply HS.
  - rewrite ends_app, ends_one, <- (staged_bytes _ _ _ HS). by rewrite (psize_eq _ _ _ Hg).
  - apply Forall_app. split; [apply HS|by apply Forall_singleton].
Qed.

(** [add_request] when the request fits, and when it does not. *)
Definition has_room (t : tx_log) (req : log_request) : bool :=
  (_nreq t + 1 <=? MAX_BLOCK_RECORDS) &&
  (log_block.wrapped_size (_nreq t + 1) (_payload_bytes t + payload_size req) <=? MAX_BLOCK_SIZE).

Lemma add_request_eq k n req s : ready k s -> good_req lo hi req -> payload_size req <= MAX_BLOCK_SIZE ->
  add_request n req s =
  if has_room (tx s) req then Ok (set_tx (staged_more (tx s) req) s)
  else match n with O => Throw Spinning | S n => s ← spill_overflow s; add_request n req s end.
Proof.
  intros HR Hg Hsz. pose proof (ready_staged _ _ HR) as HS. pose proof (staged_nreq _ _ _ HS) as Hn.
  pose proof (first_range (tx s)). pose proof (staged_small _ _ _ HS). pose proof (good_size _ _ _ Hg).
  assert (u64 (_nreq (tx s) + 1) = _nreq (tx s) + 1) as E1 by (apply wrap_small; unfold fits, MAX_BLOCK_RECORDS in *; lia).
  assert (u32 (_nreq (tx s) + 1) = _nreq (tx s) + 1) as E2 by (apply wrap_small; unfold fits, MAX_BLOCK_RECORDS in *; lia).
  assert (u64 (_payload_bytes (tx s) + align_up32 (payload_size req)) = _payload_bytes (tx s) + payload_size req) as E3.
  { rewrite align_up32_id by (lia || apply Hg). apply wrap_small. unfold fits. lia. }
  destruct n as [|n]; cbn [add_request]; rewrite E3, E1, E2; unfold has_room;
    destruct (Z.ltb_spec MAX_BLOCK_RECORDS (_nreq (tx s) + 1)), (Z.leb_spec (_nreq (tx s) + 1) MAX_BLOCK_RECORDS); try lia;
    cbn [orb andb]; try done;
    match goal with |- context [?x <? log_block.wrapped_size ?a ?c] =>
      destruct (Z.ltb_spec x (log_block.wrapped_size a c)), (Z.leb_spec (log_block.wrapped_size a c) x) end; done || lia.
Qed.

(** What staging [req] did: the request joined the others, or they went into an
    overflow block first. *)
Inductive staging (req : log_request) (s s' : st) : Prop :=
| joined :
    requests (tx s') = requests (tx s) ++ [req] -> _prev_overflow (tx s') = _prev_overflow (tx s) ->
    mem s' = mem s -> granted s' = granted s -> staging req s s'
| spilled inner sz :
    requests (tx s') = [req] -> LSN.neqb (_prev_overflow (tx s')) INVALID_LSN = true ->
    holds (tx s) inner (_prev_overflow (tx s')) INVALID_LSN (mem s) (mem s') ->
    granted s' = granted s ++ [sz] -> owned (granted s') inner (block_size (tx s)) ->
    changed (granted s) sz (requests (tx s)) (mem s) (mem s') -> staging req s s'.

Lemma no_clash_suffix l1 l2 : no_clash (l1 ++ l2) -> no_clash l2.
Proof.
  intros [H1 H2]. split.
  - intros x y Hx Hy. apply H1; apply elem_of_app; by right.
  - intros i j x y Hi Hj Hij. apply (H2 (length l1 + i)%nat (length l1 + j)%nat); [..|lia];
      rewrite lookup_app_r by lia; rewrite Nat.add_comm, Nat.add_sub; done.
Qed.

Lemma has_room_spec t req : staged lo hi t -> good_req lo hi req -> has_room t req = true ->
  no_clash (requests t ++ [req]) -> staged lo hi (staged_more t req).
Proof.
  intros HS Hg [H1%Z.leb_le H2%Z.leb_le]%andb_true_iff Hc. pose proof (staged_nreq _ _ _ HS). pose proof (first_range t).
  pose proof (staged_small _ _ _ HS). pose proof (good_size _ _ _ Hg).
  apply staged_more_ok; try done. split; [lia|]. unfold MAX_BLOCK_RECORDS, MAX_BLOCK_SIZE in *.
  unfold log_block.wrapped_size in H2. rewrite (block_bytes_eq (_nreq t + 1)) in H2 by lia.
  unfold log_block.size, log_block.records, log_record.sizeof in H2. rewrite wrap_small in H2 by (unfold fits; lia). lia.
Qed.

Lemma ready_weaken k k' s : (k' <= k)%nat -> ready k s -> ready k' s.
Proof.
  intros Hk [H1 H2 H3 H4 H5 H6]. split; try done. unfold MAX_BLOCK_SIZE in *. lia.
Qed.

Lemma add_request_ok k req s :
  ready (S k) s -> good_req lo hi req -> no_clash (requests (tx s) ++ [req]) -> payload_size req <= 65536 ->
  exists s', add_request 1 req s = Ok s' /\ ready k s' /\ staging req s s'.
Proof.
  intros HR Hg Hc Hsz. pose proof (ready_staged _ _ HR) as HS. pose proof (staged_nreq _ _ _ HS) as Hn.
  rewrite (add_request_eq (S k)) by (done || unfold MAX_BLOCK_SIZE; lia). destruct (has_room (tx s) req) eqn:Er.
  - eexists. split; [done|]. split.
    + apply (ready_weaken (S k)); [lia|]. destruct HR. split; try done. by apply has_room_spec.
    + apply joined; try done. cbn [tx set_tx]. apply requests_more, Hn.
  - destruct (spill_ok k s HR) as (s1 & inner & l & sz & -> & HR1 & Et & Hiv & Eq & Hh & Hgr & Ho & Hch). cbn [mbind res_bind].
    pose proof (ready_staged _ _ HR1) as HS1. pose proof (good_size _ _ _ Hg).
    rewrite (add_request_eq k) by (done || unfold MAX_BLOCK_SIZE; lia).
    assert (has_room (tx s1) req = true) as Er1.
    { rewrite Et. unfold has_room. cbn [_nreq _payload_bytes]. rewrite wrapped_eq by lia.
      apply andb_true_iff. split; [done|]. apply Z.leb_le. unfold MAX_BLOCK_SIZE. lia. }
    rewrite Er1. eexists. split; [done|]. split.
    + destruct HR1. split; try done. apply has_room_spec; try done. rewrite Eq. by eapply no_clash_suffix.
    + eapply spilled; cbn [tx set_tx mem granted staged_more _prev_overflow]; try done; rewrite ?Et; try done.
      rewrite <- Et, requests_more by (pose proof (staged_nreq _ _ _ HS1); lia). by rewrite Eq.
Qed.
End staging.
