(* ===== verification/TxLogChain.v ===== *)
(** * A whole transaction's log

    From [new_tx_log] over any number of calls to [commit]: everything that was
    logged is found again by following the overflow links from the committed
    block. *)
From stdpp Require Import base numbers functions list.
From Stdlib Require Import ZArith Lia.
From S2P Require Import Prelude FatPtr SizeEncode Adler Bytes LogBlock TxLog TxLogSpec TxLogSafe TxLogCommit.

Local Open Scope Z_scope.

(** ** Calls *)

Inductive call :=
| Insert (f o : Z) (p : fat_ptr.t) (abits pd : Z)
| InsertIndex (f o : Z) (p : fat_ptr.t) (abits pd : Z)
| Update (f o : Z) (p : fat_ptr.t) (abits pd : Z)
| Delete (f o : Z).

(** The request a call stages. *)
Definition request_of (c : call) : log_request :=
  match c with
  | Insert f o p abits pd => set_pdest pd (make_log_request LOG_INSERT f o p abits)
  | InsertIndex f o p abits pd => set_pdest pd (make_log_request LOG_INSERT_INDEX f o p abits)
  | Update f o p abits pd => set_pdest pd (make_log_request LOG_UPDATE f o p abits)
  | Delete f o => make_log_request LOG_DELETE f o NULL_PTR 0
  end.

(** Payloads above this size are stored in blocks of their own. *)
Definition embedded (c : call) : Prop :=
  log_block.wrapped_size 8 (u64 (8 * payload_size (request_of c))) <= MAX_BLOCK_SIZE.

Section calls.
Context `{LS : LogSpace}.

(** Every call recurses at most once; [sp] is where the stack frame of
    [add_payload_request] is. *)
Definition perform (sp : Z) (c : call) (s : st) : res st :=
  match c with
  | Insert f o p abits pd => log_insert 1 sp f o p abits pd s
  | InsertIndex f o p abits pd => log_insert_index 1 sp f o p abits pd s
  | Update f o p abits pd => log_update 1 sp f o p abits pd s
  | Delete f o => log_delete 1 f o s
  end.

Fixpoint perform_all (sp : Z) (cs : list call) (s : st) : res st :=
  match cs with [] => Ok s | c :: cs => s ← perform sp c s; perform_all sp cs s end.

Definition transaction (sp : Z) (cs : list call) (s : st) : res (LSN.t * LSN.t * st) :=
  s ← new_tx_log s; s ← perform_all sp cs s; commit s.

Lemma payload_size_range c : 0 <= payload_size (request_of c) < 2 ^ 32.
Proof. destruct c; cbn [request_of set_pdest make_log_request payload_size]; apply wrap_fits; lia. Qed.

Lemma embedded_size c : embedded c -> payload_size (request_of c) <= 65536.
Proof.
  intros H. pose proof (payload_size_range c). unfold embedded, log_block.wrapped_size, log_block.size in H.
  rewrite (wrap_small 64 (8 * _)) in H by (unfold fits; lia).
  unfold log_block.records, log_record.sizeof, MAX_BLOCK_SIZE in H.
  rewrite !wrap_small in H; unfold fits; try lia. rewrite wrap_small; unfold fits; lia.
Qed.

Lemma perform_eq sp c s : tls_log_space_used s = true -> embedded c -> perform sp c s = add_request 1 (request_of c) s.
Proof.
  intros Hu He. pose proof (payload_size_range c) as Hr. unfold embedded in He.
  destruct c; cbn [perform request_of] in *; unfold log_insert, log_insert_index, log_update, log_delete, get_log_impl;
    rewrite Hu; cbn [negb throw_if mbind res_bind]; try done;
    unfold add_payload_request; cbn [set_pdest payload_size make_log_request] in *;
    repeat match goal with |- context [?y <? ?x] => destruct (Z.ltb_spec y x); try lia end; done.
Qed.
End calls.

(** ** The overflow chain *)

Section chain.
Context (lo hi : Z) `{LL : LogSpaceLaws lo hi}.

(** From [l] back, the overflow blocks in [m] hold the groups [gs], the oldest
    first; the payloads came from [m0]. *)
Inductive chain (hist : list Z) (m0 m : mem8) : LSN.t -> list (list log_request) -> Prop :=
| chain_nil : chain hist m0 m INVALID_LSN []
| chain_block gs t inner l :
    staged lo hi t -> chain hist m0 m (_prev_overflow t) gs ->
    holds t inner l INVALID_LSN m0 m -> owned hist inner (block_size t) ->
    chain hist m0 m l (gs ++ [requests t]).

Lemma sizes_prefix h h' : h `prefix_of` h' -> sizes lo hi h' -> sizes lo hi h.
Proof.
  intros [k ->] [H1 H2]. apply Forall_app in H1 as [H1 H3]. split; [done|]. rewrite total_app in H2.
  assert (0 <= total k); [|lia]. clear H2. induction H3 as [|z k Hz Hk IH]; [done|]. unfold total in *. cbn. lia.
Qed.

Lemma owned_in hist b n : owned hist b n -> sizes lo hi hist -> lo <= b /\ b + n <= hi.
Proof.
  intros (h & sz & b0 & l & nx & Eg & Hp & H1 & H2) Hz.
  destruct (grant_in _ _ _ _ _ Eg (sizes_prefix _ _ Hp Hz)) as (? & ? & _). lia.
Qed.

Lemma owned_mono hist hist' b n : hist `prefix_of` hist' -> owned hist b n -> owned hist' b n.
Proof.
  intros Hp (h & sz & b0 & l & nx & Eg & Hp' & H). exists h, sz, b0, l, nx. split; [done|]. split; [|done].
  by etransitivity.
Qed.

Lemma in_dest_apart gs its x :
  no_clash (gs ++ its) -> in_dest gs x -> in_dest its x -> False.
Proof.
  intros Hc (y & Hy & _ & Hy0 & Hyx) (z & Hz & _ & Hz0 & Hzx).
  apply list_elem_of_lookup_1 in Hy as [i Hi]. apply list_elem_of_lookup_1 in Hz as [j Hj].
  pose proof (lookup_lt_Some _ _ _ Hi).
  assert (apart (pdest y) 8 (pdest z) 8) as Ha.
  { eapply (clash_dest _ Hc i (length gs + j)); [by apply lookup_app_l_Some|rewrite lookup_app_r by lia; by replace (length gs + j - length gs)%nat with j by lia|lia|done..]. }
  unfold apart in Ha. lia.
Qed.

Lemma no_clash_mid l1 l2 l3 : no_clash (l1 ++ l2 ++ l3) -> no_clash (l1 ++ l3).
Proof.
  intros [H1 H2]. split.
  - intros x y Hx Hy. apply H1; rewrite !elem_of_app in *; tauto.
  - assert (forall i x, (l1 ++ l3) !! i = Some x -> exists j, (l1 ++ l2 ++ l3) !! j = Some x /\
      (i < length l1 -> j = i)%nat /\ (length l1 <= i -> j = i + length l2)%nat) as Hmap.
    { intros i x [Hi|[Hi Hx]]%lookup_app_Some.
      - pose proof (lookup_lt_Some _ _ _ Hi). exists i. split_and!; [by apply lookup_app_l_Some|done|lia].
      - exists (i + length l2)%nat. split_and!; [|lia|done]. rewrite lookup_app_r, lookup_app_r by lia.
        by replace (i + length l2 - length l1 - length l2)%nat with (i - length l1)%nat by lia. }
    intros i j x y Hi Hj Hij. destruct (Hmap i x Hi) as (i' & Hi' & Ha1 & Ha2). destruct (Hmap j y Hj) as (j' & Hj' & Hb1 & Hb2).
    apply (H2 i' j'); [done..|]. destruct (Nat.lt_ge_cases i (length l1)), (Nat.lt_ge_cases j (length l1)); lia.
Qed.

(** One more block and the stores through new [pdest]s leave the chain alone. *)
Lemma block_chain_frame hist sz its m0 m m' l gs :
  chain hist m0 m l gs -> changed hist sz its m m' -> sizes lo hi (hist ++ [sz]) ->
  Forall (good_req lo hi) its -> no_clash (concat gs ++ its) -> chain (hist ++ [sz]) m0 m' l gs.
Proof.
  intros H (b & lb & nx & Eg & Hout) Hz Hg. induction H as [|gs t inner l HS Hc IH Hh Ho]; intros Hcl; [constructor|].
  rewrite concat_app, <- app_assoc in Hcl. cbn [concat] in Hcl. rewrite app_nil_r in Hcl.
  assert (Forall (good_req lo hi) (requests t)) as Hgt by apply HS.
  pose proof (sizes_prefix hist _ (prefix_app_r _ _ _ (reflexivity hist)) Hz) as Hz'.
  pose proof (owned_in _ _ _ Ho Hz') as Hin. pose proof (grant_in _ _ _ _ _ Eg Hz) as (Hb1 & Hb2 & _).
  apply chain_block with inner; [done| | |].
  - apply IH. eapply no_clash_mid, Hcl.
  - eapply (holds_frame lo hi); [done|exact Hh| |].
    + intros x Hx. fold (block_size t) in Hx. apply Hout.
      * destruct Ho as (h & sz0 & b0 & l0 & nx0 & Eg0 & Hp & H1 & H2).
        pose proof (grant_apart _ _ _ _ _ _ _ _ _ _ Eg0 Eg Hp Hz) as Ha. unfold apart in Ha. lia.
      * intros Hd. apply (in_dest_out lo hi) in Hd; [lia|done].
    + intros x Hx. apply Hout.
      * apply (in_dest_out lo hi) in Hx; [lia|done].
      * intros Hd. apply (in_dest_apart (requests t) its x); [|done..].
        by eapply no_clash_suffix.
  - eapply owned_mono; [|done]. by apply prefix_app_r.
Qed.

(** ** The transaction *)

(** After the requests [done], with space for [k] more blocks. *)
Record logged (m0 : mem8) (done : list log_request) (k : nat) (s : st) : Prop := {
  logged_ready : ready lo hi k s;
  logged_chain : exists gs, concat gs ++ requests (tx s) = done /\
    chain (granted s) m0 (mem s) (_prev_overflow (tx s)) gs;
  logged_mem x : x < lo \/ hi <= x -> ~ in_dest done x -> mem s x = m0 x }.

Lemma in_dest_more l1 l2 x : ~ in_dest (l1 ++ l2) x -> ~ in_dest l1 x /\ ~ in_dest l2 x.
Proof. intros H. split; intros (y & Hy & Hx); apply H; exists y; (split; [apply elem_of_app; tauto|done]). Qed.

(** The payloads have not changed since the transaction began. *)
Lemma logged_data m0 done k s it :
  logged m0 done k s -> no_clash done -> it ∈ done -> good_req lo hi it -> data (mem s) it = data m0 it.
Proof.
  intros H Hc Hi Hg. unfold data, psize. destruct (has_payload it) eqn:Eh; [|done]. apply get_ext. intros x Hx.
  pose proof (good_src _ _ _ Hg Eh) as Ha. unfold apart in Ha. apply (logged_mem _ _ _ _ H); [lia|].
  intros (y & Hy & _ & Hy0 & Hyx). pose proof (clash_src _ Hc y it Hy Hi Hy0 Eh) as Hb. unfold apart in Hb. lia.
Qed.

Lemma holds_since m0 done k s b l n m' :
  logged m0 done k s -> no_clash done -> holds (tx s) b l n (mem s) m' -> holds (tx s) b l n m0 m'.
Proof.
  intros H Hc [H1 H2 H3 H4 H5 H6 H7]. destruct (logged_chain _ _ _ _ H) as (gs & Ed & _).
  split; try done. intros j it Hj. rewrite <- (logged_data m0 done k s it); [by apply H7|done..| |].
  - rewrite <- Ed. apply elem_of_app. right. by eapply list_elem_of_lookup_2.
  - eapply Forall_lookup_1; [apply (ready_staged _ _ _ _ (logged_ready _ _ _ _ H))|done].
Qed.

Lemma staged_good_of k s : ready lo hi k s -> Forall (good_req lo hi) (requests (tx s)).
Proof. intros H. apply (ready_staged _ _ _ _ H). Qed.

Lemma tx_perform_ok sp m0 done k s c :
  logged m0 done (S k) s -> embedded c -> good_req lo hi (request_of c) -> no_clash (done ++ [request_of c]) ->
  exists s', perform sp c s = Ok s' /\ logged m0 (done ++ [request_of c]) k s'.
Proof.
  intros H He Hg Hc. pose proof (logged_ready _ _ _ _ H) as HR. destruct (logged_chain _ _ _ _ H) as (gs & Ed & Hch).
  pose proof (no_clash_prefix _ _ Hc) as Hcd.
  rewrite perform_eq by (done || apply HR).
  destruct (add_request_ok lo hi k (request_of c) s HR Hg) as (s' & -> & HR' & Hst).
  { rewrite <- Ed, <- app_assoc in Hc. by eapply no_clash_suffix. }
  { by apply embedded_size. }
  exists s'. split; [done|]. destruct Hst as [Er El Em Egr|inner sz Er Hv Hh Egr Ho Hchg].
  - split; [done| |].
    + exists gs. rewrite Er, El, Em, Egr, app_assoc, Ed. done.
    + intros x Hx Hn. apply in_dest_more in Hn as [Hn _]. rewrite Em. by apply (logged_mem _ _ _ _ H).
  - pose proof (ready_sizes _ _ _ _ HR') as Hz. rewrite Egr in Hz. split; [done| |].
    + exists (gs ++ [requests (tx s)]). rewrite Er, concat_app. cbn [concat]. rewrite app_nil_r, Ed. split; [done|].
      apply chain_block with inner; [apply HR| |by eapply holds_since|done]. rewrite Egr.
      eapply block_chain_frame; [exact Hch|exact Hchg|done|by eapply staged_good_of|by rewrite Ed].
    + intros x Hx Hn. apply in_dest_more in Hn as [Hn _]. destruct Hchg as (b & l & nx & Eg & Hout).
      pose proof (grant_in _ _ _ _ _ Eg Hz) as (Hb1 & Hb2 & _). rewrite <- Ed in Hn.
      rewrite Hout; [|lia|apply in_dest_more in Hn; tauto]. apply (logged_mem _ _ _ _ H); [done|]. by rewrite <- Ed.
Qed.

Lemma perform_all_ok sp m0 cs : forall done k s,
  logged m0 done (length cs + k) s -> Forall embedded cs -> Forall (good_req lo hi) (request_of <$> cs) ->
  no_clash (done ++ (request_of <$> cs)) ->
  exists s', perform_all sp cs s = Ok s' /\ logged m0 (done ++ (request_of <$> cs)) k s'.
Proof.
  induction cs as [|c cs IH]; intros done k s H He Hg Hc; cbn [fmap list_fmap] in *.
  - rewrite app_nil_r in *. by exists s.
  - apply Forall_cons in He as [He1 He2]. apply Forall_cons in Hg as [Hg1 Hg2]. rewrite cons_middle, app_assoc in *.
    destruct (tx_perform_ok sp m0 done (length cs + k) s c) as (s1 & E1 & H1); [done..|by eapply no_clash_prefix|].
    cbn [perform_all]. rewrite E1. cbn [mbind res_bind]. by apply IH.
Qed.

(** ** Commit *)

Lemma allocate_set_tx n p t s :
  allocate n p (set_tx t s) = (fst (allocate n p s), set_tx t (snd (allocate n p s))).
Proof. unfold allocate. cbn [granted set_tx]. by destruct (grant _ _) as [[b l] nx]. Qed.

Lemma staged_commit t c : staged lo hi t -> staged lo hi (set_commit_block c t).
Proof. intros [H1 H2 H3 H4 H5 H6 H7]. by split. Qed.

Lemma holds_commit t c b l n m m' : holds (set_commit_block c t) b l n m m' -> holds t b l n m m'.
Proof. intros [H1 H2 H3 H4 H5 H6 H7]. by split. Qed.

(** What [pre_commit] has done when [commit] fills the block. *)
Lemma pre_commit_ok k s : ready lo hi (S k) s -> exists b l clsn s1,
  pre_commit s = Ok (clsn, s1) /\ s1 = mk_st (mem s1) (set_commit_block (At b) (tx s)) true
    (granted s ++ [block_size (tx s)]) (released s) /\
  fresh lo hi (tx s) b (mem s1) /\ log_block.lsn (mem s1) b = l /\ log_block.next_lsn (mem s1) b = clsn /\
  grant (granted s) (block_size (tx s)) = (b, l, clsn) /\ sizes lo hi (granted s ++ [block_size (tx s)]) /\
  (forall x, x < b \/ b + block_size (tx s) <= x -> mem s1 x = mem s x).
Proof.
  intros HR. unfold pre_commit, get_log_impl. rewrite (ready_used _ _ _ _ HR), (ready_block _ _ _ _ HR).
  cbn [negb throw_if mbind res_bind]. unfold enter_precommit, _install_commit_block. rewrite allocate_set_tx.
  cbn [tx set_tx set_commit_block _nreq _payload_bytes].
  destruct (allocate _ _ s) as [b s1] eqn:E. cbn [fst snd]. cbn [tx set_tx _commit_block set_commit_block mbind res_bind].
  destruct (alloc_fresh lo hi k s b s1 HR E) as (l & clsn & Es & Hf & El & Ec & Eg & Hz & Ho).
  exists b, l, clsn. eexists. unfold commit_addr. cbn [snd tx set_tx _commit_block set_commit_block mbind res_bind mem].
  rewrite Ec. split; [reflexivity|]. rewrite Es. cbn [mem set_tx tx set_commit_block]. done.
Qed.

Lemma commit_ok m0 done k s :
  logged m0 done (S k) s -> no_clash done -> exists b l clsn s' gs,
    commit s = Ok (clsn, l, s') /\ grant (granted s) (block_size (tx s)) = (b, l, clsn) /\
    holds (tx s) b l clsn m0 (mem s') /\
    chain (granted s') m0 (mem s') (_prev_overflow (tx s)) gs /\ concat gs ++ requests (tx s) = done /\
    released s' = released s ++ [b] /\ tls_log_space_used s' = false.
Proof.
  intros H Hc. pose proof (logged_ready _ _ _ _ H) as HR. destruct (logged_chain _ _ _ _ H) as (gs & Ed & Hch).
  pose proof (ready_staged _ _ _ _ HR) as HS. pose proof (block_size_eq _ _ _ HS) as Ez.
  destruct (pre_commit_ok k s HR) as (b & l & clsn & s1 & Ep & Es & Hf & El & Ec & Eg & Hz & Ho).
  destruct (populate_ok lo hi (set_commit_block (At b) (tx s)) b (mem s1)) as (m' & Em & Hh & Hw & Hout).
  { by apply staged_commit. } { destruct Hf. by split. }
  apply holds_commit in Hh. rewrite El, Ec in Hh.
  pose proof (grant_in _ _ _ _ _ Eg Hz) as (Hb1 & Hb2 & _).
  exists b, l, clsn. eexists. exists gs. unfold commit. rewrite Ep. cbn [mbind res_bind].
  unfold get_log_impl, commit_addr. rewrite Es. cbn [tls_log_space_used negb throw_if mbind res_bind tx _commit_block set_commit_block mem].
  rewrite Em. cbn [mbind res_bind]. rewrite (holds_lsn _ _ _ _ _ _ Hh).
  split; [reflexivity|]. split; [done|]. cbn [mem set_used release set_mem granted tx released tls_log_space_used].
  split_and!; [| |done..].
  - eapply holds_since; [done..|]. eapply (holds_data lo hi); [done|exact Hh|]. intros x Hx. apply Ho. lia.
  - eapply (block_chain_frame _ _ (requests (tx s))); [exact Hch| |done|apply HS|by rewrite Ed].
    exists b, l, clsn. split; [done|]. intros x Hx Hn. rewrite Hout; [by apply Ho| |done].
    cbn [_nreq _payload_bytes set_commit_block]. lia.
Qed.

Lemma new_tx_ok k s : tls_log_space_used s = false -> wf8 (mem s) -> sizes lo hi (granted s) ->
  total (granted s) + Z.of_nat k * MAX_BLOCK_SIZE <= hi - lo ->
  exists s', new_tx_log s = Ok s' /\ logged (mem s) [] k s' /\ released s' = released s.
Proof.
  intros Hu Hw Hz Hr. unfold new_tx_log, alloc_storage. rewrite Hu. cbn [throw_if mbind res_bind]. eexists. split; [done|].
  split; [|done]. split; [|exists []; by split; [|constructor]|done]. split; try done.
  split; try done. split; [intros x y Hx; by apply elem_of_nil in Hx|done].
Qed.
End chain.


(** ** An example *)

Module TxExample.

(** Log space as one long buffer behind address [lo], in segment 1. *)
Definition lo : Z := 65536.
Definition hi : Z := lo + 2 ^ 24.

#[export] Instance space : LogSpace := {
  grant hist sz :=
    (lo + total hist, LSN.make (total hist) 1 INVALID_SIZE_CODE, LSN.make (total hist + sz) 1 INVALID_SIZE_CODE) }.

Lemma total_aligned l : Forall (fun z => 32 <= z <= MAX_BLOCK_SIZE /\ z mod 16 = 0) l -> 0 <= total l /\ total l mod 16 = 0.
Proof.
  induction 1 as [|z l [Hz Hm] _ [IH1 IH2]]; [done|]. unfold total in *. cbn [foldr]. split; [lia|].
  rewrite Z.add_mod, Hm, IH2 by lia. done.
Qed.

#[export] Instance space_laws : LogSpaceLaws lo hi.
Proof.
  split.
  - intros hist sz b l next E [Hf Ht]. cbn in E. simplify_eq. apply Forall_app in Hf as [Hf Hz].
    apply Forall_singleton in Hz. destruct (total_aligned _ Hf) as [H0 Hm]. rewrite total_app in Ht.
    change (total [sz]) with (sz + 0) in Ht. split_and!; [lia|unfold hi in *; lia| |by apply lsn_make_fits..].
    unfold lo. replace (65536 + total hist) with (total hist + 4096 * 16) by lia. by rewrite Z.mod_add by lia.
  - intros hist sz b l next hist' sz' b' l' next' E E' [k Hk] [Hf Ht]. cbn in E, E'. simplify_eq.
    left. rewrite <- Z.add_assoc. apply Z.add_le_mono_l. rewrite !total_app. change (total [sz]) with (sz + 0).
    rewrite !Forall_app in Hf. destruct Hf as [[_ Hk] _]. destruct (total_aligned _ Hk). lia.
Qed.

(** An insert of 32 bytes at 4096, whose location goes to 8192, and a delete. *)
Definition cs : list call := [Insert 7 3 (fat_ptr.make 4096 2 0) 4 8192; Delete 7 4].
Definition s0 : st :=
  mk_st (fun x => x mod 251) (new_tx (fun _ => request_of (Delete 0 0))) false [] [].

End TxExample.
#[local] Existing Instance TxExample.space.
#[local] Existing Instance TxExample.space_laws.

