(* ===== verification/LogNames.v ===== *)
(** * Names of log files ([dbcore/sm-log-file.cpp])

    The state of the log on disk is in the names of its files: segments with
    their ranges, the durable mark, the checkpoint mark, the next segment.  The
    conversions of [printf] and [scanf] that the names use, and that reading a
    name gives back what was written. *)
From stdpp Require Import base numbers list gmap strings.
From Stdlib Require Import ZArith Lia Ascii.
From S2P Require Import Prelude FatPtr.

Local Open Scope Z_scope.

Definition fname : Type := list ascii.

(** ** [%0kx] *)

Definition code (c : ascii) : Z := Z.of_N (N_of_ascii c).
Definition chr (z : Z) : ascii := ascii_of_N (Z.to_N z).

Definition digit (d : Z) : ascii := if d <? 10 then chr (48 + d) else chr (87 + d).

(** The last [k] hexadecimal digits of [v]. *)
Fixpoint hexw (k : nat) (v : Z) : fname :=
  match k with O => [] | S k => hexw k (v / 16) ++ [digit (v mod 16)] end.

Definition ndigits (v : Z) : nat := if v =? 0 then 1%nat else S (Z.to_nat (Z.log2 v / 4)).

Definition print_hex (k : nat) (v : Z) : fname := hexw (Nat.max k (ndigits v)) v.

(** ** [%kx] of [scanf] *)

Definition hexval (c : ascii) : option Z :=
  let z := code c in
  if (48 <=? z) && (z <=? 57) then Some (z - 48)
  else if (97 <=? z) && (z <=? 102) then Some (z - 87)
  else if (65 <=? z) && (z <=? 70) then Some (z - 55)
  else None.

Definition is_space (c : ascii) : bool := (code c =? 32) || (9 <=? code c) && (code c <=? 13).

Fixpoint skip_space (s : fname) : fname :=
  match s with c :: s' => if is_space c then skip_space s' else s | [] => [] end.

(** Up to [n] digits, appended to [acc]; how many there were is the middle
    component. *)
Fixpoint scan_digits (n : nat) (acc : Z) (s : fname) : Z * nat * fname :=
  match n, s with
  | S n, c :: s' =>
      match hexval c with
      | Some d => let '(v, k, r) := scan_digits n (acc * 16 + d) s' in (v, S k, r)
      | None => (acc, O, s)
      end
  | _, _ => (acc, O, s)
  end.

(** A conversion of at most [width] characters into [bits] bits: blanks, a
    sign, an optional [0x], digits. *)
Definition scan_hex (width : nat) (bits : Z) (s : fname) : option (Z * fname) :=
  let s := skip_space s in
  let '(neg, width, s) :=
    match width, s with
    | S w, c :: s' => if code c =? 45 then (true, w, s') else if code c =? 43 then (false, w, s') else (false, width, s)
    | _, _ => (false, width, s)
    end in
  let '(width, s) :=
    match width, s with
    | S (S w), z :: x :: s' =>
        if (code z =? 48) && ((code x =? 120) || (code x =? 88)) then (w, s') else (width, s)
    | _, _ => (width, s)
    end in
  let '(v, k, s) := scan_digits width 0 s in
  match k with O => None | S _ => Some (wrap bits (if neg : bool then - v else v), s) end.

(** ** Formats *)

Inductive directive :=
| Lit (c : ascii)
| Hex (width : nat) (bits : Z)
| Chr.

(** The values that [sscanf] converts; their number is its result. *)
Fixpoint sscanf (fmt : list directive) (s : fname) : list Z :=
  match fmt with
  | [] => []
  | Lit c :: fmt => match s with c' :: s => if decide (c = c') then sscanf fmt s else [] | [] => [] end
  | Hex w b :: fmt => match scan_hex w b s with Some (v, s) => v :: sscanf fmt s | None => [] end
  | Chr :: fmt => match s with c :: s => code c :: sscanf fmt s | [] => [] end
  end.

Fixpoint sprintf (fmt : list directive) (args : list Z) : fname :=
  match fmt, args with
  | Lit c :: fmt, args => c :: sprintf fmt args
  | Hex w _ :: fmt, v :: args => print_hex w v ++ sprintf fmt args
  | Chr :: fmt, v :: args => chr v :: sprintf fmt args
  | _, _ => []
  end.

(** [os_snprintf] into a buffer of [n] bytes. *)
(* src: dbcore/sm-common.cpp:151-163 os_snprintf *)
Definition os_snprintf (n : nat) (fmt : list directive) (args : list Z) : fname := take (n - 1) (sprintf fmt args).

Definition lits (s : string) : list directive := Lit <$> String.list_ascii_of_string s.

(* src: dbcore/sm-log-file.cpp:12-13 SEGMENT_FILE_NAME_FMT *)
Definition SEGMENT_FILE_NAME_FMT : list directive :=
  lits "log-" ++ Hex 8 32 :: lits "-" ++ Hex 12 64 :: lits "-" ++ [Hex 12 64].
(* src: dbcore/sm-log-file.cpp:14-14 SEGMENT_FILE_NAME_BUFSZ *)
Definition SEGMENT_FILE_NAME_BUFSZ : nat := S (String.length "log-01234567-0123456789ab-0123456789ab").
(* src: dbcore/sm-log-file.cpp:16-17 CHKPT_FILE_NAME_FMT *)
Definition CHKPT_FILE_NAME_FMT : list directive := lits "chk-" ++ Hex 16 64 :: lits "-" ++ [Hex 16 64].
(* src: dbcore/sm-log-file.cpp:18-18 CHKPT_FILE_NAME_BUFSZ *)
Definition CHKPT_FILE_NAME_BUFSZ : nat := S (String.length "chk-0123456789abcdef-0123456789abcdef").
(* src: dbcore/sm-log-file.cpp:20-21 DURABLE_FILE_NAME_FMT *)
Definition DURABLE_FILE_NAME_FMT : list directive := lits "dur-" ++ [Hex 16 64].
(* src: dbcore/sm-log-file.cpp:24-25 NXT_SEG_FILE_NAME_FMT *)
Definition NXT_SEG_FILE_NAME_FMT : list directive := lits "nxt-" ++ [Hex 8 32].
(* src: dbcore/sm-log-file.cpp:26-26 NXT_SEG_FILE_NAME_BUFSZ *)
Definition NXT_SEG_FILE_NAME_BUFSZ : nat := S (String.length "nxt-01234567").

(* src: dbcore/sm-log-file.cpp:83-96 segment_file_name *)
Definition segment_file_name (segnum start end_ : Z) : fname :=
  os_snprintf SEGMENT_FILE_NAME_BUFSZ SEGMENT_FILE_NAME_FMT [segnum; start; end_].
(* src: dbcore/sm-log-file.cpp:98-107 cmark_file_name *)
Definition cmark_file_name (start end_ : LSN.t) : fname :=
  os_snprintf CHKPT_FILE_NAME_BUFSZ CHKPT_FILE_NAME_FMT [LSN._val start; LSN._val end_].
(** The buffer is as large as that of a checkpoint name. *)
(* src: dbcore/sm-log-file.cpp:109-118 dmark_file_name *)
Definition dmark_file_name (start : LSN.t) : fname :=
  os_snprintf CHKPT_FILE_NAME_BUFSZ DURABLE_FILE_NAME_FMT [LSN._val start].
(* src: dbcore/sm-log-file.cpp:120-129 nxt_seg_file_name *)
Definition nxt_seg_file_name (segnum : Z) : fname :=
  os_snprintf NXT_SEG_FILE_NAME_BUFSZ NXT_SEG_FILE_NAME_FMT [segnum].

(** ** Reading what was written *)

Lemma digit_spec d : 0 <= d < 16 -> hexval (digit d) = Some d /\ is_space (digit d) = false /\
  48 <= code (digit d) /\ code (digit d) <> 88 /\ code (digit d) <> 120.
Proof.
  intros Hd. assert (all_range 0 16 (fun d => bool_decide (hexval (digit d) = Some d) && negb (is_space (digit d)) &&
    (48 <=? code (digit d)) && negb (code (digit d) =? 88) && negb (code (digit d) =? 120)) = true) as H by done.
  apply (all_range_spec 0 16 _ d H) in Hd. rewrite !andb_true_iff, !negb_true_iff, bool_decide_eq_true in Hd.
  destruct Hd as [[[[H1 H2] H3%Z.leb_le] H4%Z.eqb_neq] H5%Z.eqb_neq]. done.
Qed.

Lemma length_hexw k v : length (hexw k v) = k.
Proof. revert v. induction k as [|k IH]; intros v; [done|]. cbn [hexw]. rewrite length_app, IH. cbn. lia. Qed.

Lemma print_hex_fits k v : 0 <= v < 16 ^ Z.of_nat k -> (0 < k)%nat -> print_hex k v = hexw k v.
Proof.
  intros Hv Hk. unfold print_hex. replace (Nat.max k (ndigits v)) with k; [done|].
  unfold ndigits. destruct (Z.eqb_spec v 0); [lia|]. assert (Z.log2 v < 4 * Z.of_nat k).
  { apply Z.log2_lt_pow2; [lia|]. rewrite Z.pow_mul_r by lia. change (2 ^ 4) with 16. lia. }
  assert (Z.log2 v / 4 < Z.of_nat k) by (apply Z.div_lt_upper_bound; lia). pose proof (Z.log2_nonneg v).
  assert (0 <= Z.log2 v / 4) by (apply Z.div_pos; lia). lia.
Qed.

Lemma scan_digits_app n k acc v r :
  0 <= v < 16 ^ Z.of_nat k ->
  scan_digits (k + n) acc (hexw k v ++ r) =
  let '(v', j, r') := scan_digits n (acc * 16 ^ Z.of_nat k + v) r in (v', (k + j)%nat, r').
Proof.
  revert n acc v r. induction k as [|k IH]; intros n acc v r Hv.
  - change (16 ^ Z.of_nat 0) with 1 in *. assert (v = 0) as -> by lia. rewrite Z.mul_1_r, Z.add_0_r.
    cbn [hexw app Nat.add]. by destruct (scan_digits n acc r) as [[? ?] ?].
  - cbn [hexw]. rewrite <- app_assoc. cbn [app]. replace (S k + n)%nat with (k + S n)%nat by lia.
    rewrite Nat2Z.inj_succ, Z.pow_succ_r in * by lia. rewrite IH.
    2:{ split; [apply Z.div_pos; lia|]. apply Z.div_lt_upper_bound; lia. }
    cbn [scan_digits]. destruct (digit_spec (v mod 16)) as [-> _]; [apply Z.mod_pos_bound; lia|].
    replace ((acc * 16 ^ Z.of_nat k + v / 16) * 16 + v mod 16) with (acc * (16 * 16 ^ Z.of_nat k) + v).
    + destruct (scan_digits n _ r) as [[? ?] ?]. f_equal. f_equal. lia.
    + pose proof (Z.div_mod v 16). lia.
Qed.

Lemma hexw_chars k v : Forall (fun c => is_space c = false /\ 48 <= code c /\ code c <> 88 /\ code c <> 120) (hexw k v).
Proof.
  revert v. induction k as [|k IH]; intros v; [by apply Forall_nil|]. cbn [hexw]. apply Forall_app. split; [apply IH|].
  apply Forall_singleton. destruct (digit_spec (v mod 16)) as (_ & ? & ? & ?); [apply Z.mod_pos_bound; lia|]. done.
Qed.

Lemma scan_hex_print k bits v r :
  (0 < k)%nat -> 0 <= v < 16 ^ Z.of_nat k -> scan_hex k bits (print_hex k v ++ r) = Some (wrap bits v, r).
Proof.
  intros Hk Hv. rewrite print_hex_fits by done. pose proof (scan_digits_app 0 k 0 v r Hv) as E.
  rewrite Nat.add_0_r in E. cbn [scan_digits] in E. rewrite Z.mul_0_l, Z.add_0_l, Nat.add_0_r in E.
  pose proof (hexw_chars k v) as Hf. pose proof (length_hexw k v) as Hl.
  destruct (hexw k v) as [|c l] eqn:Eh; [cbn in Hl; lia|]. apply Forall_cons in Hf as [(H1 & H2 & H3 & H4) Hf].
  cbn [app] in *. unfold scan_hex. cbn [skip_space]. rewrite H1. destruct k as [|k]; [lia|].
  destruct (Z.eqb_spec (code c) 45); [lia|]. destruct (Z.eqb_spec (code c) 43); [lia|].
  assert (forall A (x y : A), match S k, c :: (l ++ r) with
    | S (S _), z :: x' :: _ => if (code z =? 48) && ((code x' =? 120) || (code x' =? 88)) then x else y
    | _, _ => y end = y) as Hp.
  { intros A x y. destruct k as [|k]; [done|]. destruct l as [|c2 l]; [cbn in Hl; lia|]. cbn [app].
    apply Forall_cons in Hf as [(_ & _ & G1 & G2) _]. destruct (Z.eqb_spec (code c2) 120), (Z.eqb_spec (code c2) 88); try done.
    by rewrite andb_false_r. }
  destruct k as [|k].
  - rewrite E. done.
  - destruct l as [|c2 l]; [cbn in Hl; lia|]. cbn [app] in *. rewrite Hp, E. done.
Qed.

(** Arguments that every conversion can represent. *)
Fixpoint fits_fmt (fmt : list directive) (args : list Z) : Prop :=
  match fmt, args with
  | [], [] => True
  | Lit _ :: fmt, args => fits_fmt fmt args
  | Hex w b :: fmt, v :: args => (0 < w)%nat /\ 0 <= v < 16 ^ Z.of_nat w /\ fits b v /\ fits_fmt fmt args
  | _, _ => False
  end.

Lemma sscanf_sprintf fmt : forall args, fits_fmt fmt args -> sscanf (fmt ++ [Chr]) (sprintf fmt args) = args.
Proof.
  induction fmt as [|[c|w b|] fmt IH]; intros args H.
  - by destruct args.
  - cbn [app sscanf sprintf]. destruct (decide (c = c)); [|done]. by apply IH.
  - destruct args as [|v args]; [done|]. destruct H as (Hw & Hv & Hb & H).
    cbn [app sscanf sprintf]. rewrite scan_hex_print by done. rewrite wrap_small by done. by rewrite IH.
  - by destruct args.
Qed.

Fixpoint width (fmt : list directive) : nat :=
  match fmt with [] => 0 | Hex w _ :: fmt => w + width fmt | _ :: fmt => S (width fmt) end.

Lemma length_sprintf fmt : forall args, fits_fmt fmt args -> length (sprintf fmt args) = width fmt.
Proof.
  induction fmt as [|[c|w b|] fmt IH]; intros args H.
  - by destruct args.
  - cbn [sprintf width length]. by rewrite IH.
  - destruct args as [|v args]; [done|]. destruct H as (Hw & Hv & Hb & H).
    cbn [sprintf width]. rewrite length_app, print_hex_fits, length_hexw by done. by rewrite IH.
  - by destruct args.
Qed.

Lemma scan_printed n fmt args :
  fits_fmt fmt args -> (width fmt < n)%nat -> sscanf (fmt ++ [Chr]) (os_snprintf n fmt args) = args.
Proof.
  intros H Hn. unfold os_snprintf. rewrite take_ge by (rewrite length_sprintf by done; lia). by apply sscanf_sprintf.
Qed.

(** The names, with arguments in range. *)
Lemma segment_name_read g a e : fits 32 g -> fits 48 a -> fits 48 e ->
  sscanf (SEGMENT_FILE_NAME_FMT ++ [Chr]) (segment_file_name g a e) = [g; a; e].
Proof.
  intros [] [] []. apply scan_printed; [|vm_compute; lia]. cbn [SEGMENT_FILE_NAME_FMT lits app fmap list_fmap String.list_ascii_of_string fits_fmt].
  change (16 ^ Z.of_nat 8) with (2 ^ 32). change (16 ^ Z.of_nat 12) with (2 ^ 48). unfold fits. lia.
Qed.

Lemma cmark_name_read a e : fits 64 (LSN._val a) -> fits 64 (LSN._val e) ->
  sscanf (CHKPT_FILE_NAME_FMT ++ [Chr]) (cmark_file_name a e) = [LSN._val a; LSN._val e].
Proof.
  intros [] []. apply scan_printed; [|vm_compute; lia]. cbn [CHKPT_FILE_NAME_FMT lits app fmap list_fmap String.list_ascii_of_string fits_fmt].
  change (16 ^ Z.of_nat 16) with (2 ^ 64). unfold fits. lia.
Qed.

Lemma dmark_name_read a : fits 64 (LSN._val a) ->
  sscanf (DURABLE_FILE_NAME_FMT ++ [Chr]) (dmark_file_name a) = [LSN._val a].
Proof.
  intros []. apply scan_printed; [|vm_compute; lia]. cbn [DURABLE_FILE_NAME_FMT lits app fmap list_fmap String.list_ascii_of_string fits_fmt].
  change (16 ^ Z.of_nat 16) with (2 ^ 64). unfold fits. lia.
Qed.

Lemma nxt_name_read g : fits 32 g -> sscanf (NXT_SEG_FILE_NAME_FMT ++ [Chr]) (nxt_seg_file_name g) = [g].
Proof.
  intros []. apply scan_printed; [|vm_compute; lia]. cbn [NXT_SEG_FILE_NAME_FMT lits app fmap list_fmap String.list_ascii_of_string fits_fmt].
  change (16 ^ Z.of_nat 8) with (2 ^ 32). unfold fits. lia.
Qed.

(** The first character tells the kinds apart. *)
Lemma head_segment g a e : head (segment_file_name g a e) = Some "l"%char.
Proof. done. Qed.
Lemma head_cmark a e : head (cmark_file_name a e) = Some "c"%char.
Proof. done. Qed.
Lemma head_dmark a : head (dmark_file_name a) = Some "d"%char.
Proof. done. Qed.
Lemma head_nxt g : head (nxt_seg_file_name g) = Some "n"%char.
Proof. done. Qed.
