(* ===== verification/Threads.v ===== *)
(** * Programs over a shared state of any type

    The monad of [Program] for components that do not live in the transaction
    engine's memory: every access of the shared state is one step, before which
    the other threads may change it.  A run also records the state before and
    after each of the thread's own steps, so that a theorem can say what the
    thread does to the others. *)
From stdpp Require Import base numbers list.
From S2P Require Import Prelude.

(** What the other threads do before this thread's [t]-th access. *)
Class Others (St : Type) := { others : nat -> St -> St }.

Section monad.
Context {St : Type} `{OT : Others St}.

(** The result, and the thread's own steps. *)
Definition P (A : Type) : Type := St -> nat -> res (A * (St * nat)) * list (St * St).

Definition pret {A} (a : A) : P A := fun s t => (Ok (a, (s, t)), []).
Definition pbind {A B} (c : P A) (k : A -> P B) : P B := fun s t =>
  match c s t with
  | (Ok (a, (s', t')), l) => let r := k a s' t' in (fst r, l ++ snd r)
  | (Throw e, l) => (Throw e, l)
  end.
Definition pthrow {A} (e : error) : P A := fun _ _ => (Throw e, []).

(** One access. *)
Definition access {A} (f : St -> res (A * St)) : P A := fun s t =>
  let s0 := others t s in
  match f s0 with
  | Ok (a, s') => (Ok (a, (s', S t)), [(s0, s')])
  | Throw e => (Throw e, [])
  end.
Definition load {A} (f : St -> A) : P A := access (fun s => Ok (f s, s)).
(** [__sync_val_compare_and_swap], reduced to whether it succeeded. *)
Definition cas (test : St -> bool) (g : St -> St) : P bool :=
  access (fun s => if test s then Ok (true, g s) else Ok (false, s)).

End monad.

Declare Scope threads_scope.
Delimit Scope threads_scope with threads.
Notation "'do*' x ':=' c 'in' k" := (pbind c (fun x => k))
  (at level 10, x pattern, c at level 100, k at level 200) : threads_scope.
Open Scope threads_scope.

(** ** Reasoning with a growing history

    An invariant [inv h s] ties the state to a ghost history [h] that only
    grows.  What a thread learns about the history stays true, so a program is
    specified by what it requires and what it ensures of the history. *)
Section history.
Context {St : Type} `{OT : Others St} {H : Type} (inv : H -> St -> Prop) (le : H -> H -> Prop) `{!PreOrder le}.

(** The other threads keep the invariant and extend the history. *)
Definition keeps : Prop := forall t s h, inv h s -> exists h', le h h' /\ inv h' (others t s).

(** So do the steps of this thread. *)
Definition own_step (h : H) (p : St * St) : Prop :=
  exists h1 h2, le h h1 /\ le h1 h2 /\ inv h1 (fst p) /\ inv h2 (snd p).

(** [c] started in [h] returns, with an error in [E] or a result in [Q]. *)
Definition ensures {A} (h : H) (c : P A) (E : error -> Prop) (Q : A -> H -> Prop) : Prop :=
  forall h1 s t, le h h1 -> inv h1 s ->
  Forall (own_step h1) (snd (c s t)) /\
  match fst (c s t) with
  | Ok (a, (s', _)) => exists h', le h1 h' /\ inv h' s' /\ Q a h'
  | Throw e => E e
  end.

Lemma own_step_mono h h' p : le h h' -> own_step h' p -> own_step h p.
Proof. intros Hl (h1 & h2 & H1 & H2 & ?). exists h1, h2. split; [by etransitivity|done]. Qed.

Lemma ensures_ret {A} h (a : A) E (Q : A -> H -> Prop) :
  (forall h', le h h' -> Q a h') -> ensures h (pret a) E Q.
Proof. intros HQ h1 s t Hle Hi. split; [by apply Forall_nil|]. exists h1. split; [done|]. split; [done|]. by apply HQ. Qed.

Lemma ensures_throw {A} h e (E : error -> Prop) (Q : A -> H -> Prop) : E e -> ensures h (pthrow e) E Q.
Proof. intros HE h1 s t Hle Hi. split; [by apply Forall_nil|done]. Qed.

Lemma ensures_bind {A B} h (c : P A) (k : A -> P B) E (R : A -> H -> Prop) (Q : B -> H -> Prop) :
  ensures h c E R -> (forall a h', le h h' -> R a h' -> ensures h' (k a) E Q) -> ensures h (pbind c k) E Q.
Proof.
  intros Hc Hk h1 s t Hle Hi. destruct (Hc h1 s t Hle Hi) as [Hl Hc']. unfold pbind.
  destruct (c s t) as [[[a [s1 t1]]|e] l]; cbn [fst snd] in *; [|done].
  destruct Hc' as (h2 & Hle2 & Hi2 & HR). assert (le h h2) as Hle3 by (by etransitivity).
  destruct (Hk a h2 Hle3 HR h2 s1 t1 (reflexivity _) Hi2) as [Hl' Hk']. split.
  - apply Forall_app. split; [done|]. eapply Forall_impl; [exact Hl'|]. intros p. by apply own_step_mono.
  - destruct (fst (k a s1 t1)) as [[b [s2 t2]]|e]; [|done].
    destruct Hk' as (h3 & Hle4 & Hi3 & HQ). exists h3. split; [by etransitivity|done].
Qed.

Lemma ensures_access {A} h (f : St -> res (A * St)) (E : error -> Prop) (Q : A -> H -> Prop) :
  keeps -> (forall h1 s, le h h1 -> inv h1 s ->
    match f s with Ok (a, s') => exists h', le h1 h' /\ inv h' s' /\ Q a h' | Throw e => E e end) ->
  ensures h (access f) E Q.
Proof.
  intros HK Hf h1 s t Hle Hi. destruct (HK t s h1 Hi) as (h2 & Hle2 & Hi2). unfold access.
  assert (le h h2) as Hle3 by (by etransitivity). specialize (Hf h2 _ Hle3 Hi2).
  destruct (f (others t s)) as [[a s']|e]; cbn [fst snd]; [|split; [by apply Forall_nil|done]].
  destruct Hf as (h3 & Hle4 & Hi3 & HQ). split; [by apply Forall_singleton; exists h2, h3|].
  exists h3. split; [by etransitivity|done].
Qed.

Lemma ensures_load {A} h (f : St -> A) (E : error -> Prop) (Q : A -> H -> Prop) :
  keeps -> (forall h1 s, le h h1 -> inv h1 s -> Q (f s) h1) -> ensures h (load f) E Q.
Proof.
  intros HK Hf. apply ensures_access; [done|]. intros h1 s Hle Hi. exists h1. split; [done|]. split; [done|]. by apply Hf.
Qed.

Lemma ensures_mono {A} h h' (c : P A) (E : error -> Prop) (Q R : A -> H -> Prop) :
  le h h' -> ensures h c E Q -> (forall a h2, le h' h2 -> Q a h2 -> R a h2) -> ensures h' c E R.
Proof.
  intros Hl Hc HQ h1 s t Hle Hi. assert (le h h1) as Hle' by (by etransitivity).
  destruct (Hc h1 s t Hle' Hi) as [Hs Hc']. split; [done|].
  destruct (fst (c s t)) as [[a [s1 t1]]|e]; [|done].
  destruct Hc' as (h2 & Hle2 & Hi2 & HR). exists h2. split; [done|]. split; [done|]. apply HQ; [by etransitivity|done].
Qed.

(** The invariant holds of the history at the end. *)
Lemma ensures_inv {A} h (c : P A) (E : error -> Prop) (Q : A -> H -> Prop) :
  ensures h c E Q -> ensures h c E (fun a h' => (exists s, inv h' s) /\ Q a h').
Proof.
  intros Hc h1 s t Hle Hi. destruct (Hc h1 s t Hle Hi) as [Hs Hc']. split; [done|].
  destruct (fst (c s t)) as [[a [s1 t1]]|e]; [|done].
  destruct Hc' as (h2 & ? & ? & ?). exists h2. split_and!; try done. by exists s1.
Qed.
End history.
