(* ===== verification/LogFile.v ===== *)
(** * Log segments and files ([dbcore/sm-log-file.h], [dbcore/sm-log-file.cpp])

    The log is a sequence of at most sixteen segment files.  The manager keeps
    the descriptors of the segments in an array indexed by the segment number
    modulo sixteen, the newest one also in [active_segment], and the marks;
    the directory tells the same by its file names, from which a restart
    rebuilds the manager. *)
From stdpp Require Import base numbers list gmap strings.
From Stdlib Require Import ZArith Lia.
From S2P Require Import Prelude FatPtr Bytes LogBlock LogNames.

Local Open Scope Z_scope.

(* src: dbcore/sm-log-file.h:17-22 segment_id *)
Record segment_id := Segment { fd : Z; segnum : Z; start_offset : Z; end_offset : Z; byte_offset : Z }.

#[global] Instance segment_id_eq_dec : EqDecision segment_id.
Proof. solve_decision. Defined.

(* src: dbcore/sm-log-file.h:24-27 segment_id::contains *)
Definition contains (s : segment_id) (lsn_offset : Z) : bool :=
  (start_offset s <=? lsn_offset) && (u64 (lsn_offset + MIN_LOG_BLOCK_SIZE) <=? end_offset s).
(* src: dbcore/sm-log-file.h:29-33 segment_id::contains *)
Definition contains_lsn (s : segment_id) (lsn : LSN.t) : bool :=
  if negb (LSN.segment lsn =? segnum s mod NUM_LOG_SEGMENTS) then false else contains s (LSN.offset lsn).
(* src: dbcore/sm-log-file.h:35-44 segment_id::offset *)
Definition offset (s : segment_id) (lsn_offset : Z) : Z := u64 (lsn_offset - start_offset s).
(* src: dbcore/sm-log-file.h:46-56 segment_id::buf_offset *)
Definition buf_offset (s : segment_id) (lsn_offset : Z) : Z := u64 (byte_offset s + offset s lsn_offset).
(* src: dbcore/sm-log-file.h:58-61 segment_id::make_lsn *)
Definition make_lsn (s : segment_id) (lsn_offset : Z) : LSN.t :=
  LSN.make lsn_offset (segnum s mod NUM_LOG_SEGMENTS) INVALID_SIZE_CODE.

(** ** The directory

    A directory maps names to contents.  The calls fail when a name they need
    is missing, or taken; the descriptor a call returns is the system's
    choice. *)
Abbreviation directory := (gmap fname (list Z)).

Class Os := { os_fd : directory -> fname -> Z }.

Section os.
Context `{OS : Os}.
Implicit Types d : directory.

(* src: dbcore/sm-common.cpp:43-49 os_openat *)
Definition os_openat d (f : fname) : res Z :=
  match d !! f with None => Throw os_error | Some _ => Ok (os_fd d f) end.
(** With [O_CREAT|O_EXCL]. *)
Definition os_openat_excl d (f : fname) : res (Z * directory) :=
  match d !! f with Some _ => Throw os_error | None => Ok (os_fd d f, <[f := []]> d) end.
(* src: dbcore/sm-common.cpp:104-109 os_renameat *)
Definition os_renameat d (from to : fname) : res directory :=
  match d !! from with None => Throw os_error | Some c => Ok (<[to := c]> (delete from d)) end.
(* src: dbcore/sm-common.cpp:111-116 os_unlinkat *)
Definition os_unlinkat d (f : fname) : res directory :=
  match d !! f with None => Throw os_error | Some _ => Ok (delete f d) end.
(* src: dbcore/sm-common.cpp:94-102 os_truncateat *)
Definition os_truncateat d (f : fname) (size : Z) : directory :=
  let c := default [] (d !! f) in <[f := take (Z.to_nat size) c ++ replicate (Z.to_nat size - length c) 0]> d.
(** A write to the file opened as [f]. *)
(* src: dbcore/sm-common.cpp:57-72 os_pwrite *)
Definition os_pwrite d (f : fname) (buf : list Z) (off : Z) : directory :=
  match d !! f with
  | None => d
  | Some c => let k := Z.to_nat off in
      <[f := take k (c ++ replicate (k - length c) 0) ++ buf ++ drop (k + length buf) c]> d
  end.

End os.

(** ** The manager *)

(* src: dbcore/sm-log-file.h:193-209 sm_log_file_mgr *)
Record log_file_mgr := LogFile {
  dir : directory;
  segment_size : Z;
  segments : gmap Z segment_id;
  active_segment : option segment_id;
  oldest_segnum : Z;
  nxt_segment_fd : Z;
  _durable_lsn : LSN.t;
  _chkpt_start_lsn : LSN.t;
  _chkpt_end_lsn : LSN.t;
}.

Definition set_dir (d : directory) (s : log_file_mgr) : log_file_mgr :=
  LogFile d (segment_size s) (segments s) (active_segment s) (oldest_segnum s) (nxt_segment_fd s)
    (_durable_lsn s) (_chkpt_start_lsn s) (_chkpt_end_lsn s).
Definition set_segments (a : gmap Z segment_id) (s : log_file_mgr) : log_file_mgr :=
  LogFile (dir s) (segment_size s) a (active_segment s) (oldest_segnum s) (nxt_segment_fd s)
    (_durable_lsn s) (_chkpt_start_lsn s) (_chkpt_end_lsn s).
Definition set_active (a : option segment_id) (s : log_file_mgr) : log_file_mgr :=
  LogFile (dir s) (segment_size s) (segments s) a (oldest_segnum s) (nxt_segment_fd s)
    (_durable_lsn s) (_chkpt_start_lsn s) (_chkpt_end_lsn s).
Definition set_oldest (n : Z) (s : log_file_mgr) : log_file_mgr :=
  LogFile (dir s) (segment_size s) (segments s) (active_segment s) n (nxt_segment_fd s)
    (_durable_lsn s) (_chkpt_start_lsn s) (_chkpt_end_lsn s).
Definition set_nxt (n : Z) (s : log_file_mgr) : log_file_mgr :=
  LogFile (dir s) (segment_size s) (segments s) (active_segment s) (oldest_segnum s) n
    (_durable_lsn s) (_chkpt_start_lsn s) (_chkpt_end_lsn s).
Definition set_durable (l : LSN.t) (s : log_file_mgr) : log_file_mgr :=
  LogFile (dir s) (segment_size s) (segments s) (active_segment s) (oldest_segnum s) (nxt_segment_fd s)
    l (_chkpt_start_lsn s) (_chkpt_end_lsn s).
Definition set_chkpt (a e : LSN.t) (s : log_file_mgr) : log_file_mgr :=
  LogFile (dir s) (segment_size s) (segments s) (active_segment s) (oldest_segnum s) (nxt_segment_fd s)
    (_durable_lsn s) a e.

(** Following a pointer that may be null. *)
Definition deref {A} (p : option A) : res A := match p with Some a => Ok a | None => Throw bad_address end.

(** [segments[i]], read and written. *)
(* src: dbcore/sm-log-file.h:69-78 segment_array *)
Definition slot (s : log_file_mgr) (i : Z) : option segment_id := segments s !! (i mod NUM_LOG_SEGMENTS).
Definition set_slot (i : Z) (p : option segment_id) (s : log_file_mgr) : log_file_mgr :=
  set_segments (partial_alter (fun _ => p) (i mod NUM_LOG_SEGMENTS) (segments s)) s.

(** [segment_file_name(sid)]. *)
(* src: dbcore/sm-log-file.cpp:85-88 segment_file_name *)
Definition file_of (s : segment_id) : fname := segment_file_name (segnum s) (start_offset s) (end_offset s).

(* src: dbcore/sm-log-file.cpp:132-135 sm_log_file_mgr::_oldest_segment *)
Definition _oldest_segment (s : log_file_mgr) : option segment_id := slot s (oldest_segnum s).
(* src: dbcore/sm-log-file.cpp:137-140 sm_log_file_mgr::_newest_segment *)
Definition _newest_segment (s : log_file_mgr) : option segment_id := active_segment s.

(** The descriptor is closed and the memory handed to RCU; nobody follows the
    pointer afterwards. *)
(* src: dbcore/sm-log-file.cpp:142-151 sm_log_file_mgr::_pop_oldest *)
Definition _pop_oldest (s : log_file_mgr) : log_file_mgr :=
  let s := set_slot (oldest_segnum s) None s in
  set_oldest (u32 (oldest_segnum s + 1)) s.

(* src: dbcore/sm-log-file.cpp:153-162 sm_log_file_mgr::_pop_newest *)
Definition _pop_newest (s : log_file_mgr) : res log_file_mgr :=
  sid ← deref (_newest_segment s);
  let s := set_slot (segnum sid) None s in
  Ok (set_active (slot s (u32 (segnum sid - 1))) s).

(* src: dbcore/sm-log-file.cpp:74-81 LOG_SEGMENT_ALIGN *)
Definition LOG_SEGMENT_ALIGN : Z := 1024.

(* src: dbcore/sm-log-file.cpp:473-480 sm_log_file_mgr::set_segment_size *)
Definition set_segment_size (ssize : Z) (s : log_file_mgr) : log_file_mgr :=
  LogFile (dir s) (align_up ssize LOG_SEGMENT_ALIGN) (segments s) (active_segment s) (oldest_segnum s)
    (nxt_segment_fd s) (_durable_lsn s) (_chkpt_start_lsn s) (_chkpt_end_lsn s).

Section mgr.
Context `{OS : Os}.
Implicit Types s : log_file_mgr.

(** [nxt_segment_fd] packs a descriptor and a segment number. *)
Definition pack_fd (fd segnum : Z) : Z := Z.lor (u64 (Z.shiftl fd 32)) segnum.

(* src: dbcore/sm-log-file.cpp:490-514 sm_log_file_mgr::_create_nxt_seg_file *)
Definition _create_nxt_seg_file (force : bool) (s : log_file_mgr) : res log_file_mgr :=
  let segno := u32 (u32 (nxt_segment_fd s) + 1) in
  '(doit, s) ← (if force then Ok (true, s) else
    sid ← deref (_newest_segment s);
    if u32 (nxt_segment_fd s) =? segnum sid then
      let s := set_slot (segnum sid) (Some sid) s in
      d ← os_renameat (dir s) (nxt_seg_file_name (segnum sid)) (file_of sid);
      Ok (true, set_dir d s)
    else Ok (false, s));
  if (doit : bool) then
    '(fd, d) ← os_openat_excl (dir s) (nxt_seg_file_name segno);
    Ok (set_nxt (pack_fd fd segno) (set_dir d s))
  else Ok s.

(* src: dbcore/sm-log-file.cpp:516-533 sm_log_file_mgr::update_durable_mark *)
Definition update_durable_mark (dlsn : LSN.t) s : res log_file_mgr :=
  s ← _create_nxt_seg_file false s;
  d ← os_renameat (dir s) (dmark_file_name (_durable_lsn s)) (dmark_file_name dlsn);
  Ok (set_durable dlsn (set_dir d s)).

(* src: dbcore/sm-log-file.cpp:535-556 sm_log_file_mgr::update_chkpt_mark *)
Definition update_chkpt_mark (cstart cend : LSN.t) s : res log_file_mgr :=
  s ← _create_nxt_seg_file false s;
  d ← os_renameat (dir s) (cmark_file_name (_chkpt_start_lsn s) (_chkpt_end_lsn s)) (cmark_file_name cstart cend);
  Ok (set_chkpt cstart cend (set_dir d s)).

(* src: dbcore/sm-log-file.cpp:558-567 sm_log_file_mgr::open_for_write *)
Definition open_for_write (sid : segment_id) s : res (Z * log_file_mgr) :=
  s ← _create_nxt_seg_file false s;
  fd ← os_openat (dir s) (file_of sid);
  Ok (fd, s).

(** Destroying segments; the fuel bounds the number that are destroyed. *)
Fixpoint pop_after (fuel : nat) (segno : Z) s : res (segment_id * log_file_mgr) :=
  match fuel with
  | O => Throw Spinning
  | S fuel =>
      sid ← deref (_newest_segment s);
      if segno <? segnum sid then
        throw_if (start_offset sid <=? LSN.offset (_chkpt_end_lsn s)) illegal_argument;;
        throw_if (start_offset sid <=? LSN.offset (_durable_lsn s)) illegal_argument;;
        d ← os_unlinkat (dir s) (file_of sid);
        s ← _pop_newest (set_dir d s);
        pop_after fuel segno s
      else Ok (sid, s)
  end.

(* src: dbcore/sm-log-file.cpp:633-671 sm_log_file_mgr::truncate_after *)
Definition truncate_after (fuel : nat) (segno new_end : Z) s : res log_file_mgr :=
  old ← deref (_oldest_segment s);
  throw_if (segno <? segnum old) illegal_argument;;
  '(sid, s) ← pop_after fuel segno s;
  s ← (if u32 (segno + 1) <? u32 (nxt_segment_fd s) then
         d ← os_unlinkat (dir s) (nxt_seg_file_name (u32 (nxt_segment_fd s)));
         _create_nxt_seg_file true (set_nxt segno (set_dir d s))
       else Ok s);
  throw_if (new_end <? start_offset sid) log_file_error;;
  throw_if (end_offset sid <? new_end) log_file_error;;
  Ok (set_dir (os_truncateat (dir s) (file_of sid) (new_end - start_offset sid)) s).

Fixpoint pop_before (fuel : nat) (segno : Z) s : res log_file_mgr :=
  match fuel with
  | O => Throw Spinning
  | S fuel =>
      sid ← deref (_oldest_segment s);
      if segnum sid <? segno then
        throw_if (LSN.offset (_durable_lsn s) <? end_offset sid) illegal_argument;;
        throw_if (LSN.offset (_chkpt_start_lsn s) <? end_offset sid) illegal_argument;;
        d ← os_unlinkat (dir s) (file_of sid);
        pop_before fuel segno (_pop_oldest (set_dir d s))
      else Ok s
  end.

(* src: dbcore/sm-log-file.cpp:673-697 sm_log_file_mgr::reclaim_before *)
Definition reclaim_before (fuel : nat) (segno : Z) s : res log_file_mgr :=
  new ← deref (_newest_segment s);
  throw_if (segnum new <? segno) illegal_argument;;
  pop_before fuel segno s.

End mgr.
