(* ===== verification/LogOffset.v ===== *)
(** * Assigning log offsets to segments ([dbcore/sm-log-offset.cpp])

    Threads take ranges of LSN offsets from a counter, then find out where in
    the log a range lies; a thread whose range runs past the newest segment
    races to install the next one.  The array of segments, [active_segment] and
    [nxt_segment_fd] are read without a lock, one access at a time.  A section
    that holds [file_mutex] is one access. *)
From stdpp Require Import base numbers list gmap strings.
From Stdlib Require Import ZArith Lia.
From S2P Require Import Prelude FatPtr Bytes LogBlock LogNames Threads LogFile.

Local Open Scope Z_scope.

Section ops.
Context `{OS : Os} `{OT : Others log_file_mgr}.

Local Abbreviation L := (@P log_file_mgr).

(** Following a pointer obtained earlier. *)
Definition pderef {A} (p : option A) : L A := match p with Some a => pret a | None => pthrow bad_address end.

(** Reading [active_segment] and following it. *)
Definition newest : L segment_id := do* p := load _newest_segment in pderef p.

(* src: dbcore/sm-log-file.cpp:580-612 sm_log_file_mgr::_prepare_new_segment *)
Definition _prepare_new_segment (segno start byte_offset : Z) : L (option segment_id) :=
  do* sid := load (fun s => slot s segno) in
  if (match sid with Some sid => negb (segnum sid =? segno) | None => false end) then pthrow log_is_full else
  do* fd_info := load nxt_segment_fd in
  do* fd_info := (if u32 fd_info <? segno
                  then access (fun s => s ← _create_nxt_seg_file false s; Ok (nxt_segment_fd s, s))
                  else pret fd_info) in
  if segno <? u32 fd_info then pret None else
  let fd := Z.shiftr fd_info 32 in
  do* size := load segment_size in
  pret (Some (Segment fd segno start (u64 (start + size)) byte_offset)).

(* src: dbcore/sm-log-file.cpp:569-578 sm_log_file_mgr::prepare_new_segment *)
Definition prepare_new_segment (start : Z) : L (option segment_id) :=
  do* psid := newest in
  if u64 (start + MIN_LOG_BLOCK_SIZE) <? end_offset psid then pret None else
  let pssize := u64 (end_offset psid - start_offset psid) in
  _prepare_new_segment (u32 (segnum psid + 1)) start (u64 (byte_offset psid + pssize)).

(** Segments are compared by value; two segments of one log differ in their
    numbers. *)
(* src: dbcore/sm-log-file.cpp:614-631 sm_log_file_mgr::create_segment *)
Definition create_segment (sid : segment_id) : L bool :=
  do* psid := newest in
  if segnum sid =? u32 (segnum psid + 1)
  then cas (fun s => bool_decide (active_segment s = Some psid)) (set_active (Some sid))
  else pret false.

(* src: dbcore/sm-log-offset.cpp:67-104 sm_log_offset_mgr::get_segment *)
Definition get_segment (mod_segnum : Z) : L (option segment_id) :=
  do* sid := load (fun s => slot s mod_segnum) in
  match sid with
  | Some _ => pret sid
  | None =>
      do* sid := newest in
      if negb (mod_segnum =? segnum sid mod NUM_LOG_SEGMENTS) then load (fun s => slot s mod_segnum)
      else pret (Some sid)
  end.

(* src: dbcore/sm-log-offset.cpp:106-115 sm_log_offset_mgr::get_offset_segment *)
Fixpoint offset_segment_from (fuel : nat) (sid : option segment_id) (lsn_offset : Z) : L (option segment_id) :=
  match fuel, sid with
  | _, None => pret None
  | O, _ => pthrow Spinning
  | S fuel, Some s =>
      if contains s lsn_offset then pret (Some s) else
      do* sid := load (fun st => slot st (u32 (segnum s - 1))) in
      offset_segment_from fuel sid lsn_offset
  end.
Definition get_offset_segment (fuel : nat) (lsn_offset : Z) : L (option segment_id) :=
  do* sid := load _newest_segment in offset_segment_from fuel sid lsn_offset.

(* src: dbcore/sm-log-offset.cpp:28-42 sm_log_offset_mgr::ptr2lsn *)
Definition ptr2lsn (ptr : fat_ptr.t) : L LSN.t :=
  let atype := fat_ptr.asi_type ptr in
  if negb (atype =? fat_ptr.ASI_LOG) && negb (atype =? fat_ptr.ASI_EXT) then pthrow illegal_argument else
  let segno := fat_ptr.log_segment ptr in
  if segno <? 0 then pthrow illegal_argument else
  do* p := get_segment segno in
  do* sid := pderef p in
  pret (LSN.make (start_offset sid) segno (fat_ptr.size_code ptr)).

(* src: dbcore/sm-log-offset.cpp:271-281 sm_log_offset_mgr::_install_segment *)
Definition _install_segment (sid : segment_id) (lsn_offset : Z) : L segment_id :=
  do* nsid := prepare_new_segment lsn_offset in
  do* won := match nsid with Some n => create_segment n | None => pret false end in
  match won, nsid with
  | true, Some n => pret n
  | _, _ =>
      do* p := get_segment (u32 (segnum sid + 1) mod NUM_LOG_SEGMENTS) in
      pderef p
  end.

(* src: dbcore/sm-log-offset.h:23-32 segment_assignment *)
Record segment_assignment := Assignment { sid : option segment_id; next_lsn : LSN.t; full_size : bool }.

(** Backing up from [left] while the range ends before it; [k] more rounds may
    go on.  The result is [left] and [right]. *)
(* src: dbcore/sm-log-offset.cpp:149-168 sm_log_offset_mgr::assign_segment *)
Fixpoint back_up (k : nat) (lsn_end : Z) (right : option segment_id) (left : segment_id) :
    L (option segment_id * option segment_id) :=
  if lsn_end <=? start_offset left then
    do* p := load (fun s => slot s (u32 (segnum left - 1))) in
    match p, k with
    | Some left', S k => back_up k lsn_end (Some left) left'
    | _, _ => pret (None, Some left)
    end
  else pret (Some left, right).

(** The recursive calls start over after a segment was installed that the
    range does not fit in; the fuel bounds them. *)
(* src: dbcore/sm-log-offset.cpp:141-260 sm_log_offset_mgr::assign_segment *)
Fixpoint assign_segment (fuel : nat) (lsn_begin lsn_end : Z) : L segment_assignment :=
  match fuel with
  | O => pthrow Spinning
  | S fuel =>
      do* top := newest in
      do* (left_, right_) := back_up (Z.to_nat NUM_LOG_SEGMENTS) lsn_end None top in
      match left_ with
      | None => pret (Assignment None INVALID_LSN true)
      | Some l =>
          if u64 (lsn_begin + MIN_LOG_BLOCK_SIZE) <=? end_offset l then
            if u64 (lsn_end + MIN_LOG_BLOCK_SIZE) <=? end_offset l
            then pret (Assignment (Some l) (make_lsn l lsn_end) true)
            else
              let finish r := pret (Assignment (Some l) (make_lsn r (start_offset r)) (lsn_end <=? end_offset l)) in
              match right_ with
              | Some r => finish r
              | None =>
                  do* r := _install_segment l lsn_end in
                  if end_offset r <? u64 (lsn_end + MIN_LOG_BLOCK_SIZE) then assign_segment fuel lsn_begin lsn_end
                  else finish r
              end
          else
            match right_ with
            | Some _ => pret (Assignment None INVALID_LSN true)
            | None =>
                do* r := _install_segment l lsn_begin in
                if start_offset r <=? lsn_begin then
                  if end_offset r <? u64 (lsn_end + MIN_LOG_BLOCK_SIZE) then assign_segment fuel lsn_begin lsn_end
                  else pret (Assignment (Some r) (make_lsn r lsn_end) true)
                else pret (Assignment None INVALID_LSN true)
            end
      end
  end.

End ops.
