(* ===== verification/LogOffsetSafe.v ===== *)
(** * Every block finds its place in the log

    The segments that were ever installed form a history; the manager's state
    is tied to it by an invariant that every step of the threads keeps.  With
    it, [assign_segment] returns, and its answer is the place of the range in
    the history. *)
From stdpp Require Import base numbers list gmap strings.
From Stdlib Require Import ZArith Lia.
From S2P Require Import Prelude FatPtr Bytes LogBlock LogNames Threads LogFile LogOffset.

Local Open Scope Z_scope.

(** The segments that were installed, how many of them were reclaimed, and
    for how many segments there is or was a file. *)
Record history := History { segs : list segment_id; gone : nat; ready : nat }.

Definition grows (h h' : history) : Prop :=
  segs h `prefix_of` segs h' /\ (gone h <= gone h')%nat /\ (ready h <= ready h')%nat.

#[global] Instance grows_preorder : PreOrder grows.
Proof.
  split.
  - intros h. by split.
  - intros h1 h2 h3 (H1 & H2 & H3) (H4 & H5 & H6). split; [by etransitivity|lia].
Qed.

Lemma grows_lookup h h' i a : grows h h' -> segs h !! i = Some a -> segs h' !! i = Some a.
Proof. intros [H _] Ha. by eapply prefix_lookup_Some. Qed.

Lemma grows_length h h' : grows h h' -> (length (segs h) <= length (segs h'))%nat.
Proof. intros [H _]. by apply prefix_length. Qed.

Lemma mod16_ne a c : a < c < a + 16 -> a mod 16 <> c mod 16.
Proof.
  intros H E. pose proof (Z.div_mod a 16 ltac:(lia)). pose proof (Z.div_mod c 16 ltac:(lia)). lia.
Qed.

Lemma mod16_eq a c : a mod 16 = c mod 16 -> a - 16 < c < a + 16 -> c = a.
Proof.
  intros E H. pose proof (Z.div_mod a 16 ltac:(lia)). pose proof (Z.div_mod c 16 ltac:(lia)). lia.
Qed.

(** ** The history *)

Section inv.
(** The number of the first segment of the history, the index of the segment
    that was active at start-up, and the boundaries of log blocks. *)
Context (first : Z) (boot : nat) (Bd : Z -> Prop).

(** A segment holds at least a megabyte and starts at a block. *)
Record segment_ok (s : segment_id) : Prop := {
  sg_num : 1 <= segnum s;
  sg_start : 2 ^ 19 * (segnum s - 1) <= start_offset s < 2 ^ 48;
  sg_end : start_offset s + 2 ^ 20 <= end_offset s < 2 ^ 63;
  sg_bd : Bd (start_offset s);
}.

(** What follows a segment: the next number, an offset from which no block
    fits any more, and the next bytes of the log buffer. *)
Definition follows (i : nat) (a c : segment_id) : Prop :=
  end_offset a < start_offset c + MIN_LOG_BLOCK_SIZE /\
  ((boot <= i)%nat -> byte_offset c = u64 (byte_offset a + (end_offset a - start_offset a))).

Record history_ok (h : list segment_id) : Prop := {
  hs_ok : forall i a, h !! i = Some a -> segment_ok a;
  hs_num : forall i a, h !! i = Some a -> segnum a = first + Z.of_nat i;
  hs_next : forall i a c, h !! i = Some a -> h !! S i = Some c -> follows i a c;
}.

(** ** The manager *)

Record log_inv (h : history) (s : log_file_mgr) : Prop := {
  li_hist : history_ok (segs h);
  li_live : (gone h < length (segs h))%nat /\ (length (segs h) <= gone h + 16)%nat;
  li_ready : (ready h <= length (segs h))%nat /\ (length (segs h) <= S (ready h))%nat;
  li_active : active_segment s = last (segs h);
  li_nxt : u32 (nxt_segment_fd s) = first + Z.of_nat (ready h);
  li_slot : forall i sid, segments s !! i = Some sid ->
            exists j, (gone h <= j)%nat /\ segs h !! j = Some sid /\ i = segnum sid mod 16;
  li_full : forall j sid, (gone h <= j < ready h)%nat -> segs h !! j = Some sid ->
            segments s !! (segnum sid mod 16) = Some sid;
  li_file : is_Some (dir s !! nxt_seg_file_name (first + Z.of_nat (ready h)));
  li_only : forall n, first + Z.of_nat (ready h) < n < 2 ^ 32 -> dir s !! nxt_seg_file_name n = None;
  li_size : 2 ^ 20 <= segment_size s < 2 ^ 62;
}.

Lemma start_lt h i j a c : history_ok h -> (i < j)%nat -> h !! i = Some a -> h !! j = Some c ->
  start_offset a + 2 ^ 19 <= start_offset c /\ end_offset a < start_offset c + MIN_LOG_BLOCK_SIZE.
Proof.
  intros Hh Hij. revert c. induction Hij as [|j Hij IH]; intros c Ha Hc.
  - destruct (hs_next _ Hh i a c Ha Hc) as [Hn _]. destruct (sg_end _ (hs_ok _ Hh i a Ha)) as [? _].
    change MIN_LOG_BLOCK_SIZE with 32 in *. lia.
  - destruct (lookup_lt_is_Some_2 h j) as [d Hd]; [apply lookup_lt_Some in Hc; lia|].
    destruct (IH d Ha Hd) as [H1 H2]. destruct (hs_next _ Hh j d c Hd Hc) as [Hn _].
    destruct (sg_end _ (hs_ok _ Hh j d Hd)) as [? _]. change MIN_LOG_BLOCK_SIZE with 32 in *. lia.
Qed.

Lemma start_mono h i j a c : history_ok h -> (i <= j)%nat -> h !! i = Some a -> h !! j = Some c ->
  start_offset a <= start_offset c.
Proof.
  intros Hh Hij Ha Hc. destruct (decide (i = j)) as [->|]; [simplify_eq; done|].
  destruct (start_lt h i j a c Hh) as [? _]; [lia|done|done|lia].
Qed.

Lemma segnum_bound h i a : history_ok h -> h !! i = Some a -> 1 <= segnum a < 2 ^ 30.
Proof. intros Hh Ha. destruct (hs_ok _ Hh i a Ha) as [? ? ? ?]. lia. Qed.

Lemma first_pos h : history_ok h -> (0 < length h)%nat -> 1 <= first.
Proof.
  intros Hh Hl. destruct (lookup_lt_is_Some_2 h 0 Hl) as [a Ha].
  pose proof (segnum_bound h 0 a Hh Ha). rewrite (hs_num _ Hh 0 a Ha) in *. lia.
Qed.

Lemma length_bound h : history_ok h -> (0 < length h)%nat -> first + Z.of_nat (length h) <= 2 ^ 30.
Proof.
  intros Hh Hl. destruct (lookup_lt_is_Some_2 h (length h - 1)) as [a Ha]; [lia|].
  pose proof (segnum_bound h _ a Hh Ha). rewrite (hs_num _ Hh _ a Ha) in *. lia.
Qed.

Lemma history_app h a :
  history_ok h -> segment_ok a -> segnum a = first + Z.of_nat (length h) ->
  (forall p, last h = Some p -> follows (length h - 1) p a) -> history_ok (h ++ [a]).
Proof.
  intros Hh Ha Hn Hf. split.
  - intros i x [Hx|[Hi Hx]]%lookup_app_Some; [by eapply (hs_ok _ Hh)|].
    apply list_lookup_singleton_Some in Hx as [_ <-]. done.
  - intros i x [Hx|[Hi Hx]]%lookup_app_Some; [by apply (hs_num _ Hh)|].
    apply list_lookup_singleton_Some in Hx as [? <-]. lia.
  - intros i x c Hx [Hc|[Hi Hc]]%lookup_app_Some.
    + rewrite lookup_app_l in Hx by (apply lookup_lt_Some in Hc; lia). by eapply (hs_next _ Hh).
    + apply list_lookup_singleton_Some in Hc as [? <-]. rewrite lookup_app_l in Hx by lia.
      assert (i = length h - 1)%nat as -> by lia. apply Hf. rewrite last_lookup.
      by replace (Nat.pred (length h)) with (length h - 1)%nat by lia.
Qed.

Lemma u32_pack x n : 0 <= n < 2 ^ 32 -> u32 (pack_fd x n) = n.
Proof.
  intros Hn. unfold pack_fd. apply Z.bits_inj'. intros i Hi.
  rewrite wrap_spec, Z.lor_spec, wrap_spec by lia.
  destruct (Z.ltb_spec i 32); cbn [andb].
  - rewrite Z.shiftl_spec_low by lia. by rewrite andb_false_r.
  - symmetry. rewrite <- (Z.mod_small n (2 ^ 32)) by lia. apply Z.mod_pow2_bits_high. lia.
Qed.

Lemma nxt_inj m n : fits 32 m -> fits 32 n -> nxt_seg_file_name m = nxt_seg_file_name n -> m = n.
Proof. intros Hm Hn H. pose proof (nxt_name_read m Hm) as A. rewrite H, (nxt_name_read n Hn) in A. by simplify_eq. Qed.

Lemma file_not_nxt s n : file_of s <> nxt_seg_file_name n.
Proof.
  intros H. pose proof (head_segment (segnum s) (start_offset s) (end_offset s)) as A.
  unfold file_of in H. rewrite H, head_nxt in A. done.
Qed.
Lemma last_segment h : history_ok h -> (0 < length h)%nat ->
  exists a, last h = Some a /\ h !! (length h - 1)%nat = Some a /\ segnum a = first + Z.of_nat (length h) - 1.
Proof.
  intros Hh Hl. destruct (lookup_lt_is_Some_2 h (length h - 1)) as [a Ha]; [lia|]. exists a.
  rewrite last_lookup. replace (Nat.pred (length h)) with (length h - 1)%nat by lia.
  split; [done|]. split; [done|]. rewrite (hs_num _ Hh _ a Ha). lia.
Qed.

(** The file for the next segment is made ready when it is not yet. *)
Lemma create_nxt_ok `{OS : Os} h s : log_inv h s ->
  exists s' h', _create_nxt_seg_file false s = Ok s' /\ log_inv h' s' /\ grows h h' /\
    segs h' = segs h /\ gone h' = gone h /\ ready h' = length (segs h).
Proof.
  intros Hi. pose proof Hi as [Hh Hlive Hr Hact Hnxt Hslot Hfull Hfile Honly Hsize].
  destruct (last_segment (segs h) Hh ltac:(lia)) as (a & Hl & Ha & Hn).
  pose proof (length_bound (segs h) Hh ltac:(lia)) as Hb. pose proof (first_pos (segs h) Hh ltac:(lia)) as Hf.
  unfold _create_nxt_seg_file, _newest_segment. rewrite Hact, Hl. cbn [deref mbind res_bind].
  rewrite Hnxt. destruct (Z.eqb_spec (first + Z.of_nat (ready h)) (segnum a)) as [Hp|Hp].
  2: { exists s, h. split; [done|]. split; [done|]. split; [done|]. split; [done|]. split; [done|lia]. }
  unfold os_renameat. cbn [dir set_slot set_segments]. rewrite Hp in Hfile. destruct Hfile as [c Hc]. rewrite Hc.
  cbn [mbind res_bind]. unfold os_openat_excl. cbn [dir set_dir].
  rewrite Hp. replace (u32 (segnum a + 1)) with (segnum a + 1) by (rewrite wrap_small; [done|split; lia]).
  rewrite lookup_insert_ne by apply file_not_nxt.
  rewrite lookup_delete_ne by (intros ?%nxt_inj; [lia|split; lia|split; lia]).
  rewrite Honly by lia. cbn [mbind res_bind].
  eexists _, (History (segs h) (gone h) (length (segs h))). split; [done|]. split; [|split; [split; [done|cbn; lia]|done]].
  split; cbn; rewrite ?u32_pack by lia; try done; try lia.
  - intros i x. change NUM_LOG_SEGMENTS with 16.
    destruct (decide (i = segnum a mod 16)) as [->|].
    + rewrite lookup_partial_alter_eq. intros [= <-]. exists (length (segs h) - 1)%nat. split; [lia|done].
    + rewrite lookup_partial_alter_ne by done. apply Hslot.
  - intros j x Hkj Hx. change NUM_LOG_SEGMENTS with 16. pose proof (hs_num _ Hh j x Hx).
    destruct (decide (j = length (segs h) - 1)%nat) as [->|Hj].
    + rewrite Ha in Hx. simplify_eq. by rewrite lookup_partial_alter_eq.
    + rewrite lookup_partial_alter_ne; [|apply not_eq_sym, mod16_ne; lia]. apply (Hfull j); [lia|done].
  - replace (first + Z.of_nat (length (segs h))) with (segnum a + 1) by lia. by rewrite lookup_insert_eq.
  - intros n Hlt. rewrite lookup_insert_ne by (intros ?%nxt_inj; [lia|split; lia|split; lia]).
    rewrite lookup_insert_ne by apply file_not_nxt. apply lookup_delete_None. right. apply Honly. lia.
Qed.

(** A segment is installed when its file is ready and there is room. *)
Lemma install_ok h s a p :
  log_inv h s -> ready h = length (segs h) -> (length (segs h) < gone h + 16)%nat ->
  segment_ok a -> segnum a = first + Z.of_nat (length (segs h)) -> last (segs h) = Some p ->
  follows (length (segs h) - 1) p a ->
  log_inv (History (segs h ++ [a]) (gone h) (ready h)) (set_active (Some a) s).
Proof.
  intros [Hh Hlive Hr Hact Hnxt Hslot Hfull Hfile Honly Hsize] Hrd Hroom Ha Hn Hl Hf.
  split; cbn; rewrite ?length_app; cbn; try done; try lia.
  - apply history_app; [done|done|done|]. intros q Hq. rewrite Hl in Hq. by simplify_eq.
  - by rewrite last_snoc.
  - intros i x Hx. destruct (Hslot i x Hx) as (j & Hk & Hj & ?). exists j. split; [done|].
    split; [by apply lookup_app_l_Some|done].
  - intros j x Hk Hx. rewrite lookup_app_l in Hx by lia. by apply (Hfull j).
Qed.

(** The slot of the next segment tells whether there is room. *)
Lemma room_ok h s : log_inv h s ->
  slot s (first + Z.of_nat (length (segs h))) = None -> (length (segs h) < gone h + 16)%nat.
Proof.
  intros [Hh Hlive Hr Hact Hnxt Hslot Hfull Hfile Honly Hsize] Hs.
  destruct (decide (length (segs h) = gone h + 16)%nat) as [He|]; [exfalso|lia].
  destruct (lookup_lt_is_Some_2 (segs h) (gone h)) as [a Ha]; [lia|].
  pose proof (Hfull (gone h) a ltac:(lia) Ha) as Hf. rewrite (hs_num _ Hh _ _ Ha) in Hf.
  unfold slot in Hs. change NUM_LOG_SEGMENTS with 16 in Hs.
  replace (first + Z.of_nat (length (segs h))) with (first + Z.of_nat (gone h) + 1 * 16) in Hs by lia.
  rewrite Z_mod_plus_full, Hf in Hs. done.
Qed.
End inv.
