(* ===== verification/LogAssign.v ===== *)
(** * [assign_segment] under interference

    For the range [b, e) of one log block: the answer of [assign_segment] is the
    place of the block in the history of segments, whatever the other threads
    install and reclaim meanwhile. *)
From stdpp Require Import base numbers list gmap strings.
From Stdlib Require Import ZArith Lia.
From S2P Require Import Prelude FatPtr Bytes LogBlock LogNames Threads LogFile LogOffset LogOffsetSafe.

Local Open Scope Z_scope.

(** No segment of the history has room for the block: it lies between two
    segments, or before the first. *)
Definition dead (b e : Z) (h : list segment_id) : Prop :=
  exists c, e <= start_offset c /\
    (h !! 0%nat = Some c \/
     exists i a, h !! i = Some a /\ h !! S i = Some c /\ end_offset a < b + MIN_LOG_BLOCK_SIZE).

(** What an assignment says of the block.  Of [full_size] nothing is said when
    the block has no place. *)
Definition placed (b e : Z) (h : list segment_id) (r : segment_assignment) : Prop :=
  match sid r with
  | Some s =>
      exists i, h !! i = Some s /\ start_offset s <= b /\ b + MIN_LOG_BLOCK_SIZE <= end_offset s /\
        full_size r = (e <=? end_offset s) /\
        if e + MIN_LOG_BLOCK_SIZE <=? end_offset s then next_lsn r = make_lsn s e
        else exists c, h !! S i = Some c /\ e <= start_offset c /\ next_lsn r = make_lsn c (start_offset c)
  | None => dead b e h /\ next_lsn r = INVALID_LSN
  end.

Lemma dead_mono b e h h' : h `prefix_of` h' -> dead b e h -> dead b e h'.
Proof.
  intros Hp (c & He & H). exists c. split; [done|]. destruct H as [H|(i & a & Ha & Hc & H)].
  - left. by eapply prefix_lookup_Some.
  - right. exists i, a. split_and!; [by eapply prefix_lookup_Some|by eapply prefix_lookup_Some|done].
Qed.

Lemma placed_mono b e h h' r : h `prefix_of` h' -> placed b e h r -> placed b e h' r.
Proof.
  intros Hp. unfold placed. destruct (sid r) as [s|].
  - intros (i & Hi & H1 & H2 & H3 & H4). exists i. split; [by eapply prefix_lookup_Some|].
    split; [done|]. split; [done|]. split; [done|]. revert H4. destruct (Z.leb (e + _) _); [done|].
    intros (c & Hc & H4). exists c. split; [by eapply prefix_lookup_Some|done].
  - intros [H ?]. split; [by eapply dead_mono|done].
Qed.

Section assign.
Context `{OS : Os} `{OT : Others log_file_mgr}.
Context (first : Z) (boot : nat) (Bd : Z -> Prop) (b e : Z) (n0 : nat).

(** What the other threads leave alone while the block has no place yet: the
    segment that was active at the beginning and its successors are not
    reclaimed, and segments with room for the block are not reclaimed. *)
Record calm (h : history) : Prop := {
  cm_kept : (gone h < n0)%nat;
  cm_gone : forall i a, (i < gone h)%nat -> segs h !! i = Some a -> end_offset a <= b;
}.

(** No segment installed since the beginning ends exactly with the block's
    first [MIN_LOG_BLOCK_SIZE] bytes.  Were there one, [prepare_new_segment]
    would prepare its successor to start at [b], inside it. *)
Definition no_exact_fit (h : history) : Prop :=
  forall i a, (n0 <= i)%nat -> segs h !! i = Some a -> end_offset a <> b + MIN_LOG_BLOCK_SIZE.

Definition inv (h : history) (s : log_file_mgr) : Prop := log_inv first boot Bd h s /\ calm h /\ no_exact_fit h.

Abbreviation ensures := (ensures inv grows).

Hypothesis Hothers : keeps inv grows.
Hypothesis Hb : 0 <= b /\ Bd b.
Hypothesis He : b + MIN_LOG_BLOCK_SIZE <= e < 2 ^ 48 /\ Bd e.
(** No block boundary lies inside the block. *)
Hypothesis Hblock : forall x, Bd x -> b < x -> e <= x.

(** A segment that was the newest one at some point since [h]. *)
Definition newest_since (h : history) (a : segment_id) (h' : history) : Prop :=
  exists j k, segs h' !! j = Some a /\ (length (segs h) <= S j)%nat /\ (k <= gone h')%nat /\ (k <= j < k + 16)%nat /\
    (gone h <= k < n0)%nat.

Lemma assign_live h s : inv h s -> (gone h < length (segs h) <= gone h + 16)%nat.
Proof. intros [Hi _]. apply (li_live _ _ _ _ _ Hi). Qed.

Lemma inv_hist h s : inv h s -> history_ok first boot Bd (segs h).
Proof. intros [Hi _]. apply (li_hist _ _ _ _ _ Hi). Qed.

Lemma newest_ok h E : ensures h newest E (newest_since h).
Proof.
  unfold newest. apply (ensures_bind inv grows) with (fun p h' => exists a, p = Some a /\ newest_since h a h').
  - apply (ensures_load inv grows); [done|]. intros h1 s Hle Hi.
    pose proof (assign_live _ _ Hi). pose proof (grows_length _ _ Hle).
    destruct (last_segment first boot Bd (segs h1) (inv_hist _ _ Hi)) as (a & Hl & Ha & _); [lia|].
    exists a. split; [unfold _newest_segment; by rewrite (li_active _ _ _ _ _ (proj1 Hi))|].
    exists (length (segs h1) - 1)%nat, (gone h1). split; [done|]. destruct Hle as (_ & ? & _).
    pose proof (cm_kept _ (proj1 (proj2 Hi))). lia.
  - intros p h' Hle (a & -> & j & k & Ha & ?). apply (ensures_ret inv grows). intros h2 Hle2.
    exists j, k. split; [by eapply grows_lookup|]. destruct Hle2 as (_ & ? & _). lia.
Qed.

Lemma newest_hist h E : ensures h newest E (fun a h' => history_ok first boot Bd (segs h') /\ newest_since h a h').
Proof.
  eapply (ensures_mono inv grows); [reflexivity|apply (ensures_inv inv grows), newest_ok|].
  intros a h' _ [[s Hi] Ha]. split; [by eapply inv_hist|done].
Qed.

(** ** Backing up *)

(** A slot read while backing up from the segment at [j]. *)
Lemma read_before h s j l :
  inv h s -> segs h !! j = Some l -> e <= start_offset l ->
  match slot s (u32 (segnum l - 1)) with
  | None => dead b e (segs h)
  | Some x => (exists i, j = S i /\ (gone h <= i)%nat /\ segs h !! i = Some x) \/
              ((j <= gone h)%nat /\ dead b e (segs h) /\ exists i, (j <= i)%nat /\ segs h !! i = Some x)
  end.
Proof.
  intros Hi Hl Hs. pose proof (inv_hist _ _ Hi) as Hh. pose proof (assign_live _ _ Hi) as Hlive.
  pose proof (segnum_bound _ _ _ _ _ _ Hh Hl) as Hn. pose proof (hs_num _ _ _ _ Hh _ _ Hl) as Hnj.
  pose proof (lookup_lt_Some _ _ _ Hl). destruct Hi as (Hi & Hc & _).
  replace (u32 (segnum l - 1)) with (segnum l - 1) by (rewrite wrap_small; [done|split; lia]).
  assert (Hdead : (j <= gone h)%nat -> dead b e (segs h)).
  { intros Hj. exists l. split; [done|]. destruct j as [|i]; [by left|right].
    destruct (lookup_lt_is_Some_2 (segs h) i) as [a Ha]; [lia|]. exists i, a. split; [done|]. split; [done|].
    pose proof (cm_gone _ Hc i a ltac:(lia) Ha). change MIN_LOG_BLOCK_SIZE with 32. lia. }
  unfold slot. change NUM_LOG_SEGMENTS with 16.
  destruct (segments s !! ((segnum l - 1) mod 16)) as [x|] eqn:Hx.
  - destruct (li_slot _ _ _ _ _ Hi _ _ Hx) as (i & Hk & Hxi & Hm).
    pose proof (hs_num _ _ _ _ Hh _ _ Hxi) as Hni. pose proof (lookup_lt_Some _ _ _ Hxi).
    destruct (decide (i < j)%nat) as [Hij|Hij].
    + left. exists i. apply mod16_eq in Hm; [|lia]. split; [lia|done].
    + right. assert (j + 15 <= i)%nat.
      { destruct (decide (i < j + 15)%nat); [|lia]. apply mod16_eq in Hm; lia. }
      assert (j <= gone h)%nat by lia. split; [done|]. split; [by apply Hdead|]. exists i. split; [lia|done].
  - destruct j as [|i]; [apply Hdead; lia|]. destruct (decide (S i <= gone h)%nat) as [|Hg]; [by apply Hdead|exfalso].
    destruct (lookup_lt_is_Some_2 (segs h) i) as [a Ha]; [lia|].
    pose proof (li_full _ _ _ _ _ Hi i a) as Hf. pose proof (li_ready _ _ _ _ _ Hi).
    replace (segnum l - 1) with (segnum a) in Hx by (rewrite (hs_num _ _ _ _ Hh _ _ Ha); lia).
    rewrite Hf in Hx; [done|lia|done].
Qed.

(** Once the segments before the block are known to be gone, backing up finds
    only later ones. *)
Lemma back_up_wrapped k E q c : forall h i right l,
  (q <= gone h)%nat -> segs h !! q = Some c -> e <= start_offset c -> dead b e (segs h) ->
  (q <= i)%nat -> segs h !! i = Some l -> history_ok first boot Bd (segs h) ->
  ensures h (back_up k e right l) E (fun r h' => r.1 = None /\ dead b e (segs h')).
Proof.
  induction k as [|k IH]; intros h i right l Hq Hc Hs Hd Hi Hl Hh; cbn [back_up];
    pose proof (start_mono _ _ _ _ _ _ _ _ Hh Hi Hc Hl); destruct (Z.leb_spec e (start_offset l)); try lia.
  all: apply (ensures_bind inv grows) with (fun p h' => history_ok first boot Bd (segs h') /\
    (forall x, p = Some x -> exists i', (q <= i')%nat /\ segs h' !! i' = Some x)).
  1,3: apply (ensures_load inv grows); [done|]; intros h1 s Hle Hinv; split; [by eapply inv_hist|];
    intros x Hx; destruct (li_slot _ _ _ _ _ (proj1 Hinv) _ _ Hx) as (i' & ? & ? & _);
    exists i'; split; [destruct Hle as (_ & ? & _); lia|done].
  all: intros p h' Hle [Hh' Hp]; assert (Hd' : dead b e (segs h')) by (eapply dead_mono; [apply Hle|done]).
  - assert (forall r : segment_id, ensures h' (pret (None : option segment_id, Some r)) E (fun r h' => r.1 = None /\ dead b e (segs h'))).
    { intros r. apply (ensures_ret inv grows). intros h2 Hle2. split; [done|]. eapply dead_mono; [apply Hle2|done]. }
    by destruct p.
  - destruct p as [x|].
    + destruct (Hp x eq_refl) as (i' & Hqi & Hx). apply (IH h' i'); try done.
      * destruct Hle as (_ & ? & _). lia.
      * by eapply grows_lookup.
    + apply (ensures_ret inv grows). intros h2 Hle2. split; [done|]. eapply dead_mono; [apply Hle2|done].
Qed.

(** What backing up from [top] finds. *)
Definition backed (top : segment_id) (r : option segment_id * option segment_id) (h : history) : Prop :=
  match r.1 with
  | None => dead b e (segs h)
  | Some l => start_offset l < e /\
      match r.2 with
      | None => l = top
      | Some x => exists i, segs h !! i = Some l /\ segs h !! S i = Some x /\ e <= start_offset x
      end
  end.

Lemma backed_mono top r h h' : grows h h' -> backed top r h -> backed top r h'.
Proof.
  intros Hle. unfold backed. destruct (r.1) as [l|]; [|eapply dead_mono, Hle].
  intros [? H]. split; [done|]. destruct (r.2); [|done]. destruct H as (i & ? & ? & ?).
  exists i. split_and!; [by eapply grows_lookup|by eapply grows_lookup|done].
Qed.

Lemma back_up_ok top k E : forall h j k0 right l,
  segs h !! j = Some l -> (k0 <= j)%nat -> (j < k0 + k)%nat -> (k0 <= gone h)%nat ->
  match right with None => l = top | Some x => segs h !! S j = Some x /\ e <= start_offset x end ->
  history_ok first boot Bd (segs h) ->
  ensures h (back_up k e right l) E (backed top).
Proof.
  induction k as [|k IH]; intros h j k0 right l Hl Hk0 Hj Hk Hr Hh; [lia|]. cbn [back_up].
  destruct (Z.leb_spec e (start_offset l)) as [Hs|Hs].
  - apply (ensures_bind inv grows) with (fun p h' => history_ok first boot Bd (segs h') /\
      match p with
      | None => dead b e (segs h')
      | Some x => (exists i, j = S i /\ (gone h <= i)%nat /\ segs h' !! i = Some x) \/
              ((j <= gone h')%nat /\ dead b e (segs h') /\ exists i, (j <= i)%nat /\ segs h' !! i = Some x)
      end).
    { apply (ensures_load inv grows); [done|]. intros h1 s Hle Hinv. split; [by eapply inv_hist|].
      pose proof (read_before h1 s j l Hinv ltac:(by eapply grows_lookup) Hs) as Hx.
      destruct (slot s _) as [x|]; [|done]. destruct Hx as [(i & ? & ? & ?)|Hx]; [left|by right].
      exists i. destruct Hle as (_ & ? & _). split; [done|]. split; [lia|done]. }
    intros p h' Hle [Hh' Hp]. destruct p as [x|].
    2: { apply (ensures_ret inv grows). intros h2 Hle2. eapply dead_mono; [apply Hle2|done]. }
    destruct Hp as [(i & -> & Hg & Hx)|(Hg & Hd & i & Hi & Hx)].
    + apply (IH h' i k0); try done; try lia; [destruct Hle as (_ & ? & _); lia|].
      split; [by eapply grows_lookup|done].
    + eapply (ensures_mono inv grows); [reflexivity|eapply (back_up_wrapped _ _ j l); try done; by eapply grows_lookup|].
      intros r h2 _ [Hr1 Hd2]. unfold backed. by rewrite Hr1.
  - apply (ensures_ret inv grows). intros h2 Hle2. apply (backed_mono _ _ h); [done|].
    split; [lia|]. cbn. destruct right as [x|]; [|done]. exists j. destruct Hr. done.
Qed.
(** ** Installing a segment *)

Section install.
(** The successor of [l], which was the newest segment, to start at [x]. *)
Context (j : nat) (l : segment_id) (x : Z).
Hypothesis Hx : x = b \/ x = e.
Hypothesis Hnew : (n0 <= S j)%nat.
Hypothesis Hpast : end_offset l < x + MIN_LOG_BLOCK_SIZE.

(** No later segment ends where a block at [x] would begin to fit. *)
Definition no_fit (h : list segment_id) : Prop :=
  forall i a, (j < i)%nat -> h !! i = Some a -> end_offset a <> x + MIN_LOG_BLOCK_SIZE.
Hypothesis Hfit : forall h s, inv h s -> segs h !! j = Some l -> no_fit (segs h).

(** A segment that may become the successor of the segment at [i]. *)
Record candidate (i : nat) (a : segment_id) (h : history) : Prop := {
  cd_after : (j <= i)%nat;
  cd_pred : exists p, segs h !! i = Some p /\ follows boot i p a;
  cd_ok : segment_ok Bd a;
  cd_num : segnum a = first + Z.of_nat (S i);
  cd_start : start_offset a = x;
  cd_end : end_offset a <> b + MIN_LOG_BLOCK_SIZE;
  cd_ready : (S i <= ready h)%nat;
  cd_room : (S i < gone h + 16)%nat;
}.

Lemma candidate_mono i a h h' : grows h h' -> candidate i a h -> candidate i a h'.
Proof.
  intros Hle [H1 (p & Hp & H2) H3 H4 H5 H6 H7 H8]. pose proof Hle as (_ & ? & ?). split; try done; try lia.
  exists p. split; [by eapply grows_lookup|done].
Qed.

(** The new segment's descriptor. *)
Lemma candidate_made h s i p fd size :
  inv h s -> segs h !! j = Some l -> (j <= i)%nat -> segs h !! i = Some p ->
  end_offset p <= u64 (x + MIN_LOG_BLOCK_SIZE) -> 2 ^ 20 <= size < 2 ^ 62 -> (S i <= ready h)%nat -> (S i < gone h + 16)%nat ->
  candidate i (Segment fd (u32 (segnum p + 1)) x (u64 (x + size))
    (u64 (byte_offset p + u64 (end_offset p - start_offset p)))) h.
Proof.
  intros Hi Hl Hji Hp Hend Hsz Hr Hroom. pose proof (inv_hist _ _ Hi) as Hh.
  pose proof (hs_ok _ _ _ _ Hh _ _ Hp) as [Hn1 Hs1 He1 _]. pose proof (hs_num _ _ _ _ Hh _ _ Hp) as Hnum.
  change MIN_LOG_BLOCK_SIZE with 32 in *. assert (0 <= x < 2 ^ 48) by lia.
  rewrite (wrap_small 64 (x + 32)) in Hend by (split; lia).
  rewrite (wrap_small 32), (wrap_small 64 (x + size)), (wrap_small 64 (_ - _)) by (split; lia).
  assert (end_offset p < x + 32).
  { destruct (decide (i = j)) as [->|]; [rewrite Hl in Hp; by simplify_eq|].
    pose proof (Hfit h s Hi Hl i p ltac:(lia) Hp). change MIN_LOG_BLOCK_SIZE with 32 in *. lia. }
  split; cbn; try done; try lia.
  - exists p. split; [done|]. split; cbn; [done|]. done.
  - split; cbn; try lia. destruct Hx as [-> | ->]; apply Hb || apply He.
  - change MIN_LOG_BLOCK_SIZE with 32. lia.
Qed.
(** The error of a full log, the only one. *)
Definition full (err : error) : Prop := err = log_is_full.

Lemma next_exists h i : (i < length (segs h))%nat -> (j < i)%nat -> is_Some (segs h !! S j).
Proof. intros. apply lookup_lt_is_Some_2. lia. Qed.

Lemma _prepare_ok h i p :
  segs h !! j = Some l -> (j <= i)%nat -> segs h !! i = Some p -> history_ok first boot Bd (segs h) ->
  end_offset p <= u64 (x + MIN_LOG_BLOCK_SIZE) ->
  ensures h (_prepare_new_segment (u32 (segnum p + 1)) x (u64 (byte_offset p + u64 (end_offset p - start_offset p)))) full
    (fun r h' => match r with
                 | None => is_Some (segs h' !! S j)
                 | Some a => candidate i a h'
                 end).
Proof.
  intros Hl Hji Hp Hh Hend. pose proof (hs_num _ _ _ _ Hh _ _ Hp) as Hnum.
  pose proof (segnum_bound _ _ _ _ _ _ Hh Hp). pose proof (lookup_lt_Some _ _ _ Hp).
  assert (u32 (segnum p + 1) = first + Z.of_nat (S i)) as Hseg by (rewrite wrap_small; [lia|split; lia]).
  unfold _prepare_new_segment. rewrite Hseg.
  apply (ensures_bind inv grows) with (fun q h' =>
    match q with Some y => negb (segnum y =? first + Z.of_nat (S i)) | None => false end = false -> (S i < gone h' + 16)%nat).
  { apply (ensures_load inv grows); [done|]. intros h1 s Hle Hi. pose proof (assign_live _ _ Hi).
    pose proof (grows_length _ _ Hle). intros Hq.
    destruct (decide (length (segs h1) = S i)) as [Hlen|]; [|lia].
    rewrite <- Hlen. eapply room_ok; [apply Hi|]. rewrite Hlen.
    destruct (slot s _) as [y|] eqn:Hy; [exfalso|done].
    apply negb_false_iff, Z.eqb_eq in Hq. destruct (li_slot _ _ _ _ _ (proj1 Hi) _ _ Hy) as (i' & _ & Hy' & _).
    pose proof (hs_num _ _ _ _ (inv_hist _ _ Hi) _ _ Hy'). pose proof (lookup_lt_Some _ _ _ Hy'). lia. }
  intros q h1 Hle1 Hroom. destruct (match q with Some _ => _ | None => _ end); [by apply (ensures_throw inv grows)|].
  specialize (Hroom eq_refl).
  set (Q := fun (info : Z) (h' : history) =>
    u32 info <= first + Z.of_nat (ready h') /\ u32 info <= first + Z.of_nat (length (segs h'))).
  assert (HQ : forall info h' h2, grows h' h2 -> Q info h' -> Q info h2).
  { intros info h' h2 Hle [? ?]. pose proof (grows_length _ _ Hle). destruct Hle as (_ & _ & ?). split; lia. }
  apply (ensures_bind inv grows) with Q.
  { apply (ensures_load inv grows); [done|]. intros h2 s Hle [Hi _]. pose proof (li_ready _ _ _ _ _ Hi).
    unfold Q. rewrite (li_nxt _ _ _ _ _ Hi). lia. }
  intros info h2 Hle2 Hinfo.
  apply (ensures_bind inv grows) with (fun info h' => Q info h' /\ first + Z.of_nat (S i) <= u32 info).
  { destruct (Z.ltb_spec (u32 info) (first + Z.of_nat (S i))).
    - apply (ensures_access inv grows); [done|]. intros h3 s Hle3 [Hi Hc].
      destruct (create_nxt_ok _ _ _ h3 s Hi) as (s' & h' & -> & Hi' & Hle' & Hsg & Hg & Hr). cbn.
      exists h'. split; [done|]. split; [split; [done|]|].
      + destruct Hc as [[? ?] Hf]. unfold no_exact_fit. rewrite Hsg. split; [|done]. split; rewrite ?Hsg, ?Hg; done.
      + unfold Q. rewrite (li_nxt _ _ _ _ _ Hi'), Hr, Hsg.
        pose proof (grows_length h h3 ltac:(etransitivity; [exact Hle1|by etransitivity])). lia.
    - apply (ensures_ret inv grows). intros h3 Hle3. split; [by eapply HQ|done]. }
  intros info' h3 Hle3 [HQ' Hge]. destruct (Z.ltb_spec (first + Z.of_nat (S i)) (u32 info')).
  - apply (ensures_ret inv grows). intros h4 Hle4. destruct (HQ _ _ _ Hle4 HQ'). apply (next_exists h4 (S i)); lia.
  - apply (ensures_bind inv grows) with (fun size h' => candidate i (Segment (Z.shiftr info' 32) (u32 (segnum p + 1)) x
      (u64 (x + size)) (u64 (byte_offset p + u64 (end_offset p - start_offset p)))) h').
    + apply (ensures_load inv grows); [done|]. intros h4 s Hle4 Hi.
      assert (grows h1 h4) as Hle14 by (do 2 (etransitivity; [eassumption|]); done).
      assert (grows h h4) as Hleh by (by etransitivity).
      destruct (HQ _ _ _ Hle4 HQ'). destruct Hle14 as (_ & ? & _).
      apply candidate_made with s; try done; try lia; try by eapply grows_lookup. apply (li_size _ _ _ _ _ (proj1 Hi)).
    + intros size h4 Hle4 Hc. rewrite Hseg in Hc. apply (ensures_ret inv grows). intros h5 Hle5. by eapply candidate_mono.
Qed.
Lemma prepare_ok h :
  segs h !! j = Some l ->
  ensures h (prepare_new_segment x) full
    (fun r h' => match r with None => is_Some (segs h' !! S j) | Some a => exists i, candidate i a h' end).
Proof.
  intros Hl. unfold prepare_new_segment.
  apply (ensures_bind inv grows) with (fun p h' => history_ok first boot Bd (segs h') /\
    exists i, segs h' !! i = Some p /\ (j <= i)%nat).
  { eapply (ensures_mono inv grows); [reflexivity|apply newest_hist|]. intros p h1 Hle [Hh (i & k & Hp & Hi & _)].
    split; [done|]. exists i. split; [done|]. apply lookup_lt_Some in Hl. lia. }
  intros p h1 Hle1 [Hh (i & Hp & Hji)]. pose proof (grows_lookup _ _ _ _ Hle1 Hl) as Hl1.
  destruct (Z.ltb_spec (u64 (x + MIN_LOG_BLOCK_SIZE)) (end_offset p)) as [Hlt|Hge].
  - apply (ensures_ret inv grows). intros h2 Hle2. apply (next_exists h2 i).
    + eapply lookup_lt_Some, grows_lookup; done.
    + destruct (decide (i = j)) as [->|]; [exfalso|lia]. rewrite Hl1 in Hp. simplify_eq.
      change MIN_LOG_BLOCK_SIZE with 32 in *. rewrite wrap_small in Hlt by (split; lia). lia.
  - eapply (ensures_mono inv grows); [reflexivity|by apply _prepare_ok|]. intros [a|] h2 Hle2 Hr; [by exists i|done].
Qed.

(** Installing keeps the invariant. *)
Lemma installed h s i a p :
  inv h s -> candidate i a h -> segs h !! i = Some p -> active_segment s = Some p ->
  inv (History (segs h ++ [a]) (gone h) (ready h)) (set_active (Some a) s) /\ length (segs h) = S i.
Proof.
  intros [Hi Hc] [Hji (p' & Hp' & Hf) Hok Hn Hs He' Hr Hroom] Hp Hact. rewrite Hp in Hp'. injection Hp' as <-.
  destruct (last_segment _ _ _ _ (li_hist _ _ _ _ _ Hi)) as (q & Hl & Hq & _).
  { pose proof (li_live _ _ _ _ _ Hi). lia. }
  assert (q = p) as -> by (rewrite (li_active _ _ _ _ _ Hi), Hl in Hact; by simplify_eq).
  pose proof (hs_num _ _ _ _ (li_hist _ _ _ _ _ Hi) _ _ Hq) as N1.
  pose proof (hs_num _ _ _ _ (li_hist _ _ _ _ _ Hi) _ _ Hp) as N2. apply lookup_lt_Some in Hq.
  assert (length (segs h) = S i) as Hlen by lia. pose proof (li_ready _ _ _ _ _ Hi).
  split; [|done]. split.
  - apply install_ok with p; try done; try lia. by replace (length (segs h) - 1)%nat with i by lia.
  - destruct Hc as [[C1 C2] C3]. split; [split; cbn; [done|]|].
    + intros i' a' Hlt Ha'. apply (C2 i' a'); [done|].
      rewrite lookup_app_l in Ha' by (pose proof (li_live _ _ _ _ _ Hi); lia). done.
    + intros i' a' Hge [Ha'|[_ Ha']]%lookup_app_Some; [by apply (C3 i')|].
      apply list_lookup_singleton_Some in Ha' as [_ <-]. done.
Qed.

Lemma create_segment_ok h i a :
  candidate i a h ->
  ensures h (create_segment a) full
    (fun won h' => if won then segs h' !! S i = Some a else is_Some (segs h' !! S j)).
Proof.
  intros Hc. unfold create_segment. destruct (cd_pred _ _ _ Hc) as (p & Hp & _).
  apply (ensures_bind inv grows) with (fun q h' => history_ok first boot Bd (segs h') /\
    exists i', segs h' !! i' = Some q /\ (i <= i')%nat).
  { eapply (ensures_mono inv grows); [reflexivity|apply newest_hist|]. intros q h1 Hle [Hh (i' & k & Hq & Hi & _)].
    split; [done|]. exists i'. split; [done|]. apply lookup_lt_Some in Hp. lia. }
  intros q h1 Hle1 [Hh (i' & Hq & Hii)]. pose proof (candidate_mono _ _ _ _ Hle1 Hc) as Hc1.
  pose proof (hs_num _ _ _ _ Hh _ _ Hq) as Hnq. pose proof (segnum_bound _ _ _ _ _ _ Hh Hq).
  rewrite (cd_num _ _ _ Hc), wrap_small by (split; lia). pose proof (cd_after _ _ _ Hc).
  destruct (Z.eqb_spec (first + Z.of_nat (S i)) (segnum q + 1)) as [Heq|Hne].
  - assert (i' = i) as -> by lia. apply (ensures_access inv grows); [done|]. intros h2 s Hle2 Hi.
    pose proof (grows_lookup _ _ _ _ Hle2 Hq) as Hq2. pose proof (candidate_mono _ _ _ _ Hle2 Hc1) as Hc2.
    case_bool_decide as Hact.
    + destruct (installed h2 s i a q Hi Hc2 Hq2 Hact) as [Hi' Hlen]. eexists. split; [|split; [exact Hi'|]].
      * split; [by apply prefix_app_r|done].
      * cbn. rewrite <- Hlen. by apply list_lookup_middle.
    + exists h2. split; [done|]. split; [done|]. apply lookup_lt_is_Some_2.
      destruct (last_segment _ _ _ _ (inv_hist _ _ Hi)) as (z & Hl & Hz & _); [pose proof (assign_live _ _ Hi); lia|].
      rewrite (li_active _ _ _ _ _ (proj1 Hi)), Hl in Hact.
      assert (length (segs h2) - 1 <> i)%nat by (intros Hz'; rewrite Hz', Hq2 in Hz; by simplify_eq).
      apply lookup_lt_Some in Hq2. lia.
  - apply (ensures_ret inv grows). intros h2 Hle2. apply (next_exists h2 i'); [|lia].
    eapply lookup_lt_Some, grows_lookup; done.
Qed.
(** The slot of the successor holds nothing else. *)
Lemma slot_next h s c y :
  inv h s -> segs h !! S j = Some c -> slot s ((first + Z.of_nat (S j)) mod 16) = Some y -> y = c.
Proof.
  intros Hi Hc Hy. unfold slot in Hy. change NUM_LOG_SEGMENTS with 16 in Hy. rewrite Z.mod_mod in Hy by lia.
  destruct (li_slot _ _ _ _ _ (proj1 Hi) _ _ Hy) as (i & Hg & Hyi & Hm).
  pose proof (hs_num _ _ _ _ (inv_hist _ _ Hi) _ _ Hyi). pose proof (lookup_lt_Some _ _ _ Hyi).
  pose proof (lookup_lt_Some _ _ _ Hc). pose proof (assign_live _ _ Hi). pose proof (cm_kept _ (proj1 (proj2 Hi))).
  apply mod16_eq in Hm; [|lia]. assert (i = S j) as -> by lia. rewrite Hc in Hyi. by simplify_eq.
Qed.

Lemma get_segment_ok h c :
  segs h !! S j = Some c ->
  ensures h (get_segment ((first + Z.of_nat (S j)) mod NUM_LOG_SEGMENTS)) full (fun r _ => r = Some c).
Proof.
  intros Hc. unfold get_segment. change NUM_LOG_SEGMENTS with 16.
  apply (ensures_bind inv grows) with (fun r _ => match r with Some y => y = c | None => True end).
  { apply (ensures_load inv grows); [done|]. intros h1 s Hle Hi. destruct (slot s _) as [y|] eqn:Hy; [|done].
    eapply slot_next; [done|by eapply grows_lookup|done]. }
  intros r h1 Hle1 Hr. pose proof (grows_lookup _ _ _ _ Hle1 Hc) as Hc1.
  destruct r as [y|]; [rewrite Hr; by apply (ensures_ret inv grows)|].
  apply (ensures_bind inv grows) with (fun q h' => history_ok first boot Bd (segs h') /\ newest_since h1 q h'); [apply newest_hist|].
  intros q h2 Hle2 [Hh (i & k & Hq & Hlen & _ & Hk & Hk')]. pose proof (grows_lookup _ _ _ _ Hle2 Hc1) as Hc2.
  pose proof (hs_num _ _ _ _ Hh _ _ Hq) as Hnq. apply lookup_lt_Some in Hc1.
  destruct (Z.eqb_spec ((first + Z.of_nat (S j)) mod 16) (segnum q mod 16)) as [Hm|Hm]; cbn [negb].
  - apply mod16_eq in Hm; [|lia]. assert (i = S j) as -> by lia. rewrite Hc2 in Hq. simplify_eq.
    by apply (ensures_ret inv grows).
  - assert (S j <> i) by (intros <-; apply Hm; by rewrite Hnq). assert (S j < i)%nat by lia.
    apply (ensures_load inv grows); [done|]. intros h3 s Hle3 Hi. unfold slot. change NUM_LOG_SEGMENTS with 16.
    rewrite Z.mod_mod by lia. pose proof (grows_lookup _ _ _ _ Hle3 Hc2) as Hc3.
    rewrite <- (hs_num _ _ _ _ (inv_hist _ _ Hi) _ _ Hc3). eapply li_full; [apply Hi| |done].
    pose proof (lookup_lt_Some _ _ _ (grows_lookup _ _ _ _ Hle3 Hq)). pose proof (li_ready _ _ _ _ _ (proj1 Hi)).
    pose proof (cm_kept _ (proj1 (proj2 Hi))). lia.
Qed.

Lemma install_segment_ok h :
  segs h !! j = Some l ->
  ensures h (_install_segment l x) full
    (fun r h' => exists i, (j < i)%nat /\ segs h' !! i = Some r /\ (i = S j \/ start_offset r = x)).
Proof.
  intros Hl. unfold _install_segment.
  apply (ensures_bind inv grows) with (fun r h' => match r with None => is_Some (segs h' !! S j) | Some a => exists i, candidate i a h' end).
  { by apply prepare_ok. }
  intros n h1 Hle1 Hn.
  apply (ensures_bind inv grows) with (fun won h' => history_ok first boot Bd (segs h') /\
    match won, n with
    | true, Some a => exists i, (j < i)%nat /\ segs h' !! i = Some a /\ start_offset a = x
    | _, _ => is_Some (segs h' !! S j)
    end).
  { eapply (ensures_mono inv grows) with (Q := fun won h' => (exists s, inv h' s) /\ match n with
      | Some a => if won : bool then exists i, (j < i)%nat /\ segs h' !! i = Some a /\ start_offset a = x
                  else is_Some (segs h' !! S j)
      | None => is_Some (segs h' !! S j) end); [reflexivity| |].
    - apply (ensures_inv inv grows). destruct n as [a|].
      + destruct Hn as [i Hc]. eapply (ensures_mono inv grows); [reflexivity|by apply create_segment_ok|].
        intros won h2 Hle2 Hw. destruct won; [|done]. exists (S i). destruct Hc as [? _ _ _ ? _ _ _]. split; [lia|done].
      + apply (ensures_ret inv grows). intros h2 Hle2. destruct Hn as [c Hc]. exists c. by eapply grows_lookup.
    - intros won h2 _ [[s Hi] Hw]. split; [by eapply inv_hist|]. by destruct won, n. }
  intros won h2 Hle2 [Hh Hw].
  assert (Hget : is_Some (segs h2 !! S j) -> ensures h2
    (do* p := get_segment (u32 (segnum l + 1) mod NUM_LOG_SEGMENTS) in pderef p) full
    (fun r h' => exists i, (j < i)%nat /\ segs h' !! i = Some r /\ (i = S j \/ start_offset r = x))).
  { intros [c Hc]. pose proof (grows_lookup h h2 _ _ ltac:(by etransitivity) Hl) as Hl2.
    pose proof (hs_num _ _ _ _ Hh _ _ Hl2). pose proof (segnum_bound _ _ _ _ _ _ Hh Hl2).
    replace (u32 (segnum l + 1)) with (first + Z.of_nat (S j)) by (rewrite wrap_small; [lia|split; lia]).
    eapply (ensures_bind inv grows); [by apply (get_segment_ok h2 c)|]. intros r h3 Hle3 ->.
    apply (ensures_ret inv grows). intros h4 Hle4. exists (S j). split; [lia|]. split; [|by left].
    eapply grows_lookup; [|exact Hc]. by etransitivity. }
  destruct won, n as [a|]; try by apply Hget.
  apply (ensures_ret inv grows). intros h3 Hle3. destruct Hw as (i & Hi & Ha & Hs). exists i.
  split; [done|]. split; [by eapply grows_lookup|by right].
Qed.
End install.
(** ** The places of the block *)

Lemma placed_within h i l :
  segs h !! i = Some l -> start_offset l <= b -> e + MIN_LOG_BLOCK_SIZE <= end_offset l ->
  placed b e (segs h) (Assignment (Some l) (make_lsn l e) true).
Proof.
  intros Hl Hs Hin. exists i. cbn. change MIN_LOG_BLOCK_SIZE with 32 in *.
  destruct (Z.leb_spec e (end_offset l)), (Z.leb_spec (e + 32) (end_offset l)); try lia. split_and!; done || lia.
Qed.

Lemma placed_last h i l r :
  segs h !! i = Some l -> start_offset l <= b -> b + MIN_LOG_BLOCK_SIZE <= end_offset l < e + MIN_LOG_BLOCK_SIZE ->
  segs h !! S i = Some r -> e <= start_offset r ->
  placed b e (segs h) (Assignment (Some l) (make_lsn r (start_offset r)) (e <=? end_offset l)).
Proof.
  intros Hl Hs Hin Hr He'. exists i. cbn. destruct (Z.leb_spec (e + MIN_LOG_BLOCK_SIZE) (end_offset l)); [lia|].
  split_and!; try done; try lia. by exists r.
Qed.

Lemma placed_dead h : dead b e (segs h) -> placed b e (segs h) (Assignment None INVALID_LSN true).
Proof. done. Qed.

Lemma starts_before h i l :
  history_ok first boot Bd (segs h) -> segs h !! i = Some l -> start_offset l < e -> start_offset l <= b.
Proof.
  intros Hh Hl Hs. destruct (Z.le_gt_cases (start_offset l) b); [done|].
  pose proof (Hblock _ (sg_bd _ _ (hs_ok _ _ _ _ Hh _ _ Hl)) ltac:(lia)). lia.
Qed.

(** Past a segment in which the block starts. *)
Lemma starts_after h i j l a :
  history_ok first boot Bd (segs h) -> segs h !! j = Some l -> b + MIN_LOG_BLOCK_SIZE <= end_offset l ->
  (j < i)%nat -> segs h !! i = Some a -> e <= start_offset a /\ e + MIN_LOG_BLOCK_SIZE < end_offset a.
Proof.
  intros Hh Hl Hin Hij Ha. destruct (start_lt _ _ _ _ _ _ _ _ Hh Hij Hl Ha) as [_ ?].
  pose proof (hs_ok _ _ _ _ Hh _ _ Ha) as [_ _ ? Hbd]. pose proof (Hblock _ Hbd ltac:(lia)).
  change MIN_LOG_BLOCK_SIZE with 32 in *. lia.
Qed.

(** The block starts in the newest segment and ends after it. *)
Lemma install_at_end h j l :
  segs h !! j = Some l -> (n0 <= S j)%nat -> b + MIN_LOG_BLOCK_SIZE <= end_offset l < e + MIN_LOG_BLOCK_SIZE ->
  ensures h (_install_segment l e) full
    (fun r h' => segs h' !! S j = Some r /\ e <= start_offset r /\ e + MIN_LOG_BLOCK_SIZE < end_offset r).
Proof.
  intros Hl Hn Hin. eapply (ensures_mono inv grows); [reflexivity|apply (ensures_inv inv grows), (install_segment_ok j l e)|].
  - by right.
  - done.
  - lia.
  - intros h' s Hi Hl' i a Hij Ha. destruct (starts_after h' i j l a (inv_hist _ _ Hi) Hl' ltac:(lia) Hij Ha). lia.
  - done.
  - intros r h' Hle [[s Hi] (i & Hij & Hr & Hor)]. pose proof (grows_lookup _ _ _ _ Hle Hl) as Hl'.
    pose proof (inv_hist _ _ Hi) as Hh. destruct (starts_after h' i j l r Hh Hl' ltac:(lia) Hij Hr) as [H1 H2].
    split; [|done]. destruct (decide (i = S j)) as [->|]; [done|exfalso]. destruct Hor as [|Hor]; [done|].
    destruct (lookup_lt_is_Some_2 (segs h') (S j)) as [c Hc]; [apply lookup_lt_Some in Hr; lia|].
    destruct (starts_after h' (S j) j l c Hh Hl' ltac:(lia) ltac:(lia) Hc) as [H3 _].
    destruct (start_lt _ _ _ _ (S j) i c r Hh ltac:(lia) Hc Hr) as [H4 _]. lia.
Qed.

(** The block starts after the newest segment. *)
Lemma install_at_begin h j l :
  segs h !! j = Some l -> (n0 <= S j)%nat -> end_offset l < b + MIN_LOG_BLOCK_SIZE ->
  ensures h (_install_segment l b) full
    (fun r h' => exists i, (j < i)%nat /\ segs h' !! i = Some r /\ start_offset l + 2 ^ 19 <= start_offset r /\
       (start_offset r <= b \/ dead b e (segs h'))).
Proof.
  intros Hl Hn Hin. eapply (ensures_mono inv grows); [reflexivity|apply (ensures_inv inv grows), (install_segment_ok j l b)|].
  - by left.
  - done.
  - lia.
  - intros h' s Hi Hl' i a Hij Ha. apply (proj2 (proj2 Hi) i a); [lia|done].
  - done.
  - intros r h' Hle [[s Hi] (i & Hij & Hr & Hor)]. pose proof (grows_lookup _ _ _ _ Hle Hl) as Hl'.
    pose proof (inv_hist _ _ Hi) as Hh. destruct (start_lt _ _ _ _ j i l r Hh Hij Hl' Hr) as [Hs _].
    exists i. split; [done|]. split; [done|]. split; [lia|].
    destruct (Z.le_gt_cases (start_offset r) b); [by left|right]. destruct Hor as [->|]; [|lia].
    exists r. split; [apply (Hblock _ (sg_bd _ _ (hs_ok _ _ _ _ Hh _ _ Hr))); lia|]. right. exists j, l. done.
Qed.

(** Segments start half a megabyte apart at least, so the start-overs end. *)
Lemma retry_measure a top r fuel :
  top + 2 ^ 19 <= r -> a <= top -> r <= b ->
  (Z.to_nat ((b - a) / 2 ^ 19) < S fuel)%nat -> (Z.to_nat ((b - r) / 2 ^ 19) < fuel)%nat.
Proof.
  intros H1 H2 H3 Hf. pose proof (Z.div_le_mono (b - r + 1 * 2 ^ 19) (b - a) (2 ^ 19) ltac:(lia) ltac:(lia)) as Hd.
  rewrite Z.div_add in Hd by lia. pose proof (Z.div_pos (b - r) (2 ^ 19) ltac:(lia) ltac:(lia)). lia.
Qed.

Lemma assign_ok fuel : forall h i a,
  segs h !! i = Some a -> (n0 <= S i)%nat -> (Z.to_nat ((b - start_offset a) / 2 ^ 19) < fuel)%nat ->
  ensures h (assign_segment fuel b e) full (fun r h' => placed b e (segs h') r).
Proof.
  induction fuel as [|fuel IH]; intros h i a Ha Hn Hf; [lia|]. cbn [assign_segment].
  eapply (ensures_bind inv grows); [apply newest_hist|].
  intros top h1 Hle1 [Hh1 (j & k & Htop & Hj & Hk & Hk2 & _)].
  assert (start_offset a <= start_offset top) as Hat.
  { eapply start_mono; [exact Hh1| |by eapply grows_lookup|exact Htop]. apply lookup_lt_Some in Ha. lia. }
  eapply (ensures_bind inv grows) with (R := fun r h' => (exists s, inv h' s) /\ backed top r h').
  { eapply (ensures_mono inv grows); [reflexivity|apply (ensures_inv inv grows), (back_up_ok top 16 _ h1 j k)|]; try done; lia. }
  apply lookup_lt_Some in Ha.
  intros [l_ r_] h2 Hle2 [[s2 Hi2] Hbk]. unfold backed in Hbk. cbn [fst snd] in Hbk. pose proof (inv_hist _ _ Hi2) as Hh2.
  assert (Hret : forall h x, placed b e (segs h) x -> ensures h (pret x) full (fun r h' => placed b e (segs h') r)).
  { intros h' x Hx. apply (ensures_ret inv grows). intros h3 Hle3. eapply placed_mono; [apply Hle3|done]. }
  destruct l_ as [l|]; [|by apply Hret]. destruct Hbk as [Hse Hbk].
  pose proof (grows_lookup _ _ _ _ Hle2 Htop) as Htop2.
  assert (exists q, segs h2 !! q = Some l) as [q Hq] by (destruct r_; [destruct Hbk as (q & ? & _); by exists q|subst; by exists j]).
  pose proof (starts_before h2 q l Hh2 Hq Hse) as Hsb.
  rewrite !wrap_small by (change MIN_LOG_BLOCK_SIZE with 32 in *; split; lia).
  destruct (Z.leb_spec (b + MIN_LOG_BLOCK_SIZE) (end_offset l)) as [Hin|Hout].
  - destruct (Z.leb_spec (e + MIN_LOG_BLOCK_SIZE) (end_offset l)) as [Hall|Hnot]; [apply Hret; by eapply placed_within|].
    destruct r_ as [r|].
    + destruct Hbk as (q' & Hq' & Hr & Hsr). apply Hret.
      eapply placed_last; [exact Hq'|done|lia|done|done].
    + subst l. eapply (ensures_bind inv grows); [apply (install_at_end h2 j top); [done|lia|done]|].
      intros r h3 Hle3 (Hr & H1 & H2). destruct (Z.ltb_spec (end_offset r) (e + MIN_LOG_BLOCK_SIZE)); [lia|].
      apply Hret. eapply placed_last; try done. by eapply grows_lookup.
  - destruct r_ as [r|].
    + destruct Hbk as (q' & Hq' & Hr & Hsr). apply Hret, placed_dead. exists r. split; [done|]. right. by exists q', l.
    + subst l. eapply (ensures_bind inv grows); [apply (install_at_begin h2 j top); [done|lia|done]|].
      intros r h3 Hle3 (i' & Hij & Hr & Hs & Hor). destruct (Z.leb_spec (start_offset r) b) as [Hrb|Hrb].
      * destruct (Z.ltb_spec (end_offset r) (e + MIN_LOG_BLOCK_SIZE)) as [Hagain|Hfits].
        -- apply (IH h3 i' r); [done|lia|]. by eapply (retry_measure _ _ _ _ Hs Hat).
        -- apply Hret. by eapply placed_within.
      * destruct Hor as [|Hd]; [lia|]. by apply Hret, placed_dead.
Qed.
End assign.

Lemma assign_run `{OS : Os} `{OT : Others log_file_mgr} first boot Bd b e h s t fuel :
  keeps (inv first boot Bd b (length (segs h))) grows ->
  0 <= b /\ Bd b -> b + MIN_LOG_BLOCK_SIZE <= e < 2 ^ 48 /\ Bd e -> (forall x, Bd x -> b < x -> e <= x) ->
  inv first boot Bd b (length (segs h)) h s -> (Z.to_nat (b / 2 ^ 19) < fuel)%nat ->
  Forall (own_step (inv first boot Bd b (length (segs h))) grows h) (snd (assign_segment fuel b e s t)) /\
  match fst (assign_segment fuel b e s t) with
  | Ok (r, (s', _)) => exists h', grows h h' /\ inv first boot Bd b (length (segs h)) h' s' /\ placed b e (segs h') r
  | Throw err => err = log_is_full
  end.
Proof.
  intros HO Hb He Hgap Hi Hfuel. pose proof (assign_live _ _ _ _ _ _ _ Hi).
  destruct (last_segment _ _ _ _ (inv_hist _ _ _ _ _ _ _ Hi) ltac:(lia)) as (a & _ & Ha & _).
  pose proof (hs_ok _ _ _ _ (inv_hist _ _ _ _ _ _ _ Hi) _ _ Ha) as [? ? _ _].
  pose proof (Z.div_le_mono (b - start_offset a) b (2 ^ 19) ltac:(lia) ltac:(lia)).
  exact (assign_ok first boot Bd b e (length (segs h)) HO Hb He Hgap fuel h _ a Ha ltac:(lia) ltac:(lia) h s t
    (reflexivity h) Hi).
Qed.

(** C5: a thread that asks where the range [b, e) of a
    log block lies gets an answer, whatever other threads do between its steps
    within the limits of [inv]: they install segments, make files ready,
    reclaim old segments that end before the block, and ask for other ranges,
    but do not reclaim the segment that was active when the thread began to
    ask, nor install one that ends exactly [MIN_LOG_BLOCK_SIZE] bytes after
    [b] ([no_exact_fit]).  The answer is the block's place in the history of
    segments: the segment it starts in, whether it ends there, and the LSN of
    what follows -- the next offset of the same segment, or the start of the
    next segment; or that it lies in no segment.  The only error is a full
    log, the start-overs are bounded, and every step of the thread keeps the
    segment invariant [inv]. *)
Theorem assign_segment_correct `{OS : Os} `{OT : Others log_file_mgr} first boot Bd b e h s t fuel :
  keeps (inv first boot Bd b (length (segs h))) grows ->
  0 <= b /\ Bd b -> b + MIN_LOG_BLOCK_SIZE <= e < 2 ^ 48 /\ Bd e -> (forall x, Bd x -> b < x -> e <= x) ->
  inv first boot Bd b (length (segs h)) h s -> (Z.to_nat (b / 2 ^ 19) < fuel)%nat ->
  Forall (own_step (inv first boot Bd b (length (segs h))) grows h) (snd (assign_segment fuel b e s t)) /\
  match fst (assign_segment fuel b e s t) with
  | Ok (r, (s', _)) => exists h', grows h h' /\ inv first boot Bd b (length (segs h)) h' s' /\ placed b e (segs h') r
  | Throw err => err = log_is_full
  end.
Proof. apply assign_run. Qed.

(** ** A log with one segment *)
Module LogExample.

Definition sg1 : segment_id := Segment 3 1 0 (2 ^ 20) 0.
Definition s0 : log_file_mgr :=
  LogFile {[nxt_seg_file_name 2 := []]} (2 ^ 20) {[1 := sg1]} (Some sg1) 1 (pack_fd 4 2) INVALID_LSN INVALID_LSN INVALID_LSN.
Definition h0 : history := History [sg1] 0 1.

#[export] Instance os : Os := {| os_fd _ _ := 5 |}.
#[export] Instance alone : Others log_file_mgr := {| others _ s := s |}.

(** Boundaries: those of a large first block, and of two blocks around the
    segment's end. *)
Definition Bd (x : Z) : Prop := x = 0 \/ x = 2 ^ 20 - 32 \/ x = 2 ^ 20 + 32 \/ 2 ^ 20 + 96 <= x.

Lemma s0_file : is_Some (dir s0 !! nxt_seg_file_name 2).
Proof. exists []. apply lookup_singleton_eq. Qed.

Lemma s0_only n : 2 < n < 2 ^ 32 -> dir s0 !! nxt_seg_file_name n = None.
Proof. intros Hn. apply lookup_singleton_ne. intros ?%nxt_inj; [lia|split; lia|split; lia]. Qed.

Lemma sg1_history : history_ok 1 0 Bd [sg1].
Proof.
  split.
  - intros i a [-> <-]%list_lookup_singleton_Some. split; cbn; try lia. by left.
  - intros i a [-> <-]%list_lookup_singleton_Some. done.
  - intros i a c [-> <-]%list_lookup_singleton_Some Hc. done.
Qed.

Lemma s0_inv b : 0 <= b -> inv 1 0 Bd b 1 h0 s0.
Proof.
  intros Hb. split.
  - split.
    + apply sg1_history.
    + cbn. lia.
    + cbn. lia.
    + done.
    + done.
    + intros i x Hx. change (segments s0) with ({[1 := sg1]} : gmap Z segment_id) in Hx.
      apply lookup_singleton_Some in Hx as [<- <-]. by exists 0%nat.
    + intros j x Hj Hx. cbn in Hj. assert (j = 0%nat) as -> by lia. cbn in Hx. by simplify_eq.
    + apply s0_file.
    + apply s0_only.
    + cbn. lia.
  - split; [split; cbn; lia|]. intros [|i] a Hi Ha; cbn in *; [lia|done].
Qed.

Lemma alone_keeps I : keeps I grows.
Proof. intros t s h Hi. by exists h. Qed.

End LogExample.

Import LogExample.

(** The block that fills the first segment and does not fit installs the
    second. *)
Definition sg2 : segment_id := Segment 4 2 (2 ^ 20 + 32) (2 ^ 21 + 32) (2 ^ 20).

Lemma assign_segment_correct_witness :
  fst (assign_segment 2 (2 ^ 20 - 32) (2 ^ 20 + 32) s0 0%nat) =
    Ok (Assignment (Some sg1) (make_lsn sg2 (2 ^ 20 + 32)) false, (set_active (Some sg2) s0, 7%nat)) /\
  Forall (own_step (inv 1 0 Bd (2 ^ 20 - 32) 1) grows h0) (snd (assign_segment 2 (2 ^ 20 - 32) (2 ^ 20 + 32) s0 0%nat)).
Proof.
  split; [vm_compute; reflexivity|].
  apply (assign_segment_correct 1 0 Bd (2 ^ 20 - 32) (2 ^ 20 + 32) h0 s0 0).
  - apply alone_keeps.
  - split; [lia|right; by left].
  - split; [change MIN_LOG_BLOCK_SIZE with 32; lia|do 2 right; by left].
  - unfold Bd. lia.
  - apply s0_inv. lia.
  - vm_compute. lia.
Defined.
