(* ===== verification/LogLinks.v ===== *)
(** * The log as a chain of blocks

    Blocks take consecutive ranges of offsets, and [assign_segment] says where
    each one lies.  The places agree: every block names the next one that has a
    place, across segment changes and dead zones, and in the log buffer the
    blocks follow each other without overlap. *)
From stdpp Require Import base numbers list gmap strings.
From Stdlib Require Import ZArith Lia.
From S2P Require Import Prelude FatPtr Bytes LogBlock LogNames Threads LogFile LogOffset LogOffsetSafe LogAssign.

Local Open Scope Z_scope.

(** A range and what was assigned to it. *)
Record block := Block { bbegin : Z; bend : Z; where_ : segment_assignment }.

(** The bytes a placed block may fill: all of it, or what is left of the
    segment. *)
Definition space (s : segment_id) (x : block) : Z :=
  if bend x + MIN_LOG_BLOCK_SIZE <=? end_offset s then bend x - bbegin x else end_offset s - bbegin x.

(** A block in the log: its LSN, the LSN it names as the next, where it begins
    in the log buffer, and where the next one may begin. *)
Record entry := Entry { e_seg : segment_id; e_lsn : LSN.t; e_next : LSN.t; e_buf : Z; e_stop : Z }.

Definition entry_of (x : block) : option entry :=
  match sid (where_ x) with
  | Some s => Some (Entry s (make_lsn s (bbegin x)) (next_lsn (where_ x)) (buf_offset s (bbegin x))
                     (u64 (buf_offset s (bbegin x) + space s x)))
  | None => None
  end.

Lemma buf_at s z : buf_offset s z = u64 (byte_offset s + (z - start_offset s)).
Proof. unfold buf_offset, offset. apply wrap_add_r. Qed.

Section links.
Context (first : Z) (boot : nat) (Bd : Z -> Prop) (h : list segment_id).
Hypothesis Hh : history_ok first boot Bd h.

(** A block of the log, with no boundary inside. *)
Record block_ok (x : block) : Prop := {
  bo_begin : 0 <= bbegin x;
  bo_size : bbegin x + MIN_LOG_BLOCK_SIZE <= bend x < 2 ^ 48;
  bo_gap : forall z, Bd z -> bbegin x < z -> bend x <= z;
  bo_placed : placed (bbegin x) (bend x) h (where_ x);
}.

Fixpoint consecutive (from : Z) (l : list block) : Prop :=
  match l with [] => True | x :: l => bbegin x = from /\ consecutive (bend x) l end.

(** A block that starts in a segment is placed there. *)
Lemma placed_there x i s :
  block_ok x -> h !! i = Some s -> start_offset s <= bbegin x -> bbegin x + MIN_LOG_BLOCK_SIZE <= end_offset s ->
  sid (where_ x) = Some s.
Proof.
  intros [_ Hsz Hgap Hp] Hs H1 H2. unfold placed in Hp. change MIN_LOG_BLOCK_SIZE with 32 in *.
  destruct (sid (where_ x)) as [s'|].
  - destruct Hp as (i' & Hs' & H3 & H4 & _). change MIN_LOG_BLOCK_SIZE with 32 in *.
    destruct (lt_eq_lt_dec i i') as [[Hlt| <-]|Hlt].
    + destruct (start_lt _ _ _ _ _ _ _ _ Hh Hlt Hs Hs') as [_ ?]. change MIN_LOG_BLOCK_SIZE with 32 in *. lia.
    + rewrite Hs in Hs'. by simplify_eq.
    + destruct (start_lt _ _ _ _ _ _ _ _ Hh Hlt Hs' Hs) as [_ ?]. change MIN_LOG_BLOCK_SIZE with 32 in *. lia.
  - exfalso. destruct Hp as [(c & Hc & H) _]. change MIN_LOG_BLOCK_SIZE with 32 in *.
    destruct H as [H|(q & a & Ha & Hca & H)].
    + pose proof (start_mono _ _ _ _ 0 i c s Hh ltac:(lia) H Hs). lia.
    + destruct (decide (q < i)%nat) as [Hq|Hq].
      * pose proof (start_mono _ _ _ _ (S q) i c s Hh ltac:(lia) Hca Hs). lia.
      * destruct (decide (q = i)) as [->|]; [rewrite Hs in Ha; simplify_eq; lia|].
        destruct (start_lt _ _ _ _ i q s a Hh ltac:(lia) Hs Ha) as [_ ?]. change MIN_LOG_BLOCK_SIZE with 32 in *.
        pose proof (sg_end _ _ (hs_ok _ _ _ _ Hh _ _ Ha)). lia.
Qed.

(** The first block in the log after the segment at [i] starts the next
    segment. *)
Lemma first_after i s c : forall l from,
  h !! i = Some s -> h !! S i = Some c -> Forall block_ok l -> consecutive from l ->
  end_offset s < from + MIN_LOG_BLOCK_SIZE -> from <= start_offset c ->
  match omap entry_of l with
  | [] => True
  | y :: _ => e_seg y = c /\ e_lsn y = make_lsn c (start_offset c) /\ e_buf y = buf_offset c (start_offset c)
  end.
Proof.
  induction l as [|x l IH]; intros from Hs Hc Hl Hco Hend Hfrom; [done|].
  apply Forall_cons in Hl as [Hx Hl]. destruct Hco as [Hb Hco]. cbn.
  pose proof (sg_end _ _ (hs_ok _ _ _ _ Hh _ _ Hc)). change MIN_LOG_BLOCK_SIZE with 32 in *.
  destruct (decide (from = start_offset c)) as [->|Hne].
  - unfold entry_of. rewrite (placed_there x (S i) c Hx Hc); [|lia|change MIN_LOG_BLOCK_SIZE with 32; lia].
    cbn. by rewrite Hb.
  - pose proof (bo_gap _ Hx _ (sg_bd _ _ (hs_ok _ _ _ _ Hh _ _ Hc)) ltac:(lia)) as Hgap.
    pose proof (bo_size _ Hx). change MIN_LOG_BLOCK_SIZE with 32 in *.
    assert (entry_of x = None) as ->; [|apply (IH (bend x)); done || lia].
    unfold entry_of. pose proof (bo_placed _ Hx) as Hp. unfold placed in Hp.
    destruct (sid (where_ x)) as [s'|]; [exfalso|done]. destruct Hp as (q & Hs' & H1 & H2 & _).
    change MIN_LOG_BLOCK_SIZE with 32 in *.
    destruct (lt_eq_lt_dec q i) as [[Hlt| ->]|Hlt].
    + destruct (start_lt _ _ _ _ _ _ _ _ Hh Hlt Hs' Hs) as [_ ?]. change MIN_LOG_BLOCK_SIZE with 32 in *.
      pose proof (sg_end _ _ (hs_ok _ _ _ _ Hh _ _ Hs)). lia.
    + rewrite Hs in Hs'. simplify_eq. lia.
    + pose proof (start_mono _ _ _ _ (S i) q c s' Hh ltac:(lia) Hc Hs'). lia.
Qed.

(** The block after a placed one. *)
Lemma link x l y ys :
  Forall block_ok (x :: l) -> consecutive (bbegin x) (x :: l) -> omap entry_of (x :: l) = y :: ys ->
  entry_of x = Some y ->
  match ys with
  | [] => True
  | z :: _ => e_lsn z = e_next y /\ (first + Z.of_nat boot <= segnum (e_seg y) -> e_buf z = e_stop y)
  end.
Proof.
  intros [Hx Hl]%Forall_cons [_ Hco] Ho Hy. cbn in Ho. rewrite Hy in Ho. injection Ho as Ho.
  pose proof (bo_placed _ Hx) as Hp. unfold placed in Hp. unfold entry_of in Hy.
  destruct (sid (where_ x)) as [s|] eqn:Hsid; [|done]. injection Hy as <-. cbn.
  destruct Hp as (i & Hs & H1 & H2 & _ & Hnext). pose proof (bo_size _ Hx) as Hsz. unfold space.
  pose proof (sg_start _ _ (hs_ok _ _ _ _ Hh _ _ Hs)). pose proof (sg_end _ _ (hs_ok _ _ _ _ Hh _ _ Hs)).
  change MIN_LOG_BLOCK_SIZE with 32 in *.
  destruct (Z.leb_spec (bend x + 32) (end_offset s)) as [Hin|Hout].
  - destruct l as [|x' l]; [by subst ys|]. apply Forall_cons in Hl as [Hx' _]. destruct Hco as [Hb _].
    cbn in Ho. unfold entry_of at 1 in Ho. rewrite (placed_there x' i s Hx' Hs) in Ho;
      [|lia|change MIN_LOG_BLOCK_SIZE with 32; lia]. subst ys. cbn. rewrite Hnext, Hb. split; [done|]. intros _.
    rewrite !buf_at, wrap_add_l. f_equal. lia.
  - destruct Hnext as (c & Hc & Hec & ->). pose proof (first_after i s c l (bend x) Hs Hc Hl Hco Hout Hec) as Hf.
    rewrite Ho in Hf. destruct ys as [|z zs]; [done|]. destruct Hf as (_ & -> & ->). split; [done|].
    intros Hboot. destruct (hs_next _ _ _ _ Hh i s c Hs Hc) as [_ Hbyte].
    rewrite (hs_num _ _ _ _ Hh _ _ Hs) in Hboot. specialize (Hbyte ltac:(lia)).
    rewrite !buf_at, Hbyte, !wrap_add_l. f_equal. lia.
Qed.
End links.

(** ** Blocks that threads have taken *)

(** A thread asked for the range and got an answer, in an environment that
    kept the invariant [inv], which excludes new segments that end exactly
    [MIN_LOG_BLOCK_SIZE] bytes after the range's start; the segments it saw
    are part of the log's history. *)
Record taken (first : Z) (boot : nat) (Bd : Z -> Prop) (h : list segment_id) (x : block) : Prop := {
  tk_begin : 0 <= bbegin x /\ Bd (bbegin x);
  tk_end : bbegin x + MIN_LOG_BLOCK_SIZE <= bend x < 2 ^ 48 /\ Bd (bend x);
  tk_gap : forall z, Bd z -> bbegin x < z -> bend x <= z;
  tk_run : exists (OS : Os) (OT : Others log_file_mgr) h0 s t fuel s' t',
    keeps (inv first boot Bd (bbegin x) (length (segs h0))) grows /\
    inv first boot Bd (bbegin x) (length (segs h0)) h0 s /\ (Z.to_nat (bbegin x / 2 ^ 19) < fuel)%nat /\
    fst (assign_segment fuel (bbegin x) (bend x) s t) = Ok (where_ x, (s', t')) /\
    (forall h', grows h0 h' -> inv first boot Bd (bbegin x) (length (segs h0)) h' s' -> segs h' `prefix_of` h);
}.

Lemma taken_ok first boot Bd h x : taken first boot Bd h x -> block_ok Bd h x.
Proof.
  intros [Hb He Hgap (OS & OT & h0 & s & t & fuel & s' & t' & HO & Hi & Hf & Hr & Hpre)].
  split; [lia|lia|done|]. destruct (assign_run first boot Bd (bbegin x) (bend x) h0 s t fuel HO Hb He Hgap Hi Hf) as [_ H].
  rewrite Hr in H. destruct H as (h' & Hg & Hi' & Hp). eapply placed_mono; [by apply Hpre|done].
Qed.

Lemma links_at first boot Bd h l : forall from i y z,
  history_ok first boot Bd h -> Forall (block_ok Bd h) l -> consecutive from l ->
  omap entry_of l !! i = Some y -> omap entry_of l !! S i = Some z ->
  e_lsn z = e_next y /\ (first + Z.of_nat boot <= segnum (e_seg y) -> e_buf z = e_stop y).
Proof.
  induction l as [|x l IH]; intros from i y z Hh Hl Hc Hy Hz; [done|].
  pose proof Hc as [Hb Hc']. pose proof Hl as [_ Hl']%Forall_cons. cbn in Hy, Hz.
  destruct (entry_of x) as [w|] eqn:Hx; [|by eapply IH].
  destruct i as [|i]; [|by eapply IH]. cbn in Hy. injection Hy as ->.
  pose proof (link first boot Bd h Hh x l y (omap entry_of l) Hl) as Hlink.
  destruct (omap entry_of l) as [|z' zs] eqn:Ho; [done|]. cbn in Hz. injection Hz as ->.
  apply Hlink; [done| |done]. cbn. by rewrite Hx, Ho.
Qed.

(** C6: threads take consecutive ranges and ask where they lie, in any order,
    each while the others keep [inv]: in particular no thread asks while
    another installs a segment that ends exactly [MIN_LOG_BLOCK_SIZE] bytes
    after the start of its range ([no_exact_fit]); there the code can start a
    segment inside its predecessor.  Of the blocks that have a place in the
    log, each names as its successor exactly the next one that has, also
    across a change of segment and across ranges that fell into a dead zone;
    and, from the segment active at start-up on, its successor begins in the
    log buffer where its own space ends. *)
Theorem log_linked first boot Bd h from l i y z :
  history_ok first boot Bd h -> Forall (taken first boot Bd h) l -> consecutive from l ->
  omap entry_of l !! i = Some y -> omap entry_of l !! S i = Some z ->
  e_lsn z = e_next y /\ (first + Z.of_nat boot <= segnum (e_seg y) -> e_buf z = e_stop y).
Proof.
  intros Hh Hl. apply (links_at first boot Bd h); [done|]. eapply Forall_impl; [exact Hl|]. intros x. apply taken_ok.
Qed.

(** ** Two blocks around the end of a segment *)
Module LinkExample.
Import LogExample.

Definition h1 : history := History [sg1; sg2] 0 1.
Definition s1 : log_file_mgr := set_active (Some sg2) s0.

Definition x1 : block := Block (2 ^ 20 - 32) (2 ^ 20 + 32) (Assignment (Some sg1) (make_lsn sg2 (2 ^ 20 + 32)) false).
Definition x2 : block := Block (2 ^ 20 + 32) (2 ^ 20 + 96) (Assignment (Some sg2) (make_lsn sg2 (2 ^ 20 + 96)) true).

Definition y1 : entry := Entry sg1 (make_lsn sg1 (2 ^ 20 - 32)) (make_lsn sg2 (2 ^ 20 + 32)) (2 ^ 20 - 32) (2 ^ 20).
Definition y2 : entry := Entry sg2 (make_lsn sg2 (2 ^ 20 + 32)) (make_lsn sg2 (2 ^ 20 + 96)) (2 ^ 20) (2 ^ 20 + 64).

Lemma sg2_ok : segment_ok Bd sg2.
Proof. split; cbn; try lia. unfold Bd. lia. Qed.

Lemma s1_inv b n0 : (1 <= n0)%nat -> b + MIN_LOG_BLOCK_SIZE <> 2 ^ 21 + 32 -> b + MIN_LOG_BLOCK_SIZE <> 2 ^ 20 ->
  inv 1 0 Bd b n0 h1 s1.
Proof.
  intros Hn Hb1 Hb2. split.
  - apply (install_ok 1 0 Bd h0 s0 sg2 sg1); try done; try (cbn; lia).
    + apply (s0_inv 0). lia.
    + apply sg2_ok.
  - split; [split; cbn; lia|]. intros [|[|i]] a Hi Ha; [| |done]; cbn in Ha; injection Ha as <-; cbn [end_offset sg1 sg2]; lia.
Qed.

Lemma h1_history : history_ok 1 0 Bd (segs h1).
Proof. exact (inv_hist _ _ _ _ _ _ _ (s1_inv 0 1 ltac:(lia) ltac:(by vm_compute) ltac:(by vm_compute))). Qed.

(** The state tells the history. *)
Lemma s1_history b n0 h' : grows h0 h' -> inv 1 0 Bd b n0 h' s1 -> segs h' `prefix_of` segs h1.
Proof.
  intros Hg Hi. pose proof (assign_live _ _ _ _ _ _ _ Hi).
  destruct (last_segment _ _ _ _ (inv_hist _ _ _ _ _ _ _ Hi) ltac:(lia)) as (a & Hl & Ha & Hn).
  rewrite <- (li_active _ _ _ _ _ (proj1 Hi)) in Hl. cbn in Hl. injection Hl as <-. cbn in Hn.
  assert (length (segs h') = 2%nat) as Hlen by lia. pose proof (grows_lookup _ _ 0 sg1 Hg eq_refl) as H0.
  rewrite Hlen in Ha. cbn in Ha. destruct (segs h') as [|u [|v [|w tl]]]; try done. cbn in *. by simplify_eq.
Qed.

Lemma taken1 : taken 1 0 Bd (segs h1) x1.
Proof.
  split; cbn [bbegin bend x1].
  - unfold Bd. lia.
  - unfold Bd. change MIN_LOG_BLOCK_SIZE with 32. lia.
  - unfold Bd. lia.
  - exists os, alone, h0, s0, 0%nat, 2%nat, s1, 7%nat. split_and!; [apply alone_keeps|apply s0_inv; lia| | |].
    + vm_compute. lia.
    + vm_compute. reflexivity.
    + intros h' Hg. by apply s1_history.
Qed.

Lemma taken2 : taken 1 0 Bd (segs h1) x2.
Proof.
  split; cbn [bbegin bend x2].
  - unfold Bd. lia.
  - unfold Bd. change MIN_LOG_BLOCK_SIZE with 32. lia.
  - unfold Bd. lia.
  - exists os, alone, h1, s1, 0%nat, 3%nat, s1, 1%nat. split_and!; [apply alone_keeps| | | |].
    + apply s1_inv; [cbn; lia|by vm_compute|by vm_compute].
    + vm_compute. lia.
    + vm_compute. reflexivity.
    + intros h' Hg. apply s1_history. etransitivity; [|exact Hg]. split; [by exists [sg2]|cbn; lia].
Qed.
End LinkExample.

Import LogExample LinkExample.

Lemma log_linked_witness :
  entry_of x1 = Some y1 /\ entry_of x2 = Some y2 /\ e_lsn y2 = e_next y1 /\ e_buf y2 = e_stop y1.
Proof.
  split; [reflexivity|]. split; [reflexivity|].
  assert (Forall (taken 1 0 Bd (segs h1)) [x1; x2]) as Ht
    by (apply Forall_cons_2; [apply taken1|apply Forall_cons_2; [apply taken2|apply Forall_nil_2]]).
  destruct (log_linked 1 0 Bd (segs h1) (2 ^ 20 - 32) [x1; x2] 0 y1 y2 h1_history Ht) as [H1 H2];
    [by vm_compute|reflexivity|reflexivity|]. split; [exact H1|apply H2; cbn; lia].
Defined.
