(* ===== verification/LogStart.v ===== *)
(** * Starting the log ([dbcore/sm-log-file.cpp])

    The constructor of the file manager reads the log's directory: an empty one
    becomes a new log, any other gives the manager its state. *)
From stdpp Require Import base numbers list gmap strings.
From Stdlib Require Import ZArith Lia Ascii.
From S2P Require Import Prelude FatPtr Bytes Adler LogBlock LogNames Threads LogFile LogOffset.

Local Open Scope Z_scope.

Section start.
Context `{OS : Os}.

(** No other thread runs yet. *)
#[local] Instance nobody : Others log_file_mgr := {| others _ s := s |}.

Definition run {A} (c : @P log_file_mgr A) (s : log_file_mgr) : res (A * log_file_mgr) :=
  match fst (c s 0%nat) with Ok (a, (s', _)) => Ok (a, s') | Throw e => Throw e end.

(* src: dbcore/sm-log-file.cpp:255-261 fill_skip_block *)
Definition fill_skip_block (m : mem8) (b : Z) (lsn : LSN.t) (payload_size : Z) : mem8 :=
  let m := log_block.set_nrec m b 0 in
  let m := log_block.set_lsn m b lsn in
  let blocksz := log_block.size 0 payload_size in
  let next_lsn := LSN.advance_within_segment lsn blocksz in
  fill_skip_record m (log_block.records b 0) next_lsn payload_size (negb (payload_size =? 0)).

(** The block with the first, empty checkpoint: at address [b] of the stack
    [m]. *)
(* src: dbcore/sm-log-file.cpp:263-273 sm_log_file_mgr::_make_new_log *)
Definition first_block (m : mem8) (b : Z) (sid : segment_id) : res (LSN.t * LSN.t * mem8) :=
  let chkpt_start := make_lsn sid 0 in
  let m := fill_skip_block m b chkpt_start MIN_LOG_BLOCK_SIZE in
  b2 ← log_block.payload m b 0;
  chkpt_end ← log_block.payload_lsn m b 0;
  let m := fill_skip_block m b2 chkpt_end 0 in
  c2 ← log_block.full_checksum m b2;
  let m := log_block.set_checksum m b2 c2 in
  c ← log_block.full_checksum m b;
  Ok (chkpt_start, chkpt_end, log_block.set_checksum m b c).

(* src: dbcore/sm-log-file.cpp:238-285 sm_log_file_mgr::_make_new_log *)
Definition _make_new_log (m : mem8) (b : Z) (s : log_file_mgr) : res log_file_mgr :=
  let segno := 1 in
  let s := set_nxt 0 (set_oldest segno s) in
  s ← _create_nxt_seg_file true s;
  '(p, s) ← run (_prepare_new_segment segno 0 0) s;
  let s := set_active p s in
  sid ← deref p;
  '(cstart, cend, m) ← first_block m b sid;
  let s := set_chkpt cstart cend s in
  '(fd, s) ← open_for_write sid s;
  let s := set_dir (os_pwrite (dir s) (file_of sid) (get m b (log_block.size 0 MIN_LOG_BLOCK_SIZE)) 0) s in
  let s := set_durable (log_block.next_lsn m b) s in
  let d := os_truncateat (dir s) (cmark_file_name (_chkpt_start_lsn s) (_chkpt_end_lsn s)) 0 in
  let d := os_truncateat d (dmark_file_name (_durable_lsn s)) 0 in
  Ok (set_dir d s).

(** ** Reading the directory *)

Record scan := Scan {
  durable_found : bool; chkpt_found : bool; nxt_seg_found : bool;
  sc_durable : LSN.t; sc_start : LSN.t; sc_end : LSN.t; sc_nxt : Z;
  tmp : list segment_id;
}.

Definition DEFAULT_ALIGN : Z := 16.

(* src: dbcore/sm-log-file.cpp:311-330 sm_log_file_mgr::sm_log_file_mgr *)
Definition scan_chkpt (fname : fname) (c : scan) : res scan :=
  match sscanf (CHKPT_FILE_NAME_FMT ++ [Chr]) fname with
  | [a; e] =>
      let a := LSN.mk a in let e := LSN.mk e in
      throw_if (chkpt_found c) log_file_error;;
      throw_if (negb (LSN.ltb a e)) log_file_error;;
      throw_if (negb (is_aligned (LSN.offset a) DEFAULT_ALIGN)) log_file_error;;
      throw_if (negb (is_aligned (LSN.offset e) DEFAULT_ALIGN)) log_file_error;;
      Ok (Scan (durable_found c) true (nxt_seg_found c) (sc_durable c) a e (sc_nxt c) (tmp c))
  | _ => Throw log_file_error
  end.

(* src: dbcore/sm-log-file.cpp:331-346 sm_log_file_mgr::sm_log_file_mgr *)
Definition scan_durable (fname : fname) (c : scan) : res scan :=
  match sscanf (DURABLE_FILE_NAME_FMT ++ [Chr]) fname with
  | [a] =>
      let a := LSN.mk a in
      throw_if (durable_found c) log_file_error;;
      throw_if (negb (is_aligned (LSN.offset a) DEFAULT_ALIGN)) log_file_error;;
      Ok (Scan true (chkpt_found c) (nxt_seg_found c) a (sc_start c) (sc_end c) (sc_nxt c) (tmp c))
  | _ => Throw log_file_error
  end.

(* src: dbcore/sm-log-file.cpp:347-378 sm_log_file_mgr::sm_log_file_mgr *)
Definition scan_segment (d : directory) (fname : fname) (c : scan) : res scan :=
  match sscanf (SEGMENT_FILE_NAME_FMT ++ [Chr]) fname with
  | [n; a; e] =>
      throw_if (negb (is_aligned a DEFAULT_ALIGN)) log_file_error;;
      let ssize := u64 (e - a) in
      throw_if (negb (is_aligned ssize LOG_SEGMENT_ALIGN)) log_file_error;;
      fd ← os_openat d fname;
      Ok (Scan (durable_found c) (chkpt_found c) (nxt_seg_found c) (sc_durable c) (sc_start c) (sc_end c) (sc_nxt c)
            (tmp c ++ [Segment fd n a e 0]))
  | _ => Throw log_file_error
  end.

(* src: dbcore/sm-log-file.cpp:379-395 sm_log_file_mgr::sm_log_file_mgr *)
Definition scan_nxt (d : directory) (fname : fname) (c : scan) : res scan :=
  match sscanf (NXT_SEG_FILE_NAME_FMT ++ [Chr]) fname with
  | [n] =>
      throw_if (nxt_seg_found c) log_file_error;;
      fd ← os_openat d fname;
      Ok (Scan (durable_found c) (chkpt_found c) true (sc_durable c) (sc_start c) (sc_end c) (pack_fd fd n) (tmp c))
  | _ => Throw log_file_error
  end.

(* src: dbcore/sm-log-file.cpp:305-406 sm_log_file_mgr::sm_log_file_mgr *)
Definition scan_name (d : directory) (fname : fname) (c : scan) : res scan :=
  match head fname with
  | Some "."%char => Ok c
  | Some "c"%char => scan_chkpt fname c
  | Some "d"%char => scan_durable fname c
  | Some "l"%char => scan_segment d fname c
  | Some "n"%char => scan_nxt d fname c
  | Some "o"%char => Ok c
  | _ => Throw log_file_error
  end.

Fixpoint scan_all (d : directory) (names : list fname) (c : scan) : res scan :=
  match names with [] => Ok c | f :: names => c ← scan_name d f c; scan_all d names c end.

(** [std::sort] of at most sixteen elements inserts them one by one; [ssort]
    compares. *)
(* src: dbcore/sm-log-file.cpp:431-435 ssort *)
Definition ssort (a b : segment_id) : res bool :=
  throw_if (segnum a =? segnum b) log_file_error;;
  Ok (segnum a <? segnum b).

Fixpoint insert_sorted (x : segment_id) (l : list segment_id) : res (list segment_id) :=
  match l with
  | [] => Ok [x]
  | y :: l' =>
      lt ← ssort x y;
      if (lt : bool) then Ok (x :: l) else l' ← insert_sorted x l'; Ok (y :: l')
  end.

Fixpoint sort_segments (l acc : list segment_id) : res (list segment_id) :=
  match l with [] => Ok acc | x :: l => acc ← insert_sorted x acc; sort_segments l acc end.

Definition MB : Z := 1024 * 1024.

(** What the names say is checked and taken over. *)
(* src: dbcore/sm-log-file.cpp:417-470 sm_log_file_mgr::sm_log_file_mgr *)
Definition attach (c : scan) (s : log_file_mgr) : res log_file_mgr :=
  throw_if (NUM_LOG_SEGMENTS <? Z.of_nat (length (tmp c))) log_file_error;;
  throw_if (negb (chkpt_found c)) log_file_error;;
  throw_if (negb (durable_found c)) log_file_error;;
  l ← sort_segments (tmp c) [];
  slo ← deref (head l);
  shi ← deref (last l);
  throw_if (negb (u32 (segnum shi - segnum slo) =? Z.of_nat (length l) - 1)) log_file_error;;
  let s := set_active (Some shi) (set_oldest (segnum slo) s) in
  let s := foldl (fun s sid => set_slot (segnum sid) (Some sid) s) s l in
  throw_if (LSN.offset (_durable_lsn s) <? start_offset slo) log_file_error;;
  throw_if (end_offset shi <? LSN.offset (_durable_lsn s)) log_file_error;;
  throw_if (LSN.offset (_chkpt_start_lsn s) <? start_offset slo) log_file_error;;
  throw_if (end_offset shi <? LSN.offset (_chkpt_end_lsn s)) log_file_error;;
  if nxt_seg_found c then
    throw_if (negb (u32 (nxt_segment_fd s) =? u32 (segnum shi + 1))) log_file_error;;
    Ok s
  else Ok (set_nxt (segnum shi) s).

(** [names] is what reading the directory gives; [s] has the fields before the
    constructor, among them the directory.  The second component of the result
    is [need_recovery]. *)
(* src: dbcore/sm-log-file.cpp:287-471 sm_log_file_mgr::sm_log_file_mgr *)
Definition sm_log_file_mgr (log_segment_mb : Z) (names : list fname) (m : mem8) (b : Z) (s : log_file_mgr) :
    res (log_file_mgr * bool) :=
  let s := set_segment_size (u64 (log_segment_mb * MB)) s in
  c ← scan_all (dir s) names
        (Scan false false false (_durable_lsn s) (_chkpt_start_lsn s) (_chkpt_end_lsn s) (nxt_segment_fd s) []);
  let s := set_nxt (sc_nxt c) (set_durable (sc_durable c) (set_chkpt (sc_start c) (sc_end c) s)) in
  match tmp c with
  | [] =>
      throw_if (chkpt_found c || durable_found c || nxt_seg_found c) log_file_error;;
      s ← _make_new_log m b s;
      Ok (s, false)
  | _ => s ← attach c s; Ok (s, true)
  end.

End start.
