(* ===== verification/LogDisk.v ===== *)
(** * What the directory says

    Between operations, the file names of the log's directory are exactly those
    of the live segments that were renamed, of the two marks, and of the file
    for the next segment.  Every operation of the file manager keeps this. *)
From stdpp Require Import base numbers list gmap strings.
From Stdlib Require Import ZArith Lia.
From S2P Require Import Prelude FatPtr Bytes LogBlock LogNames Threads LogFile LogOffset LogStart LogOffsetSafe.

Local Open Scope Z_scope.

(** ** Names *)

Lemma file_inj x y :
  fits 32 (segnum x) -> fits 48 (start_offset x) -> fits 48 (end_offset x) ->
  fits 32 (segnum y) -> fits 48 (start_offset y) -> fits 48 (end_offset y) ->
  file_of x = file_of y -> segnum x = segnum y.
Proof.
  intros H1 H2 H3 H4 H5 H6 H. unfold file_of in H. pose proof (segment_name_read _ _ _ H1 H2 H3) as A.
  rewrite H, (segment_name_read _ _ _ H4 H5 H6) in A. by injection A.
Qed.

Lemma lsn_eta (x : LSN.t) : LSN.mk (LSN._val x) = x.
Proof. by destruct x. Qed.

Lemma dmark_inj x y : fits 64 (LSN._val x) -> fits 64 (LSN._val y) -> dmark_file_name x = dmark_file_name y -> x = y.
Proof.
  intros Hx Hy H. pose proof (dmark_name_read _ Hx) as A. rewrite H, (dmark_name_read _ Hy) in A.
  injection A as A. rewrite <- (lsn_eta x), <- (lsn_eta y). by rewrite A.
Qed.

(** Names of different kinds differ in their first letter. *)
Ltac clash H :=
  apply (f_equal head) in H; unfold file_of in H;
  rewrite ?head_segment, ?head_dmark, ?head_cmark, ?head_nxt in H; discriminate H.
Ltac heads := let H := fresh in intros H; clash H.

Lemma file_dmark x d : file_of x <> dmark_file_name d. Proof. heads. Qed.
Lemma file_cmark x a e : file_of x <> cmark_file_name a e. Proof. heads. Qed.
Lemma file_nxt x n : file_of x <> nxt_seg_file_name n. Proof. heads. Qed.
Lemma dmark_cmark d a e : dmark_file_name d <> cmark_file_name a e. Proof. heads. Qed.
Lemma dmark_nxt d n : dmark_file_name d <> nxt_seg_file_name n. Proof. heads. Qed.
Lemma cmark_nxt a e n : cmark_file_name a e <> nxt_seg_file_name n. Proof. heads. Qed.

Create HintDb names.
#[export] Hint Resolve file_dmark file_cmark file_nxt dmark_cmark dmark_nxt cmark_nxt : names.
#[export] Hint Resolve not_eq_sym : names.

(** The names of a log. *)
Definition log_names (L : list segment_id) (d cs ce : LSN.t) (n : Z) : list fname :=
  (file_of <$> L) ++ [dmark_file_name d; cmark_file_name cs ce; nxt_seg_file_name n].

Definition on_disk (D : directory) (L : list segment_id) (d cs ce : LSN.t) (n : Z) : Prop :=
  forall f, is_Some (D !! f) <-> f ∈ log_names L d cs ce n.

Lemma elem_names f L d cs ce n :
  f ∈ log_names L d cs ce n <->
  (exists x, x ∈ L /\ f = file_of x) \/ f = dmark_file_name d \/ f = cmark_file_name cs ce \/ f = nxt_seg_file_name n.
Proof. unfold log_names. rewrite elem_of_app, list_elem_of_fmap. set_solver. Qed.

Lemma is_Some_insert (D : directory) k v f : is_Some (<[k := v]> D !! f) <-> f = k \/ is_Some (D !! f).
Proof.
  destruct (decide (k = f)) as [->|]; [rewrite lookup_insert_eq|rewrite lookup_insert_ne by done]; naive_solver.
Qed.

Lemma is_Some_delete (D : directory) k f : is_Some (delete k D !! f) <-> f <> k /\ is_Some (D !! f).
Proof.
  destruct (decide (k = f)) as [->|]; [rewrite lookup_delete_eq|rewrite lookup_delete_ne by done].
  - split; [by intros [? ?]|naive_solver].
  - naive_solver.
Qed.

(** ** Changes of the directory *)

Section changes.
Context (D : directory) (L : list segment_id) (d cs ce : LSN.t) (n : Z).
Hypothesis HD : on_disk D L d cs ce n.

Lemma disk_durable d' : fits 64 (LSN._val d) -> fits 64 (LSN._val d') ->
  exists D', os_renameat D (dmark_file_name d) (dmark_file_name d') = Ok D' /\ on_disk D' L d' cs ce n.
Proof.
  intros Hd Hd'. unfold os_renameat. destruct (proj2 (HD (dmark_file_name d))) as [c Hc]; [rewrite elem_names; auto|].
  rewrite Hc. eexists. split; [done|]. intros f. rewrite is_Some_insert, is_Some_delete, (HD f), !elem_names.
  split.
  - naive_solver.
  - intros [(x & Hx & ->)|[->|[->| ->]]]; [right|by left|right|right]; (split; [|naive_solver]); auto with names.
Qed.

Lemma disk_chkpt cs' ce' : exists D', os_renameat D (cmark_file_name cs ce) (cmark_file_name cs' ce') = Ok D' /\ on_disk D' L d cs' ce' n.
Proof.
  unfold os_renameat. destruct (proj2 (HD (cmark_file_name cs ce))) as [c Hc]; [rewrite elem_names; auto|].
  rewrite Hc. eexists. split; [done|]. intros f. rewrite is_Some_insert, is_Some_delete, (HD f), !elem_names.
  split.
  - naive_solver.
  - intros [(x & Hx & ->)|[->|[->| ->]]]; [right|right|by left|right]; (split; [|naive_solver]); auto with names.
Qed.

(** A file is deleted. *)
Lemma disk_unlink A x C : L = A ++ x :: C -> (forall y, y ∈ A ++ C -> file_of y <> file_of x) ->
  exists D', os_unlinkat D (file_of x) = Ok D' /\ on_disk D' (A ++ C) d cs ce n.
Proof.
  intros HL Hne. unfold os_unlinkat. destruct (proj2 (HD (file_of x))) as [c Hc].
  { rewrite elem_names. left. exists x. split; [|done]. rewrite HL. set_solver. }
  rewrite Hc. eexists. split; [done|]. intros f. rewrite is_Some_delete, (HD f), !elem_names, HL. split.
  - intros [Hf [(y & [Hy|[->|Hy]%elem_of_cons]%elem_of_app & ->)|Hr]]; [| |..];
      [left; exists y; split; [set_solver|done]|done|left; exists y; split; [set_solver|done]|by right].
  - intros [(y & Hy & ->)|[->|[->| ->]]]; (split; [auto with names|]); [|naive_solver..].
    left. exists y. split; [set_solver|done].
Qed.

(** The file of the next segment gets its final name, and the following one is
    created. *)
Lemma disk_next `{OS : Os} a :
  fits 32 n -> fits 32 (n + 1) ->
  exists D1 D', os_renameat D (nxt_seg_file_name n) (file_of a) = Ok D1 /\
    os_openat_excl D1 (nxt_seg_file_name (n + 1)) = Ok (os_fd D1 (nxt_seg_file_name (n + 1)), D') /\
    on_disk D' (L ++ [a]) d cs ce (n + 1).
Proof.
  intros Hn Hn1. unfold os_renameat. destruct (proj2 (HD (nxt_seg_file_name n))) as [c Hc]; [rewrite elem_names; auto|].
  rewrite Hc. assert (nxt_seg_file_name (n + 1) <> nxt_seg_file_name n) as Hne by (intros ?%nxt_inj; [lia|done|done]).
  assert (D !! nxt_seg_file_name (n + 1) = None) as Hnone.
  { apply eq_None_not_Some. rewrite (HD _), elem_names. intros [(x & _ & H)|[H|[H|H]]]; [clash H|clash H|clash H|done]. }
  eexists _, _. split; [done|]. unfold os_openat_excl.
  rewrite lookup_insert_ne, lookup_delete_ne, Hnone by auto with names. split; [done|].
  intros f. rewrite !is_Some_insert, is_Some_delete, (HD f), !elem_names. setoid_rewrite elem_of_app. split.
  - naive_solver set_solver.
  - intros [(x & [Hx|Hx] & ->)|[->|[->| ->]]]; [| |right; right|right; right|by left].
    + right. right. split; [auto with names|naive_solver].
    + apply list_elem_of_singleton in Hx as ->. right. by left.
    + split; [auto with names|naive_solver].
    + split; [auto with names|naive_solver].
Qed.

(** The file of the next segment is replaced. *)
Lemma disk_renext `{OS : Os} n' : fits 32 n -> fits 32 n' ->
  exists D1 D', os_unlinkat D (nxt_seg_file_name n) = Ok D1 /\
    os_openat_excl D1 (nxt_seg_file_name n') = Ok (os_fd D1 (nxt_seg_file_name n'), D') /\ on_disk D' L d cs ce n'.
Proof.
  intros Hn Hn'. unfold os_unlinkat. destruct (proj2 (HD (nxt_seg_file_name n))) as [c Hc]; [rewrite elem_names; auto|].
  rewrite Hc. eexists _, _. split; [done|]. unfold os_openat_excl.
  assert (delete (nxt_seg_file_name n) D !! nxt_seg_file_name n' = None) as ->.
  { apply eq_None_not_Some. rewrite is_Some_delete, (HD _), elem_names.
    intros [Hne [(x & _ & H)|[H|[H|H]]]]; [clash H|clash H|clash H|done]. }
  split; [done|]. intros f. rewrite is_Some_insert, is_Some_delete, (HD f), !elem_names. split.
  - naive_solver.
  - intros [(x & Hx & ->)|[->|[->| ->]]]; [right|right|right|by left]; (split; [auto with names|naive_solver]).
Qed.

Lemma disk_resize x size : x ∈ L -> on_disk (os_truncateat D (file_of x) size) L d cs ce n.
Proof.
  intros Hx f. unfold os_truncateat. rewrite is_Some_insert, (HD f), elem_names. naive_solver.
Qed.
End changes.

(** ** The invariant *)

(** A segment whose name can be read back. *)
Record seg_wf (x : segment_id) : Prop := {
  sw_num : 1 <= segnum x /\ fits 32 (segnum x + 1);
  sw_start : fits 48 (start_offset x) /\ is_aligned (start_offset x) DEFAULT_ALIGN = true;
  sw_end : start_offset x + MIN_LOG_BLOCK_SIZE <= end_offset x /\ fits 48 (end_offset x) /\
           is_aligned (u64 (end_offset x - start_offset x)) LOG_SEGMENT_ALIGN = true;
}.

(** A mark points into a segment. *)
Record mark_in (L : list segment_id) (l : LSN.t) : Prop := {
  mk_fits : fits 64 (LSN._val l);
  mk_align : is_aligned (LSN.offset l) DEFAULT_ALIGN = true;
  mk_seg : exists x, x ∈ L /\ start_offset x <= LSN.offset l /\ LSN.offset l + MIN_LOG_BLOCK_SIZE <= end_offset x;
}.

(** Consecutive segments, numbered from [f], that do not overlap by more than
    what is left of a full one. *)
Record run_of (f : Z) (L : list segment_id) : Prop := {
  ro_wf : Forall seg_wf L;
  ro_num : forall i x, L !! i = Some x -> segnum x = f + Z.of_nat i;
  ro_next : forall i a c, L !! i = Some a -> L !! S i = Some c -> end_offset a <= start_offset c + MIN_LOG_BLOCK_SIZE;
}.

Record disk_core (L : list segment_id) (n : Z) (s : log_file_mgr) : Prop := {
  dc_run : run_of (oldest_segnum s) L;
  dc_len : (0 < length L <= 16)%nat;
  dc_nxt : u32 (nxt_segment_fd s) = n /\ fits 32 n;
  dc_slot : forall i x, segments s !! i = Some x <-> x ∈ L /\ i = segnum x mod 16;
  dc_disk : on_disk (dir s) L (_durable_lsn s) (_chkpt_start_lsn s) (_chkpt_end_lsn s) n;
  dc_durable : mark_in L (_durable_lsn s);
  dc_start : mark_in L (_chkpt_start_lsn s);
  dc_end : mark_in L (_chkpt_end_lsn s);
  dc_order : LSN.ltb (_chkpt_start_lsn s) (_chkpt_end_lsn s) = true;
}.

(** The newest segment is the last renamed one, or follows it. *)
Definition newest_ok (L : list segment_id) (s : log_file_mgr) : Prop :=
  exists a, active_segment s = Some a /\
    (last L = Some a \/ run_of (oldest_segnum s) (L ++ [a]) /\ (length L < 16)%nat).

Definition disk_inv (L : list segment_id) (s : log_file_mgr) : Prop :=
  disk_core L (oldest_segnum s + Z.of_nat (length L)) s /\ newest_ok L s.

Lemma run_elem f L x : run_of f L -> x ∈ L -> seg_wf x.
Proof. intros H Hx. by apply (proj1 (Forall_forall _ _) (ro_wf _ _ H)). Qed.

Lemma run_same f L x y : run_of f L -> x ∈ L -> y ∈ L -> segnum x = segnum y -> x = y.
Proof.
  intros H [i Hx]%list_elem_of_lookup [j Hy]%list_elem_of_lookup E.
  rewrite (ro_num _ _ H _ _ Hx), (ro_num _ _ H _ _ Hy) in E. assert (i = j) as -> by lia. rewrite Hx in Hy. by simplify_eq.
Qed.

Lemma run_later f L i j x y : run_of f L -> (i < j)%nat -> L !! i = Some x -> L !! j = Some y ->
  end_offset x <= start_offset y + MIN_LOG_BLOCK_SIZE.
Proof.
  intros H Hij. revert y. induction Hij as [|j Hij IH]; intros y Hx Hy; [by eapply (ro_next _ _ H)|].
  destruct (lookup_lt_is_Some_2 L j) as [z Hz]; [apply lookup_lt_Some in Hy; lia|].
  pose proof (IH z Hx Hz). pose proof (ro_next _ _ H _ _ _ Hz Hy).
  pose proof (sw_end _ (run_elem _ _ _ H (list_elem_of_lookup_2 _ _ _ Hz))). lia.
Qed.

Lemma run_app_l f L L' : run_of f (L ++ L') -> run_of f L.
Proof.
  intros [H1 H2 H3]. apply Forall_app in H1 as [H1 _]. split; [done| |].
  - intros i x Hx. apply H2. by apply lookup_app_l_Some.
  - intros i a c Ha Hc. apply (H3 i); by apply lookup_app_l_Some.
Qed.

Lemma run_tail f x L : run_of f (x :: L) -> run_of (f + 1) L.
Proof.
  intros [H1 H2 H3]. apply Forall_cons in H1 as [_ H1]. split; [done| |].
  - intros i y Hy. rewrite (H2 (S i) y Hy). lia.
  - intros i a c Ha Hc. by apply (H3 (S i)).
Qed.

Lemma mark_in_app L L' l : mark_in L l -> mark_in (L ++ L') l.
Proof. intros [H1 H2 (x & Hx & H3)]. split; [done|done|]. exists x. split; [by apply elem_of_app; left|done]. Qed.

Lemma core_unique L n s x y : disk_core L n s -> x ∈ L -> y ∈ L -> segnum x mod 16 = segnum y mod 16 -> x = y.
Proof.
  intros H [j Hx]%list_elem_of_lookup [k Hy]%list_elem_of_lookup E. pose proof (dc_run _ _ _ H) as Hr.
  pose proof (lookup_lt_Some _ _ _ Hx). pose proof (lookup_lt_Some _ _ _ Hy). pose proof (dc_len _ _ _ H).
  rewrite (ro_num _ _ Hr _ _ Hx), (ro_num _ _ Hr _ _ Hy) in E. apply mod16_eq in E; [|lia].
  assert (j = k) as -> by lia. rewrite Hx in Hy. by simplify_eq.
Qed.

Lemma last_of f L : run_of f L -> (0 < length L)%nat -> exists a, last L = Some a /\ a ∈ L /\ segnum a = f + Z.of_nat (length L) - 1.
Proof.
  intros H Hl. destruct (lookup_lt_is_Some_2 L (length L - 1)) as [a Ha]; [lia|]. exists a.
  rewrite last_lookup. replace (Nat.pred (length L)) with (length L - 1)%nat by lia.
  split; [done|]. split; [by eapply list_elem_of_lookup_2|]. rewrite (ro_num _ _ H _ _ Ha). lia.
Qed.

(** ** The operations *)

Section ops.
Context `{OS : Os}.

(** Renaming the newest segment's file, when it still has its first name. *)
Lemma sync_ok L s : disk_inv L s ->
  exists s' L', _create_nxt_seg_file false s = Ok s' /\ disk_inv L' s' /\ last L' = active_segment s' /\
    L `prefix_of` L' /\ _durable_lsn s' = _durable_lsn s /\ _chkpt_start_lsn s' = _chkpt_start_lsn s /\
    _chkpt_end_lsn s' = _chkpt_end_lsn s /\ active_segment s' = active_segment s.
Proof.
  intros [Hc (a & Ha & Hor)]. pose proof Hc as [Hr Hl [Hn Hf] Hs Hd Hm1 Hm2 Hm3 Ho].
  destruct (last_of _ _ Hr ltac:(lia)) as (p & Hp & HpL & Hnp).
  unfold _create_nxt_seg_file, _newest_segment. rewrite Ha. cbn [deref mbind res_bind]. rewrite Hn.
  destruct Hor as [Hlast|[Hra Hlt]].
  { rewrite Hp in Hlast. injection Hlast as <-. destruct (Z.eqb_spec (oldest_segnum s + Z.of_nat (length L)) (segnum p)); [lia|].
    exists s, L. rewrite Hp, Ha. split_and!; try done. split; [done|]. exists p. auto. }
  assert (segnum a = oldest_segnum s + Z.of_nat (length L)) as Hna.
  { apply (ro_num _ _ Hra). by rewrite list_lookup_middle. }
  destruct (sw_num _ (run_elem _ _ a Hra ltac:(set_solver))) as [_ Hfa].
  rewrite Hna, Z.eqb_refl in *. cbn [dir set_slot set_segments].
  destruct (disk_next _ _ _ _ _ _ Hd a Hf Hfa) as (D1 & D' & -> & H2 & H3). cbn [mbind res_bind dir set_dir].
  rewrite (wrap_small 32) by done. rewrite H2. cbn [mbind res_bind].
  eexists _, (L ++ [a]). split; [done|]. rewrite last_snoc. cbn. rewrite Ha. split_and!; try done; [|by apply prefix_app_r].
  split; [|exists a; cbn; rewrite last_snoc; auto].
  rewrite length_app. cbn. replace (oldest_segnum s + Z.of_nat (length L + 1)) with (oldest_segnum s + Z.of_nat (length L) + 1) by lia.
  split; cbn; rewrite ?length_app; cbn; try done; try lia; try by apply mark_in_app.
  - split; [|done]. apply u32_pack. apply Hfa.
  - intros i x. change NUM_LOG_SEGMENTS with 16. rewrite <- Hna.
    destruct (decide (i = segnum a mod 16)) as [->|Hi].
    + rewrite lookup_partial_alter_eq. split.
      * intros [= <-]. split; [set_solver|done].
      * intros [[Hx|Hx]%elem_of_app E]; [exfalso|set_solver]. apply list_elem_of_lookup in Hx as [j Hx].
        rewrite (ro_num _ _ Hr _ _ Hx), Hna in E. pose proof (lookup_lt_Some _ _ _ Hx).
        symmetry in E. revert E. apply mod16_ne. lia.
    + rewrite lookup_partial_alter_ne by done. rewrite (Hs i x), elem_of_app. split; [naive_solver|].
      intros [[Hx|Hx] E]; [done|]. apply list_elem_of_singleton in Hx as ->. done.
Qed.

(** An LSN in a segment that the manager knows. *)
Definition points_into (s : log_file_mgr) (l : LSN.t) : Prop :=
  fits 64 (LSN._val l) /\ is_aligned (LSN.offset l) DEFAULT_ALIGN = true /\
  exists x, ((exists i, segments s !! i = Some x) \/ active_segment s = Some x) /\
    start_offset x <= LSN.offset l /\ LSN.offset l + MIN_LOG_BLOCK_SIZE <= end_offset x.

Lemma points_mark L L' s l :
  disk_inv L s -> points_into s l -> L `prefix_of` L' -> last L' = active_segment s -> mark_in L' l.
Proof.
  intros [Hc _] (H1 & H2 & x & Hx & H3) [k ->] Hlast. split; [done|done|]. exists x. split; [|done].
  destruct Hx as [[i Hx]|Hx].
  - apply (dc_slot _ _ _ Hc) in Hx as [Hx _]. by apply elem_of_app; left.
  - rewrite Hx in Hlast. by apply last_Some_elem_of.
Qed.

Lemma durable_ok L s l s' :
  disk_inv L s -> points_into s l ->
  update_durable_mark l s = Ok s' -> exists L', disk_inv L' s'.
Proof.
  intros Hi Hl H. destruct (sync_ok L s Hi) as (s1 & L' & E & [Hc Ha] & Hlast & Hpre & _ & _ & _ & Hact).
  unfold update_durable_mark in H. rewrite E in H. cbn [mbind res_bind] in H.
  assert (mark_in L' l) as Hm by (eapply points_mark; [exact Hi|done|done|by rewrite <- Hact]).
  destruct Hc as [Hr Hln Hn Hs Hd Hm1 Hm2 Hm3 Ho].
  destruct (disk_durable _ _ _ _ _ _ Hd l (mk_fits _ _ Hm1) (mk_fits _ _ Hm)) as (D' & E' & HD).
  rewrite E' in H. cbn [mbind res_bind] in H. injection H as <-. exists L'. split; [|exact Ha]. by split.
Qed.

Lemma chkpt_ok L s a e s' :
  disk_inv L s -> points_into s a -> points_into s e ->
  LSN.ltb a e = true -> update_chkpt_mark a e s = Ok s' -> exists L', disk_inv L' s'.
Proof.
  intros Hi Hl Hl' Hlt H. destruct (sync_ok L s Hi) as (s1 & L' & E & [Hc Ha] & Hlast & Hpre & _ & _ & _ & Hact).
  unfold update_chkpt_mark in H. rewrite E in H. cbn [mbind res_bind] in H.
  assert (mark_in L' a) as Hma by (eapply points_mark; [exact Hi|done|done|by rewrite <- Hact]).
  assert (mark_in L' e) as Hme by (eapply points_mark; [exact Hi|done|done|by rewrite <- Hact]).
  destruct Hc as [Hr Hln Hn Hs Hd Hm1 Hm2 Hm3 Ho].
  destruct (disk_chkpt _ _ _ _ _ _ Hd a e) as (D' & E' & HD).
  rewrite E' in H. cbn [mbind res_bind] in H. injection H as <-. exists L'. split; [|exact Ha]. by split.
Qed.

Lemma run_files f L x y : run_of f L -> x ∈ L -> y ∈ L -> file_of x = file_of y -> x = y.
Proof.
  intros H Hx Hy E. apply (run_same f L); [done..|].
  pose proof (run_elem _ _ _ H Hx) as [[? ?] [? _] (_ & ? & _)]. pose proof (run_elem _ _ _ H Hy) as [[? ?] [? _] (_ & ? & _)].
  apply file_inj; try done; unfold fits in *; lia.
Qed.

(** A mark that lies behind the first segment is in the others. *)
Lemma mark_tail x L l : mark_in (x :: L) l -> end_offset x <= LSN.offset l -> mark_in L l.
Proof.
  intros [H1 H2 (y & Hy & H3 & H4)] Hend. split; [done|done|]. exists y. split; [|done].
  apply elem_of_cons in Hy as [->|]; [|done]. change MIN_LOG_BLOCK_SIZE with 32 in *. lia.
Qed.

Lemma offset_mono a e : LSN.ltb a e = true -> LSN.offset a <= LSN.offset e.
Proof.
  unfold LSN.ltb, LSN.offset. rewrite !Z.shiftr_div_pow2 by done. intros H%Z.ltb_lt. apply Z.div_le_mono; lia || done.
Qed.

(** A mark not before one that lies behind the first segment. *)
Lemma mark_tail_after f x L l e : run_of f (x :: L) -> mark_in L l -> mark_in (x :: L) e ->
  LSN.offset l <= LSN.offset e -> mark_in L e.
Proof.
  intros Hr [_ _ (z & Hz & Hz1 & Hz2)] [H1 H2 (y & Hy & H3 & H4)] Hle. split; [done|done|].
  apply elem_of_cons in Hy as [->|]; [|by exists y]. apply list_elem_of_lookup in Hz as [j Hz].
  pose proof (run_later _ _ 0 (S j) x z Hr ltac:(lia) eq_refl Hz).
  exists z. split; [by eapply list_elem_of_lookup_2|]. lia.
Qed.

(** Forgetting the oldest segment. *)
Lemma pop_oldest_ok x L s :
  disk_inv (x :: L) s -> end_offset x <= LSN.offset (_durable_lsn s) -> end_offset x <= LSN.offset (_chkpt_start_lsn s) ->
  exists D, os_unlinkat (dir s) (file_of x) = Ok D /\ disk_inv L (_pop_oldest (set_dir D s)).
Proof.
  intros [[Hr Hl Hn Hs Hd Hm1 Hm2 Hm3 Ho] (a & Ha & Hor)] Hdur Hchk.
  destruct (disk_unlink _ _ _ _ _ _ Hd [] x L eq_refl) as (D & E & HD).
  { intros y Hy Ey. assert (y = x) as -> by (eapply run_files; [exact Hr|set_solver|set_solver|done]).
    apply list_elem_of_lookup in Hy as [j Hy]. pose proof (ro_num _ _ Hr (S j) x Hy). pose proof (ro_num _ _ Hr 0%nat x eq_refl). lia. }
  exists D. split; [done|]. pose proof (ro_num _ _ Hr 0%nat x eq_refl) as Hnx.
  pose proof (run_elem _ _ x Hr ltac:(set_solver)) as [[? Hfx] _ _].
  assert (u32 (oldest_segnum s + 1) = oldest_segnum s + 1) as Hu by (apply wrap_small; by replace (oldest_segnum s) with (segnum x) by lia).
  pose proof (mark_tail _ _ _ Hm1 Hdur) as Hd'. pose proof (mark_tail _ _ _ Hm2 Hchk) as Hs'.
  assert (0 < length L)%nat by (destruct Hd' as [_ _ (y & Hy & _)]; destruct L; [by apply elem_of_nil in Hy|cbn; lia]).
  split.
  - cbn [length] in *. split; cbn; rewrite ?Hu; try done; try lia.
    + by eapply run_tail.
    + replace (oldest_segnum s + 1 + Z.of_nat (length L)) with (oldest_segnum s + Z.of_nat (S (length L))) by lia. done.
    + intros i y. change NUM_LOG_SEGMENTS with 16. replace (oldest_segnum s) with (segnum x) by lia.
      destruct (decide (i = segnum x mod 16)) as [->|Hi].
      * rewrite lookup_partial_alter_eq. split; [done|]. intros [Hy Ey]. exfalso.
        apply list_elem_of_lookup in Hy as [j Hy]. pose proof (lookup_lt_Some _ _ _ Hy).
        rewrite (ro_num _ _ Hr (S j) y Hy), Hnx in Ey. revert Ey. apply mod16_ne. lia.
      * rewrite lookup_partial_alter_ne by done. rewrite (Hs i y), elem_of_cons. split; [|naive_solver].
        intros [[->|Hy] Ey]; done.
    + replace (oldest_segnum s + 1 + Z.of_nat (length L)) with (oldest_segnum s + Z.of_nat (S (length L))) by lia. exact HD.
    + eapply mark_tail_after; [exact Hr|exact Hs'|done|by apply offset_mono].
  - exists a. split; [done|]. cbn. rewrite Hu. destruct Hor as [Hlast|[Hra Hlt]].
    + left. destruct L as [|y L]; [cbn in *; lia|]. by rewrite last_cons_cons in Hlast.
    + right. split; [by eapply run_tail|cbn in Hlt; lia].
Qed.

Lemma pop_before_ok fuel segno : forall L s s', disk_inv L s -> pop_before fuel segno s = Ok s' -> exists L', disk_inv L' s'.
Proof.
  induction fuel as [|fuel IH]; intros L s s' Hi H; [done|]. cbn [pop_before] in H.
  pose proof (proj1 Hi) as Hc. pose proof (dc_len _ _ _ Hc). destruct L as [|x L]; [cbn in *; lia|].
  assert (_oldest_segment s = Some x) as Hx.
  { unfold _oldest_segment, slot. apply (dc_slot _ _ _ Hc). split; [by left|].
    rewrite (ro_num _ _ (dc_run _ _ _ Hc) 0%nat x eq_refl). by rewrite Z.add_0_r. }
  rewrite Hx in H. cbn [deref mbind res_bind] in H.
  destruct (segnum x <? segno); [|injection H as <-; by exists (x :: L)].
  destruct (Z.ltb_spec (LSN.offset (_durable_lsn s)) (end_offset x)) as [|H1]; [done|]. cbn [throw_if mbind res_bind] in H.
  destruct (Z.ltb_spec (LSN.offset (_chkpt_start_lsn s)) (end_offset x)) as [|H2]; [done|]. cbn [throw_if mbind res_bind] in H.
  destruct (pop_oldest_ok x L s Hi H1 H2) as (D & E & Hi'). rewrite E in H. cbn [mbind res_bind] in H. by eapply IH.
Qed.

Lemma reclaim_ok fuel segno L s s' : disk_inv L s -> reclaim_before fuel segno s = Ok s' -> exists L', disk_inv L' s'.
Proof.
  intros Hi H. unfold reclaim_before in H. destruct (deref _) as [a|]; [|done]. cbn [mbind res_bind] in H.
  destruct (_ <? _); [done|]. cbn [throw_if mbind res_bind] in H. by eapply pop_before_ok.
Qed.
End ops.
