(* ===== verification/LogOps.v ===== *)
(** * Histories of the file manager

    A new segment, the truncation at the end of recovery, and the states that
    the operations of the file manager reach. *)
From stdpp Require Import base numbers list gmap strings.
From Stdlib Require Import ZArith Lia.
From S2P Require Import Prelude FatPtr Bytes LogBlock LogNames Threads LogFile LogOffset LogStart LogOffsetSafe LogDisk.

Local Open Scope Z_scope.

Section ops.
Context `{OS : Os}.

(** ** A new segment, installed with no other thread around *)

#[local] Existing Instance nobody.

Definition descriptor (info : Z) (p : segment_id) (x size : Z) : segment_id :=
  Segment (Z.shiftr info 32) (u32 (segnum p + 1)) x (u64 (x + size))
    (u64 (byte_offset p + u64 (end_offset p - start_offset p))).

Lemma prepare_alone s t x p a s1 t1 :
  active_segment s = Some p -> fst (prepare_new_segment x s t) = Ok (Some a, (s1, t1)) ->
  (s1 = s /\ u32 (nxt_segment_fd s) = u32 (segnum p + 1) \/ _create_nxt_seg_file false s = Ok s1) /\
    a = descriptor (nxt_segment_fd s1) p x (segment_size s1) /\ end_offset p <= u64 (x + MIN_LOG_BLOCK_SIZE) /\
    (forall y, slot s (u32 (segnum p + 1)) = Some y -> segnum y = u32 (segnum p + 1)).
Proof.
  intros Hp H. unfold prepare_new_segment, newest, pbind, load, access, pderef in H.
  cbn [others nobody] in H. unfold _newest_segment in H. rewrite Hp in H. cbn in H.
  destruct (Z.ltb_spec (u64 (x + MIN_LOG_BLOCK_SIZE)) (end_offset p)) as [|Hend]; [done|].
  unfold _prepare_new_segment, pbind, load, access in H. cbn [others nobody fst snd] in H.
  destruct (match slot s _ with Some _ => _ | None => _ end) eqn:Hslot; [done|].
  assert (forall y, slot s (u32 (segnum p + 1)) = Some y -> segnum y = u32 (segnum p + 1)) as Hy.
  { intros y Hy. rewrite Hy in Hslot. by apply negb_false_iff, Z.eqb_eq in Hslot. }
  destruct (Z.ltb_spec (u32 (nxt_segment_fd s)) (u32 (segnum p + 1))) as [Hlt|Hge].
  - destruct (_create_nxt_seg_file false s) as [s2|] eqn:E; [|done]. cbn [mbind res_bind fst snd pret] in H.
    destruct (Z.ltb_spec (u32 (segnum p + 1)) (u32 (nxt_segment_fd s2))); [done|].
    unfold pret in H. cbn [fst] in H. simplify_eq. split_and!; [by right|done|done|done].
  - cbn [pret fst snd] in H. unfold pret in H. destruct (Z.ltb_spec (u32 (segnum p + 1)) (u32 (nxt_segment_fd s))); [done|].
    cbn [fst] in H. simplify_eq. split_and!; [left; split; [done|lia]|done|done|done].
Qed.

Lemma create_alone s t a p s1 t1 :
  active_segment s = Some p -> fst (create_segment a s t) = Ok (true, (s1, t1)) ->
  s1 = set_active (Some a) s /\ segnum a = u32 (segnum p + 1).
Proof.
  intros Hp H. unfold create_segment, newest, pbind, load, access, pderef in H.
  cbn [others nobody] in H. unfold _newest_segment in H. rewrite Hp in H. cbn in H.
  destruct (Z.eqb_spec (segnum a) (u32 (segnum p + 1))) as [Heq|]; [|done].
  unfold cas, access in H. cbn [others nobody] in H. case_bool_decide; [|done]. by injection H as <- <-.
Qed.

(** The sizes and offsets of a new segment stay in the range of file names. *)
Record roomy (s : log_file_mgr) (x : Z) : Prop := {
  rm_start : fits 48 x /\ is_aligned x DEFAULT_ALIGN = true;
  rm_size : MIN_LOG_BLOCK_SIZE <= segment_size s /\ is_aligned (segment_size s) LOG_SEGMENT_ALIGN = true;
  rm_end : fits 48 (x + segment_size s);
  rm_num : forall a, active_segment s = Some a -> fits 32 (segnum a + 2);
}.

Lemma run_snoc f L p a :
  run_of f L -> last L = Some p -> seg_wf a -> segnum a = f + Z.of_nat (length L) ->
  end_offset p <= start_offset a + MIN_LOG_BLOCK_SIZE -> run_of f (L ++ [a]).
Proof.
  intros [H1 H2 H3] Hp Ha Hn He. split.
  - apply Forall_app. split; [done|by apply Forall_singleton].
  - intros i x [Hx|[Hi Hx]]%lookup_app_Some; [by apply H2|].
    apply list_lookup_singleton_Some in Hx as [? <-]. lia.
  - intros i x c Hx [Hc|[Hi Hc]]%lookup_app_Some.
    + rewrite lookup_app_l in Hx by (apply lookup_lt_Some in Hc; lia). by eapply H3.
    + apply list_lookup_singleton_Some in Hc as [? <-]. rewrite lookup_app_l in Hx by lia.
      rewrite last_lookup in Hp. replace (Nat.pred (length L)) with i in Hp by lia. rewrite Hx in Hp. by simplify_eq.
Qed.

(** The newest segment's file has its final name when the next file is ready. *)
Lemma synced_last L s p :
  disk_inv L s -> active_segment s = Some p -> u32 (nxt_segment_fd s) = u32 (segnum p + 1) -> last L = Some p.
Proof.
  intros [Hc (a & Ha & Hor)] Hp Hn. rewrite Hp in Ha. injection Ha as <-. destruct Hor as [|[Hr _]]; [done|exfalso].
  pose proof (ro_num _ _ Hr (length L) p ltac:(by rewrite list_lookup_middle)) as Hnp.
  rewrite (proj1 (dc_nxt _ _ _ Hc)) in Hn.
  rewrite wrap_small in Hn by (apply (sw_num _ (run_elem _ _ p Hr ltac:(set_solver)))). lia.
Qed.

(** The state in which the next segment's file is ready. *)
Lemma ready_inv L s s1 p :
  disk_inv L s -> active_segment s = Some p ->
  s1 = s /\ u32 (nxt_segment_fd s) = u32 (segnum p + 1) \/ _create_nxt_seg_file false s = Ok s1 ->
  exists L1, disk_inv L1 s1 /\ active_segment s1 = Some p /\ segment_size s1 = segment_size s /\ last L1 = Some p /\
    L `prefix_of` L1.
Proof.
  intros Hi Hp [[-> Hn]|E].
  - exists L. split; [done|]. split; [done|]. split; [done|]. split; [|done].
    by eapply synced_last.
  - destruct (sync_ok L s Hi) as (s' & L' & E' & Hi' & Hlast & Hpre & _ & _ & _ & Hact).
    rewrite E in E'. injection E' as <-. exists L'. rewrite Hlast, Hact, Hp. split_and!; try done.
    revert E. unfold _create_nxt_seg_file. destruct (deref _) as [q|]; [|done]. cbn [mbind res_bind].
    destruct (_ =? _); cbn [mbind res_bind]; [|by intros [= <-]].
    destruct (os_renameat _ _ _) as [D|]; [|done]. cbn [mbind res_bind].
    destruct (os_openat_excl _ _) as [[f D']|]; [|done]. cbn [mbind res_bind]. by intros [= <-].
Qed.

Lemma descriptor_wf s x p info :
  roomy s x -> active_segment s = Some p -> 1 <= segnum p -> seg_wf (descriptor info p x (segment_size s)).
Proof.
  intros [Hx [Hs Hs'] He Hn] Hp H1. specialize (Hn p Hp). unfold fits in *.
  assert (u32 (segnum p + 1) = segnum p + 1) as Hu by (apply wrap_small; unfold fits; lia).
  assert (u64 (x + segment_size s) = x + segment_size s) as Hu' by (apply wrap_small; unfold fits; lia).
  split; cbn; rewrite ?Hu, ?Hu'.
  - unfold fits. lia.
  - done.
  - split; [lia|]. split; [done|]. replace (x + segment_size s - x) with (segment_size s) by lia.
    rewrite wrap_small; [done|change MIN_LOG_BLOCK_SIZE with 32 in Hs; unfold fits; lia].
Qed.

Lemma installed_ok L s x p a s1 s2 t1 t2 :
  disk_inv L s -> roomy s x -> active_segment s = Some p ->
  fst (prepare_new_segment x s 0%nat) = Ok (Some a, (s1, t1)) -> fst (create_segment a s1 t1) = Ok (true, (s2, t2)) ->
  exists L', disk_inv L' s2.
Proof.
  intros Hi Hx Hp H1 H2. destruct (prepare_alone _ _ _ _ _ _ _ Hp H1) as (Hor & -> & Hend & Hslot).
  destruct (ready_inv L s s1 p Hi Hp Hor) as (L1 & [Hc1 Ha1] & Hp1 & Hsz & Hlast & [k HL1]).
  destruct (create_alone _ _ _ _ _ _ Hp1 H2) as [-> Hnum].
  pose proof (dc_run _ _ _ Hc1) as Hr1. pose proof (dc_len _ _ _ Hc1) as Hlen1.
  destruct (last_of _ _ Hr1 ltac:(lia)) as (q & Hq & HqL & Hnq). rewrite Hlast in Hq. injection Hq as <-.
  pose proof (sw_num _ (run_elem _ _ _ Hr1 HqL)) as [Hp0 Hpf].
  assert (u32 (segnum p + 1) = segnum p + 1) as Hu by (by apply wrap_small).
  exists L1. split; [by split; try apply Hc1|]. eexists. split; [done|]. right. cbn [oldest_segnum set_active]. split.
  - rewrite Hsz in *. eapply run_snoc; [done|done|by apply descriptor_wf|cbn; lia|].
    cbn. rewrite wrap_small in Hend by (destruct Hx as [[? _] _ _ _]; change MIN_LOG_BLOCK_SIZE with 32; unfold fits in *; lia). done.
  - destruct (decide (length L1 = 16%nat)) as [H16|]; [exfalso|lia].
    pose proof (proj1 Hi) as Hc. pose proof (dc_len _ _ _ Hc). destruct L as [|y L]; [cbn in *; lia|].
    assert (L1 !! 0%nat = Some y) as Hy by (by rewrite HL1). pose proof (ro_num _ _ Hr1 _ _ Hy) as Hny.
    specialize (Hslot y). rewrite Hu in Hslot. assert (segnum y = segnum p + 1); [apply Hslot|lia].
    unfold slot. apply (dc_slot _ _ _ Hc). split; [by left|]. change NUM_LOG_SEGMENTS with 16.
    replace (segnum p + 1) with (segnum y + 1 * 16) by lia. by rewrite Z_mod_plus_full.
Qed.

(** ** Truncation *)

Lemma mark_init L x l : mark_in (L ++ [x]) l -> LSN.offset l < start_offset x -> mark_in L l.
Proof.
  intros [H1 H2 (y & Hy & H3 & H4)] Hlt. split; [done|done|]. exists y. split; [|done].
  apply elem_of_app in Hy as [|Hy]; [done|]. apply list_elem_of_singleton in Hy as ->. lia.
Qed.

(** Forgetting the newest segment. *)
Lemma pop_newest_ok x L n s :
  disk_core (L ++ [x]) n s -> active_segment s = Some x ->
  LSN.offset (_chkpt_end_lsn s) < start_offset x -> LSN.offset (_durable_lsn s) < start_offset x ->
  exists D s', os_unlinkat (dir s) (file_of x) = Ok D /\ _pop_newest (set_dir D s) = Ok s' /\ disk_core L n s' /\
    active_segment s' = last L /\ oldest_segnum s' = oldest_segnum s.
Proof.
  intros [Hr Hl Hn Hs Hd Hm1 Hm2 Hm3 Ho] Ha Hc1 Hc2.
  pose proof (ro_num _ _ Hr (length L) x ltac:(by rewrite list_lookup_middle)) as Hnx.
  destruct (disk_unlink _ _ _ _ _ _ Hd L x [] eq_refl) as (D & E & HD).
  { rewrite app_nil_r. intros y Hy Ey. assert (y = x) as -> by (eapply run_files; [exact Hr|set_solver|set_solver|done]).
    apply list_elem_of_lookup in Hy as [j Hy]. pose proof (lookup_lt_Some _ _ _ Hy).
    pose proof (ro_num _ _ Hr j x ltac:(by apply lookup_app_l_Some)). lia. }
  rewrite app_nil_r in HD. pose proof (mark_init _ _ _ Hm1 Hc2) as Hd'. pose proof (mark_init _ _ _ Hm3 Hc1) as He'.
  pose proof (offset_mono _ _ Ho). pose proof (mark_init _ _ _ Hm2 ltac:(lia)) as Hs'.
  rewrite length_app in Hl. cbn in Hl. pose proof (run_app_l _ _ _ Hr) as Hr'.
  assert (0 < length L)%nat by (destruct Hd' as [_ _ (y & Hy & _)]; destruct L; [by apply elem_of_nil in Hy|cbn; lia]).
  assert (Hslots : forall i y, partial_alter (fun _ => None) (segnum x mod 16) (segments s) !! i = Some y <-> y ∈ L /\ i = segnum y mod 16).
  { intros i y. destruct (decide (i = segnum x mod 16)) as [->|Hi].
    - rewrite lookup_partial_alter_eq. split; [done|]. intros [Hy Ey]. exfalso.
      apply list_elem_of_lookup in Hy as [j Hy]. pose proof (lookup_lt_Some _ _ _ Hy).
      rewrite (ro_num _ _ Hr' _ _ Hy), Hnx in Ey. symmetry in Ey. revert Ey. apply mod16_ne. lia.
    - rewrite lookup_partial_alter_ne by done. rewrite (Hs i y), elem_of_app. split; [|naive_solver].
      intros [[Hy|Hy] Ey]; [done|]. apply list_elem_of_singleton in Hy as ->. done. }
  destruct (last_of _ _ Hr' ltac:(lia)) as (p & Hp & HpL & Hnp).
  exists D. eexists. split; [done|]. unfold _pop_newest, _newest_segment. cbn [active_segment set_dir]. rewrite Ha.
  cbn [deref mbind res_bind]. split; [done|]. split; [by split; try done; cbn; lia|]. split; [|done].
  cbn. unfold slot. cbn. change NUM_LOG_SEGMENTS with 16. rewrite Hp. apply Hslots. split; [done|].
  rewrite wrap_small; [f_equal; lia|]. destruct (sw_num _ (run_elem _ _ x Hr ltac:(set_solver))). unfold fits in *. lia.
Qed.

Lemma pop_after_ok fuel segno n : forall L s sid s',
  disk_core L n s -> active_segment s = last L -> pop_after fuel segno s = Ok (sid, s') ->
  exists L', disk_core L' n s' /\ active_segment s' = Some sid /\ last L' = Some sid /\ segnum sid <= segno /\
    (L' = L /\ s' = s \/ segnum sid = segno) /\ oldest_segnum s' = oldest_segnum s /\ (length L' <= length L)%nat.
Proof.
  induction fuel as [|fuel IH]; intros L s sid s' Hc Ha H; [done|]. cbn [pop_after] in H.
  pose proof (dc_run _ _ _ Hc) as Hr. pose proof (dc_len _ _ _ Hc).
  destruct (last_of _ _ Hr ltac:(lia)) as (p & Hp & HpL & Hnp).
  unfold _newest_segment in H. rewrite Ha, Hp in H. cbn [deref mbind res_bind] in H.
  destruct (Z.ltb_spec segno (segnum p)) as [Hlt|Hge].
  - destruct (Z.leb_spec (start_offset p) (LSN.offset (_chkpt_end_lsn s))) as [|H1]; [done|]. cbn [throw_if mbind res_bind] in H.
    destruct (Z.leb_spec (start_offset p) (LSN.offset (_durable_lsn s))) as [|H2]; [done|]. cbn [throw_if mbind res_bind] in H.
    apply last_Some in Hp as [L0 ->].
    destruct (pop_newest_ok p L0 n s Hc ltac:(by rewrite Ha, last_snoc) H1 H2) as (D & s1 & E & E1 & Hc1 & Ha1 & Ho1).
    rewrite E in H. cbn [mbind res_bind] in H. rewrite E1 in H. cbn [mbind res_bind] in H.
    destruct (IH _ _ _ _ Hc1 Ha1 H) as (L' & Hc' & Ha' & Hl' & Hle & Hor & Ho' & Hll). exists L'.
    rewrite Ho1 in Ho'. rewrite length_app in *. cbn in *. split_and!; try done; [|lia]. right. destruct Hor as [[-> ->]|]; [|done].
    destruct (last_of _ _ (dc_run _ _ _ Hc1)) as (q & Hq & _ & Hnq); [apply (dc_len _ _ _ Hc1)|].
    rewrite Hq in Hl'. injection Hl' as ->. lia.
  - injection H as <- <-. exists L. rewrite Ha. split_and!; try done. by left.
Qed.

Lemma truncate_ok fuel segno new_end L s s' :
  disk_inv L s -> last L = active_segment s -> fits 32 (segno + 1) -> fits 32 segno ->
  truncate_after fuel segno new_end s = Ok s' -> exists L', disk_inv L' s'.
Proof.
  intros [Hc Ha] Hlast Hf Hf' H. unfold truncate_after in H. destruct (deref (_oldest_segment s)) as [old|]; [|done].
  cbn [mbind res_bind] in H. destruct (segno <? segnum old); [done|]. cbn [throw_if mbind res_bind] in H.
  destruct (pop_after fuel segno s) as [[sid s1]|] eqn:Hpop; [|done]. cbn [mbind res_bind] in H.
  destruct (pop_after_ok _ _ _ _ _ _ _ Hc (eq_sym Hlast) Hpop) as (L1 & Hc1 & Ha1 & Hl1 & Hle & Hor & Hold & Hll).
  destruct (last_of _ _ (dc_run _ _ _ Hc1)) as (q & Hq & HqL & Hnq); [apply (dc_len _ _ _ Hc1)|].
  rewrite Hq in Hl1. injection Hl1 as ->. pose proof (last_of _ _ (dc_run _ _ _ Hc)) as Hlo.
  assert (Hend : forall s2, disk_inv L1 s2 -> (throw_if (new_end <? start_offset sid) log_file_error ;;
      throw_if (end_offset sid <? new_end) log_file_error ;;
      Ok (set_dir (os_truncateat (dir s2) (file_of sid) (new_end - start_offset sid)) s2)) = Ok s' -> exists L', disk_inv L' s').
  { intros s2 [Hc2 Ha2] E. destruct (new_end <? start_offset sid); [done|]. cbn [throw_if mbind res_bind] in E.
    destruct (end_offset sid <? new_end); [done|]. cbn [throw_if mbind res_bind] in E. injection E as <-. exists L1. split; [|exact Ha2].
    destruct Hc2 as [? ? ? ? Hd2 ? ? ? ?]. split; try done. by apply disk_resize. }
  rewrite (wrap_small 32 (segno + 1)) in H by done. destruct (dc_nxt _ _ _ Hc1) as [Hn1 Hfn]. rewrite Hn1 in H.
  destruct (Z.ltb_spec (segno + 1) (oldest_segnum s + Z.of_nat (length L))) as [Hlt|Hge].
  - destruct Hor as [[-> ->]|Hsid]; [lia|].
    destruct (disk_renext _ _ _ _ _ _ (dc_disk _ _ _ Hc1) (segno + 1) Hfn Hf) as (D1 & D' & E1 & E2 & HD).
    rewrite E1 in H. cbn [mbind res_bind] in H. unfold _create_nxt_seg_file in H. cbn [mbind res_bind nxt_segment_fd set_nxt dir set_dir] in H.
    rewrite (wrap_small 32 segno), (wrap_small 32 (segno + 1)) in H by done. rewrite E2 in H. cbn [mbind res_bind] in H.
    eapply Hend; [|exact H]. split; [|exists sid; split; [done|by left]].
    destruct Hc1 as [? ? ? ? ? ? ? ? ?]. replace (oldest_segnum _ + _) with (segno + 1) by (cbn; lia).
    split; cbn; try done. split; [by apply u32_pack|done].
  - cbn [mbind res_bind] in H. eapply Hend; [|exact H]. split; [|exists sid; split; [done|by left]].
    rewrite Hold in *. replace (oldest_segnum s + Z.of_nat (length L1)) with (oldest_segnum s + Z.of_nat (length L)); [done|].
    destruct Hor as [[-> ->]|]; [done|]. lia.
Qed.

(** ** Histories *)

(** The operations on a log that is in use. *)
Inductive log_op : log_file_mgr -> log_file_mgr -> Prop :=
| op_durable s l s' : points_into s l -> update_durable_mark l s = Ok s' -> log_op s s'
| op_chkpt s a e s' : points_into s a -> points_into s e -> LSN.ltb a e = true -> update_chkpt_mark a e s = Ok s' -> log_op s s'
| op_open s sid fd s' : open_for_write sid s = Ok (fd, s') -> log_op s s'
| op_install s x p a s1 t1 s2 t2 :
    roomy s x -> active_segment s = Some p -> fst (prepare_new_segment x s 0%nat) = Ok (Some a, (s1, t1)) ->
    fst (create_segment a s1 t1) = Ok (true, (s2, t2)) -> log_op s s2
| op_reclaim s fuel segno s' : reclaim_before fuel segno s = Ok s' -> log_op s s'
| op_truncate s p fuel segno new_end s' :
    active_segment s = Some p -> u32 (nxt_segment_fd s) = u32 (segnum p + 1) -> fits 32 segno -> fits 32 (segno + 1) ->
    truncate_after fuel segno new_end s = Ok s' -> log_op s s'
| op_size s size : log_op s (set_segment_size size s).

Lemma op_inv s s' : log_op s s' -> (exists L, disk_inv L s) -> exists L, disk_inv L s'.
Proof.
  intros H [L Hi]. destruct H as [s l s' Hl H|s a e s' Ha He Hlt H|s sid fd s' H|s x p a s1 t1 s2 t2 Hx Hp H1 H2|s fuel segno s' H|
    s p fuel segno new_end s' Hp Hsync Hf Hf' H|s size].
  - by eapply durable_ok.
  - by eapply (chkpt_ok _ _ a e).
  - unfold open_for_write in H. destruct (sync_ok L s Hi) as (s1 & L' & E & Hi' & _). rewrite E in H. cbn [mbind res_bind] in H.
    destruct (os_openat _ _); [|done]. cbn [mbind res_bind] in H. injection H as _ <-. by exists L'.
  - by eapply installed_ok.
  - by eapply reclaim_ok.
  - eapply truncate_ok; [exact Hi| |done|done|exact H]. rewrite Hp. by eapply synced_last.
  - exists L. destruct Hi as [[? ? ? ? ? ? ? ? ?] Ha]. by split.
Qed.

Definition log_ops : log_file_mgr -> log_file_mgr -> Prop := rtc log_op.

Lemma ops_inv s s' : log_ops s s' -> (exists L, disk_inv L s) -> exists L, disk_inv L s'.
Proof. induction 1 as [|s s1 s2 H _ IH]; [done|]. intros Hi. by eapply IH, op_inv. Qed.
End ops.
