(* ===== verification/LogRestart.v ===== *)
(** * Restart

    A log that was stopped is found again: the constructor reads from the file
    names the segments, the marks and, if it is there, the next segment's
    file. *)
From stdpp Require Import base numbers list gmap strings sorting.
From Stdlib Require Import ZArith Lia Ascii.
From S2P Require Import Prelude FatPtr Bytes Adler LogBlock LogNames Threads LogFile LogOffset LogStart LogOffsetSafe LogDisk LogOps.

Local Open Scope Z_scope.

(** A segment as the constructor finds it. *)
Definition reopen `{OS : Os} (D : directory) (x : segment_id) : segment_id :=
  Segment (os_fd D (file_of x)) (segnum x) (start_offset x) (end_offset x) 0.

(** ** One name *)

Section scan.
Context `{OS : Os} (D : directory) (L : list segment_id) (d cs ce : LSN.t) (n : Z).
(** The next segment's file may be missing. *)
Hypothesis HD : forall f, f ∈ log_names L d cs ce n -> f <> nxt_seg_file_name n -> is_Some (D !! f).
Hypothesis HL : Forall seg_wf L.
Hypothesis Hd : fits 64 (LSN._val d) /\ is_aligned (LSN.offset d) DEFAULT_ALIGN = true.
Hypothesis Hcs : fits 64 (LSN._val cs) /\ is_aligned (LSN.offset cs) DEFAULT_ALIGN = true.
Hypothesis Hce : fits 64 (LSN._val ce) /\ is_aligned (LSN.offset ce) DEFAULT_ALIGN = true.
Hypothesis Hlt : LSN.ltb cs ce = true.
Hypothesis Hn : fits 32 n.

(** Names that the scan passes over. *)
Definition skipped (f : fname) : Prop := head f = Some "."%char \/ head f = Some "o"%char.

(** The segment that a name stands for. *)
Definition segment_of (f : fname) : option segment_id :=
  match head f, sscanf (SEGMENT_FILE_NAME_FMT ++ [Chr]) f with
  | Some "l"%char, [g; a; e] => Some (Segment (os_fd D f) g a e 0)
  | _, _ => None
  end.

Lemma segment_of_file x : seg_wf x -> segment_of (file_of x) = Some (reopen D x).
Proof.
  intros [[? ?] [? _] (_ & ? & _)]. unfold segment_of, file_of. rewrite head_segment, segment_name_read; [done| |done|done].
  unfold fits in *. lia.
Qed.

Lemma segment_of_other f : head f <> Some "l"%char -> segment_of f = None.
Proof.
  intros H. unfold segment_of. destruct (head f) as [[[] [] [] [] [] [] [] []]|]; try done.
Qed.

Lemma scan_file x c : x ∈ L ->
  scan_name D (file_of x) c =
  Ok (Scan (durable_found c) (chkpt_found c) (nxt_seg_found c) (sc_durable c) (sc_start c) (sc_end c) (sc_nxt c) (tmp c ++ [reopen D x])).
Proof.
  intros Hx. pose proof (proj1 (Forall_forall _ _) HL x Hx) as [[? ?] [Hs Hsa] (_ & He & Hea)].
  unfold scan_name, scan_segment, file_of. rewrite head_segment, segment_name_read;
    [|unfold fits in *; lia|done|done].
  rewrite Hsa. cbn [negb throw_if mbind res_bind]. rewrite Hea. cbn [negb throw_if mbind res_bind].
  unfold os_openat. destruct (HD (file_of x)) as [b Hb]; [rewrite elem_names; left; by exists x|auto with names|].
  unfold file_of in Hb. by rewrite Hb.
Qed.

Lemma scan_dmark c : durable_found c = false ->
  scan_name D (dmark_file_name d) c =
  Ok (Scan true (chkpt_found c) (nxt_seg_found c) d (sc_start c) (sc_end c) (sc_nxt c) (tmp c)).
Proof.
  intros Hc. destruct Hd as [Hf Ha]. unfold scan_name, scan_durable. rewrite head_dmark, dmark_name_read by done.
  rewrite Hc, lsn_eta. cbn [negb throw_if mbind res_bind]. by rewrite Ha.
Qed.

Lemma scan_cmark c : chkpt_found c = false ->
  scan_name D (cmark_file_name cs ce) c =
  Ok (Scan (durable_found c) true (nxt_seg_found c) (sc_durable c) cs ce (sc_nxt c) (tmp c)).
Proof.
  intros Hc. destruct Hcs as [Hf Ha], Hce as [Hf' Ha']. unfold scan_name, scan_chkpt. rewrite head_cmark, cmark_name_read by done.
  rewrite Hc, !lsn_eta, Hlt. cbn [negb throw_if mbind res_bind]. rewrite Ha. cbn [negb throw_if mbind res_bind]. by rewrite Ha'.
Qed.

Definition nxt_fd : Z := pack_fd (os_fd D (nxt_seg_file_name n)) n.

Lemma scan_next c : nxt_seg_found c = false -> is_Some (D !! nxt_seg_file_name n) ->
  scan_name D (nxt_seg_file_name n) c =
  Ok (Scan (durable_found c) (chkpt_found c) true (sc_durable c) (sc_start c) (sc_end c) nxt_fd (tmp c)).
Proof.
  intros Hc [b Hb]. unfold scan_name, scan_nxt. rewrite head_nxt, nxt_name_read by done. rewrite Hc. cbn [throw_if mbind res_bind].
  unfold os_openat. by rewrite Hb.
Qed.

Lemma scan_skipped f c : skipped f -> scan_name D f c = Ok c.
Proof. unfold scan_name. by intros [-> | ->]. Qed.

(** ** All names *)

(** The scan after the names of [l]. *)
Definition scanned (l : list fname) (c : scan) : scan :=
  let has f := bool_decide (f ∈ l) in
  Scan (durable_found c || has (dmark_file_name d)) (chkpt_found c || has (cmark_file_name cs ce))
    (nxt_seg_found c || has (nxt_seg_file_name n))
    (if has (dmark_file_name d) then d else sc_durable c)
    (if has (cmark_file_name cs ce) then cs else sc_start c) (if has (cmark_file_name cs ce) then ce else sc_end c)
    (if has (nxt_seg_file_name n) then nxt_fd else sc_nxt c)
    (tmp c ++ omap segment_of l).

Lemma has_ne (g f : fname) (l : list fname) : g <> f -> bool_decide (g ∈ f :: l) = bool_decide (g ∈ l).
Proof. intros H. apply bool_decide_ext. rewrite elem_of_cons. naive_solver. Qed.

Lemma has_eq (f : fname) (l : list fname) : bool_decide (f ∈ f :: l) = true.
Proof. apply bool_decide_eq_true. by left. Qed.

Lemma has_not (f : fname) (l : list fname) : f ∉ l -> bool_decide (f ∈ l) = false.
Proof. apply bool_decide_eq_false_2. Qed.

Lemma skipped_ne f g : skipped f -> head g = Some "l"%char \/ head g = Some "d"%char \/ head g = Some "c"%char \/ head g = Some "n"%char -> g <> f.
Proof. intros [H|H] [G|[G|[G|G]]] ->; rewrite H in G; discriminate G. Qed.

(** What the scan has found so far does not come again. *)
Definition fresh (c : scan) (l : list fname) : Prop :=
  (durable_found c = true -> dmark_file_name d ∉ l) /\ (chkpt_found c = true -> cmark_file_name cs ce ∉ l) /\
  (nxt_seg_found c = true -> nxt_seg_file_name n ∉ l).

Lemma scan_step f l c :
  skipped f \/ f ∈ log_names L d cs ce n -> (f = nxt_seg_file_name n -> is_Some (D !! f)) -> f ∉ l -> fresh c (f :: l) ->
  exists c', scan_name D f c = Ok c' /\ fresh c' l /\ scanned l c' = scanned (f :: l) c.
Proof.
  intros Hf Hx Hnl (F1 & F2 & F3). destruct Hf as [Hs|Hf]; [|apply elem_names in Hf as [(x & HxL & ->)|[->|[->| ->]]]].
  - exists c. split; [by apply scan_skipped|]. split; [unfold fresh in *; set_solver|]. unfold scanned.
    rewrite !has_ne by (eapply skipped_ne; [done|]; rewrite ?head_dmark, ?head_cmark, ?head_nxt; auto).
    cbn [omap list_omap]. rewrite segment_of_other; [done|]. by destruct Hs as [-> | ->].
  - eexists. split; [by apply scan_file|]. split; [unfold fresh; cbn; set_solver|]. unfold scanned. cbn [durable_found chkpt_found nxt_seg_found sc_durable sc_start sc_end sc_nxt tmp].
    rewrite !has_ne by auto with names. cbn [omap list_omap]. rewrite segment_of_file by (by apply (proj1 (Forall_forall _ _) HL)).
    by rewrite <- app_assoc.
  - assert (durable_found c = false) as Hc by (destruct (durable_found c); [exfalso; apply F1; [done|by left]|done]).
    eexists. split; [by apply scan_dmark|]. split; [unfold fresh; cbn; set_solver|]. unfold scanned. cbn [durable_found chkpt_found nxt_seg_found sc_durable sc_start sc_end sc_nxt tmp].
    rewrite has_eq, (has_ne (cmark_file_name _ _)), (has_ne (nxt_seg_file_name _)) by auto with names. cbn [omap list_omap].
    rewrite Hc, has_not by done. rewrite segment_of_other; [done|by rewrite head_dmark].
  - assert (chkpt_found c = false) as Hc by (destruct (chkpt_found c); [exfalso; apply F2; [done|by left]|done]).
    eexists. split; [by apply scan_cmark|]. split; [unfold fresh; cbn; set_solver|]. unfold scanned. cbn [durable_found chkpt_found nxt_seg_found sc_durable sc_start sc_end sc_nxt tmp].
    rewrite has_eq, (has_ne (dmark_file_name _)), (has_ne (nxt_seg_file_name _)) by auto with names. cbn [omap list_omap].
    rewrite Hc, (has_not (cmark_file_name _ _)) by done. rewrite segment_of_other; [done|by rewrite head_cmark].
  - assert (nxt_seg_found c = false) as Hc by (destruct (nxt_seg_found c); [exfalso; apply F3; [done|by left]|done]).
    eexists. split; [by apply scan_next, Hx|]. split; [unfold fresh; cbn; set_solver|]. unfold scanned. cbn [durable_found chkpt_found nxt_seg_found sc_durable sc_start sc_end sc_nxt tmp].
    rewrite has_eq, (has_ne (cmark_file_name _ _)), (has_ne (dmark_file_name _)) by auto with names. cbn [omap list_omap].
    rewrite Hc, (has_not (nxt_seg_file_name _)) by done. rewrite segment_of_other; [done|by rewrite head_nxt].
Qed.

Lemma scan_all_ok l : forall c,
  (forall f, f ∈ l -> skipped f \/ f ∈ log_names L d cs ce n) ->
  (nxt_seg_file_name n ∈ l -> is_Some (D !! nxt_seg_file_name n)) -> NoDup l -> fresh c l ->
  scan_all D l c = Ok (scanned l c).
Proof.
  induction l as [|f l IH]; intros c Hl Hx Hnd Hf.
  - unfold scanned. cbn. rewrite !has_not by apply not_elem_of_nil. rewrite !orb_false_r, app_nil_r. by destruct c.
  - apply NoDup_cons in Hnd as [Hnf Hnd]. cbn [scan_all].
    destruct (scan_step f l c (Hl f ltac:(by left)) ltac:(intros ->; apply Hx; by left) Hnf Hf) as (c' & -> & Hf' & <-). cbn [mbind res_bind].
    apply IH; [|intros Hn'; apply Hx; by right|done|done]. intros g Hg. apply Hl. by right.
Qed.

(** The names, in any order, with or without the next segment's. *)
Definition names_of (nx : bool) : list fname :=
  (file_of <$> L) ++ [dmark_file_name d; cmark_file_name cs ce] ++ (if nx then [nxt_seg_file_name n] else []).

Lemma elem_names_of nx f :
  f ∈ names_of nx <-> f ∈ log_names L d cs ce n /\ (f = nxt_seg_file_name n -> nx = true).
Proof.
  unfold names_of. rewrite elem_names, !elem_of_app, list_elem_of_fmap. split.
  - intros [(x & -> & Hx)|[H|H]].
    + split; [left; by exists x|]. intros E. by apply file_nxt in E.
    + apply elem_of_cons in H as [->|H]; [|apply list_elem_of_singleton in H as ->]; (split; [auto|]); intros E; clash E.
    + destruct nx; [|by apply elem_of_nil in H]. apply list_elem_of_singleton in H as ->. auto.
  - intros [[(x & Hx & ->)|[->|[->| ->]]] Hn']; [left; by exists x|right; left; by left|right; left; right; by left|].
    rewrite Hn' by done. right. right. by left.
Qed.

(** The whole directory. *)
Lemma scan_directory nx skips l c :
  l ≡ₚ skips ++ names_of nx -> (nx = true -> is_Some (D !! nxt_seg_file_name n)) -> Forall skipped skips -> NoDup l ->
  durable_found c = false -> chkpt_found c = false -> nxt_seg_found c = false -> tmp c = [] ->
  exists T, scan_all D l c = Ok (Scan true true nx d cs ce (if nx then nxt_fd else sc_nxt c) T) /\ T ≡ₚ reopen D <$> L.
Proof.
  intros Hp Hx Hsk Hnd H1 H2 H3 H4. rewrite Forall_forall in Hsk.
  assert (nxt_seg_file_name n ∈ l <-> nx = true) as Hnx.
  { rewrite Hp, elem_of_app, elem_names_of, elem_names. split; [|intros ->; right; auto]. intros [Hs|[_ Hs]]; [|by apply Hs].
    exfalso. apply Hsk in Hs as [Hs|Hs]; rewrite head_nxt in Hs; discriminate Hs. }
  exists (omap segment_of l). split.
  - rewrite scan_all_ok; [|intros f; rewrite Hp, elem_of_app, elem_names_of; naive_solver|by rewrite Hnx|done|unfold fresh; by rewrite H1, H2, H3].
    assert (forall f, f ∈ log_names L d cs ce n -> f <> nxt_seg_file_name n -> bool_decide (f ∈ l) = true) as Hin.
    { intros f Hf Hne. apply bool_decide_eq_true. rewrite Hp. apply elem_of_app. right. by apply elem_names_of. }
    assert (bool_decide (nxt_seg_file_name n ∈ l) = nx) as Hb.
    { destruct nx; [apply bool_decide_eq_true; by apply Hnx|apply bool_decide_eq_false; by rewrite Hnx]. }
    unfold scanned. rewrite Hb, !Hin by (rewrite ?elem_names; auto with names). by rewrite H1, H2, H3, H4.
  - rewrite Hp, omap_app. assert (omap segment_of skips = []) as ->.
    { clear Hp. induction skips as [|f sk IH]; [done|]. cbn [omap list_omap]. rewrite segment_of_other; [apply IH; set_solver|].
      destruct (Hsk f ltac:(by left)) as [-> | ->]; done. }
    unfold names_of. rewrite omap_app. assert (omap segment_of ([dmark_file_name d; cmark_file_name cs ce] ++
      (if nx then [nxt_seg_file_name n] else [])) = []) as ->.
    { destruct nx; cbn [app omap list_omap]; by rewrite !segment_of_other by (by rewrite ?head_dmark, ?head_cmark, ?head_nxt). }
    rewrite app_nil_r. cbn. clear HD Hp. induction L as [|x L' IH]; [done|]. apply Forall_cons in HL as [Hx' HL'].
    cbn [fmap list_fmap omap list_omap]. rewrite segment_of_file by done. by f_equiv; apply IH.
Qed.
End scan.

(** ** Sorting *)

Definition before (a c : segment_id) : Prop := segnum a < segnum c.

Lemma insert_sorted_ok x acc :
  StronglySorted before acc -> (forall y, y ∈ acc -> segnum x <> segnum y) ->
  exists R, insert_sorted x acc = Ok R /\ R ≡ₚ x :: acc /\ StronglySorted before R.
Proof.
  induction 1 as [|y acc Hs IH Hy]; intros Hne; cbn [insert_sorted].
  - exists [x]. split; [done|]. split; [done|]. by repeat constructor.
  - unfold ssort. destruct (Z.eqb_spec (segnum x) (segnum y)) as [E|_]; [exfalso; apply (Hne y); [by left|done]|].
    cbn [throw_if mbind res_bind]. destruct (Z.ltb_spec (segnum x) (segnum y)) as [Hlt|Hge].
    + exists (x :: y :: acc). split; [done|]. split; [done|]. constructor; [by constructor|]. constructor; [done|].
      eapply Forall_impl; [exact Hy|]. unfold before. intros z ?. lia.
    + destruct IH as (R & -> & HR & HsR); [intros z Hz; apply Hne; by right|]. cbn [mbind res_bind].
      exists (y :: R). split; [done|]. split; [rewrite HR; by constructor|]. constructor; [done|].
      rewrite HR. constructor; [|done]. pose proof (Hne y ltac:(by left)). unfold before. lia.
Qed.

Lemma sort_segments_perm T : forall acc,
  StronglySorted before acc -> NoDup (segnum <$> T ++ acc) ->
  exists R, sort_segments T acc = Ok R /\ R ≡ₚ T ++ acc /\ StronglySorted before R.
Proof.
  induction T as [|x T IH]; intros acc Hs Hnd; [by exists acc|]. cbn [sort_segments].
  rewrite <- app_comm_cons, fmap_cons in Hnd. apply NoDup_cons in Hnd as [Hx Hnd].
  destruct (insert_sorted_ok x acc Hs) as (R & -> & HR & HsR).
  { intros y Hy E. apply Hx. rewrite E. apply list_elem_of_fmap. exists y. split; [done|]. by apply elem_of_app; right. }
  cbn [mbind res_bind]. destruct (IH R HsR) as (R' & -> & HR' & HsR').
  - rewrite HR, fmap_app, fmap_cons, <- Permutation_middle, <- fmap_app. by apply NoDup_cons.
  - exists R'. split; [done|]. split; [|done]. rewrite HR', HR. by rewrite <- Permutation_middle.
Qed.

Lemma sort_segments_ok T L : StronglySorted before L -> T ≡ₚ L -> sort_segments T [] = Ok L.
Proof.
  intros HL HT. destruct (sort_segments_perm T [] (SSorted_nil _)) as (R & E & HR & HsR).
  - rewrite app_nil_r, HT. clear HT. induction HL as [|x L HL IH Hx]; [apply NoDup_nil_2|]. rewrite fmap_cons. constructor; [|done].
    intros (y & E & Hy)%list_elem_of_fmap. rewrite Forall_forall in Hx. specialize (Hx y Hy). unfold before in Hx. lia.
  - rewrite E. f_equal. rewrite app_nil_r, HT in HR. apply (StronglySorted_unique_strong before); [|done|done|done].
    unfold before. lia.
Qed.

Lemma run_sorted f L : run_of f L -> StronglySorted before L.
Proof.
  revert f. induction L as [|x L IH]; intros f H; [constructor|]. constructor; [by eapply IH, run_tail|].
  apply Forall_forall. intros y [j Hy]%list_elem_of_lookup. unfold before.
  rewrite (ro_num _ _ H 0%nat x eq_refl), (ro_num _ _ H (S j) y Hy). lia.
Qed.

(** ** The array of segments *)

Definition fill (s : log_file_mgr) (l : list segment_id) : log_file_mgr :=
  foldl (fun s sid => set_slot (segnum sid) (Some sid) s) s l.

Lemma fill_other s l : dir (fill s l) = dir s /\ segment_size (fill s l) = segment_size s /\
  active_segment (fill s l) = active_segment s /\ oldest_segnum (fill s l) = oldest_segnum s /\
  nxt_segment_fd (fill s l) = nxt_segment_fd s /\ _durable_lsn (fill s l) = _durable_lsn s /\
  _chkpt_start_lsn (fill s l) = _chkpt_start_lsn s /\ _chkpt_end_lsn (fill s l) = _chkpt_end_lsn s.
Proof.
  revert s. induction l as [|x l IH]; intros s; [done|].
  change (fill s (x :: l)) with (fill (set_slot (segnum x) (Some x) s) l).
  destruct (IH (set_slot (segnum x) (Some x) s)) as (-> & -> & -> & -> & -> & -> & -> & ->).
  done.
Qed.

Lemma fill_slot l : forall s i y,
  (forall a c j k, l !! j = Some a -> l !! k = Some c -> segnum a mod 16 = segnum c mod 16 -> j = k) ->
  segments (fill s l) !! i = Some y <->
  (y ∈ l /\ i = segnum y mod 16) \/ (segments s !! i = Some y /\ forall z, z ∈ l -> segnum z mod 16 <> i).
Proof.
  induction l as [|x l IH]; intros s i y Hinj.
  - cbn. split; [intros H; right; split; [done|]; intros z Hz; by apply elem_of_nil in Hz|].
    intros [[Hy _]|[? _]]; [by apply elem_of_nil in Hy|done].
  - change (fill s (x :: l)) with (fill (set_slot (segnum x) (Some x) s) l).
    rewrite IH by (intros a c j k Ha Hc E; by pose proof (Hinj a c (S j) (S k) Ha Hc E) as [= ?]).
    assert (forall z, z ∈ l -> segnum z mod 16 <> segnum x mod 16) as Hx.
    { intros z [j Hz]%list_elem_of_lookup E. by pose proof (Hinj z x (S j) 0%nat Hz eq_refl E). }
    unfold set_slot. cbn [segments set_segments]. change NUM_LOG_SEGMENTS with 16. setoid_rewrite elem_of_cons.
    destruct (decide (i = segnum x mod 16)) as [->|Hi].
    + rewrite lookup_partial_alter_eq. split; [|naive_solver].
      intros [[Hy E]|[[= <-] _]]; [left; auto|left; auto].
    + rewrite lookup_partial_alter_ne by done. split; [|naive_solver].
      intros [[Hy ->]|[Hy Hz]]; [left; auto|right]. split; [done|]. intros z [->|?]; [congruence|auto].
Qed.

(** ** The constructor *)

Section restart.
Context `{OS : Os}.

Lemma reopen_wf D x : seg_wf x -> seg_wf (reopen D x).
Proof. by intros [? ? ?]. Qed.

Lemma reopen_run D f L : run_of f L -> run_of f (reopen D <$> L).
Proof.
  intros [H1 H2 H3]. split.
  - apply Forall_fmap. eapply Forall_impl; [exact H1|]. intros x. apply reopen_wf.
  - intros i x. rewrite list_lookup_fmap_Some. intros (y & -> & Hy). exact (H2 i y Hy).
  - intros i a c. rewrite !list_lookup_fmap_Some. intros (a' & -> & Ha) (c' & -> & Hc). exact (H3 i a' c' Ha Hc).
Qed.

Lemma reopen_mark D L l : mark_in L l -> mark_in (reopen D <$> L) l.
Proof.
  intros [H1 H2 (x & Hx & H3)]. split; [done|done|]. exists (reopen D x). split; [by apply list_elem_of_fmap; exists x|done].
Qed.

Lemma reopen_disk D D' L d cs ce n : on_disk D L d cs ce n -> on_disk D (reopen D' <$> L) d cs ce n.
Proof.
  intros H f. rewrite (H f), !elem_names. split.
  - intros [(x & Hx & ->)|?]; [left|by right]. exists (reopen D' x). split; [by apply list_elem_of_fmap; exists x|done].
  - intros [(y & (x & -> & Hx)%list_elem_of_fmap & ->)|?]; [left; by exists x|by right].
Qed.

(** What a restart knows: nothing but the directory. *)
Definition booting (D : directory) (s : log_file_mgr) : Prop := dir s = D /\ segments s = ∅.

Lemma end_mono f L x p : run_of f L -> x ∈ L -> last L = Some p -> end_offset x <= end_offset p.
Proof.
  intros Hr [i Hx]%list_elem_of_lookup Hp. rewrite last_lookup in Hp. pose proof (lookup_lt_Some _ _ _ Hx).
  destruct (decide (i = Nat.pred (length L))) as [->|]; [rewrite Hx in Hp; by simplify_eq|].
  pose proof (run_later _ _ i (Nat.pred (length L)) x p Hr ltac:(lia) Hx Hp).
  pose proof (sw_end _ (run_elem _ _ _ Hr (list_elem_of_lookup_2 _ _ _ Hp))). lia.
Qed.

Lemma start_le f L x p : run_of f L -> x ∈ L -> head L = Some p -> start_offset p <= start_offset x.
Proof.
  intros Hr [i Hx]%list_elem_of_lookup Hp. destruct L as [|q L]; [done|]. injection Hp as ->.
  destruct i as [|i]; [by injection Hx as ->|]. pose proof (run_later _ _ 0 (S i) p x Hr ltac:(lia) eq_refl Hx).
  pose proof (sw_end _ (run_elem _ _ p Hr ltac:(by left))). lia.
Qed.

Lemma not_ltb a c : c <= a -> (a <? c) = false.
Proof. by intros ?%Z.ltb_ge. Qed.

Lemma attach_ok f L d cs ce nx nf s :
  run_of f L -> (0 < length L <= 16)%nat -> segments s = ∅ -> (nx = true -> u32 nf = f + Z.of_nat (length L)) ->
  mark_in L d -> mark_in L cs -> mark_in L ce -> nxt_segment_fd s = nf -> _durable_lsn s = d ->
  _chkpt_start_lsn s = cs -> _chkpt_end_lsn s = ce ->
  forall T, T ≡ₚ L -> attach (Scan true true nx d cs ce nf T) s =
    let s' := fill (set_active (last L) (set_oldest f s)) L in
    Ok (if nx then s' else set_nxt (f + Z.of_nat (length L) - 1) s').
Proof.
  intros Hr Hl Hs Hn [_ _ (x1 & M1 & S1 & E1)] [_ _ (x2 & M2 & S2 & E2)] [_ _ (x3 & M3 & S3 & E3)] Hnf Hd Hcs Hce T HT.
  unfold attach. cbn [tmp chkpt_found durable_found nxt_seg_found negb throw_if mbind res_bind].
  rewrite (Permutation_length HT), not_ltb by (change NUM_LOG_SEGMENTS with 16; lia). cbn [throw_if mbind res_bind].
  rewrite (sort_segments_ok T L) by (done || by eapply run_sorted). cbn [mbind res_bind].
  destruct (last_of _ _ Hr ltac:(lia)) as (p & Hp & HpL & Hnp). destruct (head L) as [q|] eqn:Hq; [|by destruct L].
  pose proof (start_le _ _ _ _ Hr M1 Hq). pose proof (start_le _ _ _ _ Hr M2 Hq).
  pose proof (end_mono _ _ _ _ Hr M1 Hp). pose proof (end_mono _ _ _ _ Hr M3 Hp).
  assert (segnum q = f) as Hnq by (destruct L; [done|]; injection Hq as ->; rewrite (ro_num _ _ Hr 0%nat q eq_refl); lia).
  cbn [deref mbind res_bind]. rewrite Hp. cbn [deref mbind res_bind]. rewrite Hnp, Hnq.
  replace (f + Z.of_nat (length L) - 1 - f) with (Z.of_nat (length L) - 1) by lia.
  rewrite (wrap_small 32 (Z.of_nat (length L) - 1)) by (unfold fits; lia).
  rewrite Z.eqb_refl. cbn [negb throw_if mbind res_bind].
  change (foldl _ ?a ?l) with (fill a l). pose proof (fill_other (set_active (Some p) (set_oldest f s)) L) as (_ & _ & _ & _ & Hf1 & Hf2 & Hf3 & Hf4).
  cbv zeta. rewrite Hf1, Hf2, Hf3, Hf4. cbn [nxt_segment_fd _durable_lsn _chkpt_start_lsn _chkpt_end_lsn set_active set_oldest].
  rewrite Hnf, Hd, Hcs, Hce. change MIN_LOG_BLOCK_SIZE with 32 in *.
  do 4 (rewrite not_ltb by lia; cbn [throw_if mbind res_bind]).
  destruct nx; [|done].
  rewrite Hn, wrap_small by (done || pose proof (sw_num _ (run_elem _ _ _ Hr HpL)); unfold fits in *; lia).
  replace (f + Z.of_nat (length L) - 1 + 1) with (f + Z.of_nat (length L)) by lia. by rewrite Z.eqb_refl.
Qed.

(** Two segments of a log do not share a slot. *)
Lemma slots_apart f L a c j k : run_of f L -> (length L <= 16)%nat ->
  L !! j = Some a -> L !! k = Some c -> segnum a mod 16 = segnum c mod 16 -> j = k.
Proof.
  intros Hr Hl Ha Hc E. pose proof (lookup_lt_Some _ _ _ Ha). pose proof (lookup_lt_Some _ _ _ Hc).
  rewrite (ro_num _ _ Hr _ _ Ha), (ro_num _ _ Hr _ _ Hc) in E. apply mod16_eq in E; lia.
Qed.

(** The state after a restart from [D], which has the files of [s0], or all but
    the next segment's. *)
Definition restarted (D : directory) (nx : bool) (s0 s' : log_file_mgr) (L : list segment_id) : Prop :=
  dir s' = D /\ segments s' = reopen D <$> segments s0 /\ oldest_segnum s' = oldest_segnum s0 /\
  active_segment s' = reopen D <$> last L /\
  u32 (nxt_segment_fd s') = (if nx then u32 (nxt_segment_fd s0) else u32 (nxt_segment_fd s0) - 1) /\
  _durable_lsn s' = _durable_lsn s0 /\ _chkpt_start_lsn s' = _chkpt_start_lsn s0 /\ _chkpt_end_lsn s' = _chkpt_end_lsn s0.

Lemma restarted_inv s0 s' L n :
  disk_core L n s0 -> n = oldest_segnum s0 + Z.of_nat (length L) -> restarted (dir s0) true s0 s' L -> disk_inv (reopen (dir s0) <$> L) s'.
Proof.
  intros [Hr Hl Hn Hs Hd M1 M2 M3 Ho] En (E1 & E2 & E3 & E4 & E5 & E6 & E7 & E8). split.
  - rewrite length_fmap. split; rewrite ?E1, ?E2, ?E3, ?E5, ?E6, ?E7, ?E8, ?length_fmap, <- ?En; try done.
    + by apply reopen_run.
    + intros i y. rewrite lookup_fmap_Some, list_elem_of_fmap. split.
      * intros (x & <- & [Hx ->]%Hs). split; [by exists x|done].
      * intros [(x & -> & Hx) ->]. exists x. split; [done|]. apply Hs. done.
    + by apply reopen_disk.
    + by apply reopen_mark.
    + by apply reopen_mark.
    + by apply reopen_mark.
  - destruct (last_of _ _ Hr ltac:(lia)) as (p & Hp & _). exists (reopen (dir s0) p). rewrite E4, Hp, fmap_last, Hp. auto.
Qed.

(** From the names of a log, in any order. *)
Lemma restart_ok mb nx skips names m b L n s0 D s :
  disk_core L n s0 -> n = oldest_segnum s0 + Z.of_nat (length L) ->
  (forall f, is_Some (D !! f) <-> is_Some (dir s0 !! f) /\ (f = nxt_seg_file_name n -> nx = true)) ->
  dir s = D -> segments s = ∅ ->
  names ≡ₚ skips ++ names_of L (_durable_lsn s0) (_chkpt_start_lsn s0) (_chkpt_end_lsn s0) n nx ->
  Forall skipped skips -> NoDup names ->
  exists s', sm_log_file_mgr mb names m b s = Ok (s', true) /\ restarted D nx s0 s' L.
Proof.
  intros Hc En HD Hdir Hseg Hp Hsk Hnd. pose proof Hc as [Hr Hl [Hn Hfn] Hs Hd M1 M2 M3 Ho].
  pose proof M1 as [F1 A1 _]. pose proof M2 as [F2 A2 _]. pose proof M3 as [F3 A3 _]. unfold sm_log_file_mgr.
  set (s1 := set_segment_size (u64 (mb * MB)) s).
  set (c := Scan false false false (_durable_lsn s1) (_chkpt_start_lsn s1) (_chkpt_end_lsn s1) (nxt_segment_fd s1) []).
  assert (forall f, f ∈ log_names L (_durable_lsn s0) (_chkpt_start_lsn s0) (_chkpt_end_lsn s0) n ->
    (f = nxt_seg_file_name n -> nx = true) -> is_Some (D !! f)) as HD'.
  { intros f Hf Hx. apply HD. split; [by apply Hd|done]. }
  destruct (scan_directory D L _ _ _ _ (fun f Hf Hx => HD' f Hf (fun E => match Hx E with end)) (ro_wf _ _ Hr)
    (conj F1 A1) (conj F2 A2) (conj F3 A3) Ho Hfn nx skips names
    c Hp ltac:(intros ->; apply HD'; [rewrite elem_names; auto|done]) Hsk Hnd eq_refl eq_refl eq_refl eq_refl) as (T & E & HT).
  change (dir s1) with (dir s). rewrite Hdir, E. cbn [mbind res_bind tmp sc_nxt sc_durable sc_start sc_end].
  assert (T <> []) as HTn by (intros ->; apply Permutation_length in HT; rewrite length_fmap in HT; cbn in HT; lia).
  set (nf := if nx then nxt_fd D n else sc_nxt c) in *. set (s2 := set_nxt nf _).
  assert (nx = true -> u32 nf = n) as Hnf by (intros ->; apply u32_pack, Hfn).
  rewrite <- (length_fmap (reopen D) L) in Hl.
  pose proof (attach_ok (oldest_segnum s0) (reopen D <$> L) _ _ _ nx nf s2 (reopen_run _ _ _ Hr) Hl Hseg
    ltac:(intros Hx; by rewrite length_fmap, Hnf) (reopen_mark _ _ _ M1) (reopen_mark _ _ _ M2) (reopen_mark _ _ _ M3)
    eq_refl eq_refl eq_refl eq_refl T HT) as Hat.
  destruct T as [|t T]; [done|]. rewrite Hat. cbn [mbind res_bind]. eexists. split; [done|].
  set (s3 := set_active _ _). destruct (fill_other s3 (reopen D <$> L)) as (E1 & _ & E3 & E4 & E5 & E6 & E7 & E8).
  assert (segments (fill s3 (reopen D <$> L)) = reopen D <$> segments s0) as Esg.
  { apply map_eq. intros i. apply option_eq. intros y. rewrite fill_slot.
    2: { intros a' c' j k Ha Hc'. eapply slots_apart; [apply reopen_run, Hr|apply Hl|done|done]. }
    change (segments s3) with (segments s). rewrite Hseg, lookup_fmap_Some, list_elem_of_fmap. split.
    + intros [[(x & -> & Hx) ->]|[Hy _]]; [|by rewrite lookup_empty in Hy]. exists x. split; [done|]. by apply Hs.
    + intros (x & <- & [Hx ->]%Hs). left. split; [by exists x|done]. }
  destruct nx; unfold restarted; cbn [dir segments oldest_segnum active_segment nxt_segment_fd _durable_lsn _chkpt_start_lsn
    _chkpt_end_lsn set_nxt]; rewrite Esg, E1, E3, E4, E6, E7, E8; split_and!; try done; try (cbn; apply fmap_last).
  - rewrite E5. cbn. by rewrite Hn, Hnf.
  - rewrite length_fmap, Hn, wrap_small; [lia|]. pose proof (last_of _ _ Hr ltac:(rewrite length_fmap in Hl; lia)) as (p & _ & HpL & Hnp).
    pose proof (sw_num _ (run_elem _ _ _ Hr HpL)). unfold fits in *. lia.
Qed.
End restart.
