(* ===== verification/LogLife.v ===== *)
(** * The life of a log

    From an empty directory, through the operations of the file manager, to a
    restart that finds the log again. *)
From stdpp Require Import base numbers list gmap strings.
From Stdlib Require Import ZArith Lia Ascii.
From S2P Require Import Prelude FatPtr Bytes Adler LogBlock LogNames Threads LogFile LogOffset LogStart LogOffsetSafe LogDisk LogOps LogRestart.

Local Open Scope Z_scope.

(** ** The first block *)

Definition CHKPT_START : LSN.t := LSN.mk 0x1ff.
Definition CHKPT_END : LSN.t := LSN.mk 0x2001ff.
Definition DURABLE : LSN.t := LSN.mk 0x4001ff.

Lemma checksum_ok m b : wf8 m -> exists c, log_block.full_checksum m b = Ok c.
Proof.
  intros Hm. unfold log_block.full_checksum. rewrite adler32_ok; [by eexists|by vm_compute|by apply bytes_get].
Qed.

Lemma wf8_skip m b l n : wf8 m -> wf8 (fill_skip_block m b l n).
Proof.
  intros Hm. unfold fill_skip_block, fill_skip_record, log_record.set_next_lsn, log_record.set_payload_end,
    log_record.set_size_align_bits, log_record.set_size_code, log_record.set_type, log_block.set_lsn, log_block.set_nrec.
  auto 10 with bytes.
Qed.

(** The fields of a skip block. *)
Lemma skip_block_fields m b l n :
  let m' := fill_skip_block m b l n in
  log_block.nrec m' b = 0 /\ log_block.lsn m' b = LSN.mk (u64 (LSN._val l)) /\
  log_record.size_code m' (log_block.records b 0) = 255 /\
  log_record.next_lsn m' (log_block.records b 0) = LSN.mk (u64 (LSN._val (LSN.advance_within_segment l (log_block.size 0 n)))).
Proof.
  unfold fill_skip_block, fill_skip_record, log_record.set_next_lsn, log_record.set_payload_end,
    log_record.set_size_align_bits, log_record.set_size_code, log_record.set_type, log_block.set_lsn, log_block.set_nrec,
    log_block.nrec, log_block.lsn, log_record.size_code, log_record.next_lsn, log_block.records, log_record.sizeof.
  cbv zeta. rewrite Z.mul_0_r, Z.add_0_r. split_and!; frame; by rewrite rd_wr_same.
Qed.

Lemma first_block_ok m b sid : wf8 m -> segnum sid = 1 ->
  exists m', first_block m b sid = Ok (CHKPT_START, CHKPT_END, m') /\ log_block.next_lsn m' b = DURABLE.
Proof.
  intros Hm Hn. unfold first_block. assert (make_lsn sid 0 = CHKPT_START) as -> by (unfold make_lsn; by rewrite Hn).
  destruct (skip_block_fields m b CHKPT_START MIN_LOG_BLOCK_SIZE) as (H1 & H2 & H3 & H4). cbv zeta in *.
  set (m1 := fill_skip_block m b CHKPT_START MIN_LOG_BLOCK_SIZE) in *.
  assert (wf8 m1) as Hm1 by (by apply wf8_skip).
  assert (log_block.payload m1 b 0 = Ok (b + 32)) as Hp.
  { unfold log_block.payload, log_block.payload_offset, log_block.payload_begin. rewrite H1.
    unfold log_block.records, log_record.sizeof. cbn [Z.leb Z.eqb Z.compare negb throw_if mbind res_bind]. f_equal. lia. }
  assert (log_block.payload_lsn m1 b 0 = Ok CHKPT_END) as Hl.
  { unfold log_block.payload_lsn. rewrite Hp. cbn [mbind res_bind]. rewrite H2, H3. replace (b + 32 - b) with 32 by lia. by vm_compute. }
  rewrite Hp. cbn [mbind res_bind]. rewrite Hl. cbn [mbind res_bind].
  set (m2 := fill_skip_block m1 (b + 32) CHKPT_END 0). assert (wf8 m2) as Hm2 by (by apply wf8_skip).
  destruct (checksum_ok m2 (b + 32) Hm2) as [c2 ->]. cbn [mbind res_bind].
  set (m3 := log_block.set_checksum m2 (b + 32) c2). assert (wf8 m3) as Hm3 by (by apply wf8_wr).
  destruct (checksum_ok m3 b Hm3) as [c ->]. cbn [mbind res_bind]. eexists. split; [done|].
  assert (Hframe : forall k a, b + 4 <= a -> a + Z.of_nat k <= b + 32 -> rd k (log_block.set_checksum m3 b c) a = rd k m1 a).
  { intros k a Ha1 Ha2. unfold m3, m2, log_block.set_checksum, fill_skip_block, fill_skip_record, log_record.set_next_lsn, log_record.set_payload_end,
      log_record.set_size_align_bits, log_record.set_size_code, log_record.set_type, log_block.set_lsn, log_block.set_nrec,
      log_block.records, log_record.sizeof. cbv zeta. by frame. }
  unfold log_block.next_lsn, log_block.nrec. rewrite Hframe by lia. unfold log_block.nrec in H1. rewrite H1.
  unfold log_record.next_lsn in *. rewrite Hframe by (unfold log_block.records, log_record.sizeof; lia). rewrite H4. by vm_compute.
Qed.

Section life.
Context `{OS : Os}.
#[local] Existing Instance nobody.

(** ** A new log *)

Lemma scan_skips D skips c : Forall skipped skips -> scan_all D skips c = Ok c.
Proof. induction 1 as [|f l Hf _ IH]; [done|]. cbn [scan_all]. by rewrite scan_skipped. Qed.

Lemma is_Some_pwrite (D : directory) f buf off g : is_Some (os_pwrite D f buf off !! g) <-> is_Some (D !! g).
Proof.
  unfold os_pwrite. destruct (D !! f) as [c|] eqn:Hf; [|done]. rewrite is_Some_insert. split; [|by right].
  intros [->|]; [by rewrite Hf; eexists|done].
Qed.

(** The first segment. *)
Definition segment1 (mb : Z) (fd : Z) : segment_id := Segment fd 1 0 (mb * 2 ^ 20) 0.

Lemma segment1_wf mb fd : 1 <= mb < 2 ^ 28 -> seg_wf (segment1 mb fd).
Proof.
  intros H. split; cbn; change MIN_LOG_BLOCK_SIZE with 32; unfold fits.
  - lia.
  - done.
  - split; [lia|]. split; [lia|]. rewrite Z.sub_0_r, wrap_small by (unfold fits; lia).
    unfold is_aligned, LOG_SEGMENT_ALIGN. apply Z.eqb_eq. change (1024 - 1) with (2 ^ 10 - 1).
    rewrite land_mask by lia. replace (mb * 2 ^ 20) with (mb * 2 ^ 10 * 2 ^ 10) by lia. apply Z_mod_mult.
Qed.

Lemma size_of_mb mb s : 1 <= mb < 2 ^ 28 -> segment_size (set_segment_size (u64 (mb * MB)) s) = mb * 2 ^ 20.
Proof.
  intros H. cbn. unfold MB. rewrite wrap_small by (unfold fits; lia). unfold LOG_SEGMENT_ALIGN.
  change 1024 with (2 ^ 10). rewrite align_up_pow2 by lia.
  replace (mb * (2 ^ 10 * 2 ^ 10) + 2 ^ 10 - 1) with (1023 + mb * 2 ^ 10 * 2 ^ 10) by lia.
  rewrite Z.div_add by lia. change (1023 / 2 ^ 10) with 0. lia.
Qed.

(** The first segment is prepared and its file renamed. *)
Lemma first_prepared mb s1 :
  1 <= mb < 2 ^ 28 -> segments s1 = ∅ -> u32 (nxt_segment_fd s1) = 1 -> segment_size s1 = mb * 2 ^ 20 ->
  run (_prepare_new_segment 1 0 0) s1 = Ok (Some (segment1 mb (Z.shiftr (nxt_segment_fd s1) 32)), s1).
Proof.
  intros Hmb Hs Hn Hsz. unfold run, _prepare_new_segment, pbind, load, access. cbn [others nobody].
  unfold slot at 1. rewrite Hs, lookup_empty, Hn. cbn. rewrite Hn. cbn. rewrite Hsz.
  unfold segment1. by rewrite wrap_small by (unfold fits; lia).
Qed.

(** Opening the first segment renames its file and prepares the second. *)
Lemma first_opened s sg :
  active_segment s = Some sg -> segnum sg = 1 -> u32 (nxt_segment_fd s) = 1 -> dir s = {[nxt_seg_file_name 1 := []]} ->
  exists fd nf D', open_for_write sg s = Ok (fd, set_nxt nf (set_dir D' (set_slot 1 (Some sg) s))) /\ u32 nf = 2 /\
    forall f, is_Some (D' !! f) <-> f = file_of sg \/ f = nxt_seg_file_name 2.
Proof.
  intros Ha Hn Hx Hd. unfold open_for_write, _create_nxt_seg_file, _newest_segment. rewrite Ha. cbn [deref mbind res_bind].
  rewrite Hx, Hn. cbn [Z.eqb Pos.eqb dir set_slot set_segments]. unfold os_renameat. rewrite Hd, lookup_singleton_eq.
  cbn [mbind res_bind dir set_dir]. change (u32 (1 + 1)) with 2. unfold os_openat_excl.
  assert (nxt_seg_file_name 2 <> nxt_seg_file_name 1) as Hne by (by intros ?%nxt_inj).
  rewrite lookup_insert_ne, lookup_delete_ne, lookup_singleton_ne by auto with names. cbn [mbind res_bind].
  unfold os_openat. cbn [dir set_nxt set_dir]. rewrite lookup_insert_ne, lookup_insert_eq by auto with names.
  cbn [mbind res_bind]. eexists _, _, _. split; [done|]. split; [by apply u32_pack|].
  intros f. rewrite !is_Some_insert, is_Some_delete. split; [|naive_solver].
  intros [->|[->|[Hf [c Hc]]]]; [by right|by left|]. apply lookup_singleton_Some in Hc as [<- _]. done.
Qed.

Lemma first_mark mb fd l :
  1 <= mb < 2 ^ 28 -> fits 64 (LSN._val l) -> is_aligned (LSN.offset l) DEFAULT_ALIGN = true -> 0 <= LSN.offset l <= 64 ->
  mark_in [segment1 mb fd] l.
Proof.
  intros Hmb H1 H2 H3. split; [done|done|]. exists (segment1 mb fd). split; [by apply list_elem_of_singleton|].
  cbn. change MIN_LOG_BLOCK_SIZE with 32. lia.
Qed.

Lemma new_log_ok mb skips m b s :
  1 <= mb < 2 ^ 28 -> dir s = ∅ -> segments s = ∅ -> Forall skipped skips -> wf8 m ->
  exists s', sm_log_file_mgr mb skips m b s = Ok (s', false) /\ exists L, disk_inv L s'.
Proof.
  intros Hmb Hdir Hseg Hsk Hm. unfold sm_log_file_mgr. rewrite scan_skips by done.
  cbn [mbind res_bind tmp chkpt_found durable_found nxt_seg_found orb throw_if sc_durable sc_start sc_end sc_nxt].
  unfold _make_new_log. pose proof (size_of_mb mb s Hmb) as Hsz. set (s1 := set_nxt 0 _).
  assert (dir s1 = ∅) as Hd1 by done. assert (segments s1 = ∅) as Hs1 by done. assert (segment_size s1 = mb * 2 ^ 20) as Hz1 by done.
  unfold _create_nxt_seg_file at 1. cbn [mbind res_bind]. change (u32 (u32 (nxt_segment_fd s1) + 1)) with 1.
  unfold os_openat_excl at 1. rewrite Hd1, lookup_empty. cbn [mbind res_bind].
  set (s2 := set_nxt _ _). assert (u32 (nxt_segment_fd s2) = 1) as Hn2 by (by apply u32_pack).
  rewrite (first_prepared mb s2) by done. cbn [mbind res_bind deref].
  set (fd := Z.shiftr _ 32). set (sg := segment1 mb fd). destruct (first_block_ok m b sg Hm eq_refl) as (m' & -> & Hnext).
  cbn [mbind res_bind]. set (s3 := set_chkpt _ _ _).
  destruct (first_opened s3 sg eq_refl eq_refl Hn2 eq_refl) as (fd' & nf & D' & -> & Hnf & HD'). cbn [mbind res_bind].
  rewrite Hnext. eexists. split; [done|]. exists [sg].
  split; [|exists sg; split; [done|by left]].
  split; cbn [oldest_segnum length nxt_segment_fd segments dir _durable_lsn _chkpt_start_lsn _chkpt_end_lsn set_dir set_durable set_nxt set_slot set_segments ].
  - split; [by apply Forall_singleton, segment1_wf| |].
    + by intros i x [-> <-]%list_lookup_singleton_Some.
    + by intros i x c [-> <-]%list_lookup_singleton_Some Hc.
  - lia.
  - by rewrite Hnf.
  - intros i x. change NUM_LOG_SEGMENTS with 16. change (segments s3) with (segments s). rewrite Hseg, list_elem_of_singleton.
    destruct (decide (i = 1)) as [->|Hi]; [rewrite lookup_partial_alter_eq|rewrite lookup_partial_alter_ne, lookup_empty by done].
    + split; [by intros [= <-]|by intros [-> _]].
    + split; [done|]. intros [-> ->]. done.
  - intros f. unfold os_truncateat. rewrite !is_Some_insert, is_Some_pwrite, HD', elem_names. split; [|].
    + intros [->|[->|[->| ->]]]; [auto|auto| |auto]. left. exists sg. split; [by apply list_elem_of_singleton|done].
    + intros [(x & ->%list_elem_of_singleton & ->)|[->|[->| ->]]]; auto.
  - apply first_mark; [done|by vm_compute|by vm_compute|by vm_compute].
  - apply first_mark; [done|by vm_compute|by vm_compute|by vm_compute].
  - apply first_mark; [done|by vm_compute|by vm_compute|by vm_compute].
  - done.
Qed.

(** ** Restarts *)

(** What reading the directory gives, in any order: its names, and names that
    do not belong to the log. *)
Definition listing (D : directory) (names : list fname) : Prop :=
  exists skips, Forall skipped skips /\ NoDup names /\ names ≡ₚ skips ++ (map_to_list D).*1.

Lemma names_nodup f L d cs ce n : run_of f L -> NoDup (log_names L d cs ce n).
Proof.
  intros Hr. unfold log_names. apply NoDup_app. split_and!.
  - apply NoDup_fmap_2_strong; [intros x y Hx Hy; by eapply run_files|]. apply NoDup_alt. intros i j x Hi Hj.
    pose proof (ro_num _ _ Hr _ _ Hi). pose proof (ro_num _ _ Hr _ _ Hj). lia.
  - intros g (x & -> & Hx)%list_elem_of_fmap. rewrite !elem_of_cons. intros [H|[H|[H|H]]]; [clash H|clash H|clash H|].
    by apply elem_of_nil in H.
  - repeat (apply NoDup_cons; split); [..|apply NoDup_nil_2]; rewrite ?elem_of_cons.
    + intros [H|[H|H]]; [clash H|clash H|by apply elem_of_nil in H].
    + intros [H|H]; [clash H|by apply elem_of_nil in H].
    + apply not_elem_of_nil.
Qed.

Lemma listing_names (D : directory) f L d cs ce n nx :
  (forall g, is_Some (D !! g) <-> g ∈ names_of L d cs ce n nx) -> run_of f L -> (map_to_list D).*1 ≡ₚ names_of L d cs ce n nx.
Proof.
  intros HD Hr. apply NoDup_Permutation; [apply NoDup_fst_map_to_list| |].
  - pose proof (names_nodup f L d cs ce n Hr) as Hnd.
    destruct nx; [exact Hnd|].
    replace (log_names L d cs ce n) with (names_of L d cs ce n false ++ [nxt_seg_file_name n]) in Hnd.
    + by apply NoDup_app in Hnd as [? _].
    + unfold names_of, log_names. cbn [app]. by rewrite <- app_assoc.
  - intros g. rewrite <- (HD g), list_elem_of_fmap. split.
    + intros ([k v] & -> & Hk). apply elem_of_map_to_list in Hk. by eexists.
    + intros [v Hv]. exists (g, v). split; [done|]. by apply elem_of_map_to_list.
Qed.

Lemma restart_found (mb : Z) (nx : bool) (names : list fname) (m : mem8) (b : Z) (L : list segment_id) (s0 : log_file_mgr)
    (D : directory) (s : log_file_mgr) :
  disk_inv L s0 -> (forall f, is_Some (D !! f) <-> is_Some (dir s0 !! f) /\
    (f = nxt_seg_file_name (u32 (nxt_segment_fd s0)) -> nx = true)) ->
  dir s = D -> segments s = ∅ -> listing D names ->
  exists s', sm_log_file_mgr mb names m b s = Ok (s', true) /\ restarted D nx s0 s' L.
Proof.
  intros [Hc Ha] HD Hd Hs (skips & Hsk & Hnd & Hp). rewrite (proj1 (dc_nxt _ _ _ Hc)) in HD.
  rewrite (listing_names D (oldest_segnum s0) L (_durable_lsn s0) (_chkpt_start_lsn s0) (_chkpt_end_lsn s0)
    (oldest_segnum s0 + Z.of_nat (length L)) nx) in Hp;
    [by eapply restart_ok| |apply Hc].
  intros g. by rewrite HD, (dc_disk _ _ _ Hc g), elem_names_of.
Qed.

(** ** Stopping in the middle *)

(** One turn of the loop of [reclaim_before]. *)
Inductive unlinked : log_file_mgr -> log_file_mgr -> Prop :=
| unlinked_oldest s x D :
    _oldest_segment s = Some x -> end_offset x <= LSN.offset (_durable_lsn s) ->
    end_offset x <= LSN.offset (_chkpt_start_lsn s) -> os_unlinkat (dir s) (file_of x) = Ok D ->
    unlinked s (_pop_oldest (set_dir D s)).

Lemma pop_before_unlinks fuel segno : forall s s', pop_before fuel segno s = Ok s' -> rtc unlinked s s'.
Proof.
  induction fuel as [|fuel IH]; intros s s' H; [done|]. cbn [pop_before] in H.
  destruct (_oldest_segment s) as [x|] eqn:Hx; [|done]. cbn [deref mbind res_bind] in H.
  destruct (segnum x <? segno); [|by injection H as <-].
  destruct (Z.ltb_spec (LSN.offset (_durable_lsn s)) (end_offset x)) as [|H1]; [done|]. cbn [throw_if mbind res_bind] in H.
  destruct (Z.ltb_spec (LSN.offset (_chkpt_start_lsn s)) (end_offset x)) as [|H2]; [done|]. cbn [throw_if mbind res_bind] in H.
  destruct (os_unlinkat (dir s) (file_of x)) as [D|] eqn:E; [|done]. cbn [mbind res_bind] in H.
  eapply rtc_l; [by eapply unlinked_oldest|by apply IH].
Qed.

(** The states at whose directories the process can stop, in the middle of a
    mark, an opening, a new segment or a reclaim begun in [s], or before or
    after it: between the renaming of the new segment's file and the creation
    of the next one; after that, before the mark is renamed; and after each
    file that a reclaim deletes. *)
Inductive interrupted (s : log_file_mgr) : log_file_mgr -> Prop :=
| stop_idle : interrupted s s
| stop_renamed p D :
    active_segment s = Some p -> u32 (nxt_segment_fd s) = segnum p ->
    os_renameat (dir s) (nxt_seg_file_name (segnum p)) (file_of p) = Ok D ->
    interrupted s (set_dir D (set_slot (segnum p) (Some p) s))
| stop_synced e : _create_nxt_seg_file false s = Ok e -> interrupted s e
| stop_reclaiming e : rtc unlinked s e -> interrupted s e.

Definition next_file (s : log_file_mgr) : fname := nxt_seg_file_name (u32 (nxt_segment_fd s)).

(** Between the renaming and the creation. *)
Lemma renamed_state L s p D :
  disk_inv L s -> active_segment s = Some p -> u32 (nxt_segment_fd s) = segnum p ->
  os_renameat (dir s) (nxt_seg_file_name (segnum p)) (file_of p) = Ok D ->
  exists s1 L1, disk_inv L1 s1 /\ last L1 = Some p /\
    s1 = set_nxt (nxt_segment_fd s1) (set_dir (dir s1) (set_slot (segnum p) (Some p) s)) /\
    u32 (nxt_segment_fd s1) = segnum p + 1 /\ D !! next_file s = None /\
    (forall f, is_Some (D !! f) <-> is_Some (dir s1 !! f) /\ (f = next_file s1 -> false = true)).
Proof.
  intros Hi Hp Hn HD. destruct (sync_ok L s Hi) as (s1 & L1 & E & Hi1 & Hl1 & _ & _ & _ & _ & Ha1).
  exists s1, L1. rewrite Ha1, Hp in Hl1. split; [done|]. split; [done|].
  unfold _create_nxt_seg_file, _newest_segment in E. rewrite Hp in E. cbn [deref mbind res_bind] in E.
  rewrite Hn, Z.eqb_refl in E. cbn [dir set_slot set_segments] in E. rewrite HD in E. cbn [mbind res_bind dir set_dir] in E.
  assert (fits 32 (segnum p) /\ fits 32 (segnum p + 1)) as [Hf Hf1].
  { destruct Hi as [Hc _]. destruct Hi1 as [Hc1 _]. destruct (dc_nxt _ _ _ Hc) as [H1 H2]. rewrite Hn in H1. rewrite H1. split; [done|].
    destruct (last_of _ _ (dc_run _ _ _ Hc1)) as (q & Hq & HqL & _); [apply (dc_len _ _ _ Hc1)|].
    rewrite Hl1 in Hq. injection Hq as <-. pose proof (sw_num _ (run_elem _ _ _ (dc_run _ _ _ Hc1) HqL)). rewrite <- H1. tauto. }
  rewrite (wrap_small 32 (segnum p + 1)) in E by done. unfold os_openat_excl in E.
  destruct (D !! nxt_seg_file_name (segnum p + 1)) eqn:Hno; [done|]. cbn [mbind res_bind] in E. injection E as <-.
  cbn [nxt_segment_fd set_nxt dir set_dir]. unfold next_file. cbn [nxt_segment_fd set_nxt]. rewrite u32_pack, Hn by done.
  split_and!; [done|done| |].
  - unfold os_renameat in HD. destruct (dir s !! _) as [c|]; [|done]. injection HD as <-.
    rewrite lookup_insert_ne, lookup_delete_eq by auto with names. done.
  - intros f. rewrite is_Some_insert. destruct (decide (f = nxt_seg_file_name (segnum p + 1))) as [->|Hne].
    + rewrite Hno. split; [by intros [? ?]|]. intros [_ H]. by specialize (H eq_refl).
    + split; [intros ?; split; [by right|done]|]. intros [[|?] _]; done.
Qed.

(** What a restart finds after the process stopped at [e]. *)
Definition found_again (e s' : log_file_mgr) : Prop :=
  dir s' = dir e /\ segments s' = reopen (dir e) <$> segments e /\ oldest_segnum s' = oldest_segnum e /\
  _durable_lsn s' = _durable_lsn e /\ _chkpt_start_lsn s' = _chkpt_start_lsn e /\ _chkpt_end_lsn s' = _chkpt_end_lsn e /\
  u32 (nxt_segment_fd s') = u32 (nxt_segment_fd e) /\
  match dir e !! next_file e with
  | Some _ => active_segment s' = reopen (dir e) <$> slot e (u32 (u32 (nxt_segment_fd e) - 1))
  | None => active_segment s' = reopen (dir e) <$> active_segment e /\ _create_nxt_seg_file false s' = Throw os_error
  end.

Lemma unlinked_inv s e : rtc unlinked s e -> (exists L, disk_inv L s) -> exists L, disk_inv L e.
Proof.
  induction 1 as [|s s1 e Hu _ IH]; [done|]. intros [L Hi]. apply IH. clear IH. destruct Hu as [s x D Hx H1 H2 E].
  pose proof (proj1 Hi) as Hc. pose proof (dc_len _ _ _ Hc). destruct L as [|y L]; [cbn in *; lia|].
  assert (_oldest_segment s = Some y) as Hy.
  { unfold _oldest_segment, slot. apply (dc_slot _ _ _ Hc). split; [by left|].
    rewrite (ro_num _ _ (dc_run _ _ _ Hc) 0%nat y eq_refl). by rewrite Z.add_0_r. }
  rewrite Hy in Hx. injection Hx as ->. destruct (pop_oldest_ok x L s Hi H1 H2) as (D' & E' & Hi').
  rewrite E in E'. injection E' as <-. by exists L.
Qed.

(** The newest segment whose file has its final name. *)
Lemma renamed_last L s : disk_inv L s -> last L = slot s (u32 (u32 (nxt_segment_fd s) - 1)).
Proof.
  intros [Hc _]. destruct (last_of _ _ (dc_run _ _ _ Hc)) as (p & Hp & HpL & Hnp); [apply (dc_len _ _ _ Hc)|].
  rewrite Hp. unfold slot. symmetry. apply (dc_slot _ _ _ Hc). split; [done|]. destruct (dc_nxt _ _ _ Hc) as [-> Hf].
  change NUM_LOG_SEGMENTS with 16. f_equal. pose proof (sw_num _ (run_elem _ _ _ (dc_run _ _ _ Hc) HpL)).
  rewrite wrap_small by (unfold fits in *; lia). lia.
Qed.

(** With the next segment's file in place. *)
Lemma restart_complete mb names m b L e s2 :
  disk_inv L e -> dir s2 = dir e -> segments s2 = ∅ -> listing (dir e) names ->
  exists s', sm_log_file_mgr mb names m b s2 = Ok (s', true) /\ found_again e s' /\ disk_inv (reopen (dir e) <$> L) s'.
Proof.
  intros Hi Hd Hs Hl.
  destruct (restart_found mb true names m b L e (dir e) s2 Hi ltac:(intros f; tauto) Hd Hs Hl) as (s' & E & HR).
  exists s'. split; [done|]. split; [|by eapply restarted_inv; [apply Hi|done|]].
  destruct HR as (R1 & R2 & R3 & R4 & R5 & R6 & R7 & R8). unfold found_again.
  destruct (proj2 (dc_disk _ _ _ (proj1 Hi) (next_file e))) as [c ->].
  { unfold next_file. rewrite (proj1 (dc_nxt _ _ _ (proj1 Hi))), elem_names. auto. }
  rewrite <- (renamed_last L e Hi). by split_and!.
Qed.

(** Without it. *)
Lemma restart_incomplete mb names m b L s p D s2 :
  disk_inv L s -> active_segment s = Some p -> u32 (nxt_segment_fd s) = segnum p ->
  os_renameat (dir s) (nxt_seg_file_name (segnum p)) (file_of p) = Ok D ->
  dir s2 = D -> segments s2 = ∅ -> listing D names ->
  exists s', sm_log_file_mgr mb names m b s2 = Ok (s', true) /\
    found_again (set_dir D (set_slot (segnum p) (Some p) s)) s'.
Proof.
  intros Hi Hp Hn HD Hd Hs Hl. destruct (renamed_state L s p D Hi Hp Hn HD) as (s1 & L1 & Hi1 & Hl1 & Es1 & Hn1 & Hno & HD1).
  destruct (restart_found mb false names m b L1 s1 D s2 Hi1 HD1 Hd Hs Hl) as (s' & E & R1 & R2 & R3 & R4 & R5 & R6 & R7 & R8).
  exists s'. split; [done|]. rewrite Es1 in R2, R3, R6, R7, R8. rewrite Hn1 in R5. rewrite Hl1 in R4.
  assert (u32 (nxt_segment_fd s') = segnum p) as R5' by lia.
  unfold found_again. change (next_file (set_dir D (set_slot (segnum p) (Some p) s))) with (next_file s).
  cbn [dir set_dir active_segment set_slot set_segments nxt_segment_fd]. rewrite Hno, Hp, R5', Hn.
  split_and!; try done. unfold _create_nxt_seg_file, _newest_segment. rewrite R4, R5'. cbn [fmap option_fmap option_map deref mbind res_bind].
  cbn [segnum reopen]. rewrite Z.eqb_refl. cbn [dir set_slot set_segments]. unfold os_renameat. rewrite R1.
  unfold next_file in Hno. rewrite Hn in Hno. by rewrite Hno.
Qed.

(** ** Restarts and histories *)

Lemma stops_inv s e : interrupted s e -> (exists L, disk_inv L s) -> is_Some (dir e !! next_file e) -> exists L, disk_inv L e.
Proof.
  intros He Hi Hx. destruct He as [|p D Hp Hn HD|e E|e Hu]; [done| | |by eapply unlinked_inv].
  - destruct Hi as [L Hi]. destruct (renamed_state L s p D Hi Hp Hn HD) as (_ & _ & _ & _ & _ & _ & Hno & _).
    change (is_Some (D !! next_file s)) in Hx. rewrite Hno in Hx. by destruct Hx.
  - destruct Hi as [L Hi]. destruct (sync_ok L s Hi) as (s1 & L1 & E1 & Hi1 & _). rewrite E in E1. injection E1 as <-. by exists L1.
Qed.

(** The life of a log: operations, and restarts after the process stopped with
    the next segment's file in place. *)
Inductive log_step : log_file_mgr -> log_file_mgr -> Prop :=
| step_op s s' : log_op s s' -> log_step s s'
| step_restart s e s1 s' mb names m b :
    interrupted s e -> is_Some (dir e !! next_file e) -> dir s1 = dir e -> segments s1 = ∅ -> listing (dir e) names ->
    sm_log_file_mgr mb names m b s1 = Ok (s', true) -> log_step s s'.

Lemma life_inv s s' : rtc log_step s s' -> (exists L, disk_inv L s) -> exists L, disk_inv L s'.
Proof.
  induction 1 as [|s s1 s2 H _ IH]; [done|]. intros Hi. apply IH. destruct H as [s s' H|s e s1 s' mb names m b He Hx Hd Hs Hn H].
  - by eapply op_inv.
  - destruct (stops_inv s e He Hi Hx) as [L HL]. destruct (restart_complete mb names m b L e s1 HL Hd Hs Hn) as (s'' & E & _ & Hi').
    rewrite E in H. injection H as ->. by eexists.
Qed.

End life.

(** ** A log that is created and found again *)
Module LifeExample.
#[export] Instance os : Os := {| os_fd _ _ := 5 |}.
Definition fields (D : directory) : log_file_mgr := LogFile D 0 ∅ None 0 0 INVALID_LSN INVALID_LSN INVALID_LSN.
Definition dots : list fname := [["."%char]; ["."%char; "."%char]].
Definition stack : mem8 := fun _ => 0.

Lemma dots_skipped : Forall skipped dots.
Proof. repeat constructor. Qed.

Lemma stack_bytes : wf8 stack.
Proof. intros a. unfold stack. lia. Qed.

Lemma keys_listing D : listing D (map_to_list D).*1.
Proof. exists []. split; [by apply Forall_nil|]. split; [apply NoDup_fst_map_to_list|done]. Qed.
End LifeExample.

Import LifeExample.

