(* ===== verification/LogRecover.v ===== *)
(** * Scanning the log at start-up ([dbcore/sm-log-recover.cpp])

    Recovery follows the blocks of the log from the durable mark as long as
    their checksums are right, moves the mark behind the last good one and
    truncates the log there.  The descriptor of a segment reads the segment's
    file; no other thread runs. *)
From stdpp Require Import base numbers list gmap strings.
From Stdlib Require Import ZArith Lia.
From S2P Require Import Prelude FatPtr SizeEncode Bytes Adler LogBlock TxLog LogNames Threads LogFile LogOffset LogStart.

Local Open Scope Z_scope.

(** The bytes that are there: fewer than asked for at the end of the file. *)
(* src: dbcore/sm-common.cpp:72-85 os_pread *)
Definition os_pread (d : directory) (f : fname) (n off : Z) : res (list Z) :=
  match d !! f with
  | None => Throw os_error
  | Some c => throw_if (2 ^ 63 <=? off) os_error;; Ok (take (Z.to_nat n) (drop (Z.to_nat off) c))
  end.

(* src: dbcore/sm-log-recover.h:61-61 block_scanner::MIN_BLOCK_FETCH *)
Definition MIN_BLOCK_FETCH : Z := log_block.size MAX_BLOCK_RECORDS 0.

(** [_cur_block]: not initialised by the constructor, [nullptr], or [_buf]. *)
Inductive cursor := Wild | Null | Buf.

(** The buffer is the memory from address 0. *)
(* src: dbcore/sm-log-recover.h:88-93 block_scanner *)
Record block_scanner := Scanner {
  _overflow_chain : list LSN.t;
  _follow_overflow : bool;
  _fetch_payloads : bool;
  _buf : mem8;
  _cur_block : cursor;
}.

Definition set_buf (m : mem8) (it : block_scanner) : block_scanner :=
  Scanner (_overflow_chain it) (_follow_overflow it) (_fetch_payloads it) m (_cur_block it).
Definition set_cur (c : cursor) (it : block_scanner) : block_scanner :=
  Scanner (_overflow_chain it) (_follow_overflow it) (_fetch_payloads it) (_buf it) c.
Definition set_chain (l : list LSN.t) (it : block_scanner) : block_scanner :=
  Scanner l (_follow_overflow it) (_fetch_payloads it) (_buf it) (_cur_block it).

(* src: dbcore/sm-log-recover.h:63-67 block_scanner::invalid_block *)
Definition invalid_block (m : mem8) : mem8 :=
  let m := log_block.set_checksum m 0 0 in
  let m := log_block.set_nrec m 0 0 in
  let m := log_block.set_lsn m 0 INVALID_LSN in
  let r := log_block.records 0 0 in
  let m := log_record.set_type m r LOG_NOP in
  let m := log_record.set_size_code m r INVALID_SIZE_CODE in
  let m := log_record.set_size_align_bits m r 0 in
  let m := log_record.set_payload_end m r 0 in
  log_record.set_next_lsn m r INVALID_LSN.

(** What [DEFER_UNLESS(success, ...)] does on an early return. *)
Definition fail (it : block_scanner) : block_scanner := set_buf (invalid_block (_buf it)) it.

(* src: dbcore/sm-log-recover.h:72-72 block_scanner::valid *)
Definition valid (it : block_scanner) : res bool :=
  match _cur_block it with
  | Wild => Throw bad_address
  | Null => Ok false
  | Buf => Ok (LSN.neqb (log_block.lsn (_buf it) 0) INVALID_LSN)
  end.

(** The segment that an LSN is in. *)
(* src: dbcore/sm-log-recover.cpp:96-102 block_scanner::_load_block *)
Definition scan_segment_of (s : log_file_mgr) (x : LSN.t) : res (option segment_id) :=
  let segno := LSN.segment x in
  match slot s segno with
  | Some sid => Ok (Some sid)
  | None =>
      sid ← deref (_newest_segment s);
      Ok (if negb (segnum sid mod NUM_LOG_SEGMENTS =? segno mod NUM_LOG_SEGMENTS) then None else Some sid)
  end.

(** Reading up to [nbytes] bytes of the block, of which [i] are there; the
    result is how many there are then. *)
(* src: dbcore/sm-log-recover.cpp:104-109 block_scanner::_load_block *)
Definition fetch (s : log_file_mgr) (sid : segment_id) (x : LSN.t) (nbytes i : Z) (it : block_scanner) :
    res (Z * block_scanner) :=
  data ← os_pread (dir s) (file_of sid) (nbytes - i) (u64 (offset sid (LSN.offset x) + i));
  Ok (i + len data, set_cur Buf (set_buf (put (_buf it) i data) it)).

(** A link to an overflow block is followed; the fuel bounds their number. *)
(* src: dbcore/sm-log-recover.cpp:83-161 block_scanner::_load_block *)
Fixpoint _load_block (fuel : nat) (s : log_file_mgr) (x : LSN.t) (follow_overflow : bool) (it : block_scanner) :
    res block_scanner :=
  match fuel with
  | O => Throw Spinning
  | S fuel =>
      if LSN.eqb x INVALID_LSN then Ok (fail it) else
      p ← scan_segment_of s x;
      match p with
      | None => Ok (fail it)
      | Some sid =>
          let it := set_cur Null it in
          '(n, it) ← fetch s sid x MIN_BLOCK_FETCH 0 it;
          let nrec := log_block.nrec (_buf it) 0 in
          if (n <? MIN_BLOCK_FETCH) && ((n <? MIN_LOG_BLOCK_SIZE) || (n <? log_block.size nrec 0)) then Ok (fail it) else
          if LSN.neqb x (log_block.lsn (_buf it) 0) || (MAX_BLOCK_RECORDS <? nrec) then Ok (fail it) else
          let r := log_block.records 0 0 in
          if follow_overflow && (log_record.type (_buf it) r =? LOG_OVERFLOW) then
            let it := set_chain (_overflow_chain it ++ [log_block.lsn (_buf it) 0]) it in
            _load_block fuel s (log_record.next_lsn (_buf it) r) true it
          else if _fetch_payloads it then
            let bsize := u64 (log_block.payload_end (_buf it) 0) in
            if MAX_BLOCK_SIZE <? bsize then Ok (fail it) else
            if n <? bsize then
              '(n, it) ← fetch s sid x bsize n it;
              if n <? bsize then Ok (fail it) else Ok it
            else Ok it
          else Ok it
      end
  end.

(* src: dbcore/sm-log-recover.cpp:52-60 block_scanner::block_scanner *)
Definition new_block_scanner (fuel : nat) (s : log_file_mgr) (start : LSN.t) (follow_overflow fetch_payloads : bool)
    (buf : mem8) : res block_scanner :=
  _load_block fuel s start follow_overflow (Scanner [] follow_overflow fetch_payloads buf Wild).

(* src: dbcore/sm-log-recover.cpp:67-81 block_scanner::operator++ *)
Definition next_block (fuel : nat) (s : log_file_mgr) (it : block_scanner) : res block_scanner :=
  match last (_overflow_chain it) with
  | None => _load_block fuel s (log_block.next_lsn (_buf it) 0) (_follow_overflow it) it
  | Some l =>
      it ← _load_block fuel s l false it;
      Ok (set_chain (removelast (_overflow_chain it)) it)
  end.

(** The loop over blocks: the LSN behind the last good one, and whether there
    was one.  No links are followed, so a load needs no fuel of its own. *)
(* src: dbcore/sm-log-recover.cpp:19-26 sm_log_recover_mgr::sm_log_recover_mgr *)
Fixpoint find_end (fuel : nat) (s : log_file_mgr) (it : block_scanner) (dlsn : LSN.t) (changed : bool) :
    res (LSN.t * bool) :=
  match fuel with
  | O => Throw Spinning
  | S fuel =>
      v ← valid it;
      if (v : bool) then
        c ← log_block.full_checksum (_buf it) 0;
        if negb (log_block.checksum (_buf it) 0 =? c) then Ok (dlsn, changed) else
        let dlsn := log_block.next_lsn (_buf it) 0 in
        it ← next_block 1 s it;
        find_end fuel s it dlsn true
      else Ok (dlsn, changed)
  end.

Section recover.
Context `{OS : Os}.

(** Up to the end of the truncation, which destroys less than sixteen segments;
    [buf] is the scanner's buffer before anything was read. *)
(* src: dbcore/sm-log-recover.cpp:17-32 sm_log_recover_mgr::sm_log_recover_mgr *)
Definition recover_end (fuel : nat) (buf : mem8) (s : log_file_mgr) : res log_file_mgr :=
  let dlsn := _durable_lsn s in
  it ← new_block_scanner 1 s dlsn false true buf;
  '(dlsn, changed) ← find_end fuel s it dlsn false;
  s ← (if (changed : bool) then update_durable_mark dlsn s else Ok s);
  '(p, s) ← run (@get_segment nobody (LSN.segment dlsn)) s;
  sid ← deref p;
  truncate_after (S (Z.to_nat NUM_LOG_SEGMENTS)) (segnum sid) (LSN.offset dlsn) s.

End recover.
