(* ===== verification/LogRecoverSpec.v ===== *)
(** * What the scan at start-up finds

    The block at an LSN, as the bytes of its segment's file say, and that
    loading it into the scanner's buffer accepts it exactly when it is all
    there. *)
From stdpp Require Import base numbers list gmap strings.
From Stdlib Require Import ZArith Lia.
From S2P Require Import Prelude FatPtr SizeEncode Bytes Adler LogBlock TxLog LogNames Threads LogFile LogOffset LogStart LogRecover.

Local Open Scope Z_scope.

(** ** Bytes of a file *)

(** The memory that starts with the byte at [off]. *)
Definition view (c : list Z) (off : Z) : mem8 := fun a => nth (Z.to_nat (off + a)) c 0.

(** Two memories have the same first [k] bytes. *)
Definition agree (k : Z) (m m' : mem8) : Prop := forall a, 0 <= a < k -> m a = m' a.

Lemma agree_mono k k' m m' : k' <= k -> agree k m m' -> agree k' m m'.
Proof. intros Hk H a Ha. apply H. lia. Qed.

Lemma get_agree k m m' a n : agree k m m' -> 0 <= a -> a + n <= k -> get m a n = get m' a n.
Proof. intros H Ha Hk. apply get_ext. intros x Hx. apply H. lia. Qed.

Lemma rd_agree k m m' a n : agree k m m' -> 0 <= a -> a + Z.of_nat n <= k -> rd n m a = rd n m' a.
Proof. intros H Ha Hk. unfold rd. by rewrite (get_agree k m m'). Qed.

Lemma view_bytes c off : bytes c -> wf8 (view c off).
Proof.
  intros Hc a. unfold view. destruct (decide (Z.to_nat (off + a) < length c)%nat) as [Hl|Hl].
  - unfold bytes in Hc. rewrite (Forall_nth _ 0) in Hc. by apply Hc.
  - rewrite nth_overflow; lia.
Qed.

(** Files with the same bytes up to [off + k]. *)
Lemma view_prefix c c' off k :
  0 <= off -> take (Z.to_nat (off + k)) c = take (Z.to_nat (off + k)) c' -> agree k (view c off) (view c' off).
Proof.
  intros Ho H a Ha. unfold view. rewrite !nth_lookup.
  rewrite <- (lookup_take_lt c (Z.to_nat (off + k))), <- (lookup_take_lt c' (Z.to_nat (off + k))) by lia. by rewrite H.
Qed.

(** What a read puts into the buffer. *)
Lemma read_agree m c off i n :
  0 <= off -> 0 <= i <= n -> agree i m (view c off) ->
  let data := take (Z.to_nat (n - i)) (drop (Z.to_nat (off + i)) c) in
  agree (i + len data) (put m i data) (view c off).
Proof.
  intros Ho Hi H data a Ha. destruct (decide (a < i)) as [Hlt|Hge].
  - rewrite put_out by lia. apply H. lia.
  - rewrite put_in by lia. unfold view, data. rewrite !nth_lookup.
    assert (Z.to_nat (a - i) < Z.to_nat (n - i))%nat.
    { unfold data, len in Ha. rewrite length_take in Ha. lia. }
    rewrite lookup_take_lt, lookup_drop by done. do 2 f_equal. lia.
Qed.

(** ** Blocks *)

Lemma size_records nrec : 0 <= nrec < 2 ^ 32 -> log_block.size nrec 0 = 32 + 16 * nrec.
Proof.
  intros H. unfold log_block.size, log_block.records, log_record.sizeof. rewrite wrap_small by (unfold fits; lia). lia.
Qed.

Section fields.
Context (m m' : mem8) (k : Z).
Hypothesis Hag : agree k m m'.

Lemma agree_checksum : 4 <= k -> log_block.checksum m 0 = log_block.checksum m' 0.
Proof. intros. by apply (rd_agree k). Qed.
Lemma agree_nrec : 8 <= k -> log_block.nrec m 0 = log_block.nrec m' 0.
Proof. intros. by apply (rd_agree k). Qed.
Lemma agree_lsn : 16 <= k -> log_block.lsn m 0 = log_block.lsn m' 0.
Proof. intros. unfold log_block.lsn. f_equal. by apply (rd_agree k). Qed.

Hypothesis Hrec : 0 <= log_block.nrec m' 0 /\ 32 + 16 * log_block.nrec m' 0 <= k.

Lemma agree_end : log_block.payload_end m 0 = log_block.payload_end m' 0.
Proof.
  unfold log_block.payload_end, log_block.payload_begin, log_record.payload_end. rewrite agree_nrec by lia.
  f_equal. unfold log_block.records, log_record.sizeof. apply (rd_agree k); [done|lia|lia].
Qed.
Lemma agree_next : log_block.next_lsn m 0 = log_block.next_lsn m' 0.
Proof.
  unfold log_block.next_lsn, log_record.next_lsn. rewrite agree_nrec by lia. f_equal.
  unfold log_block.records, log_record.sizeof. apply (rd_agree k); [done|lia|lia].
Qed.
Lemma agree_sum : log_block.payload_end m' 0 <= k -> log_block.full_checksum m 0 = log_block.full_checksum m' 0.
Proof.
  intros Hk. unfold log_block.full_checksum, log_block.checksum_begin. rewrite agree_end. f_equal.
  apply (get_agree k); [done|lia|lia].
Qed.
End fields.

(** The block is complete: its header, its records, and its payloads are in the
    [n] bytes there are, and it says that it is the block at [x]. *)
Definition readable (m : mem8) (n : Z) (x : LSN.t) : bool :=
  (MIN_LOG_BLOCK_SIZE <=? n) && (log_block.size (log_block.nrec m 0) 0 <=? n) && LSN.eqb x (log_block.lsn m 0) &&
  (log_block.nrec m 0 <=? MAX_BLOCK_RECORDS) && (log_block.payload_end m 0 <=? MAX_BLOCK_SIZE) &&
  (log_block.payload_end m 0 <=? n).

(** And its checksum is right. *)
Definition good_block (m : mem8) (n : Z) (x : LSN.t) : bool :=
  readable m n x &&
  match log_block.full_checksum m 0 with Ok c => log_block.checksum m 0 =? c | Throw _ => false end.

Lemma lsn_eqb_eq x y : LSN.eqb x y = true <-> x = y.
Proof. unfold LSN.eqb. rewrite Z.eqb_eq. destruct x, y. cbn. split; [by intros ->|by intros [= ->]]. Qed.

Lemma readable_iff m n x : readable m n x = true <->
  32 <= n /\ log_block.size (log_block.nrec m 0) 0 <= n /\ x = log_block.lsn m 0 /\ log_block.nrec m 0 <= 254 /\
  log_block.payload_end m 0 <= MAX_BLOCK_SIZE /\ log_block.payload_end m 0 <= n.
Proof.
  unfold readable. rewrite !andb_true_iff, !Z.leb_le, lsn_eqb_eq. change MIN_LOG_BLOCK_SIZE with 32.
  change MAX_BLOCK_RECORDS with 254. tauto.
Qed.

Lemma end_bounds m : wf8 m -> 0 <= log_block.nrec m 0 <= 254 ->
  32 + 16 * log_block.nrec m 0 <= log_block.payload_end m 0 < 2 ^ 33.
Proof.
  intros Hm Hn. unfold log_block.payload_end, log_block.payload_begin, log_block.records, log_record.sizeof, log_record.payload_end.
  pose proof (rd_fits 4 m (0 + 16 + 16 * log_block.nrec m 0 + 4) Hm). unfold fits in *. lia.
Qed.

Lemma readable_inv m n x : wf8 m -> readable m n x = true ->
  0 <= log_block.nrec m 0 <= 254 /\ 32 + 16 * log_block.nrec m 0 <= log_block.payload_end m 0 /\
  log_block.payload_end m 0 <= n /\ log_block.payload_end m 0 <= MAX_BLOCK_SIZE /\ log_block.lsn m 0 = x.
Proof.
  intros Hm (_ & _ & Hl & Hn & He & He')%readable_iff. pose proof (rd_fits 4 m (0 + 4) Hm) as Hf.
  fold (log_block.nrec m 0) in Hf. unfold fits in Hf. pose proof (end_bounds m Hm ltac:(lia)). split; [lia|]. split; [lia|done].
Qed.

(** Only the bytes of the block matter. *)
Lemma good_agree m m' n n' x : wf8 m -> good_block m n x = true -> agree (log_block.payload_end m 0) m' m ->
  log_block.payload_end m 0 <= n' ->
  good_block m' n' x = true /\ log_block.next_lsn m' 0 = log_block.next_lsn m 0 /\ log_block.payload_end m' 0 = log_block.payload_end m 0.
Proof.
  intros Hm [Hr Hc]%andb_true_iff Hag Hn. destruct (readable_inv _ _ _ Hm Hr) as (H1 & H2 & _ & H3 & H4).
  assert (0 <= log_block.nrec m 0 /\ 32 + 16 * log_block.nrec m 0 <= log_block.payload_end m 0) as Hrec by lia.
  split; [|split; [by eapply agree_next|by eapply agree_end]]. unfold good_block. apply andb_true_iff. split.
  - apply readable_iff. rewrite (agree_nrec _ _ _ Hag), (agree_lsn _ _ _ Hag), (agree_end _ _ _ Hag Hrec), size_records by lia.
    split_and!; done || lia.
  - rewrite (agree_sum _ _ _ Hag Hrec), (agree_checksum _ _ _ Hag) by lia. done.
Qed.

(** ** Loading a block *)

(** The LSN is in the segment, whose file has the bytes [c]. *)
Record located (s : log_file_mgr) (x : LSN.t) (sid : segment_id) (c : list Z) : Prop := {
  lc_valid : x <> INVALID_LSN;
  lc_slot : slot s (LSN.segment x) = Some sid;
  lc_range : 0 <= start_offset sid <= LSN.offset x /\ LSN.offset x + MIN_LOG_BLOCK_SIZE <= end_offset sid < 2 ^ 62;
  lc_file : dir s !! file_of sid = Some c;
  lc_bytes : bytes c;
}.

(** The block at [x]: its bytes, and how many there are. *)
Definition at_ (x : LSN.t) (sid : segment_id) (c : list Z) : mem8 := view c (LSN.offset x - start_offset sid).
Definition there (x : LSN.t) (sid : segment_id) (c : list Z) : Z := Z.max 0 (len c - (LSN.offset x - start_offset sid)).

Lemma fetch_ok s x sid c nbytes i it :
  located s x sid c -> 0 <= i <= nbytes -> nbytes < 2 ^ 62 -> i <= there x sid c -> agree i (_buf it) (at_ x sid c) ->
  exists it', fetch s sid x nbytes i it = Ok (Z.min nbytes (there x sid c), it') /\ _cur_block it' = Buf /\
    agree (Z.min nbytes (there x sid c)) (_buf it') (at_ x sid c) /\ _overflow_chain it' = _overflow_chain it /\
    _follow_overflow it' = _follow_overflow it /\ _fetch_payloads it' = _fetch_payloads it.
Proof.
  intros [_ _ [Hs He] Hf _] Hi Hn Ht Hag. unfold fetch, os_pread. rewrite Hf. change MIN_LOG_BLOCK_SIZE with 32 in *.
  assert (offset sid (LSN.offset x) = LSN.offset x - start_offset sid) as Ho by (apply wrap_small; unfold fits; lia).
  rewrite Ho. set (off := LSN.offset x - start_offset sid) in *. rewrite (wrap_small 64) by (unfold fits; lia).
  destruct (Z.leb_spec (2 ^ 63) (off + i)); [lia|]. cbn [throw_if mbind res_bind].
  set (data := take _ _). assert (i + len data = Z.min nbytes (there x sid c)) as Hlen.
  { unfold data, there, len in *. rewrite length_take, length_drop. fold off in Ht |- *. lia. }
  rewrite Hlen. eexists. split; [done|]. split; [done|]. split; [|done]. rewrite <- Hlen.
  cbn [_buf set_cur set_buf]. unfold data. apply read_agree; [lia|lia|done].
Qed.

Lemma valid_fail it : _cur_block it = Buf -> valid (fail it) = Ok false.
Proof.
  intros H. unfold valid, fail. cbn [_cur_block set_buf]. by rewrite H.
Qed.

(** The scanner as the search for the end uses it. *)
Definition plain (it : block_scanner) : Prop :=
  _overflow_chain it = [] /\ _follow_overflow it = false /\ _fetch_payloads it = true.

(** What a load leaves behind. *)
Definition loaded (it : block_scanner) (m : mem8) (n : Z) (x : LSN.t) : Prop :=
  plain it /\ valid it = Ok (readable m n x) /\
  (readable m n x = true -> agree (log_block.payload_end m 0) (_buf it) m).

Lemma loaded_fail it m n x : plain it -> _cur_block it = Buf -> readable m n x = false -> loaded (fail it) m n x.
Proof. intros H Hc Hr. split; [done|]. rewrite Hr. split; [by apply valid_fail|done]. Qed.

Lemma loaded_ok it m n x : plain it -> _cur_block it = Buf -> wf8 m -> x <> INVALID_LSN -> readable m n x = true ->
  agree (log_block.payload_end m 0) (_buf it) m -> loaded it m n x.
Proof.
  intros H Hc Hm Hx Hr Hag. split; [done|]. split; [|done]. destruct (readable_inv _ _ _ Hm Hr) as (? & ? & _ & _ & Hl).
  unfold valid. rewrite Hc, Hr. f_equal. rewrite (agree_lsn _ m _ Hag), Hl by lia.
  unfold LSN.neqb. apply negb_true_iff, not_true_is_false. by rewrite lsn_eqb_eq.
Qed.

(** The second read, for the payloads. *)
Lemma load_payloads s x sid c it (m := at_ x sid c) (n := there x sid c) :
  located s x sid c -> plain it -> _cur_block it = Buf -> agree (Z.min 4096 n) (_buf it) m ->
  32 <= n -> x = log_block.lsn m 0 -> 0 <= log_block.nrec m 0 <= 254 -> 32 + 16 * log_block.nrec m 0 <= Z.min 4096 n ->
  exists it', (if MAX_BLOCK_SIZE <? u64 (log_block.payload_end m 0) then Ok (fail it) else
     if Z.min 4096 n <? u64 (log_block.payload_end m 0) then
       fetch s sid x (u64 (log_block.payload_end m 0)) (Z.min 4096 n) it ≫= fun '(n', it') =>
       if n' <? u64 (log_block.payload_end m 0) then Ok (fail it') else Ok it'
     else Ok it) = Ok it' /\ loaded it' m n x.
Proof.
  intros Hl Hp Hc Hag Hn Hx Hnr Hrec. pose proof (view_bytes c _ (lc_bytes _ _ _ _ Hl) : wf8 m) as Hm.
  pose proof (end_bounds m Hm Hnr) as He. rewrite (wrap_small 64) by (unfold fits; lia).
  assert (readable m n x = true <-> log_block.payload_end m 0 <= MAX_BLOCK_SIZE /\ log_block.payload_end m 0 <= n) as Hr.
  { rewrite readable_iff, size_records by lia. split; [tauto|]. intros [? ?]. split_and!; done || lia. }
  destruct (Z.ltb_spec MAX_BLOCK_SIZE (log_block.payload_end m 0)) as [Hbig|Hsz].
  { eexists. split; [done|]. apply loaded_fail; [done|done|]. apply not_true_is_false. rewrite Hr. lia. }
  unfold MAX_BLOCK_SIZE in Hsz, Hr. destruct (Z.ltb_spec (Z.min 4096 n) (log_block.payload_end m 0)) as [Hmore|Hall].
  - destruct (fetch_ok s x sid c (log_block.payload_end m 0) (Z.min 4096 n) it Hl) as (it2 & -> & Hc2 & Hag2 & F1 & F2 & F3);
      [lia|lia|lia|done|]. cbn [mbind res_bind]. fold m n in Hag2 |- *.
    assert (plain it2) as Hp2 by (destruct Hp as (? & ? & ?); unfold plain; by rewrite F1, F2, F3).
    destruct (Z.ltb_spec (Z.min (log_block.payload_end m 0) n) (log_block.payload_end m 0)); eexists; (split; [done|]).
    + apply loaded_fail; [done|done|]. apply not_true_is_false. rewrite Hr. lia.
    + apply loaded_ok; [done|done|done|apply Hl|apply Hr; lia|]. eapply agree_mono; [|exact Hag2]. lia.
  - eexists. split; [done|]. apply loaded_ok; [done|done|done|apply Hl|apply Hr; lia|]. eapply agree_mono; [|exact Hag]. lia.
Qed.

Lemma load_ok s x sid c it :
  located s x sid c -> plain it ->
  exists it', _load_block 1 s x false it = Ok it' /\ loaded it' (at_ x sid c) (there x sid c) x.
Proof.
  intros Hl Hp. set (m := at_ x sid c). set (n := there x sid c). pose proof (view_bytes c _ (lc_bytes _ _ _ _ Hl) : wf8 m) as Hm.
  assert (0 <= log_block.nrec m 0 < 2 ^ 32) as Hn by (apply (rd_fits 4 m); done).
  cbn [_load_block]. assert (LSN.eqb x INVALID_LSN = false) as -> by (apply not_true_is_false; rewrite lsn_eqb_eq; apply Hl).
  unfold scan_segment_of. rewrite (lc_slot _ _ _ _ Hl). cbn [mbind res_bind].
  destruct (fetch_ok s x sid c MIN_BLOCK_FETCH 0 (set_cur Null it) Hl) as (it1 & -> & Hc1 & Hag1 & F1 & F2 & F3);
    [by vm_compute|by vm_compute|unfold there; lia|intros a Ha; lia|].
  cbn [mbind res_bind]. fold m n in Hag1 |- *. change MIN_BLOCK_FETCH with 4096 in *.
  assert (plain it1) as Hp1 by (destruct Hp as (? & ? & ?); unfold plain; by rewrite F1, F2, F3).
  assert (Hbad : forall it2, plain it2 -> _cur_block it2 = Buf -> readable m n x <> true ->
    exists it', Ok (fail it2) = Ok it' /\ loaded it' m n x).
  { intros it2 ? ? H%not_true_is_false. eexists. split; [done|]. by apply loaded_fail. }
  change MIN_LOG_BLOCK_SIZE with 32. change MAX_BLOCK_RECORDS with 254.
  destruct (decide (n < 32)) as [Hshort|Hlong].
  { destruct (Z.ltb_spec (Z.min 4096 n) 4096), (Z.ltb_spec (Z.min 4096 n) 32); try lia. apply Hbad; [done|done|].
    rewrite readable_iff. lia. }
  rewrite (agree_nrec _ m _ Hag1), (agree_lsn _ m _ Hag1), size_records by lia.
  destruct (Z.ltb_spec (Z.min 4096 n) 32); [lia|]. cbn [orb].
  destruct ((Z.min 4096 n <? 4096) && _) eqn:E1.
  { apply andb_true_iff in E1 as [H1%Z.ltb_lt H2%Z.ltb_lt]. apply Hbad; [done|done|]. rewrite readable_iff, size_records; lia. }
  destruct (LSN.neqb x (log_block.lsn m 0) || (254 <? log_block.nrec m 0)) eqn:E2.
  { apply Hbad; [done|done|]. rewrite readable_iff. intros (_ & _ & Hx & Hr & _). apply orb_true_iff in E2 as [E2|E2%Z.ltb_lt]; [|lia].
    apply negb_true_iff in E2. apply (lsn_eqb_eq x) in Hx. unfold LSN.eqb in *. congruence. }
  apply orb_false_iff in E2 as [E2%negb_false_iff%lsn_eqb_eq E3%Z.ltb_ge]. cbn [andb].
  assert (32 + 16 * log_block.nrec m 0 <= Z.min 4096 n) as Hrec.
  { apply andb_false_iff in E1 as [E1%Z.ltb_ge|E1%Z.ltb_ge]; lia. }
  rewrite (agree_end _ m _ Hag1) by lia. rewrite (proj2 (proj2 Hp1)). apply load_payloads; fold m n; done || lia.
Qed.
