(* ===== verification/LogRecoverEnd.v ===== *)
(** * Recovery finds the end of the log

    The search for the end of the log and the truncation there, on a log that
    the file manager left behind. *)
From stdpp Require Import base numbers list gmap strings.
From Stdlib Require Import ZArith Lia.
From S2P Require Import Prelude FatPtr SizeEncode Bytes Adler LogBlock TxLog LogNames Threads LogFile LogOffset LogStart LogOffsetSafe LogDisk LogOps LogRecover LogRecoverSpec.

Local Open Scope Z_scope.

(** The good blocks from [x] on, each naming the next, up to [z]. *)
Inductive path (s : log_file_mgr) : LSN.t -> list LSN.t -> LSN.t -> Prop :=
| path_end x : path s x [] x
| path_block x sid c y l z :
    located s x sid c -> good_block (at_ x sid c) (there x sid c) x = true ->
    log_block.next_lsn (at_ x sid c) 0 = y -> LSN.offset x + log_block.payload_end (at_ x sid c) 0 <= LSN.offset y ->
    path s y l z -> path s x (x :: l) z.

(** There is no good block at [z], which is in a segment. *)
Definition stops (s : log_file_mgr) (z : LSN.t) (sid : segment_id) (c : list Z) : Prop :=
  located s z sid c /\ good_block (at_ z sid c) (there z sid c) z = false.

(** ** The search *)

Lemma sum_defined m : wf8 m -> exists v, log_block.full_checksum m 0 = Ok v.
Proof. intros Hm. unfold log_block.full_checksum. rewrite adler32_ok; [by eexists|by vm_compute|by apply bytes_get]. Qed.

(** A loaded block has the checksum and the successor of the block on disk. *)
Lemma loaded_fields it m n x : wf8 m -> loaded it m n x -> readable m n x = true ->
  log_block.full_checksum (_buf it) 0 = log_block.full_checksum m 0 /\
  log_block.checksum (_buf it) 0 = log_block.checksum m 0 /\ log_block.next_lsn (_buf it) 0 = log_block.next_lsn m 0.
Proof.
  intros Hm (_ & _ & Hag) Hr. specialize (Hag Hr). destruct (readable_inv _ _ _ Hm Hr) as (H1 & H2 & _).
  assert (0 <= log_block.nrec m 0 /\ 32 + 16 * log_block.nrec m 0 <= log_block.payload_end m 0) as Hrec by lia.
  split_and!; [by apply (agree_sum _ _ _ Hag)|apply (agree_checksum _ _ _ Hag); lia|by apply (agree_next _ _ _ Hag)].
Qed.

(** The blocks of a path are read one by one; at its end the search stops, by
    the assumption [Hend] on scanners that satisfy [C]. *)
Lemma find_end_path s z (C : block_scanner -> Prop) :
  (forall it, _cur_block it = Buf -> C it) ->
  (forall it changed, plain it -> C it -> exists it', _load_block 1 s z false it = Ok it' /\
    find_end 1 s it' z changed = Ok (z, changed)) ->
  forall x l, path s x l z -> forall it changed, plain it -> (l = [] -> C it) ->
  exists it', _load_block 1 s x false it = Ok it' /\
    find_end (S (length l)) s it' x changed = Ok (z, changed || negb (bool_decide (l = []))).
Proof.
  intros HC Hend x l Hp. induction Hp as [x|x sid c y l z Hl Hg Hn Hle Hp IH]; intros it changed Hpl Hit.
  - destruct (Hend it changed Hpl (Hit eq_refl)) as (it' & E & Hf). exists it'. by rewrite orb_false_r.
  - destruct (load_ok s x sid c it Hl Hpl) as (it' & E & Hld). exists it'. split; [done|].
    cbn [length]. remember (S (length l)) as k eqn:Hk. cbn [find_end].
    pose proof (view_bytes c _ (lc_bytes _ _ _ _ Hl) : wf8 (at_ x sid c)) as Hm. apply andb_true_iff in Hg as [Hr Hc].
    destruct (loaded_fields _ _ _ _ Hm Hld Hr) as (E1 & E2 & E3). pose proof (proj1 (proj2 Hld)) as Hv. rewrite Hr in Hv.
    rewrite Hv. cbn [mbind res_bind].
    rewrite E1, E2, E3, Hn. destruct (sum_defined _ Hm) as [v Hs]. rewrite Hs in *. cbn [mbind res_bind]. rewrite Hc. cbn [negb].
    destruct (proj1 Hld) as (P1 & P2 & P3). unfold next_block. rewrite P1, P2, E3, Hn. cbn [last].
    assert (_cur_block it' = Buf) as Hb by (unfold valid in Hv; by destruct (_cur_block it')).
    destruct (IH Hend it' true (proj1 Hld) (fun _ => HC it' Hb)) as (it2 & -> & Hf). cbn [mbind res_bind]. rewrite Hf. by rewrite orb_true_r.
Qed.

Lemma find_end_ok s z sidz cz : stops s z sidz cz -> forall x l, path s x l z -> forall it changed,
  plain it -> exists it', _load_block 1 s x false it = Ok it' /\
    find_end (S (length l)) s it' x changed = Ok (z, changed || negb (bool_decide (l = []))).
Proof.
  intros [Hz Hbad] x l Hp it changed Hpl. apply (find_end_path s z (fun _ => True)); try done. clear it changed Hpl.
  intros it changed Hpl _. destruct (load_ok s z sidz cz it Hz Hpl) as (it' & E & Hld). exists it'. split; [done|]. cbn [find_end].
  pose proof (view_bytes cz _ (lc_bytes _ _ _ _ Hz) : wf8 (at_ z sidz cz)) as Hm.
  rewrite (proj1 (proj2 Hld)). cbn [mbind res_bind]. destruct (readable _ _ _) eqn:Hr; [|done].
  destruct (loaded_fields _ _ _ _ Hm Hld Hr) as (-> & -> & _). unfold good_block in Hbad. rewrite Hr in Hbad. cbn in Hbad.
  destruct (sum_defined _ Hm) as [v Hv]. rewrite Hv in *. cbn [mbind res_bind]. by rewrite Hbad.
Qed.

(** A load from a segment that is not installed. *)
Lemma load_lost s z it : scan_segment_of s z = Ok None -> _load_block 1 s z false it = Ok (fail it).
Proof. intros Hz. cbn [_load_block]. destruct (LSN.eqb z INVALID_LSN); [done|]. by rewrite Hz. Qed.

Lemma find_end_lost s z : scan_segment_of s z = Ok None -> forall x l, path s x l z -> forall it changed,
  plain it -> (l = [] -> _cur_block it = Buf) -> exists it', _load_block 1 s x false it = Ok it' /\
    find_end (S (length l)) s it' x changed = Ok (z, changed || negb (bool_decide (l = []))).
Proof.
  intros Hz x l Hp it changed Hpl Hit. apply (find_end_path s z (fun it => _cur_block it = Buf)); try done. clear it changed Hpl Hit.
  intros it changed Hpl Hb. exists (fail it). split; [by apply load_lost|]. cbn [find_end]. by rewrite valid_fail.
Qed.

(** ** The truncation *)

Section truncate.
Context `{OS : Os}.

(** What stays when files are deleted. *)
Definition only_deleted (s s' : log_file_mgr) : Prop :=
  _durable_lsn s' = _durable_lsn s /\ _chkpt_start_lsn s' = _chkpt_start_lsn s /\ _chkpt_end_lsn s' = _chkpt_end_lsn s /\
  nxt_segment_fd s' = nxt_segment_fd s /\ oldest_segnum s' = oldest_segnum s /\
  forall f, is_Some (dir s' !! f) -> dir s' !! f = dir s !! f.

Lemma only_deleted_trans s1 s2 s3 : only_deleted s1 s2 -> only_deleted s2 s3 -> only_deleted s1 s3.
Proof.
  intros (A1 & A2 & A3 & A4 & A5 & A6) (B1 & B2 & B3 & B4 & B5 & B6). split_and!; try congruence.
  intros f Hf. rewrite <- (A6 f), (B6 f Hf); [done|]. by rewrite <- (B6 f Hf).
Qed.

Lemma pop_newest_frame s D f s' : os_unlinkat (dir s) f = Ok D -> _pop_newest (set_dir D s) = Ok s' -> only_deleted s s'.
Proof.
  unfold os_unlinkat. destruct (dir s !! f); [|done]. intros [= <-]. unfold _pop_newest. destruct (deref _) as [p|]; [|done].
  cbn [mbind res_bind]. intros [= <-]. split_and!; try done. cbn. intros g Hg%is_Some_delete. by rewrite lookup_delete_ne by naive_solver.
Qed.

(** Segments behind the marks can be destroyed. *)
Lemma pop_after_total n K sid : forall fuel R s,
  (length R < fuel)%nat -> disk_core (K ++ sid :: R) n s -> active_segment s = last (K ++ sid :: R) ->
  (forall x, x ∈ R -> LSN.offset (_durable_lsn s) < start_offset x /\ LSN.offset (_chkpt_end_lsn s) < start_offset x) ->
  exists s', pop_after fuel (segnum sid) s = Ok (sid, s') /\ disk_core (K ++ [sid]) n s' /\ active_segment s' = Some sid /\
    only_deleted s s'.
Proof.
  induction fuel as [|fuel IH]; intros R s Hf Hc Ha Hm; [lia|]. cbn [pop_after]. unfold _newest_segment. rewrite Ha.
  destruct R as [|p R _] using rev_ind.
  { rewrite last_snoc in *. cbn [deref mbind res_bind]. rewrite Z.ltb_irrefl. exists s. by split_and!. }
  rewrite app_comm_cons, app_assoc in *. rewrite last_snoc in *. cbn [deref mbind res_bind].
  pose proof (dc_run _ _ _ Hc) as Hr. rewrite length_app in Hf. cbn in Hf.
  pose proof (ro_num _ _ Hr _ p ltac:(by rewrite list_lookup_middle)) as N1.
  pose proof (ro_num _ _ Hr (length K) sid ltac:(apply lookup_app_l_Some; by rewrite list_lookup_middle)) as N2.
  rewrite length_app in N1. cbn in N1. destruct (Z.ltb_spec (segnum sid) (segnum p)); [|lia].
  destruct (Hm p ltac:(set_solver)) as [H1 H2].
  destruct (Z.leb_spec (start_offset p) (LSN.offset (_chkpt_end_lsn s))); [lia|]. cbn [throw_if mbind res_bind].
  destruct (Z.leb_spec (start_offset p) (LSN.offset (_durable_lsn s))); [lia|]. cbn [throw_if mbind res_bind].
  destruct (pop_newest_ok p _ n s Hc Ha H2 H1) as (D & s1 & E & E1 & Hc1 & Ha1 & _).
  rewrite E. cbn [mbind res_bind]. rewrite E1. cbn [mbind res_bind]. pose proof (pop_newest_frame _ _ _ _ E E1) as Hd.
  destruct (IH R s1 ltac:(lia) Hc1 Ha1) as (s' & E2 & Hc2 & Ha2 & Hd2).
  - intros x Hx. destruct Hd as (-> & _ & -> & _). apply Hm. set_solver.
  - exists s'. split_and!; try done. by eapply only_deleted_trans.
Qed.

(** A file with the first [k] bytes of another, and [k] bytes. *)
Definition cut (c c' : list Z) (k : Z) : Prop :=
  len c' = k /\ (bytes c -> bytes c') /\ forall i, 0 <= i <= k -> i <= len c -> take (Z.to_nat i) c' = take (Z.to_nat i) c.

Lemma resize_cut c k : 0 <= k -> cut c (take (Z.to_nat k) c ++ replicate (Z.to_nat k - length c) 0) k.
Proof.
  intros Hk. split.
  - unfold len. rewrite length_app, length_take, length_replicate. lia.
  - split; [intros Hb; apply Forall_app; split; [by apply Forall_take|by apply Forall_replicate]|]. intros i Hi Hl. unfold len in Hl. rewrite take_app_le by (rewrite length_take; lia). rewrite take_take. f_equal. lia.
Qed.

(** The file for the segment after [segno] is the next one. *)
Lemma renext_total L n s segno :
  disk_core L n s -> fits 32 segno -> fits 32 (segno + 1) -> segno + 1 <= n ->
  exists s', (if u32 (segno + 1) <? u32 (nxt_segment_fd s) then
       d ← os_unlinkat (dir s) (nxt_seg_file_name (u32 (nxt_segment_fd s)));
       _create_nxt_seg_file true (set_nxt segno (set_dir d s))
     else Ok s) = Ok s' /\
    disk_core L (segno + 1) s' /\ active_segment s' = active_segment s /\ oldest_segnum s' = oldest_segnum s /\
    _durable_lsn s' = _durable_lsn s /\ _chkpt_start_lsn s' = _chkpt_start_lsn s /\ _chkpt_end_lsn s' = _chkpt_end_lsn s /\
    forall x, dir s' !! file_of x = dir s !! file_of x.
Proof.
  intros Hc Hf Hf1 Hle. destruct (dc_nxt _ _ _ Hc) as [Hn Hfn]. rewrite Hn, (wrap_small 32 (segno + 1)) by done.
  destruct (Z.ltb_spec (segno + 1) n) as [Hlt|Hge].
  - destruct (disk_renext _ _ _ _ _ _ (dc_disk _ _ _ Hc) (segno + 1) Hfn Hf1) as (D1 & D' & E1 & E2 & HD).
    rewrite E1. cbn [mbind res_bind]. unfold _create_nxt_seg_file. cbn [mbind res_bind nxt_segment_fd set_nxt dir set_dir].
    rewrite (wrap_small 32 segno), (wrap_small 32 (segno + 1)) by done. rewrite E2. cbn [mbind res_bind].
    eexists. split; [done|]. destruct Hc as [? ? ? ? ? ? ? ? ?]. split_and!; try done.
    + split; try done. split; [by apply u32_pack|done].
    + intros x. cbn. unfold os_unlinkat, os_openat_excl in E1, E2. destruct (dir s !! _); [|done]. injection E1 as <-.
      destruct (delete _ _ !! _); [done|]. injection E2 as <-. by rewrite lookup_insert_ne, lookup_delete_ne by auto with names.
  - exists s. assert (segno + 1 = n) as -> by lia. by split_and!.
Qed.

Lemma truncate_total K sid R s new_end c :
  disk_inv (K ++ sid :: R) s -> active_segment s = last (K ++ sid :: R) ->
  (forall x, x ∈ R -> LSN.offset (_durable_lsn s) < start_offset x /\ LSN.offset (_chkpt_end_lsn s) < start_offset x) ->
  start_offset sid <= new_end <= end_offset sid -> dir s !! file_of sid = Some c ->
  exists s' c', truncate_after 17 (segnum sid) new_end s = Ok s' /\ disk_inv (K ++ [sid]) s' /\ active_segment s' = Some sid /\
    _durable_lsn s' = _durable_lsn s /\ _chkpt_start_lsn s' = _chkpt_start_lsn s /\ _chkpt_end_lsn s' = _chkpt_end_lsn s /\
    dir s' !! file_of sid = Some c' /\ cut c c' (new_end - start_offset sid) /\
    forall x, x ∈ K -> dir s' !! file_of x = dir s !! file_of x.
Proof.
  intros [Hc Hn] Ha Hm He Hf. pose proof (dc_run _ _ _ Hc) as Hr. pose proof (dc_len _ _ _ Hc) as Hlen.
  pose proof (ro_num _ _ Hr (length K) sid ltac:(by rewrite list_lookup_middle)) as Hns.
  pose proof (sw_num _ (run_elem _ _ sid Hr ltac:(set_solver))) as [Hs1 Hfs].
  unfold truncate_after. assert (exists old, _oldest_segment s = Some old /\ segnum old = oldest_segnum s) as (old & -> & Hold).
  { destruct (lookup_lt_is_Some_2 (K ++ sid :: R) 0) as [old Hold]; [lia|]. exists old.
    pose proof (ro_num _ _ Hr _ _ Hold). split; [|lia]. unfold _oldest_segment, slot. apply (dc_slot _ _ _ Hc).
    split; [by eapply list_elem_of_lookup_2|]. change NUM_LOG_SEGMENTS with 16. f_equal. lia. }
  cbn [deref mbind res_bind]. destruct (Z.ltb_spec (segnum sid) (segnum old)); [lia|]. cbn [throw_if mbind res_bind].
  destruct (pop_after_total (oldest_segnum s + Z.of_nat (length (K ++ sid :: R))) K sid 17 R s) as (s1 & -> & Hc1 & Ha1 & (D1 & D2 & D3 & D4 & D5 & D6)); [|done..|].
  { rewrite length_app in Hlen. cbn in Hlen. lia. }
  cbn [mbind res_bind]. rewrite length_app in Hc1. cbn in Hc1.
  destruct (renext_total _ _ s1 (segnum sid) Hc1) as (s2 & -> & Hc2 & A1 & A2 & A3 & A4 & A5 & A6);
    [unfold fits in *; lia|done|lia|]. cbn [mbind res_bind].
  destruct (Z.ltb_spec new_end (start_offset sid)); [lia|]. cbn [throw_if mbind res_bind].
  destruct (Z.ltb_spec (end_offset sid) new_end); [lia|]. cbn [throw_if mbind res_bind].
  assert (forall x, x ∈ K ++ [sid] -> dir s2 !! file_of x = dir s !! file_of x) as Hdir.
  { intros x Hx. rewrite A6. apply D6. apply (dc_disk _ _ _ Hc1), elem_names. left. by exists x. }
  eexists _, _. split; [done|]. rewrite D1, D2, D3 in *. split_and!; try (cbn [active_segment _durable_lsn _chkpt_start_lsn _chkpt_end_lsn set_dir]; congruence).
  - split; [|exists sid; split; [cbn; congruence|left; apply last_snoc]].
    rewrite length_app. cbn [dir oldest_segnum set_dir length]. rewrite A2, D5.
    replace (oldest_segnum s + Z.of_nat (length K + 1)) with (segnum sid + 1) by lia.
    destruct Hc2 as [? ? ? ? Hd ? ? ? ?]. split; try done. apply disk_resize; [exact Hd|set_solver].
  - cbn [dir set_dir]. unfold os_truncateat. by rewrite lookup_insert_eq.
  - rewrite Hdir by set_solver. rewrite Hf. apply resize_cut. lia.
  - intros x Hx. cbn [dir set_dir]. unfold os_truncateat. rewrite lookup_insert_ne; [apply Hdir; set_solver|].
    intros E. assert (x = sid) as -> by (eapply run_files; [exact Hr|set_solver|set_solver|done]).
    apply list_elem_of_lookup in Hx as [j Hj]. pose proof (lookup_lt_Some _ _ _ Hj).
    pose proof (ro_num _ _ Hr j sid ltac:(by apply lookup_app_l_Some)). lia.
Qed.
End truncate.
