(* ===== verification/LogRecovered.v ===== *)
(** * The log after recovery

    Recovery as a whole: the durable mark is moved behind the last good block,
    the log is truncated there, and every good block is still in place. *)
From stdpp Require Import base numbers list gmap strings.
From Stdlib Require Import ZArith Lia.
From S2P Require Import Prelude FatPtr SizeEncode Bytes Adler LogBlock TxLog LogNames Threads LogFile LogOffset LogStart LogOffsetSafe LogDisk LogOps LogRestart LogLife LogRecover LogRecoverSpec LogRecoverEnd.

Local Open Scope Z_scope.

(** ** Paths *)

Lemma path_fits s x l z : path s x l z -> fits 64 (LSN._val x) -> fits 64 (LSN._val z).
Proof.
  induction 1 as [|x sid c y l z Hl Hg Hn Hle Hp IH]; [done|]. intros _. apply IH. subst y. apply (rd_fits 8).
  apply view_bytes, (lc_bytes _ _ _ _ Hl).
Qed.

Lemma good_end x sid c : bytes c -> good_block (at_ x sid c) (there x sid c) x = true ->
  32 <= log_block.payload_end (at_ x sid c) 0 <= there x sid c.
Proof.
  intros Hc [Hr _]%andb_true_iff. destruct (readable_inv _ _ _ (view_bytes c _ Hc) Hr) as (? & ? & ? & _).
  unfold at_ in *. lia.
Qed.

Lemma path_le s x l z : path s x l z -> LSN.offset x <= LSN.offset z.
Proof.
  induction 1 as [|x sid c y l z Hl Hg Hn Hle Hp IH]; [done|]. pose proof (good_end _ _ _ (lc_bytes _ _ _ _ Hl) Hg). lia.
Qed.

(** What [s] has before the offset [e], [s'] has too. *)
Definition kept (s s' : log_file_mgr) (e : Z) : Prop :=
  forall x sid c, located s x sid c -> LSN.offset x < e -> exists c', located s' x sid c' /\
    forall k, 0 <= k <= there x sid c -> LSN.offset x + k <= e -> agree k (at_ x sid c') (at_ x sid c) /\ k <= there x sid c'.

Lemma path_kept s s' x l z : kept s s' (LSN.offset z) -> path s x l z -> path s' x l z.
Proof.
  intros Hk. induction 1 as [x|x sid c y l z Hl Hg Hn Hle Hp IH]; [by constructor|].
  pose proof (good_end _ _ _ (lc_bytes _ _ _ _ Hl) Hg) as He. pose proof (path_le _ _ _ _ Hp).
  destruct (Hk x sid c Hl ltac:(lia)) as (c' & Hl' & Hag). destruct (Hag (log_block.payload_end (at_ x sid c) 0)) as [Ha Ht]; [lia|lia|].
  destruct (good_agree _ (at_ x sid c') _ (there x sid c') x (view_bytes c _ (lc_bytes _ _ _ _ Hl)) Hg) as (G1 & G2 & G3); [done|done|].
  fold (at_ x sid c) in G2, G3. econstructor; [exact Hl'|exact G1|by rewrite G2|by rewrite G3|by apply IH].
Qed.

Section recovered.
Context `{OS : Os}.

(** ** The mark *)

Lemma synced_noop L s : disk_inv L s -> active_segment s = last L -> _create_nxt_seg_file false s = Ok s.
Proof.
  intros [Hc _] Ha. destruct (last_of _ _ (dc_run _ _ _ Hc) (proj1 (dc_len _ _ _ Hc))) as (p & Hp & _ & Hn).
  unfold _create_nxt_seg_file, _newest_segment. rewrite Ha, Hp. cbn [deref mbind res_bind].
  rewrite (proj1 (dc_nxt _ _ _ Hc)). destruct (Z.eqb_spec (oldest_segnum s + Z.of_nat (length L)) (segnum p)); [lia|done].
Qed.

(** The state but for the durable mark. *)
Definition only_marked (s s' : log_file_mgr) (z : LSN.t) : Prop :=
  _durable_lsn s' = z /\ _chkpt_start_lsn s' = _chkpt_start_lsn s /\ _chkpt_end_lsn s' = _chkpt_end_lsn s /\
  active_segment s' = active_segment s /\ segments s' = segments s /\ forall x, dir s' !! file_of x = dir s !! file_of x.

Lemma mark_total L s z : disk_inv L s -> active_segment s = last L -> mark_in L z ->
  exists s', update_durable_mark z s = Ok s' /\ disk_inv L s' /\ only_marked s s' z.
Proof.
  intros Hi Ha Hz. unfold update_durable_mark. rewrite (synced_noop _ _ Hi Ha). cbn [mbind res_bind]. destruct Hi as [Hc Hn].
  pose proof (mk_fits _ _ (dc_durable _ _ _ Hc)) as F1. pose proof (mk_fits _ _ Hz) as F2.
  destruct (disk_durable _ _ _ _ _ _ (dc_disk _ _ _ Hc) z F1 F2) as (D & E & HD). rewrite E. cbn [mbind res_bind].
  eexists. split; [done|]. split; [split; [destruct Hc; by split|exact Hn]|]. split_and!; try done. intros x.
  unfold os_renameat in E. destruct (dir s !! dmark_file_name _); [|done]. injection E as <-. cbn [dir set_durable set_dir].
  by rewrite lookup_insert_ne, lookup_delete_ne by auto with names.
Qed.

(** ** The truncation *)

Lemma run_behind f K sid R x : run_of f (K ++ sid :: R) -> x ∈ R -> segnum sid < segnum x.
Proof.
  intros Hr [j Hj]%list_elem_of_lookup. pose proof (ro_num _ _ Hr (length K) sid ltac:(by rewrite list_lookup_middle)).
  pose proof (ro_num _ _ Hr (length K + S j) x). rewrite lookup_app_r in * by lia.
  replace (length K + S j - length K)%nat with (S j) in * by lia. cbn in *. intuition lia.
Qed.

Lemma cut_kept K sid R s s' n n' c c' e :
  disk_core (K ++ sid :: R) n s -> disk_core (K ++ [sid]) n' s' -> start_offset sid <= e ->
  dir s !! file_of sid = Some c -> dir s' !! file_of sid = Some c' -> cut c c' (e - start_offset sid) ->
  (forall x, x ∈ K -> dir s' !! file_of x = dir s !! file_of x) -> (forall x, x ∈ R -> e < start_offset x) -> kept s s' e.
Proof.
  intros Hc Hc' He Hf Hf' (Hlen & Hby & Hcut) HK HR x y d [Hv Hs Hr Hd Hb] Hx. unfold slot in Hs.
  apply (dc_slot _ _ _ Hc) in Hs as [Hy Hi]. apply elem_of_app in Hy as [Hy|[->|Hy]%elem_of_cons]; [| |specialize (HR y Hy); lia].
  - exists d. split; [|intros k Hk _; split; [done|lia]]. split; try done; [|by rewrite HK].
    apply (dc_slot _ _ _ Hc'). split; [set_solver|done].
  - rewrite Hf in Hd. injection Hd as <-. exists c'. split.
    + split; try done; [|by apply Hby]. apply (dc_slot _ _ _ Hc'). split; [set_solver|done].
    + intros k Hk Hke. unfold there, len in *. split; [|lia]. destruct (decide (k = 0)) as [->|]; [intros a Ha; lia|].
      apply view_prefix; [lia|]. apply Hcut; lia.
Qed.

Lemma alone_get_segment s i sid : slot s i = Some sid -> run (@get_segment nobody i) s = Ok (Some sid, s).
Proof. intros H. unfold run, get_segment, load, pbind, pret. cbn. by rewrite H. Qed.

(** ** Recovery *)

(** The log that recovery leaves: marked and cut at [z]. *)
Definition ends_at (s s' : log_file_mgr) (z : LSN.t) (sid : segment_id) : Prop :=
  _durable_lsn s' = z /\ _chkpt_start_lsn s' = _chkpt_start_lsn s /\ _chkpt_end_lsn s' = _chkpt_end_lsn s /\
  active_segment s' = Some sid /\
  exists c, dir s' !! file_of sid = Some c /\ len c = LSN.offset z - start_offset sid.

Lemma mark_step L s x l z : disk_inv L s -> active_segment s = last L -> x = _durable_lsn s ->
  mark_in L z -> path s x l z ->
  exists s', (if negb (bool_decide (l = [])) then update_durable_mark z s else Ok s) = Ok s' /\ disk_inv L s' /\ only_marked s s' z.
Proof.
  intros Hi Ha -> Hz Hp. case_bool_decide as Hl; cbn [negb]; [|by apply mark_total].
  subst l. inversion Hp; subst. exists s. by split_and!.
Qed.

Lemma recovered_ok L s l z sid c buf :
  disk_inv L s -> active_segment s = last L -> path s (_durable_lsn s) l z -> stops s z sid c ->
  is_aligned (LSN.offset z) DEFAULT_ALIGN = true -> LSN.offset (_chkpt_end_lsn s) <= LSN.offset (_durable_lsn s) ->
  (forall x, x ∈ L -> segnum sid < segnum x -> LSN.offset z < start_offset x) ->
  exists s' K, recover_end (S (length l)) buf s = Ok s' /\ ends_at s s' z sid /\ disk_inv (K ++ [sid]) s' /\
    K ++ [sid] `prefix_of` L /\ path s' (_durable_lsn s) l z.
Proof.
  intros Hi Ha Hp Hst Hal Hck Hord. pose proof Hst as [Hl _]. pose proof (path_le _ _ _ _ Hp) as Hle.
  destruct (find_end_ok _ _ _ _ Hst _ _ Hp (Scanner [] false true buf Wild) false) as (it & E1 & E2); [done|].
  pose proof (lc_slot _ _ _ _ Hl) as Hslot. unfold slot in Hslot. apply (dc_slot _ _ _ (proj1 Hi)) in Hslot as [HsL Hmod].
  assert (mark_in L z) as Hz.
  { split; [eapply path_fits; [exact Hp|apply (dc_durable _ _ _ (proj1 Hi))]|done|]. exists sid. split; [done|]. pose proof (lc_range _ _ _ _ Hl). lia. }
  destruct (mark_step L s _ l z Hi Ha eq_refl Hz Hp) as (s1 & E3 & Hi1 & (M1 & M2 & M3 & M4 & M5 & M6)).
  unfold recover_end, new_block_scanner. rewrite E1. cbn [mbind res_bind]. rewrite E2. cbn [mbind res_bind orb].
  rewrite E3. cbn [mbind res_bind]. rewrite (alone_get_segment s1 _ sid) by (unfold slot; rewrite M5; apply Hl).
  cbn [mbind res_bind deref]. apply list_elem_of_split in HsL as (K & R & ->).
  assert (forall x, x ∈ R -> LSN.offset z < start_offset x) as HR.
  { intros x Hx. apply Hord; [apply elem_of_app; right; by right|]. by eapply run_behind; [apply Hi|]. }
  destruct (truncate_total K sid R s1 (LSN.offset z) c Hi1) as (s' & c' & E4 & Hi' & T1 & T2 & T3 & T4 & T5 & T6 & T7).
  - by rewrite M4.
  - intros x Hx. specialize (HR x Hx). rewrite M1, M3. lia.
  - pose proof (lc_range _ _ _ _ Hl). change MIN_LOG_BLOCK_SIZE with 32 in *. lia.
  - rewrite M6. apply Hl.
  - exists s', K. split; [exact E4|]. split.
    { split_and!; try congruence. exists c'. split; [done|]. apply T6. }
    split; [done|]. split; [exists R; by rewrite <- app_assoc|]. eapply path_kept; [|exact Hp].
    eapply cut_kept; [apply Hi|apply Hi'|apply Hl|apply Hl|done|done| |done]. intros x Hx. by rewrite T7, M6.
Qed.
Lemma no_segment s p i : slot s i = None -> active_segment s = Some p -> i <> segnum p mod NUM_LOG_SEGMENTS ->
  run (@get_segment nobody i) s = Ok (None, s).
Proof.
  intros Hz Ha Hne. apply Z.eqb_neq in Hne. unfold run, get_segment, newest, load, pbind, pret, pderef. cbn. rewrite Hz.
  cbn. unfold _newest_segment. rewrite Ha. cbn. unfold pret. cbn. rewrite Hne. cbn. by rewrite Hz.
Qed.

(** The segment of [z] is not installed. *)
Lemma lost_segment L s z : disk_inv L s -> active_segment s = last L -> slot s (LSN.segment z) = None ->
  scan_segment_of s z = Ok None /\
  forall s', segments s' = segments s -> active_segment s' = active_segment s ->
    run (@get_segment nobody (LSN.segment z)) s' = Ok (None, s').
Proof.
  intros [Hc _] Ha Hz. destruct (last_of _ _ (dc_run _ _ _ Hc) (proj1 (dc_len _ _ _ Hc))) as (p & Hp & HpL & _).
  assert (segments s !! (segnum p mod 16) = Some p) as Hs by (by apply (dc_slot _ _ _ Hc)). rewrite Hp in Ha. split.
  - unfold scan_segment_of, _newest_segment. rewrite Hz, Ha. cbn [deref mbind res_bind].
    destruct (Z.eqb_spec (segnum p mod NUM_LOG_SEGMENTS) (LSN.segment z mod NUM_LOG_SEGMENTS)) as [E|]; [|done].
    unfold slot in Hz. rewrite <- E in Hz. change NUM_LOG_SEGMENTS with 16 in Hz. congruence.
  - intros s' Es Es'. apply (no_segment s' p); [unfold slot in *; by rewrite Es|congruence|]. intros E. unfold slot in Hz. change NUM_LOG_SEGMENTS with 16 in *.
    rewrite E, Z.mod_mod in Hz by lia. congruence.
Qed.

Lemma recovery_lost L s l z buf :
  disk_inv L s -> active_segment s = last L -> path s (_durable_lsn s) l z -> slot s (LSN.segment z) = None ->
  recover_end (S (length l)) buf s = Throw bad_address.
Proof.
  intros Hi Ha Hp Hz. destruct (lost_segment L s z Hi Ha Hz) as [Hz' _]. unfold recover_end, new_block_scanner.
  destruct (decide (l = [])) as [->|Hne].
  { inversion Hp; subst. rewrite load_lost by done. done. }
  destruct (find_end_lost s z Hz' _ _ Hp (Scanner [] false true buf Wild) false) as (it & -> & E); [done|done|].
  cbn [mbind res_bind]. rewrite E, bool_decide_eq_false_2 by done. cbn [orb negb mbind res_bind].
  unfold update_durable_mark. rewrite (synced_noop _ _ Hi Ha). cbn [mbind res_bind]. pose proof (proj1 Hi) as Hc.
  pose proof (mk_fits _ _ (dc_durable _ _ _ Hc)) as F1. pose proof (path_fits _ _ _ _ Hp F1) as F2.
  destruct (disk_durable _ _ _ _ _ _ (dc_disk _ _ _ Hc) z F1 F2) as (D & -> & _). cbn [mbind res_bind].
  rewrite (proj2 (lost_segment L s z Hi Ha Hz)) by done. done.
Qed.

End recovered.

(** ** A log with one block behind the durable mark *)
Module RecoverExample.
#[local] Instance os : Os := {| os_fd _ _ := 5 |}.

Definition sg : segment_id := segment1 1 5.
Definition END : LSN.t := LSN.mk 0x6001ff.

(** An empty block at the mark, complete with its checksum. *)
Definition block : mem8 :=
  let m := fill_skip_block (fun _ => 0) 0 DURABLE 0 in
  match log_block.full_checksum m 0 with Ok c => log_block.set_checksum m 0 c | Throw _ => m end.
Definition file : list Z := Eval vm_compute in replicate 64 0 ++ get block 0 32.

Definition crashed : log_file_mgr :=
  LogFile (<[file_of sg := file]> (<[dmark_file_name DURABLE := []]> (<[cmark_file_name CHKPT_START CHKPT_END := []]>
      {[nxt_seg_file_name 2 := []]})))
    (2 ^ 20) {[1 := sg]} (Some sg) 1 2 DURABLE CHKPT_START CHKPT_END.

Lemma crashed_inv : disk_inv [sg] crashed.
Proof.
  split; [|exists sg; split; [done|by left]]. split.
  - split; [apply Forall_singleton, segment1_wf; lia| |].
    + by intros i x [-> <-]%list_lookup_singleton_Some.
    + by intros i x c [-> <-]%list_lookup_singleton_Some Hc.
  - cbn. lia.
  - done.
  - intros i x. cbn [segments crashed]. rewrite lookup_singleton_Some, list_elem_of_singleton. split; [by intros [<- <-]|by intros [-> ->]].
  - intros f. cbn [dir crashed]. rewrite !is_Some_insert, elem_names. split.
    + intros [->|[->|[->|[c [<- _]%lookup_singleton_Some]]]]; [|auto..]. left. exists sg. split; [by left|done].
    + intros [(x & ->%list_elem_of_singleton & ->)|[->|[->| ->]]]; [auto..|]. do 3 right. by rewrite lookup_singleton_eq.
  - apply first_mark; [lia|by vm_compute|by vm_compute|by vm_compute].
  - apply first_mark; [lia|by vm_compute|by vm_compute|by vm_compute].
  - apply first_mark; [lia|by vm_compute|by vm_compute|by vm_compute].
  - done.
Qed.

Lemma crashed_at x : LSN.segment x = 1 -> 0 <= LSN.offset x <= 96 -> x <> INVALID_LSN -> located crashed x sg file.
Proof.
  intros Hx Hr Hv. split; [done| | |by apply lookup_insert_eq|].
  - unfold slot. rewrite Hx. apply (lookup_singleton_eq 1 sg).
  - change MIN_LOG_BLOCK_SIZE with 32. cbn. lia.
  - apply Forall_forall. intros y Hy. repeat (apply elem_of_cons in Hy as [->|Hy]; [by vm_compute|]). by apply elem_of_nil in Hy.
Qed.

End RecoverExample.
