(* ===== verification/LogDivergences.v ===== *)
(** * Where the log departs from its intent

    Executions of the log code that end in a state its comments or callers do
    not expect. *)
From stdpp Require Import base numbers functions list.
From Stdlib Require Import ZArith Lia.
From S2P Require Import Prelude FatPtr SizeEncode Adler Bytes LogBlock TxLog TxLogSpec TxLogCommit TxLogChain.

Local Open Scope Z_scope.
#[local] Existing Instance TxExample.space.

(** ** Overflow blocks fail the test of recovery

    [spill_overflow] merges the checksum of the inner block, which does not
    cover the inner block's checksum field, as if it covered all the payload of
    the outer block.  Shown on a staging area with a single delete, its overflow
    block has a checksum that is not the one that recovery computes. *)
Example overflow_block_rejected :
  match (s ← new_tx_log TxExample.s0; s ← perform 1024 (Delete 7 4) s; spill_overflow s) with
  | Ok s =>
      match released s with
      | [b] => match log_block.full_checksum (mem s) b with
               | Ok c => negb (c =? log_block.checksum (mem s) b)
               | Throw _ => false
               end
      | _ => false
      end
  | Throw _ => false
  end = true.
Proof. vm_compute. reflexivity. Qed.

(** ** External records point into a dead stack frame

    [format_extra_ptr] makes the request refer to a field of itself, but the
    request is a local variable that [add_request] copies.  When the frame at
    [sp] is reused before the commit, the record holds what the frame holds. *)
Example relocate_reads_dead_frame :
  let sp := 1024 in
  let p := fat_ptr.make 12345 2 fat_ptr.ASI_HEAP_FLAG in
  match (s ← new_tx_log TxExample.s0;
         s ← log_relocate 1 sp 7 3 p 4 s;
         (* a later call uses the stack *)
         let s := set_mem (put (mem s) sp (replicate 16 170)) s in
         commit s) with
  | Ok (_, _, s) =>
      match released s with
      | [b] => match log_block.payload (mem s) b 0 with
               | Ok a => (log_record.type (mem s) (log_block.records b 0) =? LOG_RELOCATE) &&
                         negb (rd 8 (mem s) a =? fat_ptr._ptr p)
               | Throw _ => false
               end
      | _ => false
      end
  | Throw _ => false
  end = true.
Proof. vm_compute. reflexivity. Qed.

(** ** The 4GB check cannot fire

    The size was truncated to 32 bits before it is compared. *)
Example size_check_vacuous ty f o p abits :
  (2 ^ 32 - 1 <? payload_size (make_log_request ty f o p abits)) = false.
Proof.
  apply Z.ltb_ge. cbn [payload_size make_log_request].
  pose proof (wrap_fits 32 (decode_size_aligned (fat_ptr.size_code p) abits) ltac:(lia)) as [_ H]. lia.
Qed.

Example size_truncated :
  let p := fat_ptr.make 4096 254 0 in
  2 ^ 32 < decode_size_aligned (fat_ptr.size_code p) 13 /\
  payload_size (make_log_request LOG_INSERT 7 3 p 13) < 2 ^ 32.
Proof. vm_compute. split; reflexivity. Qed.

(** ** [log_fid] reads past the name

    Of a name of three characters, 31 bytes are copied. *)
Example log_fid_overreads :
  match (s ← new_tx_log TxExample.s0; log_fid 1 1024 7 2048 3 16384 s) with
  | Ok s => bool_decide (get (mem s) 16384 31 = get (mem TxExample.s0) 2048 31)
  | Throw _ => false
  end = true.
Proof. vm_compute. reflexivity. Qed.
