(* ===== verification/LogFileDivergences.v ===== *)
(** * Where the log files depart from their intent

    Directories that a crash can leave behind and that start-up or recovery
    does not handle as the comments say, and a race between two threads that
    install segments. *)
From stdpp Require Import base numbers list gmap strings.
From Stdlib Require Import ZArith Lia.
From S2P Require Import Prelude FatPtr SizeEncode Bytes Adler LogBlock TxLog LogNames Threads LogFile LogOffset LogOffsetSafe LogAssign LogStart LogRestart LogLife LogRecover LogRecovered.

Local Open Scope Z_scope.
#[local] Existing Instance RecoverExample.os.
Import RecoverExample.

(** ** A missing file for the next segment

    "Crash must have happened between opening of one segment and creation of
    the new file for the next.  Schedule its creation."  The constructor
    accepts the directory, and the call that is to create the file starts by
    renaming a file that is not there. *)
Definition no_next : directory := delete (nxt_seg_file_name 2) (dir crashed).

Example no_next_stuck :
  match sm_log_file_mgr 1 (map_to_list no_next).*1 LifeExample.stack 0 (LifeExample.fields no_next) with
  | Ok (s, found) => found = true /\ update_durable_mark END s = Throw os_error
  | Throw _ => False
  end.
Proof. by vm_compute. Qed.

(** ** Stopping inside the creation of a log, or inside a truncation

    The first file of a new log is there, its marks are not; or a truncation
    has deleted segment 2 but not yet replaced the file for segment 3.  The
    constructor rejects both directories. *)
Example creation_interrupted :
  let D := {[nxt_seg_file_name 1 := []]} : directory in
  sm_log_file_mgr 1 (map_to_list D).*1 LifeExample.stack 0 (LifeExample.fields D) = Throw log_file_error.
Proof. by vm_compute. Qed.

Example truncation_interrupted :
  let D := <[nxt_seg_file_name 3 := []]> no_next in
  sm_log_file_mgr 1 (map_to_list D).*1 LifeExample.stack 0 (LifeExample.fields D) = Throw log_file_error.
Proof. by vm_compute. Qed.

(** ** A segment that was not renamed

    "We redo the rename during recovery if necessary."  The last block of the
    first segment names the first one of the second, which is still in the file
    for the next segment: recovery looks the segment up and follows the null
    pointer it gets. *)
Definition closing : mem8 :=
  let m := log_block.set_nrec (fun _ => 0) 0 0 in
  let m := log_block.set_lsn m 0 DURABLE in
  let m := fill_skip_record m (log_block.records 0 0) (LSN.make 1048576 2 0) 0 false in
  match log_block.full_checksum m 0 with Ok c => log_block.set_checksum m 0 c | Throw _ => m end.

Definition unrenamed : log_file_mgr :=
  set_dir (<[file_of sg := replicate 64 0 ++ get closing 0 32]> (dir crashed)) crashed.

Example unrenamed_segment_lost : recover_end 2 (fun _ => 0) unrenamed = Throw bad_address.
Proof. by vm_compute. Qed.

(** ** A scanner that starts nowhere

    The constructor leaves [_cur_block] alone when the first load returns early,
    and [valid] reads through it. *)
Example scanner_reads_wild :
  (it ← new_block_scanner 1 crashed INVALID_LSN false true (fun _ => 0); valid it) = Throw bad_address.
Proof. by vm_compute. Qed.

(** ** A segment that starts inside its predecessor

    A thread asks for a range that starts behind segment 1, the newest one.
    Once it has read that, another thread installs segment 2, which ends
    [MIN_LOG_BLOCK_SIZE] bytes after the start of the range: the range begins
    in segment 2.  [prepare_new_segment] does not notice, because its test is
    strict, and the thread installs segment 3 at the start of its range. *)
Module ExactFit.
Import LogExample.

#[local] Instance meanwhile : Others log_file_mgr :=
  {| others t s := if (t =? 1)%nat then set_active (Some sg2) s else s |}.

Example exact_fit_overlaps :
  match fst (assign_segment 9 (2 ^ 21) (2 ^ 21 + 64) s0 0%nat) with
  | Ok (r, (s', _)) =>
      sid r = Some (Segment 5 3 (2 ^ 21) (3 * 2 ^ 20) (2 ^ 21)) /\ active_segment s' = sid r
  | Throw _ => False
  end /\ contains sg2 (2 ^ 21) = true.
Proof. by vm_compute. Qed.

End ExactFit.
